(* ===== verification/_CoqProject ===== *)
-Q . S2P
Prelude.v
StringSplit.v
Pipeline.v
PipelineFacts.v
PipelineLinks.v
PipelineFlow.v
PipelineProps.v
Connections.v
ConnectionFacts.v
ConnectionDrain.v
ConnectionShutdown.v
ConnectionProps.v
Buffers.v
Codec.v
CodecFacts.v
CodecProps.v
Tickets.v
TicketProps.v
Dispatch.v
DispatchProps.v
Persist.v
PersistProps.v
FilePersist.v
FilePersistProps.v
ClientSsl.v
ClientSslProps.v
SessionCache.v
SessionCacheProps.v
Sni.v
SniProps.v
Handshake.v
HandshakeProps.v
Acceptor.v
AcceptorProps.v
AcceptorTls.v
AcceptorTlsProps.v
Etcd.v
EtcdProps.v
Proxy.v
ProxyProps.v
Broadcast.v
BroadcastFacts.v
BroadcastSteps.v
BroadcastConnect.v
BroadcastProps.v
Bootstrap.v
BootstrapProps.v
ServerAcceptor.v
ServerAcceptorProps.v
Routing.v
RoutingProps.v
FilePoller.v
FilePollerProps.v
Rx.v
RxProps.v
StaticPipeline.v
StaticPipelineProps.v
OutputBuffering.v
Credentials.v
CredentialsProps.v
FileRegion.v
FileRegionProps.v
