(* ===== verification/Prelude.v ===== *)
(** * Wangle and the provider agent: a verification library

    The repository is a copy of Wangle, a C++ library of pipelines of handlers
    for network services, with a small program of its own: the provider agent
    (src/wangle/chijinxin), a relay built on Wangle, and the etcd client of
    the agent's world (src/wangle/v3).  This library embeds the core logic of
    both shallowly: a method is a function of the state it may change, in the
    monad [M] of this file, and what a method does on each of its branches,
    exceptions included, is what the theorems are about.

    ** How a connection goes through the parts

    A server (Bootstrap.v) keeps an acceptor for each of its threads and lets
    every listening socket accept for all of them; each of these gives its
    connections to an accept pipeline (ServerAcceptor.v), where they may be
    routed to a worker by data they send first (Routing.v).
    An [Acceptor] (Acceptor.v, its TLS contexts in AcceptorTls.v) is handed a
    socket, sheds load or starts a handshake through a helper (Handshake.v).  TLS chooses its certificate by
    server name (Sni.v), resumes sessions from a cache (SessionCache.v) or
    from tickets (Tickets.v).  The connection that comes out gets a pipeline
    (Pipeline.v) and is kept by a [ConnectionManager] (Connections.v) until it
    is idle, drained or dropped.  In the pipeline, codecs (Codec.v, over the
    buffers of Buffers.v) cut the bytes into frames, and dispatchers
    (Dispatch.v) pair requests with responses of a service; its writes may be
    collected (OutputBuffering.v) or taken from a file (FileRegion.v), and its client may be one of many that
    watch one upstream (Broadcast.v).  The agent
    (Proxy.v) joins two such pipelines.  A client keeps its TLS sessions
    (ClientSsl.v) in a cache (Persist.v) on a file (FilePersist.v); Etcd.v
    speaks to the registry.  Credentials.v watches the files of tickets and
    certificates with the pollers of FilePoller.v; Rx.v is an older way to
    observe.

    The parts meet at interfaces: [Acceptor] is proved against the class of
    helpers [HandshakeHelper] and its laws, of which the helpers of
    Handshake.v are instances; so is [EvbHandshakeHelper], which is a helper
    around a helper; the framing theorems are proved once for decoders with
    [Framing]; the caches against the evicting map they use, and the clients' sessions
    against the class [PersistentCache], whose laws the cache on a file has.

    ** Files

    - Prelude.v, this file: faults and the monad, notations in [cpp_scope],
      machine integers ([wrap], [u32], [i32]...), lists and association lists,
      the triples [runs] and [preserves], hints in the database [cpp], tactics.
    - Pipeline.v: PipelineBase and Pipeline (channel/Pipeline.h, -inl.h, .cpp),
      the contexts (HandlerContext-inl.h), attachment (Handler.h).
      PipelineFacts.v, PipelineLinks.v, PipelineFlow.v, PipelineProps.v: the
      three vectors stay consistent; remove; the links and the type check of
      finalize; order and termination of events.
    - Connections.v: acceptor/ConnectionManager, ManagedConnection.
      ConnectionFacts.v, ConnectionDrain.v, ConnectionShutdown.v,
      ConnectionProps.v: the list with its iterators refines two queues; idle
      shedding; the state machine of a graceful shutdown: its safety under
      interleaving, exactly when a later shutdown may take it over (else a
      CHECK fails), and the number of turns it takes.
    - Buffers.v, Codec.v: codec/ByteToMessageDecoder, the frame decoders,
      LengthFieldPrepender, StringCodec.  CodecFacts.v, CodecProps.v: streams
      in arbitrary fragments, round trips, overflow of the length arithmetic,
      and where resynchronisation fails.
    - Tickets.v: ssl/TLSTicketKeySeeds.h, TLSTicketKeyManager.  TicketProps.v:
      rotation, which keys encrypt and decrypt, seeds read back.
    - Dispatch.v: service/ServerDispatcher.h, ClientDispatcher.h, the closing
      and expiring filters.  DispatchProps.v: order of responses, pairing,
      one close.
    - Persist.v: client/persistence (LRUInMemoryCache, CachePersistence,
      LRUPersistentCache).  PersistProps.v: what is on disk when nothing is
      pending, the end of the syncer, the order after a restart.
    - FilePersist.v: client/persistence/FilePersistentCache, PersistentCache.
      FilePersistProps.v: the caches satisfy the laws of the interface; the
      file is a layer; what a restart finds.
    - ClientSsl.v: client/ssl (callbacks, conversions, the persistent cache of
      sessions).  ClientSslProps.v: references are counted, the cache is a map
      to the session stored last, sessions survive a restart, four defects.
    - SessionCache.v: ssl/SSLSessionCacheManager.  SessionCacheProps.v:
      reference counts; the coalesced lookups, of which every socket that was
      blocked, as the history of requests says, is answered in its order.
    - Sni.v: ssl/SSLContextManager, ServerSSLContext, names in SSLUtil,
      acceptor/SSLContextSelectionMisc.h.  SniProps.v: the specification of
      the choice, resets.
    - Handshake.v: acceptor/EvbHandshakeHelper, PeekingAcceptorHandshakeHelper,
      SocketPeeker, the TLS and plaintext helpers.  HandshakeProps.v: safety
      and completion of the two threads by exploring an abstraction and
      carrying the result back by a simulation; peeking.
    - Acceptor.v: acceptor/Acceptor, AcceptorHandshakeManager,
      LoadShedConfiguration.  AcceptorProps.v: counting of handshakes, the end
      of draining, up to a socket that is not safe to start (the program then
      errs), and the two ways in which an acceptor is never done.
    - AcceptorTls.v: the TLS part of Acceptor's init, with
      SecurityProtocolContextManager, over Sni.v.  AcceptorTlsProps.v: which
      clients of a TLS port are served with TLS, in plain text or not at all,
      over a history of configurations, and when there is never TLS.
    - Etcd.v: v3/src.  EtcdProps.v: conditional actions refine an atomic map,
      election by create, prefixes as ranges, watches.
    - Proxy.v: chijinxin/ProviderAgent.cpp, channel/AsyncSocketHandler.h,
      EventBaseHandler.h, the connecting part of bootstrap/ClientBootstrap.h.
      ProxyProps.v: what is relayed, and the four ways in which the agent
      stops or crashes.
    - Broadcast.v: channel/broadcast (BroadcastHandler, BroadcastPool with its
      managers, ObservingHandler).  BroadcastFacts.v, BroadcastSteps.v,
      BroadcastConnect.v: the stages of one broadcast, and what a step leaves
      alone; the loops over subscribers and waiters; connecting.
      BroadcastProps.v: the pool refines a map of subscriber lists, up to a
      connection that succeeds before connect returns, which uses a destroyed
      object.
    - Bootstrap.v: bootstrap/ServerBootstrap (groups, worker pool, binding).
      BootstrapProps.v: the workers are among the accept callbacks of every
      socket, and are all of them with the TCP factory; the UDP one removes
      none.
    - ServerAcceptor.v: ServerAcceptor, ServerConnection and AcceptorException
      of bootstrap/ServerBootstrap-inl.h.  ServerAcceptorProps.v: what becomes
      of every transport, and the refinement of Acceptor.v, call by call.
    - Routing.v: bootstrap/AcceptRoutingHandler, RoutingDataHandler.
      RoutingProps.v: what a connection's child reads is a function of its own
      stream; when routing fails.
    - FilePoller.v: util/FilePoller, MultiFilePoller.  FilePollerProps.v: the
      maps are inverse to each other, what a poll calls, three defects.
    - Rx.v: deprecated/rx.  RxProps.v: a notification tells a snapshot.
    - StaticPipeline.v: channel/StaticPipeline.h, on Pipeline.v.
      StaticPipelineProps.v: it is the pipeline built by hand.
    - StringSplit.v: chijinxin/utility.h, with its lemmas.
    - OutputBuffering.v: channel/OutputBufferingHandler.h, with its theorem.
    - FileRegion.v: channel/FileRegion.  FileRegionProps.v: what reaches the
      socket and when it is told, and when all of it arrives.
    - Credentials.v: ssl/TLSCredProcessor.  CredentialsProps.v: which files are
      watched and who is told.

    Definitions keep the names of the code; records are its classes, with the
    members that the operations use.

    ** Faults, threads, parameters

    A [fault] is an exception of the code ([InvalidArgument], [RuntimeError],
    [OutOfRange], [UnderflowError]), a failed CHECK or behaviour that C++
    leaves undefined (a null or dangling pointer, an iterator of an unlinked
    node).  That a run ends in [Ok] therefore says that none of these happens.
    State that was changed before a throw stays changed.

    Threads and callbacks are sequences of events or steps, with every order
    allowed that locks and event loops allow; theorems quantify over them.

    Code that the repository only calls is a parameter: buffers, intrusive
    lists and evicting maps of folly as classes with laws and a list instance;
    OpenSSL as reference counts, loading of files as a function; JSON as
    conversions with a round trip; hashes and random numbers as variables; the etcd service as a class with the laws of
    its transactions and a store as instance; sockets as inputs.

    ** Fuel

    Loops of the code that are not structural take fuel, and theorems give
    the amount that is enough: [removeLoop] the number of contexts, [call]
    2 * numHandlers, [read] one more than the bytes queued, [findLoop] one
    more than the bytes in the buffer, [dropAllLoop] of Connections.v the
    number of connections, [sendLoop] one more than the waiting responses,
    [nextIdLoop] one more than the callbacks, [splitLoop] one more than the
    characters.  Where no amount is enough it is a lemma
    ([FixedLength_zero_diverges]; [syncer_stops] for a syncer that retries for
    ever).  [explore] of HandshakeProps.v is given more than it uses, which
    evaluation checks.

    ** Not modelled

    - Of the server: handlers of the accept pipeline that change what they pass
      on, TLS in [ServerAcceptor] (its handshakes are those of Acceptor.v), UDP
      sockets (but for their removeAcceptCB, Bootstrap.v), the executors; of Rx: [observeOn], which only forwards, and
      notifications from several threads.
    - TransportInfo, most of ServerSocketConfig, socket options, statistics,
      ExecutorFilter: fields, forwarding and system calls without logic of
      their own.
    - PasswordInFile, ThreadSafeSSLSessionCache; OpenSSL's session formats, JSON's grammar.
    - In the parts that are modelled: lifetimes behind weak_ptr in pipelines,
      futures of outbound calls, OpenSSL settings that nothing reads back,
      process-wide counters, tracing and logging. *)
From Stdlib Require Import ZArith Lia.
From stdpp Require Import base numbers list gmap strings relations.

Set Default Goal Selector "!".

(** ** Notations of the development *)

Declare Scope cpp_scope.
Delimit Scope cpp_scope with cpp.

(** ** Faults

    What an operation of the C++ code does when it does not return: it throws
    one of the standard exceptions, it fails a glog [CHECK] (which ends the
    process), or its behaviour is undefined by the language. *)
Inductive fault : Type :=
| InvalidArgument (what : string)
| RuntimeError (what : string)
| OutOfRange (what : string)
| UnderflowError (what : string)
| CheckFailed (what : string)
| Undefined (what : string).

#[export] Instance fault_eq_dec : EqDecision fault.
Proof. solve_decision. Defined.

(** A fault the caller can catch, as opposed to the end of the process. *)
Definition is_exception (f : fault) : bool :=
  match f with
  | CheckFailed _ | Undefined _ => false
  | _ => true
  end.

Inductive res (A : Type) : Type :=
| Ok (a : A)
| Err (f : fault).
Arguments Ok {A} a.
Arguments Err {A} f.

#[export] Instance res_eq_dec {A} `{EqDecision A} : EqDecision (res A).
Proof. solve_decision. Defined.

Definition res_bind {A B} (c : res A) (k : A -> res B) : res B :=
  match c with
  | Ok a => k a
  | Err f => Err f
  end.

Notation "'try!' x := c 'in' k" := (res_bind c (fun x => k))
  (at level 10, x pattern, c at level 100, k at level 200,
   format "'[v' 'try!'  x  :=  c  'in' '/' k ']'") : cpp_scope.

(** ** The state-and-fault monad

    A method of an object is a function of the state it may change.  The state
    is returned beside the result also when the method throws: what was
    assigned before the exception stays assigned. *)
Definition M (S A : Type) : Type := S -> res A * S.

Section monad.
Context {S : Type}.

Definition ret {A} (a : A) : M S A := fun s => (Ok a, s).
Definition raise {A} (f : fault) : M S A := fun s => (Err f, s).
Definition bind {A B} (c : M S A) (k : A -> M S B) : M S B := fun s =>
  match c s with
  | (Ok a, s') => k a s'
  | (Err f, s') => (Err f, s')
  end.
Definition get : M S S := fun s => (Ok s, s).
Definition gets {A} (g : S -> A) : M S A := fun s => (Ok (g s), s).
Definition modify (g : S -> S) : M S unit := fun s => (Ok tt, g s).
Definition of_option {A} (f : fault) (o : option A) : M S A := fun s =>
  match o with
  | Some a => (Ok a, s)
  | None => (Err f, s)
  end.
Definition when (b : bool) (c : M S unit) : M S unit := if b then c else ret tt.
Fixpoint for_each {A} (l : list A) (body : A -> M S unit) : M S unit :=
  match l with
  | [] => ret tt
  | a :: l => bind (body a) (fun _ => for_each l body)
  end.
End monad.

Section monad_run.
Context {S : Type}.

Lemma bind_Ok {A B} (c : M S A) (k : A -> M S B) s a s' :
  c s = (Ok a, s') -> bind c k s = k a s'.
Proof. unfold bind. by intros ->. Qed.

Lemma bind_Err {A B} (c : M S A) (k : A -> M S B) s f s' :
  c s = (Err f, s') -> bind c k s = (Err f, s').
Proof. unfold bind. by intros ->. Qed.

Lemma bind_get {B} (k : S -> M S B) s : bind get k s = k s s.
Proof. done. Qed.

Lemma bind_gets {A B} (g : S -> A) (k : A -> M S B) s : bind (gets g) k s = k (g s) s.
Proof. done. Qed.

Lemma bind_modify {B} g (k : unit -> M S B) s : bind (modify g) k s = k tt (g s).
Proof. done. Qed.

Lemma bind_ret {A B} (a : A) (k : A -> M S B) s : bind (ret a) k s = k a s.
Proof. done. Qed.

Lemma bind_assoc {A B C} (c : M S A) (k : A -> M S B) (j : B -> M S C) s :
  bind (bind c k) j s = bind c (fun a => bind (k a) j) s.
Proof. unfold bind. by destruct (c s) as [[]]. Qed.

(** What returns returned at every step. *)
Lemma bind_returns {A B} (c : M S A) (k : A -> M S B) s b s' :
  bind c k s = (Ok b, s') -> exists a s1, c s = (Ok a, s1) /\ k a s1 = (Ok b, s').
Proof. unfold bind. destruct (c s) as [[a|f] s1]; [by eauto|done]. Qed.

Lemma for_each_app {A} (l l' : list A) (body : A -> M S unit) s :
  for_each (l ++ l') body s = bind (for_each l body) (fun _ => for_each l' body) s.
Proof.
  revert s. induction l as [|a l IH]; intros s; simpl; [done|].
  rewrite bind_assoc. unfold bind at 1 2. destruct (body a s) as [[[]|f] s1]; [apply IH|done].
Qed.
End monad_run.

Notation "'let!' x := c 'in' k" := (bind c (fun x => k))
  (at level 10, x pattern, c at level 100, k at level 200,
   format "'[v' 'let!'  x  :=  c  'in' '/' k ']'") : cpp_scope.
Notation "'do!' c 'in' k" := (bind c (fun _ => k))
  (at level 10, c at level 100, k at level 200,
   format "'[v' 'do!'  c  'in' '/' k ']'") : cpp_scope.

(** ** Runs that return *)

Section runs.
Context {S : Type}.
Implicit Types (P : S -> Prop).

(** From a state that satisfies [P] the method returns, in a state that
    satisfies [Q] of what it returns. *)
Definition runs {A} P (c : M S A) (Q : A -> S -> Prop) : Prop :=
  forall s, P s -> exists a s', c s = (Ok a, s') /\ Q a s'.

Lemma runs_ret {A} P (a : A) (Q : A -> S -> Prop) : (forall s, P s -> Q a s) -> runs P (ret a) Q.
Proof. intros H s Hs. exists a, s. split; [done|by apply H]. Qed.

Lemma runs_modify P g (Q : unit -> S -> Prop) : (forall s, P s -> Q tt (g s)) -> runs P (modify g) Q.
Proof. intros H s Hs. exists tt, (g s). split; [done|by apply H]. Qed.

Lemma runs_bind {A B} P (c : M S A) (k : A -> M S B) (Q : A -> S -> Prop) (R : B -> S -> Prop) :
  runs P c Q -> (forall a, runs (Q a) (k a) R) -> runs P (bind c k) R.
Proof.
  intros Hc Hk s Hs. destruct (Hc s Hs) as (a & s' & E & Ha). rewrite (bind_Ok _ _ _ _ _ E).
  by apply Hk.
Qed.

Lemma runs_get {B} P (k : S -> M S B) (R : B -> S -> Prop) :
  (forall s, P s -> runs (fun s' => s' = s) (k s) R) -> runs P (bind get k) R.
Proof. intros H s Hs. rewrite bind_get. by apply (H s Hs). Qed.

Lemma runs_mono {A} P P' (c : M S A) (Q Q' : A -> S -> Prop) :
  runs P' c Q' -> (forall s, P s -> P' s) -> (forall a s, Q' a s -> Q a s) -> runs P c Q.
Proof.
  intros H HP HQ s Hs. destruct (H s (HP s Hs)) as (a & s' & E & Ha). exists a, s'. split; [done|by apply HQ].
Qed.

Lemma runs_for_each {A} (I : list A -> S -> Prop) (body : A -> M S unit) (l : list A) :
  (forall a l', runs (I (a :: l')) (body a) (fun _ => I l')) ->
  runs (I l) (for_each l body) (fun _ => I []).
Proof.
  intros Hb. induction l as [|a l IH]; [by apply runs_ret|].
  cbn [for_each]. eapply runs_bind; [apply Hb|]. intros []. exact IH.
Qed.
End runs.

(** ** Preservation of an invariant by a method *)
Section preserves.
Context {S : Type}.
Implicit Types (I : S -> Prop).

(** Whatever the method returns or throws, the state it leaves satisfies
    [I], and a fault it ends with is one of those [F] allows. *)
Definition preserves I (F : fault -> Prop) {A} (c : M S A) : Prop :=
  forall s, I s -> I (c s).2 /\ (forall f, (c s).1 = Err f -> F f).

Lemma preserves_ret I F {A} (a : A) : preserves I F (ret a).
Proof. intros s Hs. split; [done|]. by intros f [=]. Qed.

Lemma preserves_raise I (F : fault -> Prop) {A} f : F f -> preserves I F (raise (A:=A) f).
Proof. intros Hf s Hs. split; [done|]. by intros f' [= <-]. Qed.

Lemma preserves_gets I F {A} (g : S -> A) : preserves I F (gets g).
Proof. intros s Hs. split; [done|]. by intros f [=]. Qed.

Lemma preserves_modify I F (g : S -> S) :
  (forall s, I s -> I (g s)) -> preserves I F (modify g).
Proof. intros Hg s Hs. split; [by apply Hg|]. by intros f [=]. Qed.

Lemma preserves_bind I F {A B} (c : M S A) (k : A -> M S B) :
  preserves I F c -> (forall a, preserves I F (k a)) -> preserves I F (bind c k).
Proof.
  intros Hc Hk s Hs. destruct (Hc s Hs) as [Hs' Hf]. unfold bind.
  destruct (c s) as [[a|f] s'] eqn:E; simpl in *.
  - by apply Hk.
  - split; [done|]. intros f' [= <-]. by apply Hf.
Qed.

Lemma preserves_when I F b (c : M S unit) :
  preserves I F c -> preserves I F (when b c).
Proof. destruct b; [done|]. intros _. apply preserves_ret. Qed.

Lemma preserves_for_each I F {A} (l : list A) body :
  (forall a, a ∈ l -> preserves I F (body a)) -> preserves I F (for_each l body).
Proof.
  induction l as [|a l IH]; intros H; simpl.
  - apply preserves_ret.
  - apply preserves_bind; [apply H; set_solver|].
    intros _. apply IH. intros b Hb. apply H. set_solver.
Qed.

Lemma preserves_weaken I F F' {A} (c : M S A) :
  (forall f, F f -> F' f) -> preserves I F c -> preserves I F' c.
Proof. intros HF Hc s Hs. destruct (Hc s Hs) as [H1 H2]. split; [done|]. eauto. Qed.
End preserves.

Create HintDb cpp discriminated.
Create Rewrite HintDb cpp.
#[export] Hint Constants Transparent : cpp.
#[export] Hint Resolve preserves_ret preserves_raise preserves_gets preserves_modify
  preserves_bind preserves_when preserves_for_each : cpp.

(** ** Machine integers *)
Definition wrap (w : Z) (z : Z) : Z := Z.modulo z (2 ^ w).
Definition u8 : Z -> Z := wrap 8.
Definition u16 : Z -> Z := wrap 16.
Definition u32 : Z -> Z := wrap 32.
Definition u64 : Z -> Z := wrap 64.
(** Conversion to [int] (two's complement). *)
Definition i32 (z : Z) : Z := u32 (z + 2 ^ 31) - 2 ^ 31.

Lemma wrap_small w z : (0 <= z < 2 ^ w)%Z -> wrap w z = z.
Proof. intros. unfold wrap. by apply Z.mod_small. Qed.

Lemma wrap_bounds w z : (0 <= w)%Z -> (0 <= wrap w z < 2 ^ w)%Z.
Proof. intros. apply Z.mod_pos_bound. lia. Qed.

Lemma i32_small z : (- 2 ^ 31 <= z < 2 ^ 31)%Z -> i32 z = z.
Proof. intros. unfold i32, u32. rewrite wrap_small; lia. Qed.

#[export] Hint Rewrite @bind_get @bind_gets @bind_modify @bind_ret : cpp.
#[export] Hint Rewrite wrap_small i32_small using lia : cpp.

(** ** Lists *)
Section lists.
Context {A : Type}.
Implicit Types (l : list A).

Lemma filter_all (P : A -> Prop) `{!forall x, Decision (P x)} l :
  (forall x, x ∈ l -> P x) -> filter P l = l.
Proof.
  induction l as [|y l IH]; [done|]. intros Hall.
  rewrite filter_cons_True by (apply Hall; set_solver).
  f_equal. apply IH. set_solver.
Qed.

Lemma NoDup_reverse l : NoDup l -> NoDup (reverse l).
Proof. by rewrite reverse_Permutation. Qed.

Lemma delete_NoDup `{EqDecision A} (l : list A) i x :
  NoDup l -> l !! i = Some x -> delete i l = filter (.≠ x) l.
Proof.
  revert i. induction l as [|y l IH]; intros [|i]; simpl; try done.
  - intros [Hy Hl]%NoDup_cons [= ->]. rewrite filter_cons_False by naive_solver.
    symmetry. apply filter_all. by intros z Hz ->.
  - intros [Hy Hl]%NoDup_cons Hi. rewrite filter_cons_True.
    + f_equal. by apply IH.
    + intros ->. apply Hy. by eapply list_elem_of_lookup_2.
Qed.

(** [v.erase(std::find(v.begin(), v.end(), x))]; [None] when the find
    returns the end of the vector. *)
Fixpoint eraseFirst `{EqDecision A} (x : A) l : option (list A) :=
  match l with
  | [] => None
  | y :: l => if decide (x = y) then Some l else (y ::.) <$> eraseFirst x l
  end.

Lemma eraseFirst_None `{EqDecision A} x l : eraseFirst x l = None <-> x ∉ l.
Proof.
  induction l as [|y l IH]; simpl; [set_solver|].
  case_decide; [set_solver|]. rewrite fmap_None, IH. set_solver.
Qed.

Lemma eraseFirst_NoDup `{EqDecision A} x l :
  NoDup l -> x ∈ l -> eraseFirst x l = Some (filter (.≠ x) l).
Proof.
  induction l as [|y l IH]; simpl; [set_solver|].
  intros [Hy Hl]%NoDup_cons Hx. case_decide as Hd.
  - subst y. rewrite filter_cons_False by naive_solver. f_equal. symmetry.
    apply filter_all. by intros z Hz ->.
  - rewrite filter_cons_True by done. rewrite IH; [done..|set_solver].
Qed.

Lemma eraseFirst_middle `{EqDecision A} x pre suf :
  x ∉ pre -> eraseFirst x (pre ++ x :: suf) = Some (pre ++ suf).
Proof.
  induction pre as [|y pre IH]; simpl; intros Hx; [by rewrite decide_True|].
  rewrite decide_False by set_solver. by rewrite IH by set_solver.
Qed.

End lists.

(** Lists without an element. *)
Lemma NoDup_middle_pre {A} (pre suf : list A) c : NoDup (pre ++ c :: suf) -> c ∉ pre.
Proof. intros (_ & Hd & _)%NoDup_app Hc. apply (Hd c Hc). set_solver. Qed.

Lemma filter_ne_middle (pre suf : list nat) c :
  NoDup (pre ++ c :: suf) -> filter (.≠ c) (pre ++ c :: suf) = pre ++ suf.
Proof.
  intros Hnd. pose proof (NoDup_middle_pre _ _ _ Hnd) as Hpre.
  apply NoDup_app in Hnd as (_ & _ & [Hsuf _]%NoDup_cons).
  rewrite filter_app, filter_cons_False by naive_solver.
  rewrite !filter_all; [done|..]; by intros x Hx ->.
Qed.

Lemma notin_filter_ne (c : nat) (l : list nat) : c ∉ filter (.≠ c) l.
Proof. rewrite list_elem_of_filter. naive_solver. Qed.

Lemma length_filter_ne (c : nat) (l : list nat) :
  NoDup l -> c ∈ l -> S (length (filter (.≠ c) l)) = length l.
Proof.
  intros Hnd Hc. apply list_elem_of_split_l in Hc as (pre & suf & -> & _).
  rewrite filter_ne_middle by done. rewrite !length_app. simpl. lia.
Qed.

Lemma elem_of_filter_ne (c d : nat) (l : list nat) : d ∈ filter (.≠ c) l <-> d <> c /\ d ∈ l.
Proof. by rewrite list_elem_of_filter. Qed.

(** The element after the first occurrence of [c]. *)
Fixpoint succ (l : list nat) (c : nat) : option nat :=
  match l with
  | [] => None
  | d :: l => if decide (d = c) then head l else succ l c
  end.

Lemma succ_middle pre c suf : c ∉ pre -> succ (pre ++ c :: suf) c = head suf.
Proof.
  induction pre as [|d pre IH]; simpl; intros Hc; [by rewrite decide_True|].
  rewrite decide_False by set_solver. apply IH. set_solver.
Qed.

Lemma succ_Some l c d : NoDup l -> succ l c = Some d -> exists pre suf, l = pre ++ c :: d :: suf.
Proof.
  induction l as [|e l IH]; simpl; [done|]. intros [He Hnd]%NoDup_cons.
  case_decide as Hd; subst.
  - intros Hs. destruct l as [|d' l]; simplify_eq/=. by exists [], l.
  - intros Hs. destruct (IH Hnd Hs) as (pre & suf & ->). by exists (e :: pre), suf.
Qed.

(** ** Tactics *)

(** Case analysis on the scrutinee of the first [match] or [if] of the goal. *)
Ltac case_goal :=
  match goal with
  | |- context [match ?x with _ => _ end] => destruct x eqn:?
  end.

(** Case analysis on the first comparison of integers of the goal. *)
Ltac case_ltb :=
  match goal with
  | |- context [(?a <? ?b)%Z] => destruct (Z.ltb_spec a b)
  end.

Ltac case_ltb_in H :=
  match type of H with
  | context [(?a <? ?b)%Z] => destruct (Z.ltb_spec a b)
  end.

(** Discharges a preservation goal down to its state updates. *)
Ltac preserve :=
  repeat first
    [ apply preserves_bind; [|intros ?]
    | apply preserves_ret
    | apply preserves_gets
    | apply preserves_when
    | assumption ].

(** ** Association lists *)

Section assoc.
Context {K V : Type} `{!EqDecision K}.
Implicit Types (l : list (K * V)).

Fixpoint assoc (k : K) (l : list (K * V)) : option V :=
  match l with
  | [] => None
  | (k', v) :: l => if decide (k' = k) then Some v else assoc k l
  end.
Definition without (k : K) (l : list (K * V)) : list (K * V) := filter (fun p => p.1 <> k) l.

Lemma assoc_None k (l : list (K * V)) : assoc k l = None <-> k ∉ l.*1.
Proof.
  induction l as [|[k' v] l IH]; simpl; [split; [intros _; apply not_elem_of_nil|done]|].
  rewrite not_elem_of_cons. case_decide as E; [subst; naive_solver|]. rewrite IH. naive_solver.
Qed.

Lemma assoc_elem k v (l : list (K * V)) : assoc k l = Some v -> (k, v) ∈ l.
Proof.
  induction l as [|[k' v'] l IH]; simpl; [done|]. case_decide as E.
  - intros [= ->]. subst. by left.
  - intros H. right. by apply IH.
Qed.

Lemma without_NoDup k (l : list (K * V)) : NoDup l.*1 -> NoDup (without k l).*1.
Proof.
  unfold without. induction l as [|[k' v] l IH]; [done|]. rewrite filter_cons. simpl.
  intros [Hn H]%NoDup_cons. case_decide; [|by apply IH]. simpl. constructor; [|by apply IH].
  intros ([k2 v2] & -> & [_ Hin]%list_elem_of_filter)%list_elem_of_fmap. apply Hn.
  apply list_elem_of_fmap. by exists (k2, v2).
Qed.

Lemma without_notin k (l : list (K * V)) : k ∉ (without k l).*1.
Proof.
  intros ([k' v] & -> & [Hk _]%list_elem_of_filter)%list_elem_of_fmap. by apply Hk.
Qed.

Lemma without_length k v (l : list (K * V)) :
  assoc k l = Some v -> S (length (without k l)) <= length l.
Proof.
  unfold without. induction l as [|[k' v'] l IH]; [done|]. cbn [assoc]. rewrite filter_cons. simpl.
  destruct (decide (k' = k)) as [->|Hne].
  - rewrite decide_False by (intros H; by apply H). intros _.
    pose proof (length_filter (fun p : K * V => p.1 <> k) l). lia.
  - rewrite decide_True by done. intros H. simpl. specialize (IH H). lia.
Qed.

Lemma without_id k l : k ∉ l.*1 -> without k l = l.
Proof.
  unfold without. induction l as [|[k' v] l IH]; [done|]. simpl. rewrite not_elem_of_cons. intros [Hne H].
  rewrite filter_cons, decide_True by (simpl; congruence). by rewrite IH.
Qed.

Lemma without_perm k v l :
  NoDup l.*1 -> assoc k l = Some v -> (k, v) :: without k l ≡ₚ l.
Proof.
  induction l as [|[k' v'] l IH]; [done|]. simpl. intros [Hn H]%NoDup_cons. unfold without.
  rewrite filter_cons. simpl. case_decide as E.
  - subst k'. intros [= ->]. rewrite decide_False by (intros Hc; by apply Hc).
    fold (without k l). by rewrite without_id.
  - intros Hk. rewrite decide_True by done. fold (without k l).
    rewrite <- (IH H Hk) at 2. apply perm_swap.
Qed.

Lemma without_assoc_None k l : assoc k l = None -> without k l = l.
Proof. intros H. by apply without_id, assoc_None. Qed.

Lemma assoc_without k j l : assoc j (without k l) = if decide (j = k) then None else assoc j l.
Proof.
  case_decide as E; [subst; apply assoc_None, without_notin|]. unfold without.
  induction l as [|[k' v] l IH]; [done|]. rewrite filter_cons. simpl. case_decide; simpl; [by rewrite IH|].
  rewrite decide_False by naive_solver. exact IH.
Qed.

Lemma assoc_take n k l : assoc k (take n l) = assoc k l \/ (assoc k (take n l) = None /\ n < length l).
Proof.
  revert n. induction l as [|[k' v] l IH]; intros [|n]; simpl; try (by left); [right; split; [done|lia]|].
  case_decide; [by left|]. destruct (IH n) as [?|[? ?]]; [by left|right; split; [done|lia]].
Qed.

Lemma assoc_Some k v l : NoDup l.*1 -> assoc k l = Some v <-> (k, v) ∈ l.
Proof.
  intros Hnd. split; [apply assoc_elem|]. induction l as [|[k' v'] l IH]; [by intros ?%elem_of_nil|].
  apply NoDup_cons in Hnd as [Hn Hnd]. intros [[= -> ->]|Hin]%elem_of_cons; simpl; [by rewrite decide_True|].
  rewrite decide_False; [by apply IH|]. intros ->. apply Hn. apply list_elem_of_fmap. by exists (k, v).
Qed.

Lemma assoc_perm k l l' : NoDup l.*1 -> l ≡ₚ l' -> assoc k l = assoc k l'.
Proof.
  intros Hnd Hp. assert (Hnd' : NoDup l'.*1) by by rewrite <- Hp.
  apply option_eq. intros v. by rewrite !assoc_Some, Hp.
Qed.
End assoc.
