(* ===== verification/StringSplit.v ===== *)
(** * Splitting strings (src/wangle/chijinxin/utility.h)

    [StringSplit] cuts a string at every character of a set of delimiters,
    into at most [maxSplits] fields unless that is zero.  Without a limit it is
    the split by structural recursion, and the fields determine the string up
    to its delimiters; the limit is not kept where fields are empty. *)
From Stdlib Require Import ZArith Lia Ascii.
From stdpp Require Import base numbers list strings.
From S2P Require Import Prelude.
Open Scope cpp_scope.

Set Default Goal Selector "!".

Section split.
Context {A : Type} (delim : A -> bool).
Implicit Types (str : list A) (ret : list (list A)).

(** [str.find_first_of(delims, start)]; [None] is [npos]. *)
Fixpoint find_first_of (str : list A) : option nat :=
  match str with
  | [] => None
  | c :: str => if delim c then Some 0 else S <$> find_first_of str
  end.
Definition find_first_of_from (str : list A) (start : nat) : option nat :=
  Nat.add start <$> find_first_of (drop start str).

(** The loop.  Every iteration but the last moves [start] past a delimiter, so
    one more than the length of the string is enough fuel. *)
Fixpoint splitLoop (fuel : nat) (str : list A) (maxSplits start : nat) (numSplits : Z) (ret : list (list A)) :
    option (list (list A)) :=
  match fuel with
  | O => None
  | S fuel =>
      match find_first_of_from str start with
      | Some pos =>
          if pos =? start then
            splitLoop fuel str maxSplits (pos + 1) (u32 (numSplits + 1)) (ret ++ [[]])
          else if negb (maxSplits =? 0) && (u32 (numSplits + 1) =? Z.of_nat maxSplits)%Z then
            Some (ret ++ [drop start str])
          else
            splitLoop fuel str maxSplits (pos + 1) (u32 (numSplits + 1)) (ret ++ [take (pos - start) (drop start str)])
      | None => Some (ret ++ [drop start str])
      end
  end.
Definition StringSplit (str : list A) (maxSplits : nat) (ret : list (list A)) : option (list (list A)) :=
  match str with
  | [] => Some ret
  | _ => splitLoop (S (length str)) str maxSplits 0 0 ret
  end.

(** The fields of a string, by recursion over its characters. *)
Fixpoint fields (str : list A) : list (list A) :=
  match str with
  | [] => [[]]
  | c :: str =>
      if delim c then [] :: fields str
      else match fields str with
           | [] => [[c]]
           | f :: fs => (c :: f) :: fs
           end
  end.

Lemma fields_find str :
  fields str = match find_first_of str with
               | None => [str]
               | Some n => take n str :: fields (drop (S n) str)
               end.
Proof.
  induction str as [|c str IH]; [done|]. simpl. destruct (delim c); [done|]. rewrite IH.
  by destruct (find_first_of str).
Qed.

Lemma find_lt str n : find_first_of str = Some n -> n < length str.
Proof.
  revert n. induction str as [|c str IH]; intros n; simpl; [done|]. destruct (delim c); [intros [= <-]; lia|].
  destruct (find_first_of str); [|done]. intros [= <-]. specialize (IH _ eq_refl). lia.
Qed.

Lemma splitLoop_fields str fuel : forall start numSplits ret,
  start <= length str -> length str - start < fuel ->
  splitLoop fuel str 0 start numSplits ret = Some (ret ++ fields (drop start str)).
Proof.
  induction fuel as [|fuel IH]; intros start numSplits ret Hs Hf; [lia|]. cbn [splitLoop].
  rewrite fields_find. unfold find_first_of_from. destruct (find_first_of (drop start str)) as [n|] eqn:E; cbn [fmap option_fmap option_map]; [|done].
  pose proof (find_lt _ _ E) as Hn. rewrite length_drop in Hn.
  assert (drop (start + n + 1) str = drop (S n) (drop start str)) as Hd by (rewrite drop_drop; f_equal; lia).
  destruct (Nat.eqb_spec (start + n) start) as [E0|E0].
  - assert (n = 0) as -> by lia. rewrite IH, Hd, <- app_assoc by lia. done.
  - cbn [Nat.eqb negb andb]. rewrite IH, Hd, <- app_assoc by lia. by replace (start + n - start) with n by lia.
Qed.

(** Without a limit, [StringSplit] appends the fields; an empty string has none. *)
Lemma StringSplit_fields str ret :
  StringSplit str 0 ret = Some (ret ++ if str is [] then [] else fields str).
Proof.
  destruct str as [|c str]; [by rewrite app_nil_r|]. unfold StringSplit. rewrite splitLoop_fields by (simpl; lia).
  by rewrite drop_0.
Qed.

(** The loop ends with any limit. *)
Lemma splitLoop_ends str maxSplits fuel : forall start numSplits ret,
  start <= length str -> length str - start < fuel ->
  is_Some (splitLoop fuel str maxSplits start numSplits ret).
Proof.
  induction fuel as [|fuel IH]; intros start numSplits ret Hs Hf; [lia|]. cbn [splitLoop].
  unfold find_first_of_from. destruct (find_first_of (drop start str)) as [n|] eqn:E; simpl; [|by eexists].
  pose proof (find_lt _ _ E) as Hn. rewrite length_drop in Hn.
  repeat case_match; try (by eexists); apply IH; lia.
Qed.

(** Fields hold no delimiter, and put between delimiters they are the string. *)
Lemma fields_no_delim str : Forall (fun f => forall c, c ∈ f -> delim c = false) (fields str).
Proof.
  induction str as [|c str IH]; simpl; [repeat constructor; by intros c ?%elem_of_nil|].
  destruct (delim c) eqn:Ec; [constructor; [by intros d ?%elem_of_nil|done]|].
  destruct (fields str) as [|f fs]; [repeat constructor; by intros d ->%list_elem_of_singleton|].
  inversion IH as [|? ? Hf Hfs]; subst. constructor; [|done]. intros d [->|?]%elem_of_cons; [done|by apply Hf].
Qed.

Definition joinWith (d : A) (fs : list (list A)) : list A :=
  match fs with
  | [] => []
  | f :: fs => f ++ concat ((fun g => d :: g) <$> fs)
  end.

Lemma fields_join d str : (forall c, delim c = true -> c = d) -> joinWith d (fields str) = str.
Proof.
  intros Hd. induction str as [|c str IH]; [done|]. simpl. destruct (delim c) eqn:Ec.
  - rewrite <- (Hd c Ec). rewrite <- (Hd c Ec) in IH. destruct (fields str) as [|f fs] eqn:Ef.
    + rewrite fields_find in Ef. by destruct (find_first_of str).
    + simpl in *. by f_equal.
  - destruct (fields str) as [|f fs] eqn:Ef; simpl in *; by f_equal.
Qed.
End split.

(** The limit counts empty fields, but is not looked at after them. *)
Definition isComma (c : ascii) : bool := bool_decide (c = ","%char).
Example limit_kept :
  StringSplit isComma (String.list_ascii_of_string "a,b,c") 2 [] =
  Some [String.list_ascii_of_string "a"; String.list_ascii_of_string "b,c"].
Proof. vm_compute. reflexivity. Qed.
Example limit_passed :
  StringSplit isComma (String.list_ascii_of_string ",a,b") 1 [] =
  Some (String.list_ascii_of_string <$> [""; "a"; "b"]).
Proof. vm_compute. reflexivity. Qed.
