(* ===== verification/Pipeline.v ===== *)
(** * Pipelines of handlers (src/wangle/channel)

    [PipelineBase], [Pipeline], the three context classes of
    HandlerContext-inl.h and the attachment bookkeeping of [HandlerBase].

    Handlers and contexts are objects with identity: a handler may be added to
    a pipeline twice or to several pipelines, so both live in a heap of records
    indexed by their address.  A template argument (the handler class [H], the
    inbound type [R], ...) is a tag, and a [dynamic_cast] is the test of the
    tags it amounts to.  The effects a method has on the heap and on the three
    vectors of the pipeline are those of the code, in its order.

    Not modelled: the lifetime of the objects ([weak_ptr] guards), the futures
    returned by outbound calls, and handlers that edit the pipeline while an
    event is being delivered. *)
From Stdlib Require Import ZArith Lia.
From stdpp Require Import base numbers list gmap strings.
From S2P Require Import Prelude.
Open Scope cpp_scope.

Set Default Goal Selector "!".

(** ** Data *)

Inductive HandlerDir : Type := IN | OUT | BOTH.
#[export] Instance HandlerDir_eq_dec : EqDecision HandlerDir.
Proof. solve_decision. Defined.

(** A handler class: its name, its direction and its four message types. *)
Record HandlerClass : Type := mkClass {
  cls_id : nat;
  dir : HandlerDir;
  rin : nat;
  rout : nat;
  win : nat;
  wout : nat
}.
#[export] Instance HandlerClass_eq_dec : EqDecision HandlerClass.
Proof. solve_decision. Defined.

(** [ContextImplBase]: [ContextType<H>::type] is determined by the class. *)
Record ContextImpl : Type := mkContext {
  c_class : HandlerClass;
  handler_ : nat;
  nextIn_ : option nat;
  nextOut_ : option nat;
  attached_ : bool
}.

Record HandlerBase : Type := mkHandler {
  attachCount_ : Z;
  ctx_ : option nat
}.
Definition newHandler : HandlerBase := mkHandler 0 None.

(** The virtual methods of the handlers that the bookkeeping calls. *)
Inductive hook : Type :=
| OnAttach (handler ctx : nat)
| OnDetach (handler ctx : nat).

(** The objects shared by all pipelines. *)
Record Heap : Type := mkHeap {
  contexts : gmap nat ContextImpl;
  handlers : gmap nat HandlerBase;
  nextCtx : nat;
  hooks : list hook
}.

(** The members of [PipelineBase] and [Pipeline<R, W>] used here. *)
Record PipelineObj : Type := mkPipeline {
  ctxs_ : list nat;
  inCtxs_ : list nat;
  outCtxs_ : list nat;
  owner_ : option nat;
  front_ : option nat;
  back_ : option nat;
  isStatic_ : bool;
  writeFlags_ : Z;
  readBufferSettings_ : Z * Z
}.

Record State : Type := mkState { heap : Heap; self : PipelineObj }.

(** [Pipeline<R, W>::create()] on an existing heap. *)
Definition create (h : Heap) : State :=
  mkState h (mkPipeline [] [] [] None None None false 0 (2048, 2048)%Z).

Definition emptyHeap : Heap := mkHeap ∅ ∅ 0 [].

(** Assignments to one member. *)
Definition setHeap (g : Heap -> Heap) (s : State) : State := mkState (g (heap s)) (self s).
Definition setSelf (g : PipelineObj -> PipelineObj) (s : State) : State :=
  mkState (heap s) (g (self s)).
Definition setVectors (l li lo : list nat) (p : PipelineObj) : PipelineObj :=
  mkPipeline l li lo (owner_ p) (front_ p) (back_ p) (isStatic_ p) (writeFlags_ p)
    (readBufferSettings_ p).
Definition setOwnerField (o : option nat) (p : PipelineObj) : PipelineObj :=
  mkPipeline (ctxs_ p) (inCtxs_ p) (outCtxs_ p) o (front_ p) (back_ p) (isStatic_ p)
    (writeFlags_ p) (readBufferSettings_ p).
Definition setFront (o : option nat) (p : PipelineObj) : PipelineObj :=
  mkPipeline (ctxs_ p) (inCtxs_ p) (outCtxs_ p) (owner_ p) o (back_ p) (isStatic_ p)
    (writeFlags_ p) (readBufferSettings_ p).
Definition setBack (o : option nat) (p : PipelineObj) : PipelineObj :=
  mkPipeline (ctxs_ p) (inCtxs_ p) (outCtxs_ p) (owner_ p) (front_ p) o (isStatic_ p)
    (writeFlags_ p) (readBufferSettings_ p).

Definition setContext (c : nat) (x : ContextImpl) (h : Heap) : Heap :=
  mkHeap (<[c := x]> (contexts h)) (handlers h) (nextCtx h) (hooks h).
Definition handlerAt (h : Heap) (a : nat) : HandlerBase :=
  default newHandler (handlers h !! a).
Definition setHandler (a : nat) (b : HandlerBase) (h : Heap) : Heap :=
  mkHeap (contexts h) (<[a := b]> (handlers h)) (nextCtx h) (hooks h).
Definition logHook (k : hook) (h : Heap) : Heap :=
  mkHeap (contexts h) (handlers h) (nextCtx h) (hooks h ++ [k]).

(** Dereference of a context pointer. *)
Definition deref (c : nat) : M State ContextImpl :=
  let! s := get in
  of_option (Undefined "dangling context") (contexts (heap s) !! c).

Definition updContext (c : nat) (g : ContextImpl -> ContextImpl) : M State unit :=
  let! x := deref c in
  modify (setHeap (setContext c (g x))).

(** The plain accessors of Pipeline.cpp. *)
Definition setWriteFlags (flags : Z) : M State unit :=
  modify (setSelf (fun p =>
    mkPipeline (ctxs_ p) (inCtxs_ p) (outCtxs_ p) (owner_ p) (front_ p) (back_ p) (isStatic_ p)
      flags (readBufferSettings_ p))).
Definition getWriteFlags : M State Z := gets (fun s => writeFlags_ (self s)).
Definition setReadBufferSettings (minAvailable allocationSize : Z) : M State unit :=
  modify (setSelf (fun p =>
    mkPipeline (ctxs_ p) (inCtxs_ p) (outCtxs_ p) (owner_ p) (front_ p) (back_ p) (isStatic_ p)
      (writeFlags_ p) (minAvailable, allocationSize))).
Definition getReadBufferSettings : M State (Z * Z) :=
  gets (fun s => readBufferSettings_ (self s)).

(** ** Attachment (PipelineContext, ContextImplBase, HandlerBase) *)

(** [PipelineContext::attachContext] *)
Definition attachContext (a c : nat) : M State unit :=
  modify (setHeap (fun h =>
    let n := u64 (attachCount_ (handlerAt h a) + 1) in
    setHandler a (mkHandler n (if (n =? 1)%Z then Some c else None)) h)).

(** [PipelineContext::detachContext] *)
Definition detachContext (a c : nat) : M State unit :=
  modify (setHeap (fun h =>
    let n := attachCount_ (handlerAt h a) in
    setHandler a (mkHandler (if (1 <=? n)%Z then n - 1 else n)%Z None) h)).

Definition setAttached (b : bool) (x : ContextImpl) : ContextImpl :=
  mkContext (c_class x) (handler_ x) (nextIn_ x) (nextOut_ x) b.

(** [ContextImplBase::attachPipeline] *)
Definition attachPipeline (c : nat) : M State unit :=
  let! x := deref c in
  when (negb (attached_ x)) (
    do! attachContext (handler_ x) c in
    do! modify (setHeap (logHook (OnAttach (handler_ x) c))) in
    updContext c (setAttached true)).

(** [ContextImplBase::detachPipeline] *)
Definition detachPipeline (c : nat) : M State unit :=
  let! x := deref c in
  do! modify (setHeap (logHook (OnDetach (handler_ x) c))) in
  do! updContext c (setAttached false) in
  detachContext (handler_ x) c.

(** [HandlerBase::getContext] *)
Definition handlerGetContext (a : nat) : M State (option nat) :=
  let! s := get in
  let b := handlerAt (heap s) a in
  if negb (attachCount_ b =? 1)%Z then ret None
  else match ctx_ b with
       | None => raise (CheckFailed "ctx_")
       | Some c => ret (Some c)
       end.

(** ** Links between contexts *)

(** [dynamic_cast<InboundLink<T>*>] and [dynamic_cast<OutboundLink<T>*>] of a
    context of class [k]. *)
Definition isInboundLink (t : nat) (k : HandlerClass) : bool :=
  match dir k with OUT => false | _ => bool_decide (rin k = t) end.
Definition isOutboundLink (t : nat) (k : HandlerClass) : bool :=
  match dir k with IN => false | _ => bool_decide (win k = t) end.

Definition setNextInField (n : option nat) (x : ContextImpl) : ContextImpl :=
  mkContext (c_class x) (handler_ x) n (nextOut_ x) (attached_ x).
Definition setNextOutField (n : option nat) (x : ContextImpl) : ContextImpl :=
  mkContext (c_class x) (handler_ x) (nextIn_ x) n (attached_ x).

(** [ContextImplBase::setNextIn] *)
Definition setNextIn (c : nat) (ctx : option nat) : M State unit :=
  match ctx with
  | None => updContext c (setNextInField None)
  | Some n =>
      let! x := deref c in
      let! y := deref n in
      if isInboundLink (rout (c_class x)) (c_class y)
      then updContext c (setNextInField (Some n))
      else raise (InvalidArgument "inbound type mismatch")
  end.

(** [ContextImplBase::setNextOut] *)
Definition setNextOut (c : nat) (ctx : option nat) : M State unit :=
  match ctx with
  | None => updContext c (setNextOutField None)
  | Some n =>
      let! x := deref c in
      let! y := deref n in
      if isOutboundLink (wout (c_class x)) (c_class y)
      then updContext c (setNextOutField (Some n))
      else raise (InvalidArgument "outbound type mismatch")
  end.

(** The two loops of [finalize]: [setNext] of each element to its successor,
    and of the last one to null. *)
Fixpoint linkAll (setNext : nat -> option nat -> M State unit) (l : list nat) : M State unit :=
  match l with
  | [] => ret tt
  | c :: rest =>
      do! setNext c (head rest) in
      linkAll setNext rest
  end.

(** ** The vectors of contexts (PipelineBase) *)

Definition hasIn (k : HandlerClass) : bool :=
  match dir k with OUT => false | _ => true end.
Definition hasOut (k : HandlerClass) : bool :=
  match dir k with IN => false | _ => true end.

(** [v.insert(front ? v.begin() : v.end(), c)] *)
Definition insertEnd (front : bool) (c : nat) (l : list nat) : list nat :=
  if front then c :: l else l ++ [c].

(** [PipelineBase::addHelper] *)
Definition addHelper (c : nat) (front : bool) : M State unit :=
  let! x := deref c in
  modify (setSelf (fun p =>
    setVectors
      (insertEnd front c (ctxs_ p))
      (if hasIn (c_class x) then insertEnd front c (inCtxs_ p) else inCtxs_ p)
      (if hasOut (c_class x) then insertEnd front c (outCtxs_ p) else outCtxs_ p) p)).

(** [PipelineBase::addContextFront], used by the static pipelines. *)
Definition addContextFront (c : nat) : M State unit := addHelper c true.

(** [std::make_shared<Context>(shared_from_this(), handler)] *)
Definition makeContext (k : HandlerClass) (a : nat) : M State nat :=
  let! s := get in
  let c := nextCtx (heap s) in
  do! modify (setHeap (fun h =>
        mkHeap (<[c := mkContext k a None None false]> (contexts h)) (handlers h)
          (S c) (hooks h))) in
  ret c.

(** [PipelineBase::addBack] and [PipelineBase::addFront] *)
Definition addBack (k : HandlerClass) (a : nat) : M State unit :=
  let! c := makeContext k a in
  addHelper c false.
Definition addFront (k : HandlerClass) (a : nat) : M State unit :=
  let! c := makeContext k a in
  addHelper c true.

(** [vec.erase(std::find(vec.begin(), vec.end(), c))] with its CHECK. *)
Definition eraseChecked (c : nat) (l : list nat) : M State (list nat) :=
  of_option (CheckFailed "it2 != end()") (eraseFirst c l).

(** [PipelineBase::removeAt]; the iterator is an index, and so is the one
    returned (the element after the erased one has that index). *)
Definition removeAt (it : nat) : M State nat :=
  let! s := get in
  let! c := of_option (Undefined "iterator out of range") (ctxs_ (self s) !! it) in
  do! detachPipeline c in
  let! x := deref c in
  do! when (hasIn (c_class x)) (
        let! s := get in
        let! l := eraseChecked c (inCtxs_ (self s)) in
        modify (setSelf (fun p => setVectors (ctxs_ p) l (outCtxs_ p) p))) in
  do! when (hasOut (c_class x)) (
        let! s := get in
        let! l := eraseChecked c (outCtxs_ (self s)) in
        modify (setSelf (fun p => setVectors (ctxs_ p) (inCtxs_ p) l p))) in
  do! modify (setSelf (fun p => setVectors (delete it (ctxs_ p)) (inCtxs_ p) (outCtxs_ p) p)) in
  ret it.

(** The test of the loop of [removeHelper]. *)
Definition matchesHandler (k : HandlerClass) (handler : option nat) (x : ContextImpl) : bool :=
  bool_decide (c_class x = k) &&
  match handler with
  | None => true
  | Some a => bool_decide (handler_ x = a)
  end.

(** The loop of [removeHelper].  Every iteration shortens the part of the
    vector at and after [it], so the length of the vector is enough fuel. *)
Fixpoint removeLoop (fuel : nat) (k : HandlerClass) (handler : option nat) (it : nat)
    (removed : bool) : M State bool :=
  let! s := get in
  match ctxs_ (self s) !! it, fuel with
  | Some c, S fuel =>
      let! x := deref c in
      if matchesHandler k handler x then
        let! it := removeAt it in
        removeLoop fuel k handler it true
      else removeLoop fuel k handler (S it) removed
  | _, _ => ret removed
  end.

(** [PipelineBase::removeHelper]: [handler] is null for [remove<H>()]. *)
Definition removeHelper (k : HandlerClass) (handler : option nat) : M State unit :=
  let! s := get in
  let! removed := removeLoop (length (ctxs_ (self s))) k handler 0 false in
  if removed then ret tt else raise (InvalidArgument "No such handler in pipeline").

Definition remove (k : HandlerClass) : M State unit := removeHelper k None.
Definition removeHandler (k : HandlerClass) (a : nat) : M State unit := removeHelper k (Some a).

(** [PipelineBase::removeFront] and [PipelineBase::removeBack] *)
Definition removeFront : M State unit :=
  let! s := get in
  match ctxs_ (self s) with
  | [] => raise (InvalidArgument "No handlers in pipeline")
  | _ => do! removeAt 0 in ret tt
  end.
Definition removeBack : M State unit :=
  let! s := get in
  match ctxs_ (self s) with
  | [] => raise (InvalidArgument "No handlers in pipeline")
  | l => do! removeAt (length l - 1) in ret tt
  end.

(** [PipelineBase::getContext<H>(int i)]: no range check on the vector. *)
Definition getContextAt (k : HandlerClass) (i : nat) : M State nat :=
  let! s := get in
  let! c := of_option (Undefined "ctxs_[i]") (ctxs_ (self s) !! i) in
  let! x := deref c in
  if bool_decide (c_class x = k) then ret c else raise (CheckFailed "ctx").

(** The first context of a vector that satisfies a test on contexts. *)
Fixpoint findContext (test : ContextImpl -> bool) (l : list nat) : M State (option nat) :=
  match l with
  | [] => ret None
  | c :: l =>
      let! x := deref c in
      if test x then ret (Some c) else findContext test l
  end.

(** [PipelineBase::getContext<H>()] *)
Definition getContext (k : HandlerClass) : M State (option nat) :=
  let! s := get in
  findContext (fun x => bool_decide (c_class x = k)) (ctxs_ (self s)).

(** [PipelineBase::getHandler<H>(int i)] and [PipelineBase::getHandler<H>()] *)
Definition getHandlerAt (k : HandlerClass) (i : nat) : M State nat :=
  let! c := getContextAt k i in
  let! x := deref c in
  ret (handler_ x).
Definition getHandler (k : HandlerClass) : M State (option nat) :=
  let! o := getContext k in
  match o with
  | None => ret None
  | Some c => let! x := deref c in ret (Some (handler_ x))
  end.

(** [PipelineBase::setOwner] *)
Definition setOwner (k : HandlerClass) (a : nat) : M State bool :=
  let! s := get in
  let! o := findContext (matchesHandler k (Some a)) (ctxs_ (self s)) in
  match o with
  | None => ret false
  | Some c => do! modify (setSelf (setOwnerField (Some c))) in ret true
  end.

(** [PipelineBase::detachHandlers] *)
Definition detachHandlers : M State unit :=
  let! s := get in
  for_each (ctxs_ (self s)) (fun c =>
    let! s := get in
    if bool_decide (Some c = owner_ (self s)) then ret tt else detachPipeline c).

(** [Pipeline<R, W>::~Pipeline] *)
Definition destroy : M State unit :=
  let! s := get in
  if isStatic_ (self s) then ret tt else detachHandlers.

(** [PipelineBase::numHandlers] *)
Definition numHandlers (s : State) : nat := length (ctxs_ (self s)).

(** [Pipeline<R, W>::finalize].  [front_] and [back_] are null, without an
    exception, when the end handler has another type than the pipeline. *)
Definition finalize (R W : nat) : M State unit :=
  do! modify (setSelf (setFront None)) in
  let! s := get in
  do! match inCtxs_ (self s) with
      | [] => ret tt
      | c :: _ =>
          let! x := deref c in
          do! modify (setSelf (setFront (if isInboundLink R (c_class x) then Some c else None))) in
          linkAll setNextIn (inCtxs_ (self s))
      end in
  do! modify (setSelf (setBack None)) in
  do! match last (outCtxs_ (self s)) with
      | None => ret tt
      | Some c =>
          let! x := deref c in
          do! modify (setSelf (setBack (if isOutboundLink W (c_class x) then Some c else None))) in
          linkAll setNextOut (reverse (outCtxs_ (self s)))
      end in
  for_each (reverse (ctxs_ (self s))) attachPipeline.

(** ** Events (Handler.h, HandlerContext-inl.h, Pipeline-inl.h) *)

Section events.
(** The messages, and the error values, that travel through the pipeline. *)
Context {Msg Exn : Type}.

Inductive event : Type :=
| Read (m : Msg)
| ReadEOF
| ReadException (e : Exn)
| TransportActive
| TransportInactive
| Write (m : Msg)
| WriteException (e : Exn)
| Close.

Definition isInbound (e : event) : bool :=
  match e with
  | Write _ | WriteException _ | Close => false
  | _ => true
  end.

(** What is observed of a delivery: the calls of handler methods, in order,
    and the warnings logged at the ends of the pipeline. *)
Inductive visit : Type :=
| Visit (handler : nat) (e : event)
| ReachedEnd (e : event)
| Dangling (ctx : nat).

(** The methods a handler overrides are arbitrary code: [on a k e] is the
    sequence of events handler [a] of class [k] fires on its context when it
    is given [e].  Those it does not override, and those of
    [HandlerAdapter], forward the event unchanged. *)
Definition forwards (a : nat) (k : HandlerClass) (e : event) : list event := [e].

(** The [fire*] methods a context class offers to its handler. *)
Definition fireable (k : HandlerClass) (e : event) : bool :=
  if isInbound e then hasIn k else hasOut k.

(** The [fire*] methods with no next context: those of the transport are
    silent, the others log a warning. *)
Definition reachedEnd (e : event) : list visit :=
  match e with
  | TransportActive | TransportInactive => []
  | _ => [ReachedEnd e]
  end.

(** [fireRead], [fireReadEOF], [fireReadException], [fireTransportActive] and
    [fireTransportInactive]; [deliver] calls the method of the next context. *)
Definition fireIn (deliver : nat -> event -> option (list visit)) (x : ContextImpl)
    (e : event) : option (list visit) :=
  match nextIn_ x with
  | Some n => deliver n e
  | None => Some (reachedEnd e)
  end.

(** [fireWrite], [fireWriteException] and [fireClose] *)
Definition fireOut (deliver : nat -> event -> option (list visit)) (x : ContextImpl)
    (e : event) : option (list visit) :=
  match nextOut_ x with
  | Some n => deliver n e
  | None => Some (reachedEnd e)
  end.

(** The three context classes. *)
Definition ContextImpl_fire deliver (x : ContextImpl) (e : event) :=
  if isInbound e then fireIn deliver x e else fireOut deliver x e.
Definition InboundContextImpl_fire deliver (x : ContextImpl) (e : event) :=
  fireIn deliver x e.
Definition OutboundContextImpl_fire deliver (x : ContextImpl) (e : event) :=
  fireOut deliver x e.

Definition fire (deliver : nat -> event -> option (list visit)) (x : ContextImpl)
    (e : event) : option (list visit) :=
  match dir (c_class x) with
  | BOTH => ContextImpl_fire deliver x e
  | IN => InboundContextImpl_fire deliver x e
  | OUT => OutboundContextImpl_fire deliver x e
  end.

(** [read], [readEOF], ..., [close] of a context: the handler is called and
    the events it fires are delivered, each completely before the next.
    [None]: out of fuel. *)
Fixpoint deliver (on : nat -> HandlerClass -> event -> list event) (h : Heap)
    (fuel : nat) (c : nat) (e : event) : option (list visit) :=
  match fuel with
  | O => None
  | S fuel =>
      match contexts h !! c with
      | None => Some [Dangling c]
      | Some x =>
          vs ← mapM (fire (deliver on h fuel) x)
                 (filter (fireable (c_class x)) (on (handler_ x) (c_class x) e));
          Some (Visit (handler_ x) e :: concat vs)
      end
  end.

(** [Pipeline<R, W>::read], [readEOF], [readException], [write],
    [writeException], [close]: an error without a handler at that end.
    [transportActive] and [transportInactive] are then silent. *)
Definition call (on : nat -> HandlerClass -> event -> list event) (fuel : nat) (s : State)
    (e : event) : res (option (list visit)) :=
  match (if isInbound e then front_ (self s) else back_ (self s)) with
  | Some c => Ok (deliver on (heap s) fuel c e)
  | None =>
      match e with
      | TransportActive | TransportInactive => Ok (Some [])
      | _ => if isInbound e
             then Err (InvalidArgument "no inbound handler in Pipeline")
             else Err (InvalidArgument "no outbound handler in Pipeline")
      end
  end.
End events.
Arguments event : clear implicits.
Arguments visit : clear implicits.
