(* ===== verification/PipelineFacts.v ===== *)
(** * Pipelines: what the operations guarantee

    The representation invariant of the three vectors, the exact effect of
    [removeAt] and of the two linking loops, and the theorems about the
    operations of Pipeline.v. *)
From Stdlib Require Import ZArith Lia.
From stdpp Require Import base numbers list gmap strings.
From S2P Require Import Prelude Pipeline.
Open Scope cpp_scope.

Set Default Goal Selector "!".

(** ** Well-formed pipelines *)

Definition live (h : Heap) (c : nat) : Prop := is_Some (contexts h !! c).

(** Does the context at [c] belong in the inbound (outbound) vector? *)
Definition inSide (h : Heap) (c : nat) : bool :=
  match contexts h !! c with Some x => hasIn (c_class x) | None => false end.
Definition outSide (h : Heap) (c : nat) : bool :=
  match contexts h !! c with Some x => hasOut (c_class x) | None => false end.

Record wf (s : State) : Prop := {
  wf_nodup : NoDup (ctxs_ (self s));
  wf_live : forall c, c ∈ ctxs_ (self s) -> live (heap s) c;
  wf_fresh : forall c, live (heap s) c -> c < nextCtx (heap s);
  wf_in : inCtxs_ (self s) = filter (inSide (heap s)) (ctxs_ (self s));
  wf_out : outCtxs_ (self s) = filter (outSide (heap s)) (ctxs_ (self s))
}.

(** A heap step that keeps the contexts, up to links and attachment. *)
Record sameClasses (h h' : Heap) : Prop := {
  same_class : forall c, c_class <$> contexts h' !! c = c_class <$> contexts h !! c;
  same_next : nextCtx h' = nextCtx h
}.

Section sameClasses.
Lemma sameClasses_refl h : sameClasses h h.
Proof. by split. Qed.

Lemma sameClasses_trans h1 h2 h3 :
  sameClasses h1 h2 -> sameClasses h2 h3 -> sameClasses h1 h3.
Proof. intros [A1 A2] [B1 B2]. split; [intros c; by rewrite B1|congruence]. Qed.

Lemma same_live h h' c : sameClasses h h' -> live h' c <-> live h c.
Proof.
  intros [Hc _]. unfold live. specialize (Hc c).
  by destruct (contexts h' !! c), (contexts h !! c).
Qed.

Lemma same_inSide h h' c : sameClasses h h' -> inSide h' c = inSide h c.
Proof.
  intros [Hc _]. unfold inSide. specialize (Hc c).
  destruct (contexts h' !! c), (contexts h !! c); simplify_eq/=; congruence.
Qed.

Lemma same_outSide h h' c : sameClasses h h' -> outSide h' c = outSide h c.
Proof.
  intros [Hc _]. unfold outSide. specialize (Hc c).
  destruct (contexts h' !! c), (contexts h !! c); simplify_eq/=; congruence.
Qed.

Lemma wf_sameClasses s h' :
  wf s -> sameClasses (heap s) h' -> wf (mkState h' (self s)).
Proof.
  intros [H1 H2 H3 H4 H5] Hs. split; simpl.
  - done.
  - intros c Hc. apply (same_live _ _ _ Hs). auto.
  - intros c Hc%(same_live _ _ _ Hs). rewrite (same_next _ _ Hs). auto.
  - rewrite H4. apply list_filter_iff. intros c. by rewrite (same_inSide _ _ _ Hs).
  - rewrite H5. apply list_filter_iff. intros c. by rewrite (same_outSide _ _ _ Hs).
Qed.

Lemma sameClasses_setContext h c x y :
  contexts h !! c = Some x -> c_class y = c_class x -> sameClasses h (setContext c y h).
Proof.
  intros Hx Hy. split; [|done]. intros c'. simpl.
  destruct (decide (c = c')) as [->|]; simplify_map_eq; congruence.
Qed.
End sameClasses.

Lemma run_deref s c x : contexts (heap s) !! c = Some x -> deref c s = (Ok x, s).
Proof. intros Hx. unfold deref. rewrite bind_get. unfold of_option. by rewrite Hx. Qed.

Lemma run_updContext s c x g :
  contexts (heap s) !! c = Some x ->
  updContext c g s = (Ok tt, setHeap (setContext c (g x)) s).
Proof. intros Hx. unfold updContext. by erewrite bind_Ok by by apply run_deref. Qed.

(** The invariant under which the methods that only touch the heap run: the
    pipeline is well formed and the contexts of [l] exist. *)
Definition wfWith (l : list nat) (s : State) : Prop :=
  wf s /\ forall c, c ∈ l -> live (heap s) c.

Definition catchable (f : fault) : Prop := is_exception f = true.

Lemma preserves_deref l c (k : ContextImpl -> M State unit) :
  c ∈ l -> (forall x, preserves (wfWith l) catchable (k x)) ->
  preserves (wfWith l) catchable (bind (deref c) k).
Proof.
  intros Hc Hk s [Hwf Hl]. destruct (Hl c Hc) as [x Hx].
  erewrite bind_Ok by by apply run_deref. by apply Hk.
Qed.

Lemma preserves_heap l g :
  (forall h, sameClasses h (g h)) -> preserves (wfWith l) catchable (modify (setHeap g)).
Proof.
  intros Hg. apply preserves_modify. intros s [Hwf Hl]. split.
  - by apply wf_sameClasses.
  - intros c Hc. simpl. apply (same_live _ _ _ (Hg _)). auto.
Qed.

Lemma preserves_updContext l c g :
  c ∈ l -> (forall x, c_class (g x) = c_class x) ->
  preserves (wfWith l) catchable (updContext c g).
Proof.
  intros Hc Hg s [Hwf Hl]. destruct (Hl c Hc) as [x Hx].
  rewrite (run_updContext _ _ _ _ Hx). simpl.
  pose proof (sameClasses_setContext (heap s) c x (g x) Hx (Hg x)) as Hs.
  split; [split|done].
  - by apply wf_sameClasses.
  - intros c' Hc'. simpl. apply (same_live _ _ _ Hs). auto.
Qed.

Lemma preserves_attachPipeline l c :
  c ∈ l -> preserves (wfWith l) catchable (attachPipeline c).
Proof.
  intros Hc. unfold attachPipeline. apply preserves_deref; [done|]. intros x.
  apply preserves_when. apply preserves_bind.
  { by apply preserves_heap. }
  intros _. apply preserves_bind; [by apply preserves_heap|].
  intros _. by apply preserves_updContext.
Qed.

Lemma preserves_detachPipeline l c :
  c ∈ l -> preserves (wfWith l) catchable (detachPipeline c).
Proof.
  intros Hc. unfold detachPipeline. apply preserves_deref; [done|]. intros x.
  apply preserves_bind; [by apply preserves_heap|]. intros _.
  apply preserves_bind; [by apply preserves_updContext|]. intros _.
  by apply preserves_heap.
Qed.

Lemma preserves_setNextIn l c n :
  c ∈ l -> (forall d, n = Some d -> d ∈ l) -> preserves (wfWith l) catchable (setNextIn c n).
Proof.
  intros Hc Hn. destruct n as [d|]; simpl; [|by apply preserves_updContext].
  apply preserves_deref; [done|]. intros x. apply preserves_deref; [auto|]. intros y.
  case_match; [by apply preserves_updContext|by apply preserves_raise].
Qed.

Lemma preserves_setNextOut l c n :
  c ∈ l -> (forall d, n = Some d -> d ∈ l) -> preserves (wfWith l) catchable (setNextOut c n).
Proof.
  intros Hc Hn. destruct n as [d|]; simpl; [|by apply preserves_updContext].
  apply preserves_deref; [done|]. intros x. apply preserves_deref; [auto|]. intros y.
  case_match; [by apply preserves_updContext|by apply preserves_raise].
Qed.

Lemma preserves_linkAll l setNext l' :
  (forall c n, c ∈ l -> (forall d, n = Some d -> d ∈ l) ->
    preserves (wfWith l) catchable (setNext c n)) ->
  (forall c, c ∈ l' -> c ∈ l) ->
  preserves (wfWith l) catchable (linkAll setNext l').
Proof.
  intros Hset. induction l' as [|c l' IH]; intros Hsub; simpl; [apply preserves_ret|].
  apply preserves_bind.
  - apply Hset; [set_solver|]. intros d Hd. destruct l'; simplify_eq/=. set_solver.
  - intros _. apply IH. set_solver.
Qed.

(** ** The exact effect of the vector operations *)

(** The heap after [detachPipeline] of the context [c] = [x]. *)
Definition detachedHeap (c : nat) (x : ContextImpl) (h : Heap) : Heap :=
  let n := attachCount_ (handlerAt h (handler_ x)) in
  setHandler (handler_ x) (mkHandler (if (1 <=? n)%Z then n - 1 else n)%Z None)
    (setContext c (setAttached false x) (logHook (OnDetach (handler_ x) c) h)).

Lemma run_detachPipeline s c x :
  contexts (heap s) !! c = Some x ->
  detachPipeline c s = (Ok tt, setHeap (detachedHeap c x) s).
Proof.
  intros Hx. unfold detachPipeline. erewrite bind_Ok by by apply run_deref.
  rewrite bind_modify. by erewrite bind_Ok by by apply run_updContext.
Qed.

Lemma detachedHeap_same c x h :
  contexts h !! c = Some x -> sameClasses h (detachedHeap c x h).
Proof.
  intros Hx. destruct (sameClasses_setContext h c x (setAttached false x) Hx eq_refl) as [H1 H2].
  by split.
Qed.

Lemma detachedHeap_lookup_ne c x h c' :
  c <> c' -> contexts (detachedHeap c x h) !! c' = contexts h !! c'.
Proof. intros. simpl. by rewrite lookup_insert_ne. Qed.

Lemma detachedHeap_lookup c x h :
  contexts (detachedHeap c x h) !! c = Some (setAttached false x).
Proof. simpl. by rewrite lookup_insert_eq. Qed.

(** Erasing a checked element of a filtered vector. *)
Lemma eraseChecked_filter (f : nat -> bool) c (l : list nat) s :
  NoDup l -> c ∈ l -> f c = true ->
  eraseChecked c (filter f l) s = (Ok (filter (.≠ c) (filter f l)), s).
Proof.
  intros Hnd Hc Hf. unfold eraseChecked.
  rewrite eraseFirst_NoDup; [done| |].
  - by apply NoDup_filter.
  - apply list_elem_of_filter. by rewrite Hf.
Qed.

Lemma filter_ne_notin (f : nat -> bool) c (l : list nat) :
  f c = false -> filter (.≠ c) (filter f l) = filter f l.
Proof.
  intros Hf. apply filter_all. intros x [Hx _]%list_elem_of_filter ->. by rewrite Hf in Hx.
Qed.

(** The vectors without the context [c]. *)
Definition without (c : nat) (p : PipelineObj) : PipelineObj :=
  setVectors (filter (.≠ c) (ctxs_ p)) (filter (.≠ c) (inCtxs_ p))
    (filter (.≠ c) (outCtxs_ p)) p.

(** The two conditional erasures of [removeAt]. *)
Lemma run_eraseIn h p l c (b : bool) :
  NoDup l -> c ∈ l -> inCtxs_ p = filter (inSide h) l -> inSide h c = b ->
  forall h',
  when b (
    let! s := get in
    let! l := eraseChecked c (inCtxs_ (self s)) in
    modify (setSelf (fun p => setVectors (ctxs_ p) l (outCtxs_ p) p))) (mkState h' p) =
  (Ok tt, mkState h' (setVectors (ctxs_ p) (filter (.≠ c) (inCtxs_ p)) (outCtxs_ p) p)).
Proof.
  intros Hnd Hc Hin Hb h'. rewrite Hin. destruct b; simpl.
  - rewrite bind_get. simpl. rewrite Hin.
    by erewrite bind_Ok by by apply eraseChecked_filter.
  - rewrite filter_ne_notin by done. rewrite <- Hin. by destruct p.
Qed.

Lemma run_eraseOut h p l c (b : bool) :
  NoDup l -> c ∈ l -> outCtxs_ p = filter (outSide h) l -> outSide h c = b ->
  forall h',
  when b (
    let! s := get in
    let! l := eraseChecked c (outCtxs_ (self s)) in
    modify (setSelf (fun p => setVectors (ctxs_ p) (inCtxs_ p) l p))) (mkState h' p) =
  (Ok tt, mkState h' (setVectors (ctxs_ p) (inCtxs_ p) (filter (.≠ c) (outCtxs_ p)) p)).
Proof.
  intros Hnd Hc Hout Hb h'. rewrite Hout. destruct b; simpl.
  - rewrite bind_get. simpl. rewrite Hout.
    by erewrite bind_Ok by by apply eraseChecked_filter.
  - rewrite filter_ne_notin by done. rewrite <- Hout. by destruct p.
Qed.

Lemma run_removeAt s it c x :
  wf s -> ctxs_ (self s) !! it = Some c -> contexts (heap s) !! c = Some x ->
  removeAt it s = (Ok it, mkState (detachedHeap c x (heap s)) (without c (self s))).
Proof.
  intros Hwf Hit Hx. destruct s as [h p]; simpl in *.
  assert (Hc : c ∈ ctxs_ p) by by eapply list_elem_of_lookup_2.
  unfold removeAt. rewrite bind_get. simpl. erewrite bind_Ok by by rewrite Hit.
  erewrite bind_Ok by by apply run_detachPipeline.
  erewrite bind_Ok by by apply run_deref, detachedHeap_lookup.
  cbn [setAttached c_class setHeap heap self].
  erewrite bind_Ok; [|apply (run_eraseIn h p (ctxs_ p)); try apply Hwf; try done].
  2: { unfold inSide. by rewrite Hx. }
  erewrite bind_Ok; [|apply (run_eraseOut h _ (ctxs_ p)); try apply Hwf; try done].
  2: { unfold outSide. by rewrite Hx. }
  rewrite bind_modify. unfold ret, without, setSelf. simpl.
  by rewrite (delete_NoDup _ _ c) by (done || apply (wf_nodup _ Hwf)).
Qed.

Lemma wf_removeAt s c x :
  wf s -> contexts (heap s) !! c = Some x ->
  wf (mkState (detachedHeap c x (heap s)) (without c (self s))).
Proof.
  intros Hwf Hx. apply (wf_sameClasses (mkState (heap s) (without c (self s)))).
  2: by apply detachedHeap_same.
  destruct Hwf as [H1 H2 H3 H4 H5]. split; simpl.
  - by apply NoDup_filter.
  - intros c' [_ Hc']%list_elem_of_filter. auto.
  - done.
  - rewrite H4, !list_filter_filter. apply list_filter_iff. tauto.
  - rewrite H5, !list_filter_filter. apply list_filter_iff. tauto.
Qed.

Lemma preserves_wf (c : M State unit) :
  (forall s, wf s -> preserves (wfWith (ctxs_ (self s))) catchable c) ->
  preserves wf catchable c.
Proof.
  intros Hp s Hs. destruct (Hp s Hs s) as [[H1 _] H2]; [|done].
  split; [done|]. apply Hs.
Qed.

Lemma preserves_removeAt it :
  preserves wf (fun f => f = Undefined "iterator out of range") (removeAt it).
Proof.
  intros s Hwf. destruct (ctxs_ (self s) !! it) as [c|] eqn:Hit.
  - destruct (wf_live _ Hwf c) as [x Hx]; [by eapply list_elem_of_lookup_2|].
    rewrite (run_removeAt _ _ _ _ Hwf Hit Hx). split; [by apply wf_removeAt|done].
  - unfold removeAt. rewrite bind_get. erewrite bind_Err by by rewrite Hit.
    split; [done|]. by intros f [= <-].
Qed.

(** Adding a handler: a fresh context at one end of the vectors. *)
Definition added (front : bool) (k : HandlerClass) (a : nat) (s : State) : State :=
  let c := nextCtx (heap s) in
  let p := self s in
  mkState
    (mkHeap (<[c := mkContext k a None None false]> (contexts (heap s))) (handlers (heap s))
       (S c) (hooks (heap s)))
    (setVectors (insertEnd front c (ctxs_ p))
       (if hasIn k then insertEnd front c (inCtxs_ p) else inCtxs_ p)
       (if hasOut k then insertEnd front c (outCtxs_ p) else outCtxs_ p) p).

Lemma run_addBack k a s : addBack k a s = (Ok tt, added false k a s).
Proof.
  unfold addBack, makeContext. rewrite bind_assoc, bind_get, bind_assoc, bind_modify, bind_ret.
  unfold addHelper. by erewrite bind_Ok by by apply run_deref, lookup_insert_eq.
Qed.

Lemma run_addFront k a s : addFront k a s = (Ok tt, added true k a s).
Proof.
  unfold addFront, makeContext. rewrite bind_assoc, bind_get, bind_assoc, bind_modify, bind_ret.
  unfold addHelper. by erewrite bind_Ok by by apply run_deref, lookup_insert_eq.
Qed.

Lemma filter_insertEnd (f : nat -> bool) b c (l : list nat) :
  filter f (insertEnd b c l) = if f c then insertEnd b c (filter f l) else filter f l.
Proof.
  destruct b; simpl.
  - rewrite filter_cons. by destruct (f c).
  - rewrite filter_app, filter_cons, filter_nil. destruct (f c); simpl; [done|].
    by rewrite app_nil_r.
Qed.

Lemma elem_of_insertEnd b c d (l : list nat) : d ∈ insertEnd b c l <-> d = c \/ d ∈ l.
Proof. destruct b; simpl; set_solver. Qed.

Lemma filter_ext_in (f g : nat -> bool) (l : list nat) :
  (forall c, c ∈ l -> f c = g c) -> filter f l = filter g l.
Proof.
  induction l as [|c l IH]; intros Hfg; [done|].
  rewrite !filter_cons, Hfg by set_solver. rewrite IH; [done|]. intros; apply Hfg; set_solver.
Qed.

Lemma wf_added b k a s : wf s -> wf (added b k a s).
Proof.
  intros [H1 H2 H3 H4 H5]. set (n := nextCtx (heap s)).
  assert (Hn : n ∉ ctxs_ (self s)).
  { intros Hin. specialize (H3 n (H2 n Hin)). unfold n in H3. lia. }
  assert (Hother : forall c, c ∈ ctxs_ (self s) -> c <> n) by (by intros c Hc ->).
  split; simpl.
  - destruct b; simpl; [by constructor|]. apply NoDup_app. repeat split; [done| |apply NoDup_singleton].
    set_solver.
  - intros c [->|Hc]%elem_of_insertEnd; unfold live; simpl.
    + rewrite lookup_insert_eq. eauto.
    + rewrite lookup_insert_ne by (apply not_eq_sym; auto). by apply H2.
  - intros c. unfold live; simpl. fold n. destruct (decide (n = c)) as [<-|Hne].
    { lia. }
    rewrite lookup_insert_ne by done. intros Hc. specialize (H3 c Hc). fold n in H3. lia.
  - rewrite filter_insertEnd. unfold inSide at 1. simpl. rewrite lookup_insert_eq. simpl.
    rewrite H4. erewrite (filter_ext_in (inSide (mkHeap _ _ _ _))); [done|].
    intros c Hc. unfold inSide. simpl. by rewrite lookup_insert_ne by (apply not_eq_sym; auto).
  - rewrite filter_insertEnd. unfold outSide at 1. simpl. rewrite lookup_insert_eq. simpl.
    rewrite H5. erewrite (filter_ext_in (outSide (mkHeap _ _ _ _))); [done|].
    intros c Hc. unfold outSide. simpl. by rewrite lookup_insert_ne by (apply not_eq_sym; auto).
Qed.

(** ** The loop of [removeHelper] *)

(** Is [c] one of the contexts [removeHelper] looks for? *)
Definition matchesAt (h : Heap) (k : HandlerClass) (handler : option nat) (c : nat) : bool :=
  match contexts h !! c with
  | Some x => matchesHandler k handler x
  | None => false
  end.

Lemma matchesAt_detached h k o c x c' :
  contexts h !! c = Some x -> matchesAt (detachedHeap c x h) k o c' = matchesAt h k o c'.
Proof.
  intros Hx. unfold matchesAt. simpl. destruct (decide (c = c')) as [<-|].
  - by rewrite lookup_insert_eq, Hx.
  - by rewrite lookup_insert_ne.
Qed.

(** The state after the loop: the matching contexts at or after [it] are gone. *)
Lemma run_removeLoop fuel k o : forall it removed s,
  wf s -> length (ctxs_ (self s)) <= it + fuel ->
  exists s', removeLoop fuel k o it removed s =
      (Ok (removed || existsb (matchesAt (heap s) k o) (drop it (ctxs_ (self s)))), s') /\
    wf s' /\
    ctxs_ (self s') = take it (ctxs_ (self s)) ++
      filter (fun c => matchesAt (heap s) k o c = false) (drop it (ctxs_ (self s))).
Proof.
  induction fuel as [|fuel IH]; intros it removed s Hwf Hlen.
  - simpl. exists s. rewrite bind_get.
    rewrite drop_ge, take_ge by lia. simpl. rewrite orb_false_r, app_nil_r.
    by destruct (ctxs_ (self s) !! it).
  - simpl. rewrite bind_get. destruct (ctxs_ (self s) !! it) as [c|] eqn:Hit.
    2: { apply lookup_ge_None in Hit. exists s.
         rewrite drop_ge, take_ge by lia. simpl. by rewrite orb_false_r, app_nil_r. }
    destruct (wf_live _ Hwf c) as [x Hx]; [by eapply list_elem_of_lookup_2|].
    erewrite bind_Ok by by apply run_deref.
    pose proof (drop_S _ _ _ Hit) as Hdrop.
    assert (Hm : matchesAt (heap s) k o c = matchesHandler k o x) by by unfold matchesAt; rewrite Hx.
    destruct (matchesHandler k o x) eqn:Hmatch.
    + erewrite bind_Ok by by apply run_removeAt.
      assert (Hctxs : filter (.≠ c) (ctxs_ (self s)) =
                      take it (ctxs_ (self s)) ++ drop (S it) (ctxs_ (self s))).
      { rewrite <- (delete_NoDup _ it) by (done || apply Hwf). by apply delete_take_drop. }
      pose proof (lookup_lt_Some _ _ _ Hit) as Hlt.
      destruct (IH it true _ (wf_removeAt s c x Hwf Hx)) as (s' & E & Hwf' & Hl').
      { simpl. rewrite Hctxs, length_app, length_take, length_drop. lia. }
      exists s'. split; [|split; [done|]].
      * rewrite E. rewrite Hdrop. simpl. rewrite Hm. simpl. by rewrite orb_true_r.
      * rewrite Hl'. simpl. rewrite Hctxs.
        rewrite take_app_le, drop_app_length' by (rewrite length_take; lia).
        rewrite take_take, Nat.min_id. f_equal.
        rewrite Hdrop, filter_cons_False by (rewrite Hm; done).
        apply list_filter_iff. intros c'. by rewrite (matchesAt_detached _ _ _ _ _ _ Hx).
    + destruct (IH (S it) removed s Hwf) as (s' & E & Hwf' & Hl'); [lia|].
      exists s'. split; [|split; [done|]].
      * rewrite E, Hdrop. simpl. by rewrite Hm.
      * rewrite Hl', (take_S_r _ _ _ Hit), <- app_assoc, Hdrop.
        simpl. rewrite filter_cons_True by (rewrite Hm; done). done.
Qed.
