(* ===== verification/PipelineLinks.v ===== *)
(** * Pipelines: the links [finalize] sets, and the attachment it performs

    The two linking loops are the same loop over two fields, so their lemma is
    proved once for an arbitrary field ([Section linking]) and used for both. *)
From Stdlib Require Import ZArith Lia.
From stdpp Require Import base numbers list gmap strings.
From S2P Require Import Prelude Pipeline PipelineFacts.
Open Scope cpp_scope.

Set Default Goal Selector "!".

(** Update of every context of a heap. *)
Definition mapContexts (f : nat -> ContextImpl -> ContextImpl) (h : Heap) : Heap :=
  mkHeap (map_imap (fun c x => Some (f c x)) (contexts h)) (handlers h) (nextCtx h) (hooks h).

Lemma mapContexts_lookup f h c : contexts (mapContexts f h) !! c = f c <$> contexts h !! c.
Proof. simpl. rewrite map_lookup_imap. by destruct (contexts h !! c). Qed.

Lemma heap_eq h h' :
  (forall c, contexts h !! c = contexts h' !! c) -> handlers h = handlers h' ->
  nextCtx h = nextCtx h' -> hooks h = hooks h' -> h = h'.
Proof. destruct h, h'; simpl. intros Hc <- <- <-. f_equal. by apply map_eq. Qed.

(** The contexts next to each other in [l] pass the test [ok]. *)
Fixpoint adjacent (ok : HandlerClass -> HandlerClass -> bool) (h : Heap) (l : list nat) : bool :=
  match l with
  | c :: ((d :: _) as rest) =>
      match contexts h !! c, contexts h !! d with
      | Some x, Some y => ok (c_class x) (c_class y) && adjacent ok h rest
      | _, _ => false
      end
  | _ => true
  end.

Lemma adjacent_same ok h h' l : sameClasses h h' -> adjacent ok h' l = adjacent ok h l.
Proof.
  intros [Hs _]. induction l as [|c l IH]; [done|].
  destruct l as [|d l]; [done|]. cbn [adjacent] in *. rewrite IH.
  pose proof (Hs c) as Hc. pose proof (Hs d) as Hd.
  destruct (contexts h' !! c), (contexts h !! c); simplify_eq/=; try done.
  destruct (contexts h' !! d), (contexts h !! d); simplify_eq/=; try done.
  congruence.
Qed.

Section linking.
Variable setField : option nat -> ContextImpl -> ContextImpl.
Variable ok : HandlerClass -> HandlerClass -> bool.
Variable what : string.
Hypothesis setField_class : forall n x, c_class (setField n x) = c_class x.

Definition setNext (c : nat) (ctx : option nat) : M State unit :=
  match ctx with
  | None => updContext c (setField None)
  | Some n =>
      let! x := deref c in
      let! y := deref n in
      if ok (c_class x) (c_class y) then updContext c (setField (Some n))
      else raise (InvalidArgument what)
  end.

Definition linkField (l : list nat) (c : nat) (x : ContextImpl) : ContextImpl :=
  if decide (c ∈ l) then setField (succ l c) x else x.

Lemma run_setNext s c x n :
  contexts (heap s) !! c = Some x ->
  (forall d, n = Some d -> exists y, contexts (heap s) !! d = Some y /\
     ok (c_class x) (c_class y) = true) ->
  setNext c n s = (Ok tt, setHeap (setContext c (setField n x)) s).
Proof.
  intros Hx Hn. destruct n as [d|]; simpl; [|by apply run_updContext].
  destruct (Hn d eq_refl) as (y & Hy & Hok).
  do 2 (erewrite bind_Ok; [|by apply run_deref]). rewrite Hok. by apply run_updContext.
Qed.

Lemma linkField_cons c l x h :
  c ∉ l -> contexts h !! c = Some x ->
  mapContexts (linkField l) (setContext c (setField (head l) x) h) =
  mapContexts (linkField (c :: l)) h.
Proof.
  intros Hc Hx. apply heap_eq; try done. intros d. rewrite !mapContexts_lookup.
  simpl. unfold linkField. simpl. destruct (decide (c = d)) as [<-|Hne].
  - rewrite lookup_insert_eq, Hx. simpl.
    rewrite decide_False, decide_True by (done || set_solver). done.
  - rewrite lookup_insert_ne by done. destruct (contexts h !! d) as [y|]; [|done]. simpl.
    f_equal. repeat case_decide; set_solver.
Qed.

Lemma run_linkAll l : forall s,
  NoDup l -> (forall c, c ∈ l -> live (heap s) c) ->
  if adjacent ok (heap s) l
  then linkAll setNext l s = (Ok tt, setHeap (mapContexts (linkField l)) s)
  else (linkAll setNext l s).1 = Err (InvalidArgument what).
Proof.
  induction l as [|c l IH]; intros s Hnd Hl.
  { simpl. unfold ret. destruct s as [h p]. unfold setHeap. simpl. do 2 f_equal.
    apply heap_eq; try done. intros d. rewrite mapContexts_lookup.
    unfold linkField. simpl. by destruct (contexts h !! d). }
  apply NoDup_cons in Hnd as [Hc Hnd].
  destruct (Hl c) as [x Hx]; [set_solver|].
  assert (Hstep : forall s', setNext c (head l) s = (Ok tt, s') ->
    s' = setHeap (setContext c (setField (head l) x)) s ->
    if adjacent ok (heap s) l
    then linkAll setNext (c :: l) s = (Ok tt, setHeap (mapContexts (linkField (c :: l))) s)
    else (linkAll setNext (c :: l) s).1 = Err (InvalidArgument what)).
  { intros s' E ->. simpl. rewrite (bind_Ok _ _ _ _ _ E).
    pose proof (sameClasses_setContext _ c x (setField (head l) x) Hx (setField_class _ _)) as Hs.
    specialize (IH (setHeap (setContext c (setField (head l) x)) s) Hnd). simpl in IH.
    rewrite (adjacent_same _ _ _ _ Hs) in IH.
    destruct (adjacent ok (heap s) l); rewrite IH.
    1: unfold setHeap; simpl; by rewrite (linkField_cons c l x (heap s)).
    2: done.
    all: intros d Hd; apply (same_live _ _ _ Hs), Hl; set_solver. }
  destruct l as [|d l].
  { apply (Hstep _ (run_setNext s c x None Hx ltac:(done)) eq_refl). }
  destruct (Hl d) as [y Hy]; [set_solver|].
  change (adjacent ok (heap s) (c :: d :: l)) with
    (match contexts (heap s) !! c, contexts (heap s) !! d with
     | Some x, Some y => ok (c_class x) (c_class y) && adjacent ok (heap s) (d :: l)
     | _, _ => false end).
  rewrite Hx, Hy. destruct (ok (c_class x) (c_class y)) eqn:Hok.
  - refine (Hstep _ (run_setNext s c x (Some d) Hx _) eq_refl). naive_solver.
  - simpl. erewrite bind_Err; [done|].
    do 2 (erewrite bind_Ok; [|by apply run_deref]). by rewrite Hok.
Qed.
End linking.

(** The compatibility tests of [setNextIn] and [setNextOut]. *)
Definition okIn (j k : HandlerClass) : bool := isInboundLink (rout j) k.
Definition okOut (j k : HandlerClass) : bool := isOutboundLink (wout j) k.

Definition linkedIn (l : list nat) : Heap -> Heap := mapContexts (linkField setNextInField l).
Definition linkedOut (l : list nat) : Heap -> Heap := mapContexts (linkField setNextOutField l).

Lemma run_linkIn l s :
  NoDup l -> (forall c, c ∈ l -> live (heap s) c) ->
  if adjacent okIn (heap s) l
  then linkAll setNextIn l s = (Ok tt, setHeap (linkedIn l) s)
  else (linkAll setNextIn l s).1 = Err (InvalidArgument "inbound type mismatch").
Proof. exact (run_linkAll setNextInField okIn _ (fun _ _ => eq_refl) l s). Qed.

Lemma run_linkOut l s :
  NoDup l -> (forall c, c ∈ l -> live (heap s) c) ->
  if adjacent okOut (heap s) l
  then linkAll setNextOut l s = (Ok tt, setHeap (linkedOut l) s)
  else (linkAll setNextOut l s).1 = Err (InvalidArgument "outbound type mismatch").
Proof. exact (run_linkAll setNextOutField okOut _ (fun _ _ => eq_refl) l s). Qed.

(** ** Attachment of a list of contexts *)

(** The heap after [attachPipeline] of the detached context [c] = [x]. *)
Definition attachedHeap (c : nat) (x : ContextImpl) (h : Heap) : Heap :=
  if attached_ x then h
  else
    let n := u64 (attachCount_ (handlerAt h (handler_ x)) + 1) in
    setContext c (setAttached true x)
      (logHook (OnAttach (handler_ x) c)
        (setHandler (handler_ x) (mkHandler n (if (n =? 1)%Z then Some c else None)) h)).

Lemma run_attachPipeline s c x :
  contexts (heap s) !! c = Some x ->
  attachPipeline c s = (Ok tt, setHeap (attachedHeap c x) s).
Proof.
  intros Hx. unfold attachPipeline, attachedHeap. erewrite bind_Ok by by apply run_deref.
  destruct (attached_ x); simpl; [by destruct s|].
  unfold attachContext. rewrite bind_modify, bind_modify.
  by erewrite run_updContext.
Qed.

Lemma attachedHeap_lookup c x h d :
  contexts h !! c = Some x ->
  contexts (attachedHeap c x h) !! d =
    if decide (d = c) then Some (setAttached true x) else contexts h !! d.
Proof.
  intros Hx. unfold attachedHeap. destruct (attached_ x) eqn:Ha; simpl.
  - case_decide; [|done]. subst. rewrite Hx. destruct x; simpl in *. by rewrite Ha.
  - rewrite lookup_insert. repeat case_decide; congruence.
Qed.

Lemma attachedHeap_other c x h a :
  a <> handler_ x -> handlerAt (attachedHeap c x h) a = handlerAt h a.
Proof.
  intros Ha. unfold attachedHeap. destruct (attached_ x); [done|].
  unfold handlerAt. simpl. by rewrite lookup_insert_ne by congruence.
Qed.

(** All contexts of [l] are attached afterwards, and nothing else changes in
    the contexts or in the vectors. *)
Lemma run_attachAll l : forall s,
  (forall c, c ∈ l -> live (heap s) c) ->
  exists h', for_each l attachPipeline s = (Ok tt, mkState h' (self s)) /\
    nextCtx h' = nextCtx (heap s) /\
    forall c, contexts h' !! c =
      (if decide (c ∈ l) then setAttached true <$> contexts (heap s) !! c
       else contexts (heap s) !! c).
Proof.
  induction l as [|c l IH]; intros s Hl.
  { exists (heap s). split; [by destruct s|]. split; [done|]. intros c. by rewrite decide_False by set_solver. }
  destruct (Hl c) as [x Hx]; [set_solver|]. simpl.
  erewrite bind_Ok by by apply run_attachPipeline.
  destruct (IH (setHeap (attachedHeap c x) s)) as (h' & E & Hn & Hc).
  { intros d Hd. unfold live. simpl. rewrite attachedHeap_lookup by done.
    case_decide; [done|]. apply Hl. set_solver. }
  exists h'. split; [exact E|]. split.
  { rewrite Hn. simpl. unfold attachedHeap. by destruct (attached_ x). }
  intros d. rewrite Hc. simpl. rewrite attachedHeap_lookup by done.
  destruct (decide (d = c)) as [->|Hne].
  - rewrite Hx. rewrite (decide_True _ _ (P := c ∈ c :: l)) by set_solver.
    by case_decide.
  - destruct (decide (d ∈ l)).
    + by rewrite decide_True by set_solver.
    + by rewrite decide_False by set_solver.
Qed.

(** The address of the handler of a context. *)
Definition handlerOf (h : Heap) (c : nat) : option nat := handler_ <$> contexts h !! c.

(** Distinct detached contexts, with distinct handlers attached nowhere. *)
Definition detachedAll (h : Heap) (l : list nat) : Prop :=
  NoDup l /\ NoDup (omap (handlerOf h) l) /\
  forall c x, c ∈ l -> contexts h !! c = Some x ->
    attached_ x = false /\ attachCount_ (handlerAt h (handler_ x)) = 0%Z.

Lemma handlerOf_attached c x h d :
  contexts h !! c = Some x -> handlerOf (attachedHeap c x h) d = handlerOf h d.
Proof.
  intros Hx. unfold handlerOf. rewrite attachedHeap_lookup by done.
  case_decide; [|done]. subst. by rewrite Hx.
Qed.

Lemma attachAll_other l : forall s h' a,
  (forall c, c ∈ l -> live (heap s) c) ->
  for_each l attachPipeline s = (Ok tt, mkState h' (self s)) ->
  a ∉ omap (handlerOf (heap s)) l -> handlerAt h' a = handlerAt (heap s) a.
Proof.
  induction l as [|c l IH]; intros s h' a Hl; simpl.
  { intros E _. destruct s. unfold ret in E. by simplify_eq. }
  destruct (Hl c) as [x Hx]; [set_solver|].
  erewrite bind_Ok by by apply run_attachPipeline.
  assert (Hc : handlerOf (heap s) c = Some (handler_ x)) by (unfold handlerOf; by rewrite Hx).
  rewrite Hc. intros E [Ha1 Ha2]%not_elem_of_cons.
  assert (Homap : omap (handlerOf (attachedHeap c x (heap s))) l = omap (handlerOf (heap s)) l).
  { apply list_omap_ext, Forall_Forall2_diag, Forall_forall. intros d _. by apply handlerOf_attached. }
  rewrite (IH (setHeap (attachedHeap c x) s) h' a); simpl.
  - by apply attachedHeap_other.
  - intros d Hd. unfold live. simpl. rewrite attachedHeap_lookup by done.
    case_decide; [done|]. apply Hl. set_solver.
  - exact E.
  - by rewrite Homap.
Qed.

Lemma attachAll_fresh l : forall s h',
  (forall c, c ∈ l -> live (heap s) c) -> detachedAll (heap s) l ->
  for_each l attachPipeline s = (Ok tt, mkState h' (self s)) ->
  forall c a, c ∈ l -> handlerOf (heap s) c = Some a -> handlerAt h' a = mkHandler 1 (Some c).
Proof.
  induction l as [|d l IH]; intros s h' Hl (Hnd & Hndh & Hdet) E c a Hc Ha; [set_solver|].
  simpl in E. destruct (Hl d) as [x Hx]; [set_solver|].
  erewrite bind_Ok in E by by apply run_attachPipeline.
  destruct (Hdet d x) as [Hat Hcnt]; [set_solver|done|].
  assert (Hd : handlerOf (heap s) d = Some (handler_ x)) by (unfold handlerOf; by rewrite Hx).
  simpl in Hndh. rewrite Hd in Hndh. apply NoDup_cons in Hnd as [Hdl Hnd].
  apply NoDup_cons in Hndh as [Hxl Hndh].
  assert (Homap : omap (handlerOf (attachedHeap d x (heap s))) l = omap (handlerOf (heap s)) l).
  { apply list_omap_ext, Forall_Forall2_diag, Forall_forall. intros ? _. by apply handlerOf_attached. }
  assert (Hl' : forall c0, c0 ∈ l -> live (heap (setHeap (attachedHeap d x) s)) c0).
  { intros c0 Hc0. unfold live. simpl. rewrite attachedHeap_lookup by done.
    case_decide; [done|]. apply Hl. set_solver. }
  apply elem_of_cons in Hc as [->|Hc].
  - rewrite Hd in Ha. injection Ha as <-.
    rewrite (attachAll_other l _ _ _ Hl' E); [|simpl; by rewrite Homap].
    simpl. unfold attachedHeap. rewrite Hat, Hcnt. unfold handlerAt. simpl.
    by rewrite lookup_insert_eq.
  - apply (IH (setHeap (attachedHeap d x) s) h' Hl'); [|exact E|done|].
    2: { simpl. by rewrite handlerOf_attached. }
    split; [done|]. split; [simpl; by rewrite Homap|]. intros c0 x0 Hc0. simpl.
    rewrite attachedHeap_lookup by done. case_decide; [subst; done|]. intros Hx0.
    destruct (Hdet c0 x0) as [H1 H2]; [set_solver|done|]. split; [done|].
    rewrite attachedHeap_other; [done|]. intros Heq. apply Hxl.
    apply list_elem_of_omap. exists c0. split; [done|]. unfold handlerOf. rewrite Hx0. simpl. congruence.
Qed.

(** ** [finalize] as a whole *)

(** The end pointer: the end context when its class has the pipeline's type. *)
Definition endLink (test : HandlerClass -> bool) (h : Heap) (o : option nat) : option nat :=
  match o with
  | None => None
  | Some c => match contexts h !! c with
              | Some x => if test (c_class x) then Some c else None
              | None => None
              end
  end.

Definition frontOf (R : nat) (s : State) : option nat :=
  endLink (isInboundLink R) (heap s) (head (inCtxs_ (self s))).
Definition backOf (W : nat) (s : State) : option nat :=
  endLink (isOutboundLink W) (heap s) (last (outCtxs_ (self s))).

(** The types of neighbouring handlers agree, in each direction. *)
Definition compatibleIn (s : State) : bool := adjacent okIn (heap s) (inCtxs_ (self s)).
Definition compatibleOut (s : State) : bool :=
  adjacent okOut (heap s) (reverse (outCtxs_ (self s))).

(** The heap after both linking loops. *)
Definition linkedHeap (s : State) : Heap :=
  linkedOut (reverse (outCtxs_ (self s))) (linkedIn (inCtxs_ (self s)) (heap s)).

Lemma linkField_class f l c x :
  (forall n y, c_class (f n y) = c_class y) -> c_class (linkField f l c x) = c_class x.
Proof. intros Hf. unfold linkField. destruct (decide (c ∈ l)); [apply Hf|reflexivity]. Qed.

Lemma linkedIn_same l h : sameClasses h (linkedIn l h).
Proof.
  split; [|done]. intros c. unfold linkedIn. rewrite mapContexts_lookup.
  destruct (contexts h !! c); simpl; [|done]. by rewrite linkField_class by done.
Qed.

Lemma linkedHeap_same s : sameClasses (heap s) (linkedHeap s).
Proof.
  apply (sameClasses_trans _ _ _ (linkedIn_same (inCtxs_ (self s)) (heap s))).
  split; [|done]. intros c. unfold linkedHeap, linkedOut. rewrite mapContexts_lookup.
  destruct (contexts (linkedIn _ _) !! c); [|done]. cbn [fmap option_fmap option_map].
  by rewrite linkField_class by done.
Qed.

Definition finalizedSelf (R W : nat) (s : State) : PipelineObj :=
  setBack (backOf W s) (setFront (frontOf R s) (self s)).

Lemma run_inboundHalf R s p :
  wf s -> inCtxs_ p = inCtxs_ (self s) ->
  let c := match inCtxs_ (self s) with
           | [] => ret tt
           | c :: _ =>
               let! x := deref c in
               do! modify (setSelf (setFront (if isInboundLink R (c_class x) then Some c else None))) in
               linkAll setNextIn (inCtxs_ (self s))
           end in
  front_ p = None ->
  if compatibleIn s
  then c (mkState (heap s) p) =
         (Ok tt, mkState (linkedIn (inCtxs_ (self s)) (heap s)) (setFront (frontOf R s) p))
  else (c (mkState (heap s) p)).1 = Err (InvalidArgument "inbound type mismatch").
Proof.
  intros Hwf Hp c Hfront. unfold compatibleIn, frontOf.
  assert (Hnd : NoDup (inCtxs_ (self s))) by (rewrite (wf_in _ Hwf); by apply NoDup_filter, wf_nodup).
  assert (Hl : forall c, c ∈ inCtxs_ (self s) -> live (heap s) c).
  { intros d. rewrite (wf_in _ Hwf). intros [_ Hd]%list_elem_of_filter. by apply (wf_live _ Hwf). }
  subst c. destruct (inCtxs_ (self s)) as [|c l] eqn:E.
  - simpl. unfold ret. f_equal. unfold linkedIn, linkField. destruct p; simpl in *; subst. f_equal.
    apply heap_eq; try done. intros d. rewrite mapContexts_lookup.
    by destruct (contexts _ !! d).
  - destruct (Hl c) as [x Hx]; [set_solver|].
    set (p' := setFront (if isInboundLink R (c_class x) then Some c else None) p).
    pose proof (run_linkIn (c :: l) (mkState (heap s) p') Hnd Hl) as Hlink.
    unfold endLink. cbn [hd_error heap] in *. rewrite Hx.
    destruct (adjacent okIn (heap s) (c :: l)).
    all: erewrite bind_Ok by by apply run_deref.
    all: rewrite bind_modify; exact Hlink.
Qed.

Lemma run_outboundHalf W s s0 :
  wf s -> sameClasses (heap s) (heap s0) -> back_ (self s0) = None ->
  let c := match last (outCtxs_ (self s)) with
           | None => ret tt
           | Some c =>
               let! x := deref c in
               do! modify (setSelf (setBack (if isOutboundLink W (c_class x) then Some c else None))) in
               linkAll setNextOut (reverse (outCtxs_ (self s)))
           end in
  if compatibleOut s
  then c s0 =
         (Ok tt, mkState (linkedOut (reverse (outCtxs_ (self s))) (heap s0))
                   (setBack (backOf W s) (self s0)))
  else (c s0).1 = Err (InvalidArgument "outbound type mismatch").
Proof.
  intros Hwf Hsame Hback c. unfold compatibleOut, backOf.
  set (l := outCtxs_ (self s)) in *.
  assert (Hnd : NoDup (reverse l)).
  { apply NoDup_reverse. unfold l. rewrite (wf_out _ Hwf). by apply NoDup_filter, wf_nodup. }
  assert (Hl : forall c, c ∈ reverse l -> live (heap s0) c).
  { intros d. rewrite elem_of_reverse. unfold l. rewrite (wf_out _ Hwf).
    intros [_ Hd]%list_elem_of_filter. apply (same_live _ _ _ Hsame). by apply (wf_live _ Hwf). }
  rewrite <- (adjacent_same okOut _ _ _ Hsame).
  subst c. destruct (last l) as [c|] eqn:E.
  - destruct (Hl c) as [x Hx]; [apply elem_of_reverse; by apply last_Some_elem_of|].
    assert (Hx' : exists y, contexts (heap s) !! c = Some y /\ c_class y = c_class x).
    { pose proof (same_class _ _ Hsame c) as Hc. rewrite Hx in Hc. simpl in Hc.
      destruct (contexts (heap s) !! c) as [y|]; simplify_eq/=. eauto. }
    destruct Hx' as (y & Hy & Hyx). unfold endLink. rewrite Hy, Hyx.
    set (p' := setBack (if isOutboundLink W (c_class x) then Some c else None) (self s0)).
    pose proof (run_linkOut (reverse l) (mkState (heap s0) p') Hnd Hl) as Hlink.
    simpl in Hlink. destruct (adjacent okOut (heap s0) (reverse l)).
    all: erewrite bind_Ok by by apply run_deref.
    all: rewrite bind_modify; exact Hlink.
  - apply last_None in E. rewrite E. simpl. unfold ret. destruct s0 as [h0 p0]; simpl in *.
    do 2 f_equal; [|destruct p0; simpl in *; by subst].
    apply heap_eq; try done. intros d. unfold linkedOut. rewrite mapContexts_lookup.
    unfold linkField. simpl. by destruct (contexts _ !! d).
Qed.

Lemma run_finalize R W s :
  wf s ->
  if compatibleIn s then
    if compatibleOut s then
      exists h', finalize R W s = (Ok tt, mkState h' (finalizedSelf R W s)) /\
        for_each (reverse (ctxs_ (self s))) attachPipeline
          (mkState (linkedHeap s) (finalizedSelf R W s)) =
          (Ok tt, mkState h' (finalizedSelf R W s)) /\
        nextCtx h' = nextCtx (heap s) /\
        forall c, contexts h' !! c =
          (if decide (c ∈ ctxs_ (self s)) then setAttached true <$> contexts (linkedHeap s) !! c
           else contexts (linkedHeap s) !! c)
    else (finalize R W s).1 = Err (InvalidArgument "outbound type mismatch")
  else (finalize R W s).1 = Err (InvalidArgument "inbound type mismatch").
Proof.
  intros Hwf. unfold finalize. rewrite bind_modify, bind_get. cbn [setSelf self heap].
  change (ctxs_ (setFront None (self s))) with (ctxs_ (self s)).
  change (inCtxs_ (setFront None (self s))) with (inCtxs_ (self s)).
  change (outCtxs_ (setFront None (self s))) with (outCtxs_ (self s)).
  pose proof (run_inboundHalf R s (setFront None (self s)) Hwf eq_refl eq_refl) as Hin.
  cbv zeta in Hin.
  destruct (compatibleIn s).
  2: { match type of Hin with (?c ?s0).1 = _ => destruct (c s0) as [r s'] eqn:E end.
       simpl in Hin. subst r. by rewrite (bind_Err _ _ _ _ _ E). }
  rewrite (bind_Ok _ _ _ _ _ Hin), bind_modify. clear Hin.
  set (s0 := setSelf (setBack None) _).
  pose proof (run_outboundHalf W s s0 Hwf (linkedIn_same _ _) eq_refl) as Hout.
  cbv zeta in Hout.
  destruct (compatibleOut s).
  2: { match type of Hout with (?c s0).1 = _ => destruct (c s0) as [r s'] eqn:E end.
       simpl in Hout. subst r. by rewrite (bind_Err _ _ _ _ _ E). }
  rewrite (bind_Ok _ _ _ _ _ Hout). clear Hout.
  destruct (run_attachAll (reverse (ctxs_ (self s))) (mkState (linkedHeap s) (finalizedSelf R W s)))
    as (h' & E & Hn & Hc).
  { intros c Hc. rewrite elem_of_reverse in Hc. cbn [heap].
    apply (proj2 (same_live _ _ c (linkedHeap_same s))). exact (wf_live _ Hwf c Hc). }
  exists h'. split; [exact E|]. split; [exact E|]. split; [exact Hn|]. intros c. rewrite Hc.
  cbn [heap]. by rewrite (decide_ext (c ∈ reverse (ctxs_ (self s))) (c ∈ ctxs_ (self s))) by apply elem_of_reverse.
Qed.
