(* ===== verification/PipelineFlow.v ===== *)
(** * Pipelines: how events travel through a finalized pipeline

    Lemmas about [deliver]: the order in which forwarding handlers are called,
    and the bound on the depth of the calls for arbitrary handlers. *)
From Stdlib Require Import ZArith Lia.
From stdpp Require Import base numbers list gmap strings.
From S2P Require Import Prelude Pipeline PipelineFacts PipelineLinks.
Open Scope cpp_scope.

Set Default Goal Selector "!".

(** The position of a context in a vector. *)
Fixpoint position (l : list nat) (c : nat) : nat :=
  match l with
  | [] => 0
  | d :: l => if decide (d = c) then 0 else S (position l c)
  end.

Lemma position_middle pre c suf :
  c ∉ pre -> position (pre ++ c :: suf) c = length pre.
Proof.
  induction pre as [|d pre IH]; simpl; intros Hc; [by rewrite decide_True|].
  rewrite decide_False by set_solver. rewrite IH by set_solver. done.
Qed.

Lemma position_lt l c : c ∈ l -> position l c < length l.
Proof.
  induction l as [|d l IH]; simpl; [by intros ?%not_elem_of_nil|].
  intros Hc. case_decide; [lia|]. apply elem_of_cons in Hc as [->|Hc]; [done|].
  specialize (IH Hc). lia.
Qed.

(** In a filtered vector, the successor is further to the right. *)
Lemma position_succ_filter (f : nat -> bool) l c d :
  NoDup l -> succ (filter f l) c = Some d -> position l c < position l d.
Proof.
  intros Hnd Hs. induction l as [|e l IH]; [done|].
  apply NoDup_cons in Hnd as [He Hnd]. rewrite filter_cons in Hs. simpl.
  case_decide as Hf.
  - simpl in Hs. case_decide as Hec.
    + subst e. destruct (filter f l) as [|d' l'] eqn:E; simplify_eq/=.
      assert (d ∈ l).
      { assert (d ∈ filter f l) as [_ ?]%list_elem_of_filter by (rewrite E; set_solver). done. }
      rewrite decide_False; [lia|]. by intros ->.
    + specialize (IH Hnd Hs). assert (e <> d); [|rewrite decide_False by done; lia].
      intros ->. apply He.
      destruct (succ_Some _ _ _ (NoDup_filter f _ Hnd) Hs) as (pre & suf & E).
      assert (d ∈ filter f l) as [_ ?]%list_elem_of_filter by (rewrite E; set_solver). done.
  - specialize (IH Hnd Hs).
    assert (Hd : d ∈ l).
    { destruct (succ_Some _ _ _ (NoDup_filter f _ Hnd) Hs) as (pre & suf & E).
      assert (d ∈ filter f l) as [_ ?]%list_elem_of_filter by (rewrite E; set_solver). done. }
    assert (Hc : c ∈ l).
    { destruct (succ_Some _ _ _ (NoDup_filter f _ Hnd) Hs) as (pre & suf & E).
      assert (c ∈ filter f l) as [_ ?]%list_elem_of_filter by (rewrite E; set_solver). done. }
    rewrite !decide_False by (by intros ->). lia.
Qed.

(** The same for a vector read backwards. *)
Lemma position_succ_reverse (f : nat -> bool) l c d :
  NoDup l -> succ (reverse (filter f l)) c = Some d -> position l d < position l c.
Proof.
  intros Hnd Hs.
  assert (Hndr : NoDup (reverse (filter f l))) by by apply NoDup_reverse, NoDup_filter.
  destruct (succ_Some _ _ _ Hndr Hs) as (pre & suf & E).
  apply (f_equal reverse) in E. rewrite reverse_involutive in E.
  rewrite reverse_app, !reverse_cons, <- !app_assoc in E. simpl in E.
  apply position_succ_filter with f; [done|]. rewrite E.
  apply succ_middle, (NoDup_middle_pre _ (c :: reverse pre)). rewrite <- E. by apply NoDup_filter.
Qed.

Section flow.
Context {Msg Exn : Type}.
Implicit Types (e : event Msg Exn).

(** ** Forwarding handlers *)

(** What the contexts of [l] show when each handler turns the event it gets
    into one event and fires that. *)
Fixpoint path (f : nat -> event Msg Exn -> event Msg Exn) (h : Heap) (l : list nat) e
    : list (visit Msg Exn) :=
  match l with
  | [] => reachedEnd e
  | c :: l =>
      match contexts h !! c with
      | None => [Dangling c]
      | Some x => Visit (handler_ x) e :: path f h l (f (handler_ x) e)
      end
  end.

(** The event each of the handlers is given. *)
Fixpoint events (f : nat -> event Msg Exn -> event Msg Exn) (hs : list nat) e
    : list (event Msg Exn) :=
  match hs with
  | [] => []
  | a :: hs => e :: events f hs (f a e)
  end.

(** The link an event follows. *)
Definition link (inbound : bool) (x : ContextImpl) : option nat :=
  if inbound then nextIn_ x else nextOut_ x.
Definition side (inbound : bool) (x : ContextImpl) : bool :=
  if inbound then hasIn (c_class x) else hasOut (c_class x).

(** An event the context class offers follows the link of its direction. *)
Lemma fire_link d x e :
  fireable (c_class x) e = true ->
  fire d x e = match link (isInbound e) x with
               | Some n => d n e
               | None => Some (reachedEnd e)
               end.
Proof.
  unfold fireable, fire, ContextImpl_fire, InboundContextImpl_fire, OutboundContextImpl_fire,
    fireIn, fireOut, link, hasIn, hasOut.
  by destruct (isInbound e), (dir (c_class x)).
Qed.

Lemma deliver_path (f : nat -> event Msg Exn -> event Msg Exn) (b : bool) h l :
  (forall a e, isInbound e = b -> isInbound (f a e) = b) ->
  NoDup l ->
  (forall c, c ∈ l -> exists x, contexts h !! c = Some x /\ side b x = true /\
     link b x = succ l c) ->
  forall suf pre c e, l = pre ++ c :: suf -> isInbound e = b ->
  forall fuel, length suf < fuel ->
  deliver (fun a _ e => [f a e]) h fuel c e = Some (path f h (c :: suf) e).
Proof.
  intros Hf Hnd Hl suf. induction suf as [|d suf IH]; intros pre c e El He [|fuel] Hfuel;
    simpl in Hfuel; try lia.
  all: destruct (Hl c) as (x & Hx & Hside & Hlink); [rewrite El; set_solver|].
  all: simpl; rewrite Hx.
  all: assert (Hfire : fireable (c_class x) (f (handler_ x) e) = true)
    by (unfold fireable; rewrite Hf by done; unfold side in Hside; by destruct b).
  all: rewrite (filter_cons_True (fun e => fireable (c_class x) e)), filter_nil by (by rewrite Hfire).
  all: rewrite El, succ_middle in Hlink by (eapply NoDup_middle_pre; by rewrite <- El).
  all: simpl; rewrite fire_link, Hf, Hlink by done; simpl.
  - by rewrite app_nil_r.
  - rewrite (IH (pre ++ [c]) d).
    + simpl. by rewrite app_nil_r.
    + by rewrite <- app_assoc.
    + auto.
    + lia.
Qed.

(** ** Arbitrary handlers *)

(** A region of contexts closed under links, on which inbound links go up a
    rank below [N] and outbound links go down. *)
Record ranked (h : Heap) (L : list nat) (rank : nat -> nat) (N : nat) : Prop := {
  rank_live : forall c, c ∈ L -> live h c;
  rank_lt : forall c, c ∈ L -> rank c < N;
  rank_in : forall c x d, c ∈ L -> contexts h !! c = Some x -> hasIn (c_class x) = true ->
    nextIn_ x = Some d -> d ∈ L /\ rank c < rank d;
  rank_out : forall c x d, c ∈ L -> contexts h !! c = Some x -> hasOut (c_class x) = true ->
    nextOut_ x = Some d -> d ∈ L /\ rank d < rank c
}.

(** Calls outstanding at most below the delivery of [e] at [c]. *)
Definition depth (rank : nat -> nat) (N : nat) (c : nat) e : nat :=
  if isInbound e then N + (N - rank c) else S (rank c).

Definition isDangling (v : visit Msg Exn) : bool :=
  match v with Dangling _ => true | _ => false end.

Lemma deliver_total on h L rank N :
  ranked h L rank N ->
  (forall a k e, isInbound e = false -> Forall (fun e' => isInbound e' = false) (on a k e)) ->
  forall fuel c e, c ∈ L -> depth rank N c e <= fuel ->
  exists vs, deliver on h fuel c e = Some vs /\ Forall (fun v => isDangling v = false) vs.
Proof.
  intros Hr Hon fuel. induction fuel as [|fuel IH]; intros c e Hc Hd.
  { unfold depth in Hd. pose proof (rank_lt _ _ _ _ Hr c Hc). destruct (isInbound e); lia. }
  simpl. destruct (rank_live _ _ _ _ Hr c Hc) as [x Hx]. rewrite Hx.
  pose proof (rank_lt _ _ _ _ Hr c Hc) as Hlt.
  assert (Hall : Forall (fun e' => exists vs, fire (deliver on h fuel) x e' = Some vs /\
      Forall (fun v => isDangling v = false) vs)
    (filter (fireable (c_class x)) (on (handler_ x) (c_class x) e))).
  { apply Forall_forall. intros e' [Hf He']%list_elem_of_filter.
    rewrite fire_link by by apply Is_true_true. unfold link.
    assert (Hend : Forall (fun v => isDangling v = false) (reachedEnd e'))
      by (destruct e'; repeat constructor).
    destruct (isInbound e') eqn:E'; unfold fireable in Hf; rewrite E' in Hf.
    - destruct (nextIn_ x) as [d|] eqn:Hn; [|eauto].
      destruct (rank_in _ _ _ _ Hr c x d) as [HdL Hdr]; [done..|by apply Is_true_true in Hf|done|].
      apply IH; [done|]. unfold depth in *. rewrite E'.
      pose proof (rank_lt _ _ _ _ Hr d HdL).
      destruct (isInbound e) eqn:E; [lia|]. exfalso.
      specialize (Hon (handler_ x) (c_class x) e E). rewrite Forall_forall in Hon.
      specialize (Hon _ He'). congruence.
    - destruct (nextOut_ x) as [d|] eqn:Hn; [|eauto].
      destruct (rank_out _ _ _ _ Hr c x d) as [HdL Hdr]; [done..|by apply Is_true_true in Hf|done|].
      apply IH; [done|]. unfold depth in *. rewrite E'. destruct (isInbound e); lia. }
  assert (Hm : exists vss, mapM (fire (deliver on h fuel) x)
      (filter (fireable (c_class x)) (on (handler_ x) (c_class x) e)) = Some vss /\
      Forall (Forall (fun v => isDangling v = false)) vss).
  { induction Hall as [|e' l (vs & Hvs & Hvd) _ (vss & Hm & Hmd)]; simpl; [eauto|].
    rewrite Hvs, Hm. simpl. eexists. split; [done|]. by constructor. }
  destruct Hm as (vss & -> & Hvd). simpl. eexists. split; [done|].
  constructor; [done|]. by apply Forall_concat.
Qed.
End flow.

(** ** Finalized pipelines *)

Section finalized.
Variables (R W : nat) (s s' : State).
Hypothesis Hwf : wf s.
Hypothesis Hfin : finalize R W s = (Ok tt, s').

Lemma finalized_compatible : compatibleIn s = true /\ compatibleOut s = true.
Proof.
  pose proof (run_finalize R W s Hwf) as Hrun. rewrite Hfin in Hrun.
  by destruct (compatibleIn s), (compatibleOut s).
Qed.

Lemma finalized_self : self s' = finalizedSelf R W s.
Proof.
  pose proof (run_finalize R W s Hwf) as Hrun. rewrite Hfin in Hrun.
  destruct (compatibleIn s), (compatibleOut s); try done.
  destruct Hrun as (h' & [= ->] & _). done.
Qed.

Lemma finalized_attach :
  for_each (reverse (ctxs_ (self s))) attachPipeline
    (mkState (linkedHeap s) (finalizedSelf R W s)) = (Ok tt, s').
Proof.
  pose proof (run_finalize R W s Hwf) as Hrun. rewrite Hfin in Hrun.
  destruct (compatibleIn s), (compatibleOut s); try done.
  destruct Hrun as (h' & [= ->] & E & _). done.
Qed.

(** Every context of the pipeline, after [finalize]. *)
Lemma finalized_context c :
  c ∈ ctxs_ (self s) ->
  exists x, contexts (heap s) !! c = Some x /\
    contexts (heap s') !! c = Some (setAttached true
      (linkField setNextOutField (reverse (outCtxs_ (self s))) c
        (linkField setNextInField (inCtxs_ (self s)) c x))).
Proof.
  intros Hc. pose proof (run_finalize R W s Hwf) as Hrun. rewrite Hfin in Hrun.
  destruct (compatibleIn s), (compatibleOut s); try done.
  destruct Hrun as (h' & [= ->] & _ & _ & Hctx). simpl.
  destruct (wf_live _ Hwf c Hc) as [x Hx]. exists x. split; [done|].
  rewrite Hctx, decide_True by done. unfold linkedHeap, linkedOut, linkedIn.
  by rewrite !mapContexts_lookup, Hx.
Qed.

Lemma finalized_nextIn c x :
  c ∈ inCtxs_ (self s) -> contexts (heap s') !! c = Some x ->
  nextIn_ x = succ (inCtxs_ (self s)) c /\ hasIn (c_class x) = true.
Proof.
  intros Hc Hx. assert (Hc' := Hc). rewrite (wf_in _ Hwf) in Hc'.
  apply list_elem_of_filter in Hc' as [Hside Hc'].
  destruct (finalized_context c Hc') as (y & Hy & E). rewrite Hx in E. injection E as ->.
  unfold inSide in Hside. rewrite Hy in Hside. unfold linkField.
  destruct (decide (c ∈ inCtxs_ (self s))); [|done].
  destruct (decide (c ∈ reverse (outCtxs_ (self s)))); simpl.
  all: by destruct (hasIn (c_class y)).
Qed.

Lemma finalized_nextOut c x :
  c ∈ outCtxs_ (self s) -> contexts (heap s') !! c = Some x ->
  nextOut_ x = succ (reverse (outCtxs_ (self s))) c /\ hasOut (c_class x) = true.
Proof.
  intros Hc Hx. assert (Hc' := Hc). rewrite (wf_out _ Hwf) in Hc'.
  apply list_elem_of_filter in Hc' as [Hside Hc'].
  destruct (finalized_context c Hc') as (y & Hy & E). rewrite Hx in E. injection E as ->.
  unfold outSide in Hside. rewrite Hy in Hside. unfold linkField.
  rewrite (decide_True _ _ (P := c ∈ reverse (outCtxs_ (self s)))) by by rewrite elem_of_reverse.
  simpl. split; [done|]. destruct (decide (c ∈ inCtxs_ (self s))); simpl.
  all: by destruct (hasOut (c_class y)).
Qed.

Lemma finalized_class c x :
  c ∈ ctxs_ (self s) -> contexts (heap s') !! c = Some x ->
  inSide (heap s) c = hasIn (c_class x) /\ outSide (heap s) c = hasOut (c_class x) /\
  handlerOf (heap s) c = Some (handler_ x).
Proof.
  intros Hc Hx. destruct (finalized_context c Hc) as (y & Hy & E). rewrite Hx in E.
  injection E as ->. unfold inSide, outSide, handlerOf. rewrite Hy. simpl.
  rewrite !linkField_class by done. repeat split. f_equal. unfold linkField.
  by repeat case_decide.
Qed.

Lemma finalized_ranked :
  ranked (heap s') (ctxs_ (self s)) (position (ctxs_ (self s))) (length (ctxs_ (self s))).
Proof.
  pose proof (wf_nodup _ Hwf) as Hnd. split.
  - intros c Hc. destruct (finalized_context c Hc) as (x & _ & E). unfold live. rewrite E. eauto.
  - apply position_lt.
  - intros c x d Hc Hx Hin Hn. destruct (finalized_class c x Hc Hx) as (Hs & _ & _).
    assert (HcI : c ∈ inCtxs_ (self s)).
    { rewrite (wf_in _ Hwf). apply list_elem_of_filter. by rewrite Hs, Hin. }
    destruct (finalized_nextIn c x HcI Hx) as [E _]. rewrite Hn in E. symmetry in E.
    rewrite (wf_in _ Hwf) in E. split; [|by eapply position_succ_filter].
    destruct (succ_Some _ _ _ (NoDup_filter _ _ Hnd) E) as (pre & suf & El).
    assert (d ∈ filter (inSide (heap s)) (ctxs_ (self s))) as [_ ?]%list_elem_of_filter
      by (rewrite El; set_solver). done.
  - intros c x d Hc Hx Hout Hn. destruct (finalized_class c x Hc Hx) as (_ & Hs & _).
    assert (HcO : c ∈ outCtxs_ (self s)).
    { rewrite (wf_out _ Hwf). apply list_elem_of_filter. by rewrite Hs, Hout. }
    destruct (finalized_nextOut c x HcO Hx) as [E _]. rewrite Hn in E. symmetry in E.
    rewrite (wf_out _ Hwf) in E. split; [|by eapply position_succ_reverse].
    destruct (succ_Some _ _ _ (NoDup_reverse _ (NoDup_filter _ _ Hnd)) E) as (pre & suf & El).
    assert (d ∈ reverse (filter (outSide (heap s)) (ctxs_ (self s)))) as Hd
      by (rewrite El; set_solver).
    rewrite elem_of_reverse in Hd. by apply list_elem_of_filter in Hd as [_ ?].
Qed.
End finalized.
