(* ===== verification/PipelineProps.v ===== *)
(** * Pipelines: the properties

    The main theorems about Pipeline.v, each with a witness, and
    the few lemmas that assemble them from PipelineFacts.v and
    PipelineLinks.v. *)
From Stdlib Require Import ZArith Lia.
From stdpp Require Import base numbers list gmap strings.
From S2P Require Import Prelude Pipeline PipelineFacts PipelineLinks PipelineFlow.
Open Scope cpp_scope.

Set Default Goal Selector "!".

(** ** Programs that edit a pipeline *)

Inductive cmd : Type :=
| CAddBack (k : HandlerClass) (a : nat)
| CAddFront (k : HandlerClass) (a : nat)
| CRemove (k : HandlerClass)
| CRemoveHandler (k : HandlerClass) (a : nat)
| CRemoveFront
| CRemoveBack
| CSetOwner (k : HandlerClass) (a : nat)
| CFinalize (R W : nat)
| CDestroy.

Definition exec (c : cmd) : M State unit :=
  match c with
  | CAddBack k a => addBack k a
  | CAddFront k a => addFront k a
  | CRemove k => remove k
  | CRemoveHandler k a => removeHandler k a
  | CRemoveFront => removeFront
  | CRemoveBack => removeBack
  | CSetOwner k a => do! setOwner k a in ret tt
  | CFinalize R W => finalize R W
  | CDestroy => destroy
  end.

(** The client catches the exceptions and goes on; the faults are collected. *)
Fixpoint execAll (l : list cmd) (s : State) : list fault * State :=
  match l with
  | [] => ([], s)
  | c :: l =>
      let (r, s') := exec c s in
      let (fs, s'') := execAll l s' in
      (match r with Ok _ => fs | Err f => f :: fs end, s'')
  end.

(** ** Sample handler classes and pipelines, for the witnesses *)

Definition bytesClass : HandlerClass := mkClass 1 BOTH 10 10 11 11.
Definition decoderClass : HandlerClass := mkClass 2 IN 10 12 0 0.
Definition encoderClass : HandlerClass := mkClass 3 OUT 0 0 13 11.
Definition serviceClass : HandlerClass := mkClass 4 BOTH 12 12 13 13.

Definition sample : State :=
  (execAll [CAddBack bytesClass 7; CAddBack decoderClass 8; CAddBack encoderClass 9;
            CAddBack serviceClass 5] (create emptyHeap)).2.

Lemma wf_create h : (forall c, live h c -> c < nextCtx h) -> wf (create h).
Proof. intros Hf. by split; simpl; [constructor|set_solver|..]. Qed.

Lemma preserves_findContext l t l' :
  (forall c, c ∈ l' -> c ∈ l) -> preserves (wfWith l) catchable (findContext t l').
Proof.
  induction l' as [|c l' IH]; intros Hsub; simpl; [apply preserves_ret|].
  intros s [Hwf Hl]. destruct (Hl c) as [x Hx]; [set_solver|].
  erewrite bind_Ok by by apply run_deref. destruct (t x); [by apply preserves_ret|].
  apply IH; [set_solver|done].
Qed.

Lemma wf_setSelf s g :
  (forall p, ctxs_ (g p) = ctxs_ p /\ inCtxs_ (g p) = inCtxs_ p /\ outCtxs_ (g p) = outCtxs_ p) ->
  wf s -> wf (setSelf g s).
Proof.
  intros Hg [H1 H2 H3 H4 H5]. destruct (Hg (self s)) as (E1 & E2 & E3).
  split; simpl; rewrite ?E1, ?E2, ?E3; done.
Qed.

Lemma preserves_setSelf l g :
  (forall p, ctxs_ (g p) = ctxs_ p /\ inCtxs_ (g p) = inCtxs_ p /\ outCtxs_ (g p) = outCtxs_ p) ->
  preserves (wfWith l) catchable (modify (setSelf g)).
Proof.
  intros Hg. apply preserves_modify. intros s [Hwf Hl]. split; [|done]. by apply wf_setSelf.
Qed.

Lemma wf_remove k o : preserves wf catchable (removeHelper k o).
Proof.
  intros s Hwf. unfold removeHelper. rewrite bind_get.
  destruct (run_removeLoop (length (ctxs_ (self s))) k o 0 false s Hwf) as (s' & E & Hwf' & _).
  { done. }
  rewrite (bind_Ok _ _ _ _ _ E). simpl. case_match; simpl; split; try done.
  by intros f [= <-].
Qed.

Lemma wf_removeEnd (c : State -> nat) :
  (forall s, ctxs_ (self s) <> [] -> is_Some (ctxs_ (self s) !! c s)) ->
  forall s, wf s -> ctxs_ (self s) <> [] ->
  wf (bind (removeAt (c s)) (fun _ => ret tt) s).2 /\
  (bind (removeAt (c s)) (fun _ => ret tt) s).1 = Ok tt.
Proof.
  intros Hc s Hwf Hne. destruct (Hc s Hne) as [d Hd].
  destruct (wf_live _ Hwf d) as [x Hx]; [by eapply list_elem_of_lookup_2|].
  rewrite (bind_Ok _ _ _ _ _ (run_removeAt _ _ _ _ Hwf Hd Hx)).
  split; [by apply wf_removeAt|done].
Qed.

Lemma inCtxs_sub s c : wf s -> c ∈ inCtxs_ (self s) -> c ∈ ctxs_ (self s).
Proof. intros Hwf. rewrite (wf_in _ Hwf). by intros [_ ?]%list_elem_of_filter. Qed.

Lemma outCtxs_sub s c : wf s -> c ∈ outCtxs_ (self s) -> c ∈ ctxs_ (self s).
Proof. intros Hwf. rewrite (wf_out _ Hwf). by intros [_ ?]%list_elem_of_filter. Qed.

(** Setting an end pointer and linking from there. *)
Lemma preserves_linkEnd l (o : option nat) g setNext l' :
  (forall c, o = Some c -> c ∈ l) ->
  (forall c x p, ctxs_ (g c x p) = ctxs_ p /\ inCtxs_ (g c x p) = inCtxs_ p /\
     outCtxs_ (g c x p) = outCtxs_ p) ->
  preserves (wfWith l) catchable (linkAll setNext l') ->
  preserves (wfWith l) catchable
    (match o with
     | None => ret tt
     | Some c =>
         let! x := deref c in
         do! modify (setSelf (g c x)) in
         linkAll setNext l'
     end).
Proof.
  intros Ho Hg Hlink. destruct o as [c|]; [|apply preserves_ret].
  apply preserves_deref; [auto|]. intros x.
  apply preserves_bind; [by apply preserves_setSelf|]. by intros _.
Qed.

Lemma wf_finalize R W : preserves wf catchable (finalize R W).
Proof.
  intros s Hwf. unfold finalize. rewrite bind_modify, bind_get.
  set (s1 := setSelf (setFront None) s). set (l := ctxs_ (self s)).
  assert (Hwf1 : wf s1) by by apply wf_setSelf.
  cut (preserves (wfWith l) catchable (
    do! match head (inCtxs_ (self s1)) with
        | None => ret tt
        | Some c =>
            let! x := deref c in
            do! modify (setSelf (setFront (if isInboundLink R (c_class x) then Some c else None))) in
            linkAll setNextIn (inCtxs_ (self s1))
        end in
    do! modify (setSelf (setBack None)) in
    do! match last (outCtxs_ (self s1)) with
        | None => ret tt
        | Some c =>
            let! x := deref c in
            do! modify (setSelf (setBack (if isOutboundLink W (c_class x) then Some c else None))) in
            linkAll setNextOut (reverse (outCtxs_ (self s1)))
        end in
    for_each (reverse (ctxs_ (self s1))) attachPipeline)).
  { intros Hp. destruct (Hp s1) as [[Hw _] Hf]; [split; [done|apply (wf_live _ Hwf1)]|].
    destruct (inCtxs_ (self s1)) eqn:E; simpl in *; rewrite ?E; done. }
  assert (Hin : forall c, c ∈ inCtxs_ (self s1) -> c ∈ l) by by intros c; apply (inCtxs_sub s1).
  assert (Hout : forall c, c ∈ outCtxs_ (self s1) -> c ∈ l) by by intros c; apply (outCtxs_sub s1).
  apply preserves_bind; [|intros _; apply preserves_bind; [by apply preserves_setSelf|];
    intros _; apply preserves_bind; [|intros _]].
  - apply (preserves_linkEnd l (head (inCtxs_ (self s1)))
      (fun c x => setFront (if isInboundLink R (c_class x) then Some c else None)));
      [intros c Hc; apply Hin|done|].
    { destruct (inCtxs_ (self s1)); simplify_eq/=; set_solver. }
    apply preserves_linkAll; [|done]. intros; by apply preserves_setNextIn.
  - apply (preserves_linkEnd l (last (outCtxs_ (self s1)))
      (fun c x => setBack (if isOutboundLink W (c_class x) then Some c else None)));
      [intros c Hc; apply Hout|done|].
    { by apply last_Some_elem_of. }
    apply preserves_linkAll; [intros; by apply preserves_setNextOut|].
    intros c Hc. apply Hout. by rewrite elem_of_reverse in Hc.
  - apply preserves_for_each. intros c Hc. apply preserves_attachPipeline. by rewrite elem_of_reverse in Hc.
Qed.

Lemma wf_destroy : preserves wf catchable destroy.
Proof.
  intros s Hwf. unfold destroy. rewrite bind_get. case_match; [by apply preserves_ret|].
  unfold detachHandlers. rewrite bind_get.
  cut (preserves (wfWith (ctxs_ (self s))) catchable
    (for_each (ctxs_ (self s)) (fun c =>
      let! s := get in
      if bool_decide (Some c = owner_ (self s)) then ret tt else detachPipeline c))).
  { intros Hp. destruct (Hp s) as [[Hw _] Hf]; [split; [done|apply (wf_live _ Hwf)]|done]. }
  apply preserves_for_each. intros c Hc s' Hs'. rewrite bind_get.
  case_match; [by apply preserves_ret|by apply preserves_detachPipeline].
Qed.

Lemma wf_setOwner k a : preserves wf catchable (bind (setOwner k a) (fun _ => ret tt)).
Proof.
  intros s Hwf. unfold setOwner. rewrite bind_assoc, bind_get, bind_assoc.
  cut (preserves (wfWith (ctxs_ (self s))) catchable
    (let! o := findContext (matchesHandler k (Some a)) (ctxs_ (self s)) in
     bind (match o with
           | None => ret false
           | Some c => do! modify (setSelf (setOwnerField (Some c))) in ret true
           end) (fun _ => ret tt))).
  { intros Hp. destruct (Hp s) as [[Hw _] Hf]; [split; [done|apply (wf_live _ Hwf)]|done]. }
  apply preserves_bind; [by apply preserves_findContext|]. intros [c|].
  - apply preserves_bind; [|intros; apply preserves_ret].
    apply preserves_bind; [by apply preserves_setSelf|intros; apply preserves_ret].
  - apply preserves_bind; [apply preserves_ret|intros; apply preserves_ret].
Qed.

Lemma wf_exec c : preserves wf catchable (exec c).
Proof.
  destruct c; simpl; intros s Hwf.
  - rewrite run_addBack. split; [by apply wf_added|done].
  - rewrite run_addFront. split; [by apply wf_added|done].
  - by apply wf_remove.
  - by apply wf_remove.
  - unfold removeFront. rewrite bind_get. destruct (ctxs_ (self s)) as [|c l] eqn:E.
    { split; [done|]. by intros f [= <-]. }
    destruct (wf_removeEnd (fun _ => 0)) with s as [H1 H2]; rewrite ?E; try done.
    { intros s0. destruct (ctxs_ (self s0)); [done|]. simpl. eauto. }
    split; [done|]. rewrite H2. done.
  - unfold removeBack. rewrite bind_get. destruct (ctxs_ (self s)) as [|c l] eqn:E.
    { split; [done|]. by intros f [= <-]. }
    destruct (wf_removeEnd (fun s => length (ctxs_ (self s)) - 1)) with s as [H1 H2]; rewrite ?E; try done.
    { intros s0 Hne. apply lookup_lt_is_Some_2. destruct (ctxs_ (self s0)); [done|]. simpl. lia. }
    rewrite E in H1, H2. split; [done|]. rewrite H2. done.
  - by apply wf_setOwner.
  - by apply wf_finalize.
  - by apply wf_destroy.
Qed.

(** C1. Whatever handlers are added, removed, made the owner, linked or
    detached, in whatever order and even when some calls throw, the three
    vectors of the pipeline stay consistent: no context occurs twice, and the
    inbound and outbound vectors are the contexts of that direction in pipeline
    order.  The only faults are exceptions the client can catch: neither CHECK
    of [removeAt] ever fails. *)
Theorem pipeline_vectors_consistent (l : list cmd) (s : State) :
  wf s -> wf (execAll l s).2 /\ Forall (fun f => is_exception f = true) (execAll l s).1.
Proof.
  revert s. induction l as [|c l IH]; intros s Hwf; simpl; [done|].
  destruct (wf_exec c s Hwf) as [Hwf' Hf]. destruct (exec c s) as [[[]|f] s'] eqn:E; simpl in *.
  all: destruct (IH s' Hwf') as [H1 H2]; destruct (execAll l s') as [fs s'']; simpl in *.
  - done.
  - split; [done|]. constructor; [|done]. by apply Hf.
Qed.

Lemma pipeline_vectors_consistent_witness :
  let r := execAll [CAddBack bytesClass 7; CAddFront decoderClass 8; CRemoveFront;
                    CRemoveFront; CRemoveBack; CAddBack bytesClass 7; CAddBack serviceClass 7;
                    CFinalize 10 11] (create emptyHeap) in
  (wf r.2 /\ Forall (fun f => is_exception f = true) r.1) /\
  r.1 = [InvalidArgument "No handlers in pipeline"; InvalidArgument "inbound type mismatch"] /\
  ctxs_ (self r.2) = [2; 3].
Proof.
  split; [|by vm_compute].
  apply (pipeline_vectors_consistent _ (create emptyHeap)).
  apply wf_create. intros c [x Hx]. inversion Hx.
Defined.

(** [remove<H>()] and [remove(handler)] take out exactly the contexts of
    that handler class (and of that handler), keep the order of the others in
    all three vectors, and throw exactly when there is none. *)
Lemma removeHelper_removes_all (k : HandlerClass) (o : option nat) (s : State) :
  wf s ->
  let matching := fun c => matchesAt (heap s) k o c = true in
  let others := fun c => matchesAt (heap s) k o c = false in
  let (r, s') := removeHelper k o s in
  ctxs_ (self s') = filter others (ctxs_ (self s)) /\
  wf s' /\
  (r = Ok tt <-> exists c, c ∈ ctxs_ (self s) /\ matching c) /\
  (r <> Ok tt -> r = Err (InvalidArgument "No such handler in pipeline")).
Proof.
  intros Hwf matching others. unfold removeHelper. rewrite bind_get.
  destruct (run_removeLoop (length (ctxs_ (self s))) k o 0 false s Hwf) as (s' & E & Hwf' & Hl); [done|].
  rewrite (bind_Ok _ _ _ _ _ E). simpl in *. rewrite drop_0 in *.
  destruct (existsb _ (ctxs_ (self s))) eqn:Hex; simpl; (split; [done|]; split; [done|]).
  - split; [|done]. split; [|done]. intros _.
    apply existsb_exists in Hex as (c & Hc & Hm). exists c. by rewrite list_elem_of_In.
  - split; [|done]. split; [done|]. intros (c & Hc & Hm). exfalso.
    rewrite <- not_true_iff_false in Hex. apply Hex. apply existsb_exists.
    exists c. by rewrite <- list_elem_of_In.
Qed.


(** ** [finalize] *)

(** C2. [finalize] succeeds exactly when the output type of every inbound
    handler is the input type of the next one, and likewise outbound from the
    back; otherwise it throws, with the inbound error when both directions are
    wrong.  It never ends in another way. *)
Theorem finalize_type_check (R W : nat) (s : State) :
  wf s ->
  (finalize R W s).1 =
    if compatibleIn s then
      if compatibleOut s then Ok tt else Err (InvalidArgument "outbound type mismatch")
    else Err (InvalidArgument "inbound type mismatch").
Proof.
  intros Hwf. pose proof (run_finalize R W s Hwf) as Hrun.
  destruct (compatibleIn s); [|done]. destruct (compatibleOut s); [|done].
  by destruct Hrun as (h' & -> & _).
Qed.

Lemma wf_execAll_create l : wf (execAll l (create emptyHeap)).2.
Proof.
  assert (Hwf : forall l s, wf s -> wf (execAll l s).2).
  { clear l. induction l as [|c l IH]; intros s Hs; simpl; [done|].
    destruct (wf_exec c s Hs) as [Hs' _]. destruct (exec c s) as [r s']; simpl in *.
    specialize (IH s' Hs'). by destruct (execAll l s'). }
  apply Hwf, wf_create. intros c [x Hx]. inversion Hx.
Qed.

Lemma sample_wf : wf sample.
Proof. apply wf_execAll_create. Qed.

Lemma finalize_type_check_witness :
  (finalize 10 13 sample).1 = Ok tt /\ compatibleIn sample = true /\ compatibleOut sample = true.
Proof.
  pose proof (finalize_type_check 10 13 sample sample_wf) as Hf. split; [|by vm_compute].
  rewrite Hf. by vm_compute.
Defined.

Lemma removeHelper_removes_all_witness :
  let (r, s') := removeHelper decoderClass None sample in
  ctxs_ (self s') = [0; 2; 3] /\ r = Ok tt.
Proof.
  pose proof (removeHelper_removes_all decoderClass None sample sample_wf) as Hr.
  destruct (removeHelper decoderClass None sample) as [r s'].
  destruct Hr as (Hl & _ & Hr & _). split.
  - rewrite Hl. by vm_compute.
  - apply Hr. exists 1. split; [|by vm_compute]. apply list_elem_of_In. vm_compute. tauto.
Defined.

(** The contexts an event visits, in order. *)
Definition route (inbound : bool) (s : State) : list nat :=
  if inbound then inCtxs_ (self s) else reverse (outCtxs_ (self s)).

Lemma route_sub b s c : wf s -> c ∈ route b s -> c ∈ ctxs_ (self s).
Proof.
  intros Hwf. destruct b; simpl; [by apply inCtxs_sub|]. rewrite elem_of_reverse. by apply outCtxs_sub.
Qed.

Lemma route_NoDup b s : wf s -> NoDup (route b s).
Proof.
  intros Hwf. destruct b; simpl.
  - rewrite (wf_in _ Hwf). by apply NoDup_filter, wf_nodup.
  - apply NoDup_reverse. rewrite (wf_out _ Hwf). by apply NoDup_filter, wf_nodup.
Qed.

Lemma route_length b s : wf s -> length (route b s) <= length (ctxs_ (self s)).
Proof.
  intros Hwf. destruct b; simpl; rewrite ?length_reverse, ?(wf_in _ Hwf), ?(wf_out _ Hwf);
    apply length_filter.
Qed.

(** The end pointer of a finalized pipeline is the first context of the route. *)
Lemma entry_route (b : bool) R W s c :
  (if b then front_ (finalizedSelf R W s) else back_ (finalizedSelf R W s)) = Some c ->
  exists l, route b s = c :: l.
Proof.
  intros He. assert (Hend : forall test o, endLink test (heap s) o = Some c -> o = Some c).
  { intros test [d|]; simpl; [|done]. destruct (contexts (heap s) !! d) as [x|]; [|done].
    by destruct (test (c_class x)). }
  destruct b; simpl in *; apply Hend in He.
  - destruct (inCtxs_ (self s)); simplify_eq/=. eauto.
  - apply last_Some in He as [l ->]. exists (reverse l). by rewrite reverse_app.
Qed.

Lemma call_path {Msg Exn} (b : bool) R W s s' (f : nat -> event Msg Exn -> event Msg Exn) e fuel :
  wf s -> finalize R W s = (Ok tt, s') ->
  (forall a e, isInbound e = b -> isInbound (f a e) = b) -> isInbound e = b ->
  is_Some (if b then front_ (self s') else back_ (self s')) -> numHandlers s' <= fuel ->
  call (fun a _ e => [f a e]) fuel s' e = Ok (Some (path f (heap s') (route b s) e)).
Proof.
  intros Hwf Hfin Hf He [c Hc] Hfuel. unfold call. rewrite He, Hc. f_equal.
  rewrite (finalized_self R W s s' Hwf Hfin) in Hc.
  destruct (entry_route b R W s c Hc) as [l El]. rewrite El.
  apply (deliver_path f b (heap s') (c :: l)) with (pre := []); try done.
  - rewrite <- El. by apply route_NoDup.
  - intros d Hd. rewrite <- El in Hd.
    destruct (finalized_context R W s s' Hwf Hfin d (route_sub _ _ _ Hwf Hd)) as (x & _ & Hx).
    eexists. split; [exact Hx|]. rewrite <- El. destruct b; simpl in Hd |- *.
    + destruct (finalized_nextIn R W s s' Hwf Hfin d _ Hd Hx) as [H1 H2]. by split.
    + rewrite elem_of_reverse in Hd.
      destruct (finalized_nextOut R W s s' Hwf Hfin d _ Hd Hx) as [H1 H2]. by split.
  - pose proof (route_length b s Hwf) as Hlen. rewrite El in Hlen. simpl in Hlen.
    unfold numHandlers in Hfuel. rewrite (finalized_self R W s s' Hwf Hfin) in Hfuel.
    simpl in Hfuel. lia.
Qed.

(** C3. In a finalized pipeline whose handlers each turn an event into one event
    of the same direction, [read], [readEOF], [readException],
    [transportActive] and [transportInactive] call every inbound handler
    exactly once, from front to back, and [write], [writeException] and
    [close] every outbound handler exactly once, from back to front; each
    handler is given the event its predecessor fired, and the last event
    reaches the end.  As many nested calls as there are handlers are enough. *)
Theorem event_order {Msg Exn : Type} (b : bool) (R W : nat) (s s' : State)
    (f : nat -> event Msg Exn -> event Msg Exn) (e : event Msg Exn) (fuel : nat) :
  wf s -> finalize R W s = (Ok tt, s') ->
  (forall a e, isInbound e = b -> isInbound (f a e) = b) -> isInbound e = b ->
  is_Some (if b then front_ (self s') else back_ (self s')) -> numHandlers s' <= fuel ->
  let hs := omap (handlerOf (heap s)) (route b s) in
  call (fun a _ e => [f a e]) fuel s' e =
    Ok (Some (zip_with Visit hs (events f hs e) ++ reachedEnd (foldl (fun e a => f a e) e hs))).
Proof.
  intros Hwf Hfin Hf He Hend Hfuel hs.
  rewrite (call_path b R W s s' f e fuel Hwf Hfin Hf He Hend Hfuel).
  do 2 f_equal. subst hs. assert (Hsub : forall c, c ∈ route b s -> c ∈ ctxs_ (self s))
    by by intros c; apply route_sub.
  clear He Hend Hfuel. revert e Hsub. induction (route b s) as [|c l IH]; intros e Hsub; [done|].
  destruct (finalized_context R W s s' Hwf Hfin c) as (x & _ & Hx); [set_solver|].
  destruct (finalized_class R W s s' Hwf Hfin c _ ltac:(set_solver) Hx) as (_ & _ & Hh).
  simpl. rewrite Hh, Hx. simpl. f_equal. apply IH. set_solver.
Qed.

(** The finalized sample, and a computation on it. *)
Definition sampleFinal : State := (finalize 10 13 sample).2.

Lemma sampleFinal_ok : finalize 10 13 sample = (Ok tt, sampleFinal).
Proof.
  pose proof (finalize_type_check 10 13 sample sample_wf) as Hf.
  unfold sampleFinal. destruct (finalize 10 13 sample) as [r s']. simpl in *. rewrite Hf.
  by vm_compute.
Qed.

Lemma event_order_witness :
  call (fun a _ (e : event nat unit) => [match e with Read m => Read (m + a) | _ => e end]) 4
    sampleFinal (Read 100) =
  Ok (Some [Visit 7 (Read 100); Visit 8 (Read 107); Visit 5 (Read 115); ReachedEnd (Read 120)]) /\
  call (fun a _ (e : event nat unit) => [e]) 4 sampleFinal (Write 1) =
  Ok (Some [Visit 5 (Write 1); Visit 9 (Write 1); Visit 7 (Write 1); ReachedEnd (Write 1)]).
Proof.
  split.
  - rewrite (event_order true 10 13 sample sampleFinal
      (fun a (e : event nat unit) => match e with Read m => Read (m + a) | _ => e end)).
    + by vm_compute.
    + exact sample_wf.
    + exact sampleFinal_ok.
    + by intros a [].
    + done.
    + vm_compute. eauto.
    + vm_compute. lia.
  - rewrite (event_order false 10 13 sample sampleFinal (fun a (e : event nat unit) => e)).
    + by vm_compute.
    + exact sample_wf.
    + exact sampleFinal_ok.
    + done.
    + done.
    + vm_compute. eauto.
    + vm_compute. lia.
Defined.

(** C4. Whatever the handlers do with an event - fire nothing, several events,
    answer an inbound event with outbound ones - delivering an event to a
    finalized pipeline comes to an end within [2 * numHandlers] nested calls
    and never follows a dangling link, provided that handlers only fire
    outbound events in reaction to outbound events. *)
Theorem delivery_terminates {Msg Exn : Type} (R W : nat) (s s' : State)
    (on : nat -> HandlerClass -> event Msg Exn -> list (event Msg Exn)) (e : event Msg Exn)
    (fuel : nat) :
  wf s -> finalize R W s = (Ok tt, s') ->
  (forall a k e, isInbound e = false -> Forall (fun e' => isInbound e' = false) (on a k e)) ->
  2 * numHandlers s' <= fuel ->
  match call on fuel s' e with
  | Ok (Some vs) => Forall (fun v => isDangling v = false) vs
  | Ok None => False
  | Err f => is_exception f = true /\
      (if isInbound e then front_ (self s') else back_ (self s')) = None
  end.
Proof.
  intros Hwf Hfin Hon Hfuel. unfold call.
  destruct (if isInbound e then front_ (self s') else back_ (self s')) as [c|] eqn:He.
  2: { destruct e; simpl in *; auto. }
  rewrite (finalized_self R W s s' Hwf Hfin) in He.
  destruct (entry_route (isInbound e) R W s c He) as [l El].
  destruct (deliver_total on (heap s') (ctxs_ (self s)) _ _ (finalized_ranked R W s s' Hwf Hfin) Hon
    fuel c e) as (vs & -> & Hvs); [| |done].
  - apply (route_sub (isInbound e)); [done|]. rewrite El. set_solver.
  - unfold depth. unfold numHandlers in Hfuel. rewrite (finalized_self R W s s' Hwf Hfin) in Hfuel.
    simpl in Hfuel. pose proof (position_lt (ctxs_ (self s)) c) as Hlt.
    specialize (Hlt (route_sub (isInbound e) s c Hwf ltac:(rewrite El; set_solver))).
    destruct (isInbound e); lia.
Qed.

(** A server that echoes what it reads, and a codec that splits it in two. *)
Definition echoBehaviour (a : nat) (k : HandlerClass) (e : event nat unit) : list (event nat unit) :=
  match e with
  | Read m => if bool_decide (a = 5) then [Write m] else if bool_decide (a = 8) then [Read m; Read (S m)] else [e]
  | _ => [e]
  end.

Lemma delivery_terminates_witness :
  call echoBehaviour 8 sampleFinal (Read 0) =
    Ok (Some [Visit 7 (Read 0); Visit 8 (Read 0);
              Visit 5 (Read 0); Visit 9 (Write 0); Visit 7 (Write 0); ReachedEnd (Write 0);
              Visit 5 (Read 1); Visit 9 (Write 1); Visit 7 (Write 1); ReachedEnd (Write 1)]) /\
  match call echoBehaviour 8 sampleFinal (Read 0) with
  | Ok (Some vs) => Forall (fun v => isDangling v = false) vs
  | _ => False
  end.
Proof.
  split; [by vm_compute|].
  pose proof (delivery_terminates 10 13 sample sampleFinal echoBehaviour (Read 0) 8 sample_wf sampleFinal_ok)
    as Ht.
  destruct (call echoBehaviour 8 sampleFinal (Read 0)) as [[vs|]|f] eqn:E.
  - apply Ht; [|vm_compute; lia]. intros a k [] Hb; try discriminate Hb; by repeat constructor.
  - vm_compute in E. discriminate E.
  - vm_compute in E. discriminate E.
Defined.

(** ** Attachment *)

(** When the handlers of a pipeline are distinct objects that no pipeline
    holds attached, [finalize] attaches each exactly once: afterwards
    [HandlerBase::getContext] of every handler is its own context. *)
Lemma finalize_attaches (R W : nat) (s s' : State) :
  wf s -> detachedAll (heap s) (ctxs_ (self s)) -> finalize R W s = (Ok tt, s') ->
  forall c a, c ∈ ctxs_ (self s) -> handlerOf (heap s) c = Some a ->
  (handlerGetContext a s').1 = Ok (Some c) /\
  attached_ <$> contexts (heap s') !! c = Some true.
Proof.
  intros Hwf Hdet Hfin c a Hc Ha. pose proof (finalized_attach R W s s' Hwf Hfin) as Hatt.
  destruct s' as [h' p']. pose proof (finalized_self R W s _ Hwf Hfin) as Hp. simpl in Hp. subst p'.
  assert (Hh : forall d, handlerOf (linkedHeap s) d = handlerOf (heap s) d).
  { intros d. unfold handlerOf, linkedHeap, linkedOut, linkedIn. rewrite !mapContexts_lookup.
    destruct (contexts (heap s) !! d); simpl; [|done]. f_equal. unfold linkField.
    by repeat case_decide. }
  split.
  - unfold handlerGetContext. rewrite bind_get. simpl.
    rewrite (attachAll_fresh (reverse (ctxs_ (self s))) (mkState (linkedHeap s) (finalizedSelf R W s)) h')
      with (c := c); [done|..].
    + intros d Hd. rewrite elem_of_reverse in Hd. simpl.
      apply (proj2 (same_live _ _ d (linkedHeap_same s))). exact (wf_live _ Hwf d Hd).
    + simpl. destruct Hdet as (H1 & H2 & H3). split; [by apply NoDup_reverse|]. split.
      * rewrite (list_omap_ext _ (handlerOf (heap s)) _ (reverse (ctxs_ (self s)))).
        2: { apply Forall_Forall2_diag, Forall_forall. intros d _. apply Hh. }
        by rewrite reverse_Permutation.
      * intros d x Hd. rewrite elem_of_reverse in Hd. unfold linkedHeap, linkedOut, linkedIn.
        rewrite !mapContexts_lookup. intros Hx.
        destruct (contexts (heap s) !! d) as [y|] eqn:Hy; simplify_eq/=.
        destruct (H3 d y Hd Hy) as [Hat Hcn]. unfold linkField. by repeat case_decide.
    + exact Hatt.
    + by rewrite elem_of_reverse.
    + simpl. by rewrite Hh.
  - destruct (finalized_context R W s _ Hwf Hfin c Hc) as (x & _ & ->). done.
Qed.

Lemma finalize_attaches_witness :
  (handlerGetContext 8 sampleFinal).1 = Ok (Some 1).
Proof.
  refine (proj1 (finalize_attaches 10 13 sample sampleFinal sample_wf _ sampleFinal_ok 1 8 _ _)).
  - split; [|split].
    + apply (wf_nodup _ sample_wf).
    + change (NoDup [7; 8; 9; 5]). by apply (bool_decide_unpack _).
    + intros c x Hc Hx.
      assert (Hc' : c ∈ [0; 1; 2; 3]) by exact Hc.
      repeat (apply elem_of_cons in Hc' as [->|Hc']; [vm_compute in Hx; by simplify_eq|]).
      by apply not_elem_of_nil in Hc'.
  - apply list_elem_of_In. vm_compute. tauto.
  - done.
Defined.

(** A handler attached through two contexts loses its context for good when
    one of them is removed: the count goes back to one but [ctx_] stays null,
    and the next [HandlerBase::getContext] fails its CHECK. *)
Theorem getContext_after_partial_detach (s : State) (it c : nat) (x : ContextImpl) :
  wf s -> ctxs_ (self s) !! it = Some c -> contexts (heap s) !! c = Some x ->
  attachCount_ (handlerAt (heap s) (handler_ x)) = 2%Z ->
  let s' := (removeAt it s).2 in
  attachCount_ (handlerAt (heap s') (handler_ x)) = 1%Z /\
  (handlerGetContext (handler_ x) s').1 = Err (CheckFailed "ctx_").
Proof.
  intros Hwf Hit Hx Hcount s'. subst s'. rewrite (run_removeAt s it c x Hwf Hit Hx). simpl.
  assert (E : handlerAt (detachedHeap c x (heap s)) (handler_ x) = mkHandler 1 None).
  { unfold detachedHeap. rewrite Hcount. unfold handlerAt. simpl. by rewrite lookup_insert_eq. }
  unfold handlerGetContext. rewrite bind_get. simpl. by rewrite E.
Qed.

Definition twice : State :=
  (execAll [CAddBack bytesClass 7; CAddBack bytesClass 7; CFinalize 10 11] (create emptyHeap)).2.

Lemma getContext_after_partial_detach_witness :
  (handlerGetContext 7 (removeAt 0 twice).2).1 = Err (CheckFailed "ctx_").
Proof.
  destruct (contexts (heap twice) !! 0) as [x|] eqn:Hx; [|vm_compute in Hx; discriminate Hx].
  assert (Ha : handler_ x = 7) by (vm_compute in Hx; by simplify_eq).
  rewrite <- Ha at 1. apply (getContext_after_partial_detach twice 0 0 x).
  - apply wf_execAll_create.
  - done.
  - done.
  - rewrite Ha. by vm_compute.
Defined.

(** [detachPipeline] does not test [attached_]: adding an attached handler to
    a second pipeline and removing it again before that pipeline is finalized
    takes the attachment away from the first pipeline, whose context still
    believes it is attached. *)
Theorem detach_without_attach (s : State) (k : HandlerClass) (a c0 : nat) (x0 : ContextImpl) :
  wf s -> contexts (heap s) !! c0 = Some x0 -> handler_ x0 = a -> attached_ x0 = true ->
  handlerAt (heap s) a = mkHandler 1 (Some c0) ->
  let s' := (removeBack (addBack k a s).2).2 in
  contexts (heap s') !! c0 = Some x0 /\
  handlerAt (heap s') a = mkHandler 0 None /\
  (handlerGetContext a s').1 = Ok None.
Proof.
  intros Hwf Hx0 Ha Hat Hh s'. subst s'. rewrite run_addBack. simpl.
  set (s1 := added false k a s). set (n := nextCtx (heap s)).
  assert (Hwf1 : wf s1) by by apply wf_added.
  assert (Hn : contexts (heap s1) !! n = Some (mkContext k a None None false)).
  { simpl. by rewrite lookup_insert_eq. }
  assert (Hl : ctxs_ (self s1) = ctxs_ (self s) ++ [n]) by done.
  unfold removeBack. rewrite bind_get. destruct (ctxs_ (self s1)) as [|d l] eqn:E.
  { by destruct (ctxs_ (self s)). }
  assert (Hit : ctxs_ (self s1) !! (length (d :: l) - 1) = Some n).
  { rewrite E, Hl, length_app. simpl. rewrite lookup_app_r by lia.
    by replace (length (ctxs_ (self s)) + 1 - 1 - length (ctxs_ (self s))) with 0 by lia. }
  rewrite (bind_Ok _ _ _ _ _ (run_removeAt s1 _ n _ Hwf1 Hit Hn)). simpl.
  assert (Hne : n <> c0).
  { intros <-. assert (Hlive : live (heap s) n) by (unfold live; eauto).
    pose proof (wf_fresh _ Hwf n Hlive). unfold n in *. lia. }
  assert (Hh' : handlerAt (detachedHeap n (mkContext k a None None false) (heap s1)) a = mkHandler 0 None).
  { assert (E1 : handlerAt (heap s1) a = mkHandler 1 (Some c0)) by exact Hh.
    unfold detachedHeap. cbn [handler_]. rewrite E1. unfold handlerAt. simpl.
    by rewrite lookup_insert_eq. }
  repeat split.
  - by rewrite !lookup_insert_ne.
  - exact Hh'.
  - unfold handlerGetContext. rewrite bind_get. cbn [heap fst snd].
    change (handlerAt _ a) with (handlerAt (detachedHeap n (mkContext k a None None false) (heap s1)) a).
    by rewrite Hh'.
Qed.

Definition single : State :=
  (execAll [CAddBack bytesClass 7; CFinalize 10 11] (create emptyHeap)).2.

Lemma detach_without_attach_witness :
  (handlerGetContext 7 single).1 = Ok (Some 0) /\
  (handlerGetContext 7 (removeBack (addBack bytesClass 7 (create (heap single))).2).2).1 = Ok None.
Proof.
  split; [by vm_compute|].
  destruct (contexts (heap single) !! 0) as [x|] eqn:Hx; [|vm_compute in Hx; discriminate Hx].
  refine (proj2 (proj2 (detach_without_attach (create (heap single)) bytesClass 7 0 x _ Hx _ _ _))).
  - apply wf_create. apply (wf_fresh single), wf_execAll_create.
  - vm_compute in Hx. by simplify_eq.
  - vm_compute in Hx. by simplify_eq.
  - by vm_compute.
Defined.
