(* ===== verification/Connections.v ===== *)
(** * Connection manager (src/wangle/acceptor/ConnectionManager.{h,cpp},
      src/wangle/acceptor/ManagedConnection.{h,cpp})

    The list of managed connections with its two iterators, idle shedding, and
    the drain state machine of a graceful shutdown.

    [folly::CountedIntrusiveList] is not part of this repository: it is an
    interface ([IntrusiveList] and its laws) of which the list of the node
    addresses is an instance.  An iterator is the address of a node, or [None]
    for [end()].  Using an iterator whose node is not linked is undefined.

    The virtual methods of a connection are code of its subclass.  A
    connection is what its [isBusy] and [getIdleTime] report, and the calls
    back into the manager that it makes inside each method are a parameter
    [react] of the model.  The wheel timer and the event base are what is
    scheduled on them; the times at which they fire are chosen by the
    environment. *)
From Stdlib Require Import ZArith Lia SpecFloat.
From stdpp Require Import base numbers list gmap strings.
From S2P Require Import Prelude.
Open Scope cpp_scope.

Set Default Goal Selector "!".

(** ** The intrusive list *)

Class IntrusiveList (L : Type) : Type := {
  il_nil : L;
  il_elems : L -> list nat;            (* from begin() to end() *)
  il_push_front : nat -> L -> L;
  il_push_back : nat -> L -> L;
  il_erase : nat -> L -> L;            (* erase(iterator_to(c)) *)
  il_succ : nat -> L -> option nat     (* ++iterator_to(c) *)
}.

(** What boost documents; [il_erase] and [il_succ] are for linked nodes, and
    the pushes for nodes that are not linked. *)
Class IntrusiveListLaws (L : Type) `{!IntrusiveList L} : Prop := {
  il_elems_nil : il_elems (L:=L) il_nil = [];
  il_elems_push_front (c : nat) (l : L) :
    c ∉ il_elems l -> il_elems (il_push_front c l) = c :: il_elems l;
  il_elems_push_back (c : nat) (l : L) :
    c ∉ il_elems l -> il_elems (il_push_back c l) = il_elems l ++ [c];
  il_elems_erase (pre suf : list nat) (c : nat) (l : L) :
    c ∉ pre -> il_elems l = pre ++ c :: suf -> il_elems (il_erase c l) = pre ++ suf;
  il_succ_spec (pre suf : list nat) (c : nat) (l : L) :
    c ∉ pre -> il_elems l = pre ++ c :: suf -> il_succ c l = head suf
}.

(** The list of the addresses is such a list. *)
#[export] Instance list_IntrusiveList : IntrusiveList (list nat) := {|
  il_nil := [];
  il_elems l := l;
  il_push_front c l := c :: l;
  il_push_back c l := l ++ [c];
  il_erase c l := default l (eraseFirst c l);
  il_succ c l := succ l c
|}.

#[export] Instance list_IntrusiveListLaws : IntrusiveListLaws (list nat).
Proof.
  split; simpl; try done.
  - intros pre suf c l Hc ->. by rewrite eraseFirst_middle.
  - intros pre suf c l Hc ->. by apply succ_middle.
Qed.

(** ** Data *)

(** [ManagedConnection::DrainState] *)
Inductive DrainState : Type :=
| NOT_DRAINING
| SENT_NOTIFY_PENDING_SHUTDOWN
| SENT_CLOSE_WHEN_IDLE.
#[export] Instance DrainState_eq_dec : EqDecision DrainState.
Proof. solve_decision. Defined.

(** A connection: [state_] and [connectionManager_], and what the virtual
    methods [isBusy] and [getIdleTime] (in milliseconds) report. *)
Record Conn : Type := mkConn {
  state_ : DrainState;
  connectionManager_ : option nat;
  isBusy : bool;
  getIdleTime : Z
}.
Definition newConn : Conn := mkConn NOT_DRAINING None false 0.

(** [ConnectionManager::ShutdownState] and its underlying values. *)
Inductive ShutdownState : Type :=
| NONE
| NOTIFY_PENDING_SHUTDOWN
| NOTIFY_PENDING_SHUTDOWN_COMPLETE
| CLOSE_WHEN_IDLE
| CLOSE_WHEN_IDLE_COMPLETE.
#[export] Instance ShutdownState_eq_dec : EqDecision ShutdownState.
Proof. solve_decision. Defined.
Definition stateNum (st : ShutdownState) : nat :=
  match st with
  | NONE => 0
  | NOTIFY_PENDING_SHUTDOWN => 1
  | NOTIFY_PENDING_SHUTDOWN_COMPLETE => 2
  | CLOSE_WHEN_IDLE => 3
  | CLOSE_WHEN_IDLE_COMPLETE => 4
  end.

(** [ConnectionManager::DrainHelper]; the last two tell whether it is
    scheduled as a loop callback and as a timeout. *)
Record DrainHelper : Type := mkDrain {
  all_ : bool;
  pct_ : spec_float;
  shutdownState_ : ShutdownState;
  loopScheduled : bool;
  isScheduled : bool
}.

(** The virtual calls made by the manager, in order. *)
Inductive Call : Type :=
| NotifyPendingShutdown (c : nat)
| CloseWhenIdle (c : nat)
| DropConnection (c : nat)
| DumpConnectionState (c : nat)
| OnConnectionAdded
| OnConnectionRemoved
| OnEmpty
| OtherManagerRemoves (m c : nat).
#[export] Instance Call_eq_dec : EqDecision Call.
Proof. solve_decision. Defined.

(** The objects around the manager: the connections, the timeouts registered
    on the wheel timer, the functions passed to [EventBase::runInLoop] by
    [addConnection] (each for its connection), and the calls made. *)
Record Env : Type := mkEnv {
  objects : gmap nat Conn;
  connTimeouts_ : gmap nat Z;
  inLoop : list nat;
  calls : list Call
}.

Section manager.
Context {L : Type} `{!IntrusiveList L}.

(** [ConnectionManager]; [this_] is its own address. *)
Record Manager : Type := mkManager {
  this_ : nat;
  callback_ : bool;
  conns_ : L;
  drainIterator_ : option nat;
  idleIterator_ : option nat;
  notifyPendingShutdown_ : bool;
  timeout_ : Z;
  idleConnEarlyDropThreshold_ : Z
}.

Record CMState : Type := mkCMState {
  cm : Manager;
  drainHelper_ : DrainHelper;
  env : Env
}.

Definition SF1 : spec_float := S754_finite false (2 ^ 52)%positive (-52).

(** The constructor; [timeout / 2] of a duration truncates. *)
Definition newManager (this : nat) (timeout : Z) (callback : bool) (e : Env) : CMState :=
  mkCMState
    (mkManager this callback il_nil None None true timeout (Z.quot timeout 2))
    (mkDrain true SF1 NONE false false)
    e.

(** Assignments to one member. *)
Definition onManager (g : Manager -> Manager) (s : CMState) : CMState :=
  mkCMState (g (cm s)) (drainHelper_ s) (env s).
Definition onDrain (g : DrainHelper -> DrainHelper) (s : CMState) : CMState :=
  mkCMState (cm s) (g (drainHelper_ s)) (env s).
Definition onEnv (g : Env -> Env) (s : CMState) : CMState :=
  mkCMState (cm s) (drainHelper_ s) (g (env s)).

Definition setConns (l : L) (m : Manager) : Manager :=
  mkManager (this_ m) (callback_ m) l (drainIterator_ m) (idleIterator_ m)
    (notifyPendingShutdown_ m) (timeout_ m) (idleConnEarlyDropThreshold_ m).
Definition setDrainIterator (i : option nat) (m : Manager) : Manager :=
  mkManager (this_ m) (callback_ m) (conns_ m) i (idleIterator_ m)
    (notifyPendingShutdown_ m) (timeout_ m) (idleConnEarlyDropThreshold_ m).
Definition setIdleIterator (i : option nat) (m : Manager) : Manager :=
  mkManager (this_ m) (callback_ m) (conns_ m) (drainIterator_ m) i
    (notifyPendingShutdown_ m) (timeout_ m) (idleConnEarlyDropThreshold_ m).
Definition setNotifyPending (b : bool) (m : Manager) : Manager :=
  mkManager (this_ m) (callback_ m) (conns_ m) (drainIterator_ m) (idleIterator_ m)
    b (timeout_ m) (idleConnEarlyDropThreshold_ m).
Definition setThreshold (t : Z) (m : Manager) : Manager :=
  mkManager (this_ m) (callback_ m) (conns_ m) (drainIterator_ m) (idleIterator_ m)
    (notifyPendingShutdown_ m) (timeout_ m) t.

Definition setAll (b : bool) (p : spec_float) (d : DrainHelper) : DrainHelper :=
  mkDrain b p (shutdownState_ d) (loopScheduled d) (isScheduled d).
Definition setState (st : ShutdownState) (d : DrainHelper) : DrainHelper :=
  mkDrain (all_ d) (pct_ d) st (loopScheduled d) (isScheduled d).
Definition setLoop (b : bool) (d : DrainHelper) : DrainHelper :=
  mkDrain (all_ d) (pct_ d) (shutdownState_ d) b (isScheduled d).
Definition setTimer (b : bool) (d : DrainHelper) : DrainHelper :=
  mkDrain (all_ d) (pct_ d) (shutdownState_ d) (loopScheduled d) b.

Definition conn (s : CMState) (c : nat) : Conn := default newConn (objects (env s) !! c).
Definition setConn (c : nat) (x : Conn) (e : Env) : Env :=
  mkEnv (<[c := x]> (objects e)) (connTimeouts_ e) (inLoop e) (calls e).
Definition setTimeouts (t : gmap nat Z) (e : Env) : Env :=
  mkEnv (objects e) t (inLoop e) (calls e).
Definition setInLoop (l : list nat) (e : Env) : Env :=
  mkEnv (objects e) (connTimeouts_ e) l (calls e).
Definition logCall (k : Call) : M CMState unit :=
  modify (onEnv (fun e => mkEnv (objects e) (connTimeouts_ e) (inLoop e) (calls e ++ [k]))).

Definition elems (s : CMState) : list nat := il_elems (conns_ (cm s)).
Definition setConnectionManager (c : nat) (m : option nat) : M CMState unit :=
  modify (fun s => let x := conn s c in
    onEnv (setConn c (mkConn (state_ x) m (isBusy x) (getIdleTime x))) s).
Definition setDrainState (c : nat) (st : DrainState) : M CMState unit :=
  modify (fun s => let x := conn s c in
    onEnv (setConn c (mkConn st (connectionManager_ x) (isBusy x) (getIdleTime x))) s).

(** [listHook_.is_linked()]: linked into this list, or into that of the other
    manager the connection belongs to. *)
Definition is_linked (s : CMState) (c : nat) : bool :=
  bool_decide (c ∈ elems s) ||
  match connectionManager_ (conn s c) with
  | Some m => negb (bool_decide (m = this_ (cm s)))
  | None => false
  end.

(** ** Iterators and list operations *)

(** [conns_.begin()], [++it] and [--it] *)
Definition begin (s : CMState) : option nat := head (elems s).
Definition next (it : option nat) : M CMState (option nat) :=
  let! s := get in
  match it with
  | Some c => if bool_decide (c ∈ elems s) then ret (il_succ c (conns_ (cm s)))
              else raise (Undefined "++ of an iterator that is not linked")
  | None => raise (Undefined "++ of end()")
  end.
(** [--it] of [end()], the only one the code moves backwards. *)
Definition prevOfEnd : M CMState (option nat) :=
  let! s := get in
  match last (elems s) with
  | Some c => ret (Some c)
  | None => raise (Undefined "-- of begin()")
  end.

Definition erase (c : nat) : M CMState unit :=
  let! s := get in
  if bool_decide (c ∈ elems s)
  then modify (onManager (setConns (il_erase c (conns_ (cm s)))))
  else raise (Undefined "erase of a node that is not linked").
(** A SafeLink hook asserts that the node is not in a list. *)
Definition push_front (c : nat) : M CMState unit :=
  let! s := get in
  if is_linked s c then raise (Undefined "push of a linked node")
  else modify (onManager (setConns (il_push_front c (conns_ (cm s))))).
Definition push_back (c : nat) : M CMState unit :=
  let! s := get in
  if is_linked s c then raise (Undefined "push of a linked node")
  else modify (onManager (setConns (il_push_back c (conns_ (cm s))))).

Definition getNumConnections (s : CMState) : nat := length (elems s).

(** ** Timeouts *)

Definition cancelTimeout (c : nat) : M CMState unit :=
  modify (onEnv (fun e => setTimeouts (delete c (connTimeouts_ e)) e)).

(** [ConnectionManager::scheduleTimeout(ManagedConnection*, ...)] *)
Definition scheduleTimeout (c : nat) (timeout : Z) : M CMState unit :=
  when (0 <? timeout)%Z (modify (onEnv (fun e => setTimeouts (<[c := timeout]> (connTimeouts_ e)) e))).

(** [ManagedConnection::resetTimeoutTo] and [resetTimeout]: only the timer of
    this manager is modelled. *)
Definition resetTimeoutTo (c : nat) (timeout : Z) : M CMState unit :=
  let! s := get in
  when (bool_decide (connectionManager_ (conn s c) = Some (this_ (cm s)))) (scheduleTimeout c timeout).
Definition resetTimeout (c : nat) : M CMState unit :=
  let! s := get in
  resetTimeoutTo c (timeout_ (cm s)).

(** [ConnectionManager::setLoweredIdleTimeout] *)
Definition setLoweredIdleTimeout (timeout : Z) : M CMState unit :=
  let! s := get in
  if negb (0 <=? timeout)%Z then raise (CheckFailed "timeout >= 0")
  else if negb (timeout <=? timeout_ (cm s))%Z then raise (CheckFailed "timeout <= timeout_")
  else modify (onManager (setThreshold timeout)).

(** ** Removal, activation, deactivation *)

(** [if (it == drainIterator_) ++drainIterator_], and likewise the other *)
Definition bumpDrain (c : nat) : M CMState bool :=
  let! s := get in
  if bool_decide (drainIterator_ (cm s) = Some c) then
    let! i := next (Some c) in
    do! modify (onManager (setDrainIterator i)) in
    ret true
  else ret false.
Definition bumpIdle (c : nat) : M CMState unit :=
  let! s := get in
  when (bool_decide (idleIterator_ (cm s) = Some c)) (
    let! i := next (Some c) in
    modify (onManager (setIdleIterator i))).

(** [ConnectionManager::removeConnection] *)
Definition removeConnection (c : nat) : M CMState unit :=
  let! s := get in
  when (bool_decide (connectionManager_ (conn s c) = Some (this_ (cm s)))) (
    do! cancelTimeout c in
    do! setConnectionManager c None in
    do! bumpDrain c in
    do! bumpIdle c in
    do! erase c in
    let! s := get in
    when (callback_ (cm s)) (
      do! logCall OnConnectionRemoved in
      let! s := get in
      when (getNumConnections s =? 0) (logCall OnEmpty))).

(** [ConnectionManager::onActivated] *)
Definition onActivated (c : nat) : M CMState unit :=
  do! bumpIdle c in
  do! erase c in
  push_front c.

(** [ConnectionManager::onDeactivated] *)
Definition onDeactivated (c : nat) : M CMState unit :=
  let! moveDrainIter := bumpDrain c in
  do! erase c in
  do! push_back c in
  let! s := get in
  do! when (bool_decide (idleIterator_ (cm s) = None)) (
        let! i := prevOfEnd in
        modify (onManager (setIdleIterator i))) in
  let! s := get in
  when (moveDrainIter && bool_decide (drainIterator_ (cm s) = None)) (
    let! i := prevOfEnd in
    modify (onManager (setDrainIterator i))).

(** ** Virtual calls *)

(** What a connection may do inside one of its methods; its destructor is
    [RRemove]. *)
Inductive reaction : Type :=
| RRemove (c : nat)
| RActivated (c : nat)
| RDeactivated (c : nat)
| RBusy (c : nat) (b : bool).

Definition doReaction (r : reaction) : M CMState unit :=
  match r with
  | RRemove c => removeConnection c
  | RActivated c => onActivated c
  | RDeactivated c => onDeactivated c
  | RBusy c b =>
      modify (fun s => let x := conn s c in
        onEnv (setConn c (mkConn (state_ x) (connectionManager_ x) b (getIdleTime x))) s)
  end.

Context (react : Call -> CMState -> list reaction).

Definition invoke (k : Call) : M CMState unit :=
  do! logCall k in
  let! s := get in
  for_each (react k s) doReaction.

(** [ManagedConnection::fireNotifyPendingShutdown] *)
Definition fireNotifyPendingShutdown (c : nat) : M CMState unit :=
  let! s := get in
  when (bool_decide (state_ (conn s c) = NOT_DRAINING)) (
    do! setDrainState c SENT_NOTIFY_PENDING_SHUTDOWN in
    invoke (NotifyPendingShutdown c)).

(** [ManagedConnection::fireCloseWhenIdle] *)
Definition fireCloseWhenIdle (c : nat) (force_to_close : bool) : M CMState unit :=
  let! s := get in
  when (force_to_close || bool_decide (state_ (conn s c) = SENT_NOTIFY_PENDING_SHUTDOWN)) (
    do! setDrainState c SENT_CLOSE_WHEN_IDLE in
    invoke (CloseWhenIdle c)).

(** ** Adding connections *)

(** [DrainHelper::getShutdownState] *)
Definition getShutdownState (s : CMState) : ShutdownState :=
  if negb (all_ (drainHelper_ s)) then NONE else shutdownState_ (drainHelper_ s).

(** [ConnectionManager::addConnection] *)
Definition addConnection (c : nat) (timeout : bool) : M CMState unit :=
  let! s := get in
  let oldMgr := connectionManager_ (conn s c) in
  do! when (negb (bool_decide (oldMgr = Some (this_ (cm s))))) (
        do! match oldMgr with
            | Some m =>
                do! logCall (OtherManagerRemoves m c) in
                do! cancelTimeout c in
                setConnectionManager c None
            | None => ret tt
            end in
        do! push_front c in
        do! setConnectionManager c (Some (this_ (cm s))) in
        when (callback_ (cm s)) (logCall OnConnectionAdded)) in
  do! when timeout (scheduleTimeout c (timeout_ (cm s))) in
  let! s := get in
  do! when ((stateNum NOTIFY_PENDING_SHUTDOWN <=? stateNum (getShutdownState s)) &&
            notifyPendingShutdown_ (cm s))
        (fireNotifyPendingShutdown c) in
  let! s := get in
  when (stateNum CLOSE_WHEN_IDLE <=? stateNum (getShutdownState s))
    (modify (onEnv (fun e => setInLoop (inLoop e ++ [c]) e))).

(** The function [addConnection] leaves to the end of the loop. *)
Definition runInLoop : M CMState unit :=
  let! s := get in
  match inLoop (env s) with
  | [] => ret tt
  | c :: rest =>
      do! modify (onEnv (setInLoop rest)) in
      let! s := get in
      when (is_linked s c) (fireCloseWhenIdle c (negb (notifyPendingShutdown_ (cm s))))
  end.

(** ** Draining (DrainHelper) *)

(** [static_cast<size_t>(n * pct)]: the product is a double, rounded to the
    nearest; the conversion truncates and is undefined out of range. *)
Definition doubleOf (n : nat) : spec_float := binary_normalize 53 1024 (Z.of_nat n) 0 false.
Definition toSize (x : spec_float) : option Z :=
  match x with
  | S754_zero _ => Some 0%Z
  | S754_finite neg m e =>
      let z := Z.shiftl (Zpos m) e in
      if neg then (if (z =? 0)%Z then Some 0%Z else None)
      else if (z <? 2 ^ 64)%Z then Some z else None
  | _ => None
  end.
(** [std::max<size_t>(0, std::min<size_t>(n, n * pct))] *)
Definition portion (n : nat) (pct : spec_float) : option nat :=
  (fun z => Nat.max 0 (Nat.min n (Z.to_nat z))) <$> toSize (SFmul 53 1024 (doubleOf n) pct).

(** [DrainHelper::drainStartIterator] *)
Definition drainStartIterator : M CMState (option nat) :=
  let! s := get in
  if all_ (drainHelper_ s) then ret (begin s)
  else
    let conns_size := getNumConnections s in
    let! numToDrain := of_option (Undefined "conversion to size_t")
                         (portion conns_size (pct_ (drainHelper_ s))) in
    ret (elems s !! (conns_size - numToDrain)).

(** The loop of [drainConnections].  [room] is 64 less the connections kept and
    cleared so far, each of which is counted once; the two counts are only
    logged. *)
Fixpoint drainLoop (room : nat) (it : option nat) : M CMState (option nat) :=
  match it, room with
  | Some c, S room =>
      let! it := next (Some c) in
      let! s := get in
      do! (if bool_decide (shutdownState_ (drainHelper_ s) = NOTIFY_PENDING_SHUTDOWN)
           then fireNotifyPendingShutdown c
           else fireCloseWhenIdle c (negb (notifyPendingShutdown_ (cm s)))) in
      drainLoop room it
  | _, _ => ret it
  end.

(** [DrainHelper::drainConnections] *)
Definition DrainHelper_drainConnections : M CMState unit :=
  let! s := get in
  let st := shutdownState_ (drainHelper_ s) in
  do! (if bool_decide (st = NOTIFY_PENDING_SHUTDOWN) || bool_decide (st = CLOSE_WHEN_IDLE)
       then ret tt else raise (CheckFailed "shutdownState_")) in
  let! it := drainLoop 64 (drainIterator_ (cm s)) in
  do! modify (onManager (setDrainIterator it)) in
  let! s := get in
  match it with
  | Some _ => modify (onDrain (setLoop true))
  | None =>
      if bool_decide (shutdownState_ (drainHelper_ s) = NOTIFY_PENDING_SHUTDOWN) then
        do! modify (onDrain (setState NOTIFY_PENDING_SHUTDOWN_COMPLETE)) in
        when (negb (isScheduled (drainHelper_ s))) (
          do! modify (onDrain (setState CLOSE_WHEN_IDLE)) in
          let! it := drainStartIterator in
          do! modify (onManager (setDrainIterator it)) in
          modify (onDrain (setLoop true)))
      else modify (onDrain (setState CLOSE_WHEN_IDLE_COMPLETE))
  end.

(** [DrainHelper::startDrain] *)
Definition startDrain (idleGrace : Z) : M CMState unit :=
  do! (if (0 <? idleGrace)%Z then
         do! modify (onDrain (setState NOTIFY_PENDING_SHUTDOWN)) in
         modify (onDrain (setTimer true))
       else
         do! modify (onManager (setNotifyPending false)) in
         modify (onDrain (setState CLOSE_WHEN_IDLE))) in
  let! it := drainStartIterator in
  do! modify (onManager (setDrainIterator it)) in
  DrainHelper_drainConnections.

(** [DrainHelper::startDrainPartial] and [DrainHelper::startDrainAll] *)
Definition startDrainPartial (pct : spec_float) (idleGrace : Z) : M CMState unit :=
  do! modify (onDrain (setAll false pct)) in
  startDrain idleGrace.
Definition startDrainAll (idleGrace : Z) : M CMState unit :=
  do! modify (onDrain (setAll true SF1)) in
  let! s := get in
  do! when (isScheduled (drainHelper_ s)) (modify (onDrain (setTimer false))) in
  startDrain idleGrace.

(** [ConnectionManager::initiateGracefulShutdown] and
    [ConnectionManager::drainConnections] *)
Definition initiateGracefulShutdown (idleGrace : Z) : M CMState unit :=
  let! s := get in
  when (bool_decide (getShutdownState s = NONE)) (startDrainAll idleGrace).
Definition drainConnections (pct : spec_float) (idleGrace : Z) : M CMState unit :=
  let! s := get in
  when (bool_decide (getShutdownState s = NONE)) (startDrainPartial pct idleGrace).

(** [DrainHelper::runLoopCallback]: the event base takes the callback off its
    list and runs it. *)
Definition runLoopCallback : M CMState unit :=
  do! modify (onDrain (setLoop false)) in
  DrainHelper_drainConnections.

(** [DrainHelper::idleGracefulTimeoutExpired], and [timeoutExpired], before
    which the timeout is no longer scheduled. *)
Definition idleGracefulTimeoutExpired : M CMState unit :=
  let! s := get in
  when (bool_decide (shutdownState_ (drainHelper_ s) = NOTIFY_PENDING_SHUTDOWN_COMPLETE)) (
    do! modify (onDrain (setState CLOSE_WHEN_IDLE)) in
    let! it := drainStartIterator in
    do! modify (onManager (setDrainIterator it)) in
    DrainHelper_drainConnections).
Definition timeoutExpired : M CMState unit :=
  do! modify (onDrain (setTimer false)) in
  idleGracefulTimeoutExpired.

(** [ConnectionManager::stopDrainingForShutdown] *)
Definition stopDrainingForShutdown : M CMState unit :=
  do! modify (onDrain (setState CLOSE_WHEN_IDLE_COMPLETE)) in
  modify (onDrain (setTimer false)).

(** ** Dropping *)

(** The loop of [dropAllConnections]; the connections only get fewer, so their
    number is enough fuel. *)
Fixpoint dropAllLoop (fuel i : nat) : M CMState unit :=
  let! s := get in
  match elems s, fuel with
  | c :: _, S fuel =>
      do! erase c in
      do! cancelTimeout c in
      do! setConnectionManager c None in
      do! when (S i <=? 2) (invoke (DumpConnectionState c)) in
      do! invoke (DropConnection c) in
      dropAllLoop fuel (S i)
  | _, _ => ret tt
  end.

(** [ConnectionManager::dropAllConnections] *)
Definition dropAllConnections : M CMState unit :=
  do! stopDrainingForShutdown in
  let! s := get in
  do! dropAllLoop (getNumConnections s) 0 in
  do! modify (onManager (setDrainIterator None)) in
  do! modify (onManager (setIdleIterator None)) in
  do! modify (onDrain (setLoop false)) in
  when (callback_ (cm s)) (logCall OnEmpty).

(** [ConnectionManager::dropConnections] *)
Fixpoint dropLoop (n : nat) : M CMState unit :=
  let! s := get in
  match elems s, n with
  | c :: _, S n =>
      do! removeConnection c in
      do! invoke (DropConnection c) in
      dropLoop n
  | _, _ => ret tt
  end.
Definition dropConnections (pct : spec_float) : M CMState unit :=
  do! stopDrainingForShutdown in
  let! s := get in
  let! numToDrop := of_option (Undefined "conversion to size_t") (portion (getNumConnections s) pct) in
  dropLoop numToDrop.

(** [ConnectionManager::dropIdleConnections]; [room] is [num - count]. *)
Fixpoint dropIdleLoop (room count : nat) : M CMState nat :=
  let! s := get in
  match room, idleIterator_ (cm s) with
  | S room, Some c =>
      let idleTime := getIdleTime (conn s c) in
      if (idleTime =? 0)%Z || (idleTime <=? idleConnEarlyDropThreshold_ (cm s))%Z then ret count
      else
        let! i := next (Some c) in
        do! modify (onManager (setIdleIterator i)) in
        do! invoke (DropConnection c) in
        dropIdleLoop room (S count)
  | _, _ => ret count
  end.
Definition dropIdleConnections (num : nat) : M CMState nat :=
  let! s := get in
  if (timeout_ (cm s) <=? idleConnEarlyDropThreshold_ (cm s))%Z then ret 0
  else dropIdleLoop num 0.
End manager.
Arguments Manager : clear implicits.
Arguments CMState : clear implicits.
