(* ===== verification/ConnectionFacts.v ===== *)
(** * Connection manager: what the operations do to a well-formed manager

    The two parts of the list that an iterator separates, the invariant of the
    manager, and for each list operation the state it leaves. *)
From Stdlib Require Import ZArith Lia SpecFloat.
From stdpp Require Import base numbers list gmap strings.
From S2P Require Import Prelude Connections.
Open Scope cpp_scope.

Set Default Goal Selector "!".

(** ** Lists split by an iterator *)

Fixpoint before (it : option nat) (l : list nat) : list nat :=
  match l with
  | [] => []
  | d :: l' => if decide (it = Some d) then [] else d :: before it l'
  end.
Fixpoint from (it : option nat) (l : list nat) : list nat :=
  match l with
  | [] => []
  | d :: l' => if decide (it = Some d) then l else from it l'
  end.

(** An iterator that may be dereferenced or is the end. *)
Definition validIter (it : option nat) (l : list nat) : Prop :=
  forall c, it = Some c -> c ∈ l.

(** Where [it] is when the code removes [c] and takes care of [it]. *)
Definition bumped (c : nat) (l : list nat) (it : option nat) : option nat :=
  if decide (it = Some c) then succ l c else it.

Lemma before_from it l : before it l ++ from it l = l.
Proof. induction l as [|d l IH]; simpl; [done|]. case_decide; [done|]. simpl. by rewrite IH. Qed.

Lemma before_None l : before None l = l.
Proof. induction l as [|d l IH]; simpl; [done|]. by rewrite IH. Qed.

Lemma from_None l : from None l = [].
Proof. by induction l. Qed.

Lemma before_middle pre c suf : c ∉ pre -> before (Some c) (pre ++ c :: suf) = pre.
Proof.
  induction pre as [|d pre IH]; simpl; intros Hc; [by rewrite decide_True|].
  rewrite decide_False by set_solver. rewrite IH by set_solver. done.
Qed.

Lemma from_middle pre c suf : c ∉ pre -> from (Some c) (pre ++ c :: suf) = c :: suf.
Proof.
  induction pre as [|d pre IH]; simpl; intros Hc; [by rewrite decide_True|].
  rewrite decide_False by set_solver. rewrite IH by set_solver. done.
Qed.

Lemma before_head l : before (head l) l = [].
Proof. destruct l; simpl; [done|]. by rewrite decide_True. Qed.

Lemma from_head l : from (head l) l = l.
Proof. destruct l; simpl; [done|]. by rewrite decide_True. Qed.

Lemma before_head_app pre suf : NoDup (pre ++ suf) -> before (head suf) (pre ++ suf) = pre.
Proof.
  destruct suf as [|c suf]; simpl; intros Hnd; [by rewrite app_nil_r, before_None|].
  eapply before_middle, NoDup_middle_pre, Hnd.
Qed.

Lemma from_head_app pre suf : NoDup (pre ++ suf) -> from (head suf) (pre ++ suf) = suf.
Proof.
  destruct suf as [|c suf]; simpl; intros Hnd; [by rewrite from_None|].
  eapply from_middle, NoDup_middle_pre, Hnd.
Qed.

Lemma head_from it l : validIter it l -> head (from it l) = it.
Proof.
  destruct it as [c|]; [|by rewrite from_None]. intros Hv. specialize (Hv c eq_refl).
  apply list_elem_of_split_l in Hv as (pre & suf & -> & Hpre).
  by rewrite from_middle.
Qed.

(** Removing a node, and keeping the iterator off it, keeps both parts. *)
Lemma parts_removed c l it :
  NoDup l -> c ∈ l -> validIter it l ->
  before (bumped c l it) (filter (.≠ c) l) = filter (.≠ c) (before it l) /\
  from (bumped c l it) (filter (.≠ c) l) = filter (.≠ c) (from it l) /\
  validIter (bumped c l it) (filter (.≠ c) l).
Proof.
  intros Hnd Hc Hv. apply list_elem_of_split_l in Hc as (pre & suf & -> & Hpre).
  unfold bumped. case_decide as Hit.
  - subst it. rewrite succ_middle, before_middle, from_middle by done.
    rewrite filter_ne_middle by done.
    rewrite (filter_cons_False (.≠ c)) by naive_solver.
    assert (Hsuf : c ∉ suf) by by apply NoDup_app in Hnd as (_ & _ & [? _]%NoDup_cons).
    rewrite !filter_all by (by intros x Hx ->).
    assert (Hnd' : NoDup (pre ++ suf)).
    { rewrite <- (filter_ne_middle _ _ _ Hnd). by apply NoDup_filter. }
    rewrite before_head_app, from_head_app by done. split_and!; [done..|].
    intros d Hd. destruct suf; simplify_eq/=. set_solver.
  - pose proof (before_from it (pre ++ c :: suf)) as E.
    pose proof (head_from _ _ Hv) as Hh. revert E Hh.
    generalize (before it (pre ++ c :: suf)) (from it (pre ++ c :: suf)). intros b f E Hh.
    rewrite <- E in Hnd, Hv |- *. rewrite filter_app.
    assert (Hnd' : NoDup (filter (.≠ c) b ++ filter (.≠ c) f)).
    { rewrite <- filter_app. by apply NoDup_filter. }
    assert (Hhf : head (filter (.≠ c) f) = it).
    { destruct f as [|d f']; simpl in Hh; [done|]. rewrite filter_cons_True; [done|].
      intros ->. by apply Hit. }
    split_and!.
    + rewrite <- Hhf. by apply before_head_app.
    + rewrite <- Hhf. by apply from_head_app.
    + intros d Hd. rewrite <- filter_app. apply list_elem_of_filter. split; [naive_solver|].
      by apply Hv.
Qed.

(** ** Well-formed managers *)

Section facts.
Context {L : Type} `{!IntrusiveList L} `{!IntrusiveListLaws L}.
Implicit Types (s : CMState L).

(** Both iterators can be used, and the connections of the list are those that
    name this manager as theirs. *)
Record wfc s : Prop := {
  wfc_nodup : NoDup (elems s);
  wfc_drain : validIter (drainIterator_ (cm s)) (elems s);
  wfc_idle : validIter (idleIterator_ (cm s)) (elems s);
  wfc_mgr : forall c, c ∈ elems s <-> connectionManager_ (conn s c) = Some (this_ (cm s))
}.

(** The busy and the idle part of the list. *)
Definition busyPart s : list nat := before (idleIterator_ (cm s)) (elems s).
Definition idlePart s : list nat := from (idleIterator_ (cm s)) (elems s).

Definition relinked (l : L) (dr idl : option nat) (m : Manager L) : Manager L :=
  mkManager (this_ m) (callback_ m) l dr idl (notifyPendingShutdown_ m) (timeout_ m)
    (idleConnEarlyDropThreshold_ m).

Lemma elems_erase s c :
  NoDup (elems s) -> c ∈ elems s -> il_elems (il_erase c (conns_ (cm s))) = filter (.≠ c) (elems s).
Proof.
  intros Hnd Hc. apply list_elem_of_split_l in Hc as (pre & suf & E & Hpre).
  rewrite (il_elems_erase pre suf c _ Hpre E), E. symmetry. apply filter_ne_middle. by rewrite <- E.
Qed.

Lemma succ_elems s c : c ∈ elems s -> il_succ c (conns_ (cm s)) = succ (elems s) c.
Proof.
  intros Hc. apply list_elem_of_split_l in Hc as (pre & suf & E & Hpre).
  rewrite (il_succ_spec pre suf c _ Hpre E), E. by rewrite succ_middle.
Qed.

Lemma run_next s c : c ∈ elems s -> next (Some c) s = (Ok (succ (elems s) c), s).
Proof.
  intros Hc. unfold next. rewrite bind_get, bool_decide_true by done.
  by rewrite succ_elems.
Qed.

Lemma run_bumpDrain s c :
  c ∈ elems s ->
  bumpDrain c s =
    (Ok (bool_decide (drainIterator_ (cm s) = Some c)),
     onManager (setDrainIterator (bumped c (elems s) (drainIterator_ (cm s)))) s).
Proof.
  intros Hc. unfold bumpDrain, bumped. rewrite bind_get.
  case_bool_decide as Hd; case_decide; try done.
  - by erewrite bind_Ok by by apply run_next.
  - by destruct s as [[] ? ?].
Qed.

Lemma run_bumpIdle s c :
  c ∈ elems s ->
  bumpIdle c s =
    (Ok tt, onManager (setIdleIterator (bumped c (elems s) (idleIterator_ (cm s)))) s).
Proof.
  intros Hc. unfold bumpIdle, bumped, when. rewrite bind_get.
  case_bool_decide as Hd; case_decide; try done.
  - by erewrite bind_Ok by by apply run_next.
  - by destruct s as [[] ? ?].
Qed.

Lemma run_erase s c :
  c ∈ elems s -> erase c s = (Ok tt, onManager (setConns (il_erase c (conns_ (cm s)))) s).
Proof. intros Hc. unfold erase. by rewrite bind_get, bool_decide_true. Qed.

Definition removedCalls s : list Call :=
  if callback_ (cm s)
  then OnConnectionRemoved :: (if length (elems s) =? 1 then [OnEmpty] else [])
  else [].

(** The state after [removeConnection]. *)
Definition removed (c : nat) s : CMState L :=
  let x := conn s c in
  mkCMState
    (relinked (il_erase c (conns_ (cm s))) (bumped c (elems s) (drainIterator_ (cm s)))
      (bumped c (elems s) (idleIterator_ (cm s))) (cm s))
    (drainHelper_ s)
    (mkEnv (<[c := mkConn (state_ x) None (isBusy x) (getIdleTime x)]> (objects (env s)))
      (delete c (connTimeouts_ (env s))) (inLoop (env s)) (calls (env s) ++ removedCalls s)).

Lemma elems_removed c s : wfc s -> c ∈ elems s ->
  elems (removed c s) = filter (.≠ c) (elems s).
Proof. intros Hwf. apply elems_erase, Hwf. Qed.

Lemma run_removeConnection s c :
  wfc s -> c ∈ elems s -> removeConnection c s = (Ok tt, removed c s).
Proof.
  intros Hwf Hc. unfold removeConnection, when at 1. rewrite bind_get, bool_decide_true.
  2: { by apply wfc_mgr. }
  unfold cancelTimeout. rewrite bind_modify. unfold setConnectionManager. rewrite bind_modify.
  set (s1 := onEnv _ _). assert (Hc1 : c ∈ elems s1) by done.
  erewrite bind_Ok by by apply run_bumpDrain.
  erewrite bind_Ok by by apply run_bumpIdle.
  erewrite bind_Ok by by apply run_erase.
  rewrite bind_get. unfold removed, removedCalls. cbn -[Nat.eqb].
  destruct (callback_ (cm s)); [|by rewrite app_nil_r].
  unfold logCall, when at 1. rewrite bind_modify, bind_get. unfold when, getNumConnections.
  cbn -[Nat.eqb]. unfold elems at 1. cbn -[Nat.eqb].
  rewrite elems_erase by (exact (wfc_nodup _ Hwf) || exact Hc).
  pose proof (length_filter_ne c _ (wfc_nodup s Hwf) Hc) as Hlen.
  replace (length (elems s) =? 1) with (length (filter (.≠ c) (elems s)) =? 0) by by rewrite <- Hlen.
  destruct (_ =? 0); unfold modify, ret, onEnv; simpl; by rewrite <- ?app_assoc.
Qed.

Lemma removeConnection_notmine s c :
  wfc s -> c ∉ elems s -> removeConnection c s = (Ok tt, s).
Proof.
  intros Hwf Hc. unfold removeConnection, when at 1. rewrite bind_get, bool_decide_false; [done|].
  by rewrite <- wfc_mgr.
Qed.

(** The states after [onActivated] and [onDeactivated]. *)
Definition activated (c : nat) s : CMState L :=
  onManager (relinked (il_push_front c (il_erase c (conns_ (cm s)))) (drainIterator_ (cm s))
    (bumped c (elems s) (idleIterator_ (cm s)))) s.

(** An iterator that is the end after the push is moved back onto [c]. *)
Definition backOnto (c : nat) (it : option nat) : option nat :=
  match it with None => Some c | _ => it end.

Definition deactivated (c : nat) s : CMState L :=
  let dr := drainIterator_ (cm s) in
  onManager (relinked (il_push_back c (il_erase c (conns_ (cm s))))
    (if decide (dr = Some c) then backOnto c (succ (elems s) c) else dr)
    (backOnto c (idleIterator_ (cm s)))) s.

Lemma elems_pushed_front s c :
  NoDup (elems s) -> c ∈ elems s ->
  il_elems (il_push_front c (il_erase c (conns_ (cm s)))) = c :: filter (.≠ c) (elems s).
Proof.
  intros Hnd Hc. rewrite il_elems_push_front; rewrite elems_erase by done; [done|].
  apply notin_filter_ne.
Qed.

Lemma elems_pushed_back s c :
  NoDup (elems s) -> c ∈ elems s ->
  il_elems (il_push_back c (il_erase c (conns_ (cm s)))) = filter (.≠ c) (elems s) ++ [c].
Proof.
  intros Hnd Hc. rewrite il_elems_push_back; rewrite elems_erase by done; [done|].
  apply notin_filter_ne.
Qed.

(** After its removal from the list, a connection of this manager may be
    linked again. *)
Lemma not_linked_erased s c :
  wfc s -> c ∈ elems s -> forall s', 
  il_elems (conns_ (cm s')) = filter (.≠ c) (elems s) -> this_ (cm s') = this_ (cm s) ->
  objects (env s') = objects (env s) -> is_linked s' c = false.
Proof.
  intros Hwf Hc s' El Et Eo. unfold is_linked, elems. rewrite El, Et.
  rewrite bool_decide_false by apply notin_filter_ne. simpl.
  unfold conn. rewrite Eo. pose proof (proj1 (wfc_mgr _ Hwf c) Hc) as Hm.
  unfold conn in Hm. rewrite Hm. by rewrite bool_decide_true.
Qed.

Lemma run_onActivated s c : wfc s -> c ∈ elems s -> onActivated c s = (Ok tt, activated c s).
Proof.
  intros Hwf Hc. unfold onActivated. erewrite bind_Ok by by apply run_bumpIdle.
  erewrite bind_Ok by by apply run_erase. unfold push_front. rewrite bind_get.
  rewrite (not_linked_erased s c Hwf Hc); [done| |done..]. exact (elems_erase s c (wfc_nodup _ Hwf) Hc).
Qed.

Lemma run_prevOfEnd s l c : elems s = l ++ [c] -> prevOfEnd s = (Ok (Some c), s).
Proof. intros E. unfold prevOfEnd. by rewrite bind_get, E, last_snoc. Qed.

Lemma run_onDeactivated s c : wfc s -> c ∈ elems s -> onDeactivated c s = (Ok tt, deactivated c s).
Proof.
  intros Hwf Hc. unfold onDeactivated. erewrite bind_Ok by by apply run_bumpDrain.
  erewrite bind_Ok by by apply run_erase.
  set (s1 := onManager _ (onManager _ s)).
  assert (Epush : push_back c s1 = (Ok tt, onManager (setConns (il_push_back c (conns_ (cm s1)))) s1)).
  { unfold push_back. rewrite bind_get. rewrite (not_linked_erased s c Hwf Hc); [done| |done..].
    exact (elems_erase s c (wfc_nodup _ Hwf) Hc). }
  rewrite (bind_Ok _ _ _ _ _ Epush), bind_get.
  pose proof (elems_pushed_back s c (wfc_nodup _ Hwf) Hc) as El.
  set (s2 := onManager (setConns _) s1).
  assert (Eidle : when (bool_decide (idleIterator_ (cm s2) = None))
      (let! i := prevOfEnd in modify (onManager (setIdleIterator i))) s2 =
    (Ok tt, onManager (setIdleIterator (backOnto c (idleIterator_ (cm s)))) s2)).
  { unfold when, backOnto. change (idleIterator_ (cm s2)) with (idleIterator_ (cm s)).
    case_bool_decide as Hi; [|by destruct (idleIterator_ (cm s)) eqn:E; [destruct s as [[]]; simpl in *; subst|]].
    by rewrite Hi, (bind_Ok _ _ _ _ _ (run_prevOfEnd s2 _ c El)). }
  rewrite (bind_Ok _ _ _ _ _ Eidle), bind_get. clear Eidle.
  set (s3 := onManager (setIdleIterator _) s2). unfold deactivated.
  change (drainIterator_ (cm s3)) with (bumped c (elems s) (drainIterator_ (cm s))).
  unfold bumped. case_bool_decide as Hd; case_decide as Hd'; try done; simpl.
  2: { unfold s3, s2, s1, bumped. rewrite decide_False by done. by destruct s as [[]]. }
  unfold when, backOnto at 1. case_bool_decide as Hs.
  - rewrite (bind_Ok _ _ _ _ _ (run_prevOfEnd s3 _ c El)), Hs. by destruct s as [[]].
  - unfold s3, s2, s1, bumped. rewrite decide_True by done.
    by destruct (succ (elems s) c).
Qed.

(** ** The two parts after each operation *)

(** The connections a running drain has been to, and those it will go to. *)
Definition visited s : list nat := before (drainIterator_ (cm s)) (elems s).
Definition pending s : list nat := from (drainIterator_ (cm s)) (elems s).

Lemma conn_removed c s d :
  conn (removed c s) d =
    if decide (d = c)
    then mkConn (state_ (conn s c)) None (isBusy (conn s c)) (getIdleTime (conn s c))
    else conn s d.
Proof.
  unfold conn at 1. simpl. case_decide as Hd; [subst d; by rewrite lookup_insert_eq|].
  by rewrite lookup_insert_ne.
Qed.

Lemma wfc_removed s c : wfc s -> c ∈ elems s -> wfc (removed c s).
Proof.
  intros Hwf Hc. pose proof (elems_removed c s Hwf Hc) as El. split.
  - rewrite El. by apply NoDup_filter, Hwf.
  - rewrite El. eapply parts_removed; [apply Hwf|done|apply Hwf].
  - rewrite El. eapply parts_removed; [apply Hwf|done|apply Hwf].
  - intros d. rewrite El, list_elem_of_filter, conn_removed. simpl.
    case_decide; [naive_solver|]. rewrite (wfc_mgr _ Hwf d). naive_solver.
Qed.

Lemma parts_removeConnection s c :
  wfc s -> c ∈ elems s ->
  busyPart (removed c s) = filter (.≠ c) (busyPart s) /\
  idlePart (removed c s) = filter (.≠ c) (idlePart s) /\
  visited (removed c s) = filter (.≠ c) (visited s) /\
  pending (removed c s) = filter (.≠ c) (pending s).
Proof.
  intros Hwf Hc. unfold busyPart, idlePart, visited, pending.
  rewrite (elems_removed c s Hwf Hc). simpl.
  destruct (parts_removed _ _ _ (wfc_nodup _ Hwf) Hc (wfc_idle _ Hwf)) as (-> & -> & _).
  destruct (parts_removed _ _ _ (wfc_nodup _ Hwf) Hc (wfc_drain _ Hwf)) as (-> & -> & _). done.
Qed.

Lemma bumped_ne c l it : NoDup l -> c ∈ l -> validIter it l -> bumped c l it <> Some c.
Proof.
  intros Hnd Hc Hv E. destruct (parts_removed c l it Hnd Hc Hv) as (_ & _ & Hv').
  specialize (Hv' c E). by apply notin_filter_ne in Hv'.
Qed.

Lemma before_cons it (c : nat) l : it <> Some c -> before it (c :: l) = c :: before it l.
Proof. intros Hc. simpl. by rewrite decide_False. Qed.

Lemma from_cons it (c : nat) l : it <> Some c -> from it (c :: l) = from it l.
Proof. intros Hc. simpl. by rewrite decide_False. Qed.

Lemma before_snoc (d : nat) l c : d ∈ l -> before (Some d) (l ++ [c]) = before (Some d) l.
Proof.
  intros Hd. apply list_elem_of_split_l in Hd as (pre & suf & -> & Hpre).
  rewrite <- app_assoc. simpl. by rewrite !before_middle.
Qed.

Lemma from_snoc (d : nat) l c : d ∈ l -> from (Some d) (l ++ [c]) = from (Some d) l ++ [c].
Proof.
  intros Hd. apply list_elem_of_split_l in Hd as (pre & suf & -> & Hpre).
  rewrite <- app_assoc. simpl. by rewrite !from_middle.
Qed.

Lemma elems_activated c s : wfc s -> c ∈ elems s ->
  elems (activated c s) = c :: filter (.≠ c) (elems s).
Proof. intros Hwf. apply elems_pushed_front, Hwf. Qed.

Lemma elems_deactivated c s : wfc s -> c ∈ elems s ->
  elems (deactivated c s) = filter (.≠ c) (elems s) ++ [c].
Proof. intros Hwf. apply elems_pushed_back, Hwf. Qed.

Lemma wfc_activated s c : wfc s -> c ∈ elems s -> wfc (activated c s).
Proof.
  intros Hwf Hc. pose proof (elems_activated c s Hwf Hc) as El. split.
  - rewrite El. constructor; [apply notin_filter_ne|]. by apply NoDup_filter, Hwf.
  - rewrite El. intros d Hd. apply elem_of_cons. rewrite elem_of_filter_ne.
    apply (wfc_drain _ Hwf) in Hd. destruct (decide (d = c)); auto.
  - rewrite El. intros d Hd. apply elem_of_cons. right.
    exact (proj2 (proj2 (parts_removed _ _ _ (wfc_nodup _ Hwf) Hc (wfc_idle _ Hwf))) d Hd).
  - intros d. rewrite El, elem_of_cons, elem_of_filter_ne. rewrite <- (wfc_mgr _ Hwf d).
    destruct (decide (d = c)); naive_solver.
Qed.

Lemma parts_onActivated s c :
  wfc s -> c ∈ elems s ->
  busyPart (activated c s) = c :: filter (.≠ c) (busyPart s) /\
  idlePart (activated c s) = filter (.≠ c) (idlePart s).
Proof.
  intros Hwf Hc. unfold busyPart, idlePart. rewrite (elems_activated c s Hwf Hc).
  cbn [activated onManager cm relinked idleIterator_].
  assert (Hne : bumped c (elems s) (idleIterator_ (cm s)) <> Some c) by exact (bumped_ne _ _ _ (wfc_nodup _ Hwf) Hc (wfc_idle _ Hwf)).
  rewrite before_cons, from_cons by done.
  destruct (parts_removed _ _ _ (wfc_nodup _ Hwf) Hc (wfc_idle _ Hwf)) as (-> & -> & _). done.
Qed.

Lemma visited_activated s c :
  wfc s -> c ∈ elems s ->
  visited (activated c s) =
    if decide (drainIterator_ (cm s) = Some c) then [] else c :: filter (.≠ c) (visited s).
Proof.
  intros Hwf Hc. unfold visited. rewrite (elems_activated c s Hwf Hc). simpl.
  case_decide as Hd; [done|]. f_equal.
  destruct (parts_removed _ _ _ (wfc_nodup _ Hwf) Hc (wfc_drain _ Hwf)) as (<- & _).
  unfold bumped. by rewrite decide_False.
Qed.

Lemma wfc_deactivated s c : wfc s -> c ∈ elems s -> wfc (deactivated c s).
Proof.
  intros Hwf Hc. pose proof (elems_deactivated c s Hwf Hc) as El.
  assert (Hin : forall d, d ∈ filter (.≠ c) (elems s) ++ [c] <-> d ∈ elems s).
  { intros d. rewrite elem_of_app, elem_of_filter_ne, list_elem_of_singleton.
    destruct (decide (d = c)); naive_solver. }
  split.
  - rewrite El. apply NoDup_app. split_and!; [by apply NoDup_filter, Hwf| |apply NoDup_singleton].
    intros d [? _]%elem_of_filter_ne. by rewrite list_elem_of_singleton.
  - rewrite El. intros d Hd. apply Hin. simpl in Hd. case_decide.
    + destruct (succ (elems s) c) as [e|] eqn:E; simplify_eq/=; [|done].
      destruct (succ_Some _ _ _ (wfc_nodup _ Hwf) E) as (pre & suf & ->). set_solver.
    + by apply (wfc_drain _ Hwf).
  - rewrite El. intros d Hd. apply Hin. simpl in Hd. unfold backOnto in Hd. case_match; simplify_eq.
    + by apply (wfc_idle _ Hwf).
    + done.
  - intros d. rewrite El, Hin. apply (wfc_mgr _ Hwf).
Qed.

Lemma parts_onDeactivated s c :
  wfc s -> c ∈ elems s -> idleIterator_ (cm s) <> Some c ->
  busyPart (deactivated c s) = filter (.≠ c) (busyPart s) /\
  idlePart (deactivated c s) = filter (.≠ c) (idlePart s) ++ [c].
Proof.
  intros Hwf Hc Hne. unfold busyPart, idlePart.
  rewrite (elems_deactivated c s Hwf Hc). simpl.
  destruct (parts_removed _ _ _ (wfc_nodup _ Hwf) Hc (wfc_idle _ Hwf)) as (E1 & E2 & Hv).
  unfold bumped in *. rewrite decide_False in E1, E2, Hv by done. rewrite <- E1, <- E2.
  destruct (idleIterator_ (cm s)) as [d|]; simpl.
  - rewrite before_snoc, from_snoc by by apply Hv. done.
  - rewrite before_None, from_None, before_middle, from_middle by apply notin_filter_ne. done.
Qed.

Lemma visited_deactivated s c :
  wfc s -> c ∈ elems s ->
  forall d, d ∈ visited (deactivated c s) -> d ∈ visited s.
Proof.
  intros Hwf Hc d. unfold visited. rewrite (elems_deactivated c s Hwf Hc). simpl.
  destruct (parts_removed _ _ _ (wfc_nodup _ Hwf) Hc (wfc_drain _ Hwf)) as (E1 & _ & Hv).
  unfold bumped in *. case_decide as Hd.
  - destruct (succ (elems s) c) as [e|]; simpl.
    + rewrite before_snoc, E1 by by apply Hv. rewrite Hd. by intros [_ ?]%elem_of_filter_ne.
    + rewrite before_middle by apply notin_filter_ne. rewrite before_None in E1.
      rewrite E1, Hd. by intros [_ ?]%elem_of_filter_ne.
  - destruct (drainIterator_ (cm s)) as [e|]; simpl.
    + rewrite before_snoc, E1 by by apply Hv. by intros [_ ?]%elem_of_filter_ne.
    + rewrite !before_None, elem_of_app, elem_of_filter_ne, list_elem_of_singleton. naive_solver.
Qed.
End facts.
