(* ===== verification/ConnectionDrain.v ===== *)
(** * Connection manager: draining

    Under connections that only remove themselves when they are told to shut
    down, what a batch of the drain does, and the invariant of a graceful
    shutdown over every interleaving of loop callbacks, timers, additions,
    removals, activations and deactivations. *)
From Stdlib Require Import ZArith Lia SpecFloat.
From stdpp Require Import base numbers list gmap strings.
From S2P Require Import Prelude Connections ConnectionFacts.
Open Scope cpp_scope.

Set Default Goal Selector "!".

(** The connection a virtual call is made on. *)
Definition callee (k : Call) : option nat :=
  match k with
  | NotifyPendingShutdown c | CloseWhenIdle c | DropConnection c | DumpConnectionState c => Some c
  | _ => None
  end.

(** Connections whose methods only change their own busyness and, possibly,
    destroy the connection they are called on. *)
Definition quietReaction (k : Call) (r : reaction) : Prop :=
  match r with
  | RRemove c | RBusy c _ => callee k = Some c
  | _ => False
  end.
Definition quiet {L} `{!IntrusiveList L} (react : Call -> CMState L -> list reaction) : Prop :=
  forall k s, Forall (quietReaction k) (react k s).

Section drain.
Context {L : Type} `{!IntrusiveList L} `{!IntrusiveListLaws L}.
Context (react : Call -> CMState L -> list reaction).
Implicit Types (s : CMState L).

(** ** What a virtual call on [c] may change *)

Definition drainState s (c : nat) : DrainState := state_ (conn s c).

(** [evolved c s s']: the list, but for [c] removed or not; the iterators, but
    for moving off [c]; nothing else but busyness, timers and the log. *)
Record evolved (c : nat) s s' : Prop := {
  ev_wfc : wfc s';
  ev_helper : drainHelper_ s' = drainHelper_ s;
  ev_this : this_ (cm s') = this_ (cm s);
  ev_notify : notifyPendingShutdown_ (cm s') = notifyPendingShutdown_ (cm s);
  ev_inLoop : inLoop (env s') = inLoop (env s);
  ev_state : forall d, drainState s' d = drainState s d;
  ev_list :
    (elems s' = elems s /\ drainIterator_ (cm s') = drainIterator_ (cm s)) \/
    (c ∈ elems s /\ elems s' = filter (.≠ c) (elems s) /\
     drainIterator_ (cm s') = bumped c (elems s) (drainIterator_ (cm s)))
}.

Lemma evolved_refl c s : wfc s -> evolved c s s.
Proof. split; auto. Qed.

Lemma evolved_trans c s1 s2 s3 : evolved c s1 s2 -> evolved c s2 s3 -> evolved c s1 s3.
Proof.
  intros [W1 H1 T1 N1 I1 S1 L1] [W2 H2 T2 N2 I2 S2 L2]. split; try congruence.
  destruct L1 as [[E1 D1]|(C1 & E1 & D1)], L2 as [[E2 D2]|(C2 & E2 & D2)].
  - left. split; congruence.
  - right. rewrite E1 in C2, E2, D2. rewrite D1 in D2. done.
  - right. split_and!; [done|congruence..].
  - rewrite E1 in C2. by apply notin_filter_ne in C2.
Qed.

Lemma evolved_removed s c : wfc s -> c ∈ elems s -> evolved c s (removed c s).
Proof.
  intros Hwf Hc. split; try done.
  - by apply wfc_removed.
  - intros d. unfold drainState. rewrite conn_removed. by case_decide; subst.
  - right. split_and!; [done| |done]. by apply elems_removed.
Qed.

Lemma evolved_setConn s c x :
  wfc s -> connectionManager_ x = connectionManager_ (conn s c) -> state_ x = state_ (conn s c) ->
  evolved c s (onEnv (setConn c x) s).
Proof.
  intros Hwf Hm Hst.
  assert (E : forall d, conn (onEnv (setConn c x) s) d = if decide (d = c) then x else conn s d).
  { intros d. unfold conn at 1. simpl. case_decide as Hd; [subst d; by rewrite lookup_insert_eq|].
    by rewrite lookup_insert_ne. }
  split; try done.
  - destruct Hwf as [W1 W2 W3 W4]. split; try done. intros d. rewrite E. case_decide; subst.
    + rewrite Hm. apply W4.
    + apply W4.
  - intros d. unfold drainState. rewrite E. by case_decide; subst.
  - by left.
Qed.

Lemma evolved_log s c k : wfc s ->
  exists s', logCall k s = (Ok tt, s') /\ evolved c s s'.
Proof.
  intros [W1 W2 W3 W4]. eexists. split; [reflexivity|]. split; try done. by left.
Qed.

Lemma run_quietReaction k c r s :
  wfc s -> callee k = Some c -> quietReaction k r ->
  exists s', doReaction r s = (Ok tt, s') /\ evolved c s s'.
Proof.
  intros Hwf Hk Hr. destruct r as [d|d|d|d b]; simpl in Hr; try done; rewrite Hk in Hr; simplify_eq/=.
  - destruct (decide (d ∈ elems s)).
    + exists (removed d s). split; [by apply run_removeConnection|by apply evolved_removed].
    + exists s. split; [by apply removeConnection_notmine|by apply evolved_refl].
  - eexists. split; [reflexivity|]. by apply evolved_setConn.
Qed.

Lemma run_quietReactions k c rs s :
  wfc s -> callee k = Some c -> Forall (quietReaction k) rs ->
  exists s', for_each rs doReaction s = (Ok tt, s') /\ evolved c s s'.
Proof.
  intros Hwf Hk Hrs. revert s Hwf. induction Hrs as [|r rs Hr Hrs IH]; intros s Hwf; simpl.
  - exists s. split; [done|by apply evolved_refl].
  - destruct (run_quietReaction k c r s Hwf Hk Hr) as (s1 & E1 & V1).
    destruct (IH s1 (ev_wfc _ _ _ V1)) as (s2 & E2 & V2).
    exists s2. rewrite (bind_Ok _ _ _ _ _ E1). split; [done|by eapply evolved_trans].
Qed.

Context (Hquiet : quiet react).

Lemma run_invoke k c s :
  wfc s -> callee k = Some c -> exists s', invoke react k s = (Ok tt, s') /\ evolved c s s'.
Proof.
  intros Hwf Hk. unfold invoke. destruct (evolved_log s c k Hwf) as (s1 & E1 & V1).
  rewrite (bind_Ok _ _ _ _ _ E1), bind_get.
  destruct (run_quietReactions k c (react k s1) s1) as (s2 & E2 & V2); [apply V1|done|apply Hquiet|].
  exists s2. split; [done|by eapply evolved_trans].
Qed.

(** ** One connection of a batch *)

(** The drain state [fireNotifyPendingShutdown] and [fireCloseWhenIdle] leave. *)
Definition notifiedState (st : DrainState) : DrainState :=
  match st with NOT_DRAINING => SENT_NOTIFY_PENDING_SHUTDOWN | _ => st end.
Definition closedState (force : bool) (st : DrainState) : DrainState :=
  if force || bool_decide (st = SENT_NOTIFY_PENDING_SHUTDOWN) then SENT_CLOSE_WHEN_IDLE else st.

(** [drained f c s s']: [evolved], and the state of [c] is now [f] of it. *)
Record drained (f : DrainState -> DrainState) (c : nat) s s' : Prop := {
  dr_wfc : wfc s';
  dr_helper : drainHelper_ s' = drainHelper_ s;
  dr_this : this_ (cm s') = this_ (cm s);
  dr_notify : notifyPendingShutdown_ (cm s') = notifyPendingShutdown_ (cm s);
  dr_inLoop : inLoop (env s') = inLoop (env s);
  dr_state : forall d, drainState s' d = if decide (d = c) then f (drainState s d) else drainState s d;
  dr_list :
    (elems s' = elems s /\ drainIterator_ (cm s') = drainIterator_ (cm s)) \/
    (c ∈ elems s /\ elems s' = filter (.≠ c) (elems s) /\
     drainIterator_ (cm s') = bumped c (elems s) (drainIterator_ (cm s)))
}.

Lemma drained_evolved f c s s' :
  (f (drainState s c) = drainState s c) -> evolved c s s' -> drained f c s s'.
Proof.
  intros Hf [W H T N I S Ls]. split; try done. intros d. rewrite S. by case_decide; subst.
Qed.

Lemma run_setDrainState c st k s :
  wfc s -> callee k = Some c ->
  exists s', (do! setDrainState c st in invoke react k) s = (Ok tt, s') /\
    drained (fun _ => st) c s s'.
Proof.
  intros Hwf Hk. unfold setDrainState. rewrite bind_modify.
  set (x := mkConn _ _ _ _). set (s1 := onEnv (setConn c x) s).
  assert (E : forall d, conn s1 d = if decide (d = c) then x else conn s d).
  { intros d. unfold conn at 1. simpl. case_decide as Hd; [subst d; by rewrite lookup_insert_eq|].
    by rewrite lookup_insert_ne. }
  assert (W1 : wfc s1).
  { destruct Hwf as [H1 H2 H3 H4]. split; try done. intros d. rewrite E. case_decide; subst; apply H4. }
  destruct (run_invoke k c s1 W1 Hk) as (s2 & E2 & [W H T N I S Ls]).
  exists s2. split; [done|]. split; try done.
  intros d. rewrite S. unfold drainState. rewrite E. by case_decide.
Qed.

Lemma drained_ext f g c s s' :
  f (drainState s c) = g (drainState s c) -> drained f c s s' -> drained g c s s'.
Proof.
  intros Hfg [W H T N I S Ls]. split; try done. intros d. rewrite S. by case_decide; subst.
Qed.

Lemma run_fireNotify c s :
  wfc s -> exists s', fireNotifyPendingShutdown react c s = (Ok tt, s') /\ drained notifiedState c s s'.
Proof.
  intros Hwf. unfold fireNotifyPendingShutdown, when. rewrite bind_get. case_bool_decide as Hst.
  - destruct (run_setDrainState c SENT_NOTIFY_PENDING_SHUTDOWN (NotifyPendingShutdown c) s Hwf eq_refl)
      as (s' & E & D).
    exists s'. split; [done|]. eapply drained_ext; [|done]. unfold drainState. by rewrite Hst.
  - exists s. split; [done|]. apply drained_evolved; [|by apply evolved_refl].
    unfold drainState. by destruct (state_ (conn s c)).
Qed.

Lemma run_fireClose c force s :
  wfc s -> exists s', fireCloseWhenIdle react c force s = (Ok tt, s') /\
    drained (closedState force) c s s'.
Proof.
  intros Hwf. unfold fireCloseWhenIdle, when. rewrite bind_get.
  destruct (force || bool_decide (state_ (conn s c) = SENT_NOTIFY_PENDING_SHUTDOWN)) eqn:Hb.
  - destruct (run_setDrainState c SENT_CLOSE_WHEN_IDLE (CloseWhenIdle c) s Hwf eq_refl) as (s' & E & D).
    exists s'. split; [done|]. eapply drained_ext; [|done].
    unfold closedState, drainState. by rewrite Hb.
  - exists s. split; [done|]. apply drained_evolved; [|by apply evolved_refl].
    unfold closedState, drainState. by rewrite Hb.
Qed.

(** ** A batch *)

(** What the loop of [drainConnections] does to the state of a connection. *)
Definition visitState s : DrainState -> DrainState :=
  if bool_decide (shutdownState_ (drainHelper_ s) = NOTIFY_PENDING_SHUTDOWN) then notifiedState
  else closedState (negb (notifyPendingShutdown_ (cm s))).

Lemma run_visit c s :
  wfc s ->
  exists s', (if bool_decide (shutdownState_ (drainHelper_ s) = NOTIFY_PENDING_SHUTDOWN)
     then fireNotifyPendingShutdown react c
     else fireCloseWhenIdle react c (negb (notifyPendingShutdown_ (cm s)))) s = (Ok tt, s') /\
    drained (visitState s) c s s'.
Proof.
  intros Hwf. unfold visitState. case_bool_decide; [by apply run_fireNotify|by apply run_fireClose].
Qed.

(** Everything but the list, the drain iterator and the drain states. *)
Definition sameMode s s' : Prop :=
  drainHelper_ s' = drainHelper_ s /\ this_ (cm s') = this_ (cm s) /\
  notifyPendingShutdown_ (cm s') = notifyPendingShutdown_ (cm s) /\
  inLoop (env s') = inLoop (env s).

Lemma drained_sameMode f c s s' : drained f c s s' -> sameMode s s'.
Proof. by intros []. Qed.

Lemma sameMode_visit s s' : sameMode s s' -> visitState s' = visitState s.
Proof. intros (H1 & _ & H2 & _). unfold visitState. by rewrite H1, H2. Qed.

(** [batch todo pre rest s s']: the connections [todo] were visited, in
    between [pre] and [rest]; what is left of the list. *)
Record batch (todo pre rest : list nat) s s' : Prop := {
  ba_wfc : wfc s';
  ba_mode : sameMode s s';
  ba_list : exists kept, elems s' = pre ++ kept ++ rest /\ (forall c, c ∈ kept -> c ∈ todo);
  ba_state : forall d, drainState s' d =
    if decide (d ∈ todo) then visitState s (drainState s d) else drainState s d
}.

Lemma run_drainLoop n : forall s pre suf,
  wfc s -> elems s = pre ++ suf ->
  exists s', drainLoop react n (head suf) s = (Ok (head (drop n suf)), s') /\
    batch (take n suf) pre (drop n suf) s s'.
Proof.
  induction n as [|n IH]; intros s pre suf Hwf El.
  { exists s. split; [by destruct suf|]. split; try done. by exists []. }
  destruct suf as [|c suf]; simpl.
  { exists s. split; [done|]. split; try done. by exists []. }
  pose proof (wfc_nodup _ Hwf) as Hnd. rewrite El in Hnd.
  assert (Hc : c ∈ elems s) by (rewrite El; set_solver).
  assert (Hpre : c ∉ pre) by by eapply NoDup_middle_pre.
  rewrite (bind_Ok _ _ _ _ _ (run_next s c Hc)), bind_get.
  rewrite El, succ_middle by done.
  destruct (run_visit c s Hwf) as (s1 & E1 & D1). rewrite (bind_Ok _ _ _ _ _ E1). clear E1.
  assert (Hl1 : exists kept, elems s1 = (pre ++ kept) ++ suf /\ (forall d, d ∈ kept -> d = c)).
  { destruct (dr_list _ _ _ _ D1) as [[-> _]|(_ & -> & _)]; rewrite El.
    - exists [c]. rewrite <- app_assoc. split; [done|]. set_solver.
    - exists []. rewrite app_nil_r, filter_ne_middle by done. split; [done|]. set_solver. }
  destruct Hl1 as (kept1 & El1 & Hk1).
  destruct (IH s1 (pre ++ kept1) suf (dr_wfc _ _ _ _ D1) El1) as (s2 & E2 & B2).
  exists s2. split; [done|]. pose proof (drained_sameMode _ _ _ _ D1) as M1.
  destruct B2 as [W2 M2 (kept2 & El2 & Hk2) S2]. split.
  - done.
  - destruct M1 as (? & ? & ? & ?), M2 as (? & ? & ? & ?). split_and!; congruence.
  - exists (kept1 ++ kept2). rewrite El2, <- !app_assoc. split; [done|].
    intros d [Hd|Hd]%elem_of_app; apply elem_of_cons; auto.
  - intros d. rewrite S2, (dr_state _ _ _ _ D1), (sameMode_visit _ _ M1).
    destruct (decide (d = c)) as [->|Hdc].
    + assert (Hcs : c ∉ take n suf).
      { intros Hin. apply NoDup_app in Hnd as (_ & _ & [Hn _]%NoDup_cons). apply Hn.
        rewrite <- (take_drop n suf). set_solver. }
      rewrite decide_False by done. by rewrite decide_True by set_solver.
    + destruct (decide (d ∈ take n suf)).
      * by rewrite decide_True by set_solver.
      * by rewrite decide_False by set_solver.
Qed.

(** ** [drainConnections] *)

Lemma visited_pending s : visited s ++ pending s = elems s.
Proof. apply before_from. Qed.

Lemma head_pending s : wfc s -> head (pending s) = drainIterator_ (cm s).
Proof. intros Hwf. apply head_from, Hwf. Qed.

Lemma wfc_mode s s' :
  wfc s -> elems s' = elems s -> validIter (drainIterator_ (cm s')) (elems s) ->
  idleIterator_ (cm s') = idleIterator_ (cm s) -> this_ (cm s') = this_ (cm s) ->
  objects (env s') = objects (env s) -> wfc s'.
Proof.
  intros [W1 W2 W3 W4] El Hd Hi Ht Ho. split; rewrite ?El, ?Hi; try done.
  intros c. unfold conn. rewrite Ho, Ht. apply W4.
Qed.

Definition draining s : Prop :=
  shutdownState_ (drainHelper_ s) = NOTIFY_PENDING_SHUTDOWN \/
  shutdownState_ (drainHelper_ s) = CLOSE_WHEN_IDLE.

(** The part of [drainConnections] after its loop. *)
Definition drainTail (it : option nat) : M (CMState L) unit :=
  do! modify (onManager (setDrainIterator it)) in
  let! s := get in
  match it with
  | Some _ => modify (onDrain (setLoop true))
  | None =>
      if bool_decide (shutdownState_ (drainHelper_ s) = NOTIFY_PENDING_SHUTDOWN) then
        do! modify (onDrain (setState NOTIFY_PENDING_SHUTDOWN_COMPLETE)) in
        when (negb (isScheduled (drainHelper_ s))) (
          do! modify (onDrain (setState CLOSE_WHEN_IDLE)) in
          let! it := drainStartIterator in
          do! modify (onManager (setDrainIterator it)) in
          modify (onDrain (setLoop true)))
      else modify (onDrain (setState CLOSE_WHEN_IDLE_COMPLETE))
  end.

Lemma run_drainConnections s :
  wfc s -> draining s ->
  exists s', batch (take 64 (pending s)) (visited s) (drop 64 (pending s)) s s' /\
    DrainHelper_drainConnections react s = drainTail (head (drop 64 (pending s))) s'.
Proof.
  intros Hwf Hst. unfold DrainHelper_drainConnections. rewrite bind_get.
  assert (Hb : bool_decide (shutdownState_ (drainHelper_ s) = NOTIFY_PENDING_SHUTDOWN) ||
    bool_decide (shutdownState_ (drainHelper_ s) = CLOSE_WHEN_IDLE) = true).
  { destruct Hst as [-> | ->]; done. }
  rewrite Hb, bind_ret.
  destruct (run_drainLoop 64 s (visited s) (pending s) Hwf (eq_sym (visited_pending s))) as (s' & E & B).
  rewrite head_pending in E by done. exists s'. split; [done|].
  by rewrite (bind_Ok _ _ _ _ _ E).
Qed.
End drain.
