(* ===== verification/ConnectionShutdown.v ===== *)
(** * Connection manager: the invariant of a graceful shutdown

    The phases of [DrainHelper] as an invariant over every interleaving of the
    event loop, the grace timer, the calls of clients and connections, and when
    a later shutdown may take the drain over. *)
From Stdlib Require Import ZArith Lia SpecFloat.
From stdpp Require Import base numbers list gmap strings.
From S2P Require Import Prelude Connections ConnectionFacts ConnectionDrain.
Open Scope cpp_scope.

Set Default Goal Selector "!".

Section shutdown.
Context {L : Type} `{!IntrusiveList L} `{!IntrusiveListLaws L}.
Context (react : Call -> CMState L -> list reaction).
Implicit Types (s : CMState L).

(** ** The invariant *)

Definition notifiedOk s (c : nat) : Prop :=
  drainState s c <> NOT_DRAINING \/ notifyPendingShutdown_ (cm s) = false.

(** The connection was told to close, or will be at the end of the loop. *)
Definition closedOk s (c : nat) : Prop :=
  drainState s c = SENT_CLOSE_WHEN_IDLE \/ c ∈ inLoop (env s).

Definition phase s : Prop :=
  let d := drainHelper_ s in
  match shutdownState_ d with
  | NONE => False
  | NOTIFY_PENDING_SHUTDOWN =>
      loopScheduled d = true /\ (forall c, c ∈ visited s -> notifiedOk s c)
  | NOTIFY_PENDING_SHUTDOWN_COMPLETE =>
      loopScheduled d = false /\ isScheduled d = true /\ (forall c, c ∈ elems s -> notifiedOk s c)
  | CLOSE_WHEN_IDLE =>
      loopScheduled d = true /\ (forall c, c ∈ elems s -> notifiedOk s c) /\
      (forall c, c ∈ visited s -> closedOk s c)
  | CLOSE_WHEN_IDLE_COMPLETE =>
      loopScheduled d = false /\ (forall c, c ∈ elems s -> notifiedOk s c) /\
      (forall c, c ∈ elems s -> closedOk s c)
  end.

Record shutdownInv s : Prop := {
  si_wfc : wfc s;
  si_all : all_ (drainHelper_ s) = true;
  si_phase : phase s
}.

(** Preservation for steps that leave the helper alone: connections only
    progress, and those that are new, or become visited, are up to date. *)
Definition closing s : Prop :=
  stateNum CLOSE_WHEN_IDLE <= stateNum (shutdownState_ (drainHelper_ s)).
Definition upToDate s (c : nat) : Prop := notifiedOk s c /\ (closing s -> closedOk s c).

Lemma visited_sub s c : c ∈ visited s -> c ∈ elems s.
Proof. intros Hc. rewrite <- visited_pending. set_solver. Qed.

Lemma phase_mono s s' :
  drainHelper_ s' = drainHelper_ s ->
  (forall c, c ∈ elems s' -> upToDate s' c \/
     (c ∈ elems s /\ (draining s -> c ∈ visited s' -> c ∈ visited s) /\
      (notifiedOk s c -> notifiedOk s' c) /\ (closing s -> closedOk s c -> closedOk s' c))) ->
  phase s -> phase s'.
Proof.
  intros Hh Hc. unfold phase. rewrite Hh.
  assert (Hn : (forall c, c ∈ elems s -> notifiedOk s c) -> forall c, c ∈ elems s' -> notifiedOk s' c).
  { intros Hall c Hin. destruct (Hc c Hin) as [[? _]|(? & _ & ? & _)]; auto. }
  assert (Hu : closing s -> forall c, upToDate s' c -> closedOk s' c).
  { intros Hs c [_ Hcl]. apply Hcl. unfold closing. by rewrite Hh. }
  destruct (shutdownState_ (drainHelper_ s)) eqn:Est; [done|..].
  - intros [Hl Hv]. split; [done|]. intros c Hin.
    destruct (Hc c (visited_sub _ _ Hin)) as [[? _]|(_ & Hvis & Hn' & _)]; [done|].
    apply Hn', Hv, Hvis; [by left|done].
  - intros (Hl & Ht & Hv). auto.
  - assert (Hs : closing s) by (unfold closing; by rewrite Est).
    intros (Hl & Hv & Hcl). split_and!; [done|auto|]. intros c Hin.
    destruct (Hc c (visited_sub _ _ Hin)) as [?|(_ & Hvis & _ & Hcc)]; [auto|].
    apply Hcc, Hcl, Hvis; [done|by right|done].
  - assert (Hs : closing s) by (unfold closing; rewrite Est; simpl; lia).
    intros (Hl & Hv & Hcl). split_and!; [done|auto|]. intros c Hin.
    destruct (Hc c Hin) as [?|(? & _ & _ & Hcc)]; auto.
Qed.

(** ** Client calls *)

Lemma inv_removed s c : c ∈ elems s -> shutdownInv s -> shutdownInv (removed c s).
Proof.
  intros Hc [Hwf Hall Hph]. split; [by apply wfc_removed|done|].
  apply phase_mono with s; [done| |done]. intros d Hd. right.
  rewrite elems_removed in Hd by done. apply elem_of_filter_ne in Hd as [Hdc Hd].
  destruct (parts_removeConnection s c Hwf Hc) as (_ & _ & Hv & _).
  assert (Est : drainState (removed c s) d = drainState s d).
  { unfold drainState. by rewrite conn_removed, decide_False. }
  split_and!; [done| | |].
  - rewrite Hv. by intros _ [_ ?]%elem_of_filter_ne.
  - unfold notifiedOk. by rewrite Est.
  - unfold closedOk. by rewrite Est.
Qed.

Lemma inv_deactivated s c : c ∈ elems s -> shutdownInv s -> shutdownInv (deactivated c s).
Proof.
  intros Hc [Hwf Hall Hph]. split; [by apply wfc_deactivated|done|].
  apply phase_mono with s; [done| |done]. intros d Hd. right.
  rewrite elems_deactivated in Hd by done.
  split_and!; [|intros _; by apply visited_deactivated|done|done].
  apply elem_of_app in Hd as [[_ ?]%elem_of_filter_ne|Hd]; [done|].
  apply list_elem_of_singleton in Hd. by subst.
Qed.

(** An activation that the drain does not miss: of a connection it has been to,
    or is about to go to, or while no batch is pending. *)
Lemma inv_activated s c :
  c ∈ elems s -> (draining s -> c ∉ tail (pending s)) ->
  shutdownInv s -> shutdownInv (activated c s).
Proof.
  intros Hc Hen [Hwf Hall Hph]. split; [by apply wfc_activated|done|].
  apply phase_mono with s; [done| |done]. intros d Hd. right.
  rewrite elems_activated in Hd by done.
  assert (Hds : d ∈ elems s).
  { apply elem_of_cons in Hd as [->|[_ ?]%elem_of_filter_ne]; done. }
  split_and!; [done| |done|done]. intros Hdr. rewrite visited_activated by done.
  case_decide as Hit; [by intros ?%not_elem_of_nil|].
  intros [->|[_ ?]%elem_of_filter_ne]%elem_of_cons; [|done].
  specialize (Hen Hdr). rewrite <- visited_pending in Hc. apply elem_of_app in Hc as [?|Hp]; [done|].
  pose proof (head_pending s Hwf) as Hh. destruct (pending s) as [|e l]; [by apply not_elem_of_nil in Hp|].
  simpl in *. apply elem_of_cons in Hp as [->|?]; [|done]. by rewrite <- Hh in Hit.
Qed.

(** ** The effect of virtual calls *)

Definition progressing (f : DrainState -> DrainState) : Prop :=
  f SENT_CLOSE_WHEN_IDLE = SENT_CLOSE_WHEN_IDLE /\ (forall st, st <> NOT_DRAINING -> f st <> NOT_DRAINING).

Lemma progressing_notified : progressing notifiedState.
Proof. split; [done|]. by intros []. Qed.

Lemma progressing_closed force : progressing (closedState force).
Proof. destruct force; split; try done; intros []; done. Qed.

Lemma progressing_visit s : progressing (visitState s).
Proof. unfold visitState. case_match; [apply progressing_notified|apply progressing_closed]. Qed.

Lemma drained_elems f c s s' d : drained f c s s' -> d ∈ elems s' -> d ∈ elems s.
Proof.
  intros D. destruct (dr_list _ _ _ _ D) as [[-> _]|(_ & -> & _)]; [done|].
  by intros [_ ?]%elem_of_filter_ne.
Qed.

Lemma drained_visited f c s s' d : wfc s -> drained f c s s' -> d ∈ visited s' -> d ∈ visited s.
Proof.
  intros Hwf D. unfold visited. destruct (dr_list _ _ _ _ D) as [[-> ->]|(Hc & -> & ->)]; [done|].
  destruct (parts_removed _ _ _ (wfc_nodup _ Hwf) Hc (wfc_drain _ Hwf)) as (-> & _).
  by intros [_ ?]%elem_of_filter_ne.
Qed.

Lemma progress_notified f c s s' d :
  progressing f -> drained f c s s' -> notifiedOk s d -> notifiedOk s' d.
Proof.
  intros [_ Hf] D. unfold notifiedOk. rewrite (dr_notify _ _ _ _ D), (dr_state _ _ _ _ D).
  intros [?|?]; [|by right]. left. case_decide; auto.
Qed.

Lemma progress_closed f c s s' d :
  progressing f -> drained f c s s' -> closedOk s d -> closedOk s' d.
Proof.
  intros [Hf _] D. unfold closedOk. rewrite (dr_inLoop _ _ _ _ D), (dr_state _ _ _ _ D).
  intros [Hd|?]; [|by right]. left. by case_decide; rewrite Hd.
Qed.

Lemma inv_drained f c s s' :
  progressing f -> drained f c s s' -> shutdownInv s -> shutdownInv s'.
Proof.
  intros Hf D [Hwf Hall Hph]. split; [apply D|by rewrite (dr_helper _ _ _ _ D)|].
  apply phase_mono with s; [apply D| |done]. intros d Hd. right. split_and!.
  - by eapply drained_elems.
  - intros _. by eapply drained_visited.
  - by eapply progress_notified.
  - intros _. by eapply progress_closed.
Qed.

Lemma closedState_notified s c :
  notifiedOk s c ->
  closedState (negb (notifyPendingShutdown_ (cm s))) (drainState s c) = SENT_CLOSE_WHEN_IDLE.
Proof.
  intros [Hd|Hn]; unfold closedState; [|by rewrite Hn].
  destruct (drainState s c); try done; by destruct (negb _).
Qed.

Lemma phase_notified s c : phase s -> closing s -> c ∈ elems s -> notifiedOk s c.
Proof.
  unfold phase, closing. destruct (shutdownState_ (drainHelper_ s)); simpl; try lia.
  - intros (_ & Hn & _) _. apply Hn.
  - intros (_ & Hn & _) _. apply Hn.
Qed.

(** ** A batch *)

Definition drainPre s : Prop :=
  match shutdownState_ (drainHelper_ s) with
  | NOTIFY_PENDING_SHUTDOWN => forall c, c ∈ visited s -> notifiedOk s c
  | CLOSE_WHEN_IDLE =>
      (forall c, c ∈ elems s -> notifiedOk s c) /\ (forall c, c ∈ visited s -> closedOk s c)
  | _ => False
  end.

Lemma drainPre_draining s : drainPre s -> draining s.
Proof. unfold drainPre, draining. destruct (shutdownState_ (drainHelper_ s)); auto; done. Qed.

Lemma batch_notified todo pre rest s s' c (B : batch todo pre rest s s') : notifiedOk s c -> notifiedOk s' c.
Proof.
  unfold notifiedOk. destruct (ba_mode _ _ _ _ _ B) as (_ & _ & -> & _).
  rewrite (ba_state _ _ _ _ _ B).
  intros [?|?]; [left|by right]. case_decide; [by apply progressing_visit|done].
Qed.

Lemma batch_closed todo pre rest s s' c (B : batch todo pre rest s s') : closedOk s c -> closedOk s' c.
Proof.
  unfold closedOk. destruct (ba_mode _ _ _ _ _ B) as (_ & _ & _ & ->).
  rewrite (ba_state _ _ _ _ _ B).
  intros [E|?]; [left|by right]. rewrite E. by case_decide; [apply progressing_visit|].
Qed.

Lemma batch_todo_notified todo pre rest s s' c (B : batch todo pre rest s s') :
  shutdownState_ (drainHelper_ s) = NOTIFY_PENDING_SHUTDOWN -> c ∈ todo -> notifiedOk s' c.
Proof.
  intros E Hc. left. rewrite (ba_state _ _ _ _ _ B), decide_True by done.
  unfold visitState. rewrite E, bool_decide_true by done. by destruct (drainState s c).
Qed.

Lemma batch_todo_closed todo pre rest s s' c (B : batch todo pre rest s s') :
  shutdownState_ (drainHelper_ s) = CLOSE_WHEN_IDLE -> notifiedOk s c -> c ∈ todo -> closedOk s' c.
Proof.
  intros E Hn Hc. left. rewrite (ba_state _ _ _ _ _ B), decide_True by done.
  unfold visitState. rewrite E, bool_decide_false by done. by apply closedState_notified.
Qed.

(** The connections before the end of the batch are up to date. *)
Lemma batch_upToDate todo pre rest s s' c (B : batch todo pre rest s s') :
  drainPre s -> pre = visited s -> c ∈ elems s -> (c ∈ pre \/ c ∈ todo) -> upToDate s' c.
Proof.
  unfold drainPre, upToDate, closing. destruct (ba_mode _ _ _ _ _ B) as (-> & _).
  intros Hpre -> Hin. destruct (shutdownState_ (drainHelper_ s)) eqn:Est; try done.
  - intros [Hc|Hc]; (split; [|simpl; lia]); [eapply batch_notified, Hpre; done|by eapply batch_todo_notified].
  - destruct Hpre as [Hn Hv]. intros [Hc|Hc]; (split; [eapply batch_notified, Hn; done|intros _]).
    + eapply batch_closed, Hv; done.
    + eapply batch_todo_closed; [done|done|by apply Hn|done].
Qed.

Context (Hquiet : quiet react).

(** What is left of a batch and where the iterator stops. *)
Lemma batch_parts todo rest s s1 :
  wfc s -> todo ++ rest = pending s -> batch todo (visited s) rest s s1 ->
  let s2 := onManager (setDrainIterator (head rest)) s1 in
  wfc s2 /\ pending s2 = rest /\ (forall c, c ∈ elems s2 -> c ∈ elems s) /\
  (forall c, c ∈ visited s2 -> c ∈ elems s /\ (c ∈ visited s \/ c ∈ todo)).
Proof.
  intros Hwf Hp B s2. destruct (ba_list _ _ _ _ _ B) as (kept & El & Hk).
  rewrite app_assoc in El. pose proof (wfc_nodup _ (ba_wfc _ _ _ _ _ B)) as Hnd.
  assert (Ev : visited s2 = visited s ++ kept).
  { unfold visited at 1. simpl. change (elems s2) with (elems s1). rewrite El in *.
    by apply before_head_app. }
  assert (Ep : pending s2 = rest).
  { unfold pending at 1. simpl. change (elems s2) with (elems s1). rewrite El in *.
    by apply from_head_app. }
  assert (Hin : forall c, c ∈ elems s <-> c ∈ visited s \/ c ∈ todo \/ c ∈ rest).
  { intros c. rewrite <- visited_pending, <- Hp. set_solver. }
  split_and!.
  - apply wfc_mode with s1; try done; [apply B|]. intros c Hc. rewrite El. simpl in Hc.
    destruct rest; simplify_eq/=. set_solver.
  - done.
  - intros c. change (elems s2) with (elems s1). rewrite El, Hin. set_solver.
  - intros c. rewrite Ev, Hin. set_solver.
Qed.

Lemma wfc_onDrain g s : wfc s -> wfc (onDrain g s).
Proof. intros Hwf. by apply wfc_mode with s; try done; apply Hwf. Qed.

Lemma inv_drain s :
  wfc s -> all_ (drainHelper_ s) = true -> drainPre s ->
  (loopScheduled (drainHelper_ s) = true -> 64 < length (pending s)) ->
  exists s', DrainHelper_drainConnections react s = (Ok tt, s') /\ shutdownInv s'.
Proof.
  intros Hwf Hall Hpre Hlate.
  destruct (run_drainConnections react Hquiet s Hwf (drainPre_draining _ Hpre)) as (s1 & B & ->).
  destruct (batch_parts _ _ _ _ Hwf (take_drop 64 _) B) as (W2 & Ep & Hsub & Hvis).
  assert (Hup : forall c, c ∈ visited (onManager (setDrainIterator (head (drop 64 (pending s)))) s1) ->
    upToDate s1 c).
  { intros c Hc. destruct (Hvis c Hc). apply (batch_upToDate _ _ _ _ _ c B); done. }
  assert (Hnot : forall c, notifiedOk s c -> notifiedOk s1 c) by exact (fun c => batch_notified _ _ _ _ _ c B).
  destruct (ba_mode _ _ _ _ _ B) as (Hh & _ & _).
  unfold drainTail. rewrite bind_modify, bind_get.
  set (s2 := onManager (setDrainIterator (head (drop 64 (pending s)))) s1) in *.
  assert (Hel : forall c, drainIterator_ (cm s2) = None -> c ∈ elems s2 -> c ∈ visited s2).
  { intros c Hd Hc. unfold visited. by rewrite Hd, before_None. }
  change (drainIterator_ (cm s2)) with (head (drop 64 (pending s))) in Hel.
  destruct (head (drop 64 (pending s))) as [c0|] eqn:Hrest.
  - eexists. split; [reflexivity|]. split; [by apply wfc_onDrain|by simpl; rewrite Hh|].
    unfold phase. cbn [drainHelper_ onDrain setLoop shutdownState_ loopScheduled isScheduled]. simpl.
    unfold drainPre in Hpre. rewrite Hh. unfold upToDate, closing in Hup. rewrite Hh in Hup.
    destruct (shutdownState_ (drainHelper_ s)) eqn:Est; try done.
    + split; [done|]. intros c Hc. by apply Hup.
    + split_and!; [done| |].
      * intros c Hc. apply Hnot, Hpre, Hsub, Hc.
      * intros c Hc. by apply Hup.
  - assert (Hloop : loopScheduled (drainHelper_ s) = false).
    { apply not_true_is_false. intros Hl. specialize (Hlate Hl).
      pose proof (length_drop (pending s) 64) as Hlen.
      destruct (drop 64 (pending s)); simpl in *; [lia|done]. }
    unfold upToDate, closing in Hup. change (drainHelper_ s2) with (drainHelper_ s1). rewrite Hh in *.
    unfold drainPre in Hpre. destruct (shutdownState_ (drainHelper_ s)) eqn:Est; try done.
    + rewrite bool_decide_true by done. rewrite bind_modify. unfold when.
      destruct (isScheduled (drainHelper_ s)) eqn:Et; cbv [negb].
      * eexists. split; [reflexivity|]. split; [by apply wfc_onDrain|by simpl; rewrite Hh|].
        unfold phase. simpl. rewrite Hh, Et. split_and!; [done..|].
        intros c Hc. apply Hup, Hel; done.
      * rewrite bind_modify. unfold drainStartIterator. rewrite bind_assoc, bind_get.
        cbn [drainHelper_ onDrain setState all_]. simpl. rewrite Hh, Hall, bind_ret, bind_modify.
        eexists. split; [reflexivity|]. split.
        -- apply wfc_mode with s2; try done. intros c Hc. simpl in Hc. unfold begin in Hc.
           change (head (elems s2) = Some c) in Hc. destruct (elems s2); simplify_eq/=. set_solver.
        -- simpl. by rewrite Hh.
        -- unfold phase. simpl. split_and!; [done| |].
           ++ intros c Hc. apply Hup, Hel; done.
           ++ intros c Hc. unfold visited in Hc. simpl in Hc.
              change (c ∈ before (head (elems s2)) (elems s2)) in Hc.
              rewrite before_head in Hc. by apply not_elem_of_nil in Hc.
    + rewrite bool_decide_false by done. eexists. split; [reflexivity|].
      split; [by apply wfc_onDrain|by simpl; rewrite Hh|]. unfold phase. simpl. rewrite Hh. split_and!.
      * done.
      * intros c Hc. apply Hnot, Hpre, Hsub, Hc.
      * intros c Hc. apply Hup; [apply Hel; done|done].
Qed.

(** ** Additions *)

(** The part of [addConnection] after the connection is in the list. *)
Definition addTail (c : nat) : M (CMState L) unit :=
  let! s := get in
  do! when ((stateNum NOTIFY_PENDING_SHUTDOWN <=? stateNum (getShutdownState s)) &&
            notifyPendingShutdown_ (cm s))
        (fireNotifyPendingShutdown react c) in
  let! s := get in
  when (stateNum CLOSE_WHEN_IDLE <=? stateNum (getShutdownState s))
    (modify (onEnv (fun e => setInLoop (inLoop e ++ [c]) e))).

(** [linked c s s']: [s'] is [s] with [c] in the list, at the front if new. *)
Record linked (c : nat) s s' : Prop := {
  li_wfc : wfc s';
  li_mode : sameMode s s';
  li_elems : elems s' = if decide (c ∈ elems s) then elems s else c :: elems s;
  li_drain : drainIterator_ (cm s') = drainIterator_ (cm s);
  li_idle : idleIterator_ (cm s') = idleIterator_ (cm s);
  li_state : forall d, drainState s' d = drainState s d
}.

(** Changes of the objects around the list that keep every connection's
    manager and drain state. *)
Lemma linked_env c s s1 e :
  linked c s s1 -> (forall d, connectionManager_ (conn (mkCMState (cm s1) (drainHelper_ s1) e) d) =
    connectionManager_ (conn s1 d)) ->
  (forall d, state_ (conn (mkCMState (cm s1) (drainHelper_ s1) e) d) = state_ (conn s1 d)) ->
  inLoop e = inLoop (env s1) ->
  linked c s (mkCMState (cm s1) (drainHelper_ s1) e).
Proof.
  intros [W M El D I S] Hm Hs Hl. split; try done.
  - destruct W as [W1 W2 W3 W4]. split; try done. intros d. rewrite Hm. apply W4.
  - destruct M as (? & ? & ? & ?). split_and!; try done. simpl. congruence.
  - intros d. unfold drainState. rewrite Hs. apply S.
Qed.

Lemma conn_setConnectionManager c m s d :
  conn (setConnectionManager c m s).2 d =
    if decide (d = c)
    then mkConn (state_ (conn s c)) m (isBusy (conn s c)) (getIdleTime (conn s c))
    else conn s d.
Proof.
  unfold conn at 1. simpl. case_decide as Hd; [subst d; by rewrite lookup_insert_eq|].
  by rewrite lookup_insert_ne.
Qed.

(** [push_front] and [setConnectionManager] of a connection no manager has. *)
Lemma run_link c s s1 :
  wfc s -> c ∉ elems s ->
  cm s1 = cm s -> drainHelper_ s1 = drainHelper_ s -> inLoop (env s1) = inLoop (env s) ->
  (forall d, d <> c -> conn s1 d = conn s d) -> connectionManager_ (conn s1 c) = None ->
  drainState s1 c = drainState s c ->
  exists s2, (do! push_front c in setConnectionManager c (Some (this_ (cm s)))) s1 = (Ok tt, s2) /\
    linked c s s2.
Proof.
  intros Hwf Hc Hcm Hh Hl Hd Hm Hst. unfold push_front. rewrite bind_assoc, bind_get.
  assert (El : elems s1 = elems s) by (unfold elems; by rewrite Hcm).
  assert (Hn : is_linked s1 c = false).
  { unfold is_linked. by rewrite El, Hm, bool_decide_false. }
  rewrite Hn, bind_modify.
  pose (s1' := onManager (setConns (il_push_front c (conns_ (cm s1)))) s1).
  pose (s2 := (setConnectionManager c (Some (this_ (cm s))) s1').2).
  exists s2. split; [reflexivity|].
  assert (Elems : elems s2 = c :: elems s).
  { unfold elems, s2. simpl. rewrite Hcm. by rewrite il_elems_push_front. }
  assert (Emode : sameMode s s2 /\ drainIterator_ (cm s2) = drainIterator_ (cm s) /\
    idleIterator_ (cm s2) = idleIterator_ (cm s)).
  { unfold sameMode, s2. simpl. by rewrite Hcm. }
  assert (Ec : forall d, conn s2 d = if decide (d = c) then mkConn (state_ (conn s1 c))
    (Some (this_ (cm s))) (isBusy (conn s1 c)) (getIdleTime (conn s1 c)) else conn s1 d).
  { intros d. exact (conn_setConnectionManager c (Some (this_ (cm s))) s1' d). }
  clearbody s2. destruct Emode as ((M1 & M2 & M3 & M4) & Ed & Ei). split; try done.
  - split; rewrite ?Elems, ?Ed, ?Ei, ?M2.
    + constructor; [done|apply Hwf].
    + intros d Hd'. apply elem_of_cons. right. by apply (wfc_drain _ Hwf).
    + intros d Hd'. apply elem_of_cons. right. by apply (wfc_idle _ Hwf).
    + intros d. rewrite Ec, elem_of_cons. case_decide as E; [naive_solver|].
      rewrite Hd by done. rewrite (wfc_mgr _ Hwf d). naive_solver.
  - by rewrite Elems, decide_False.
  - intros d. unfold drainState in *. rewrite Ec. case_decide; subst; [done|by rewrite Hd].
Qed.

Lemma run_oldManager c s :
  c ∉ elems s -> wfc s ->
  exists s1, match connectionManager_ (conn s c) with
     | Some m =>
         do! logCall (OtherManagerRemoves m c) in
         do! cancelTimeout c in
         setConnectionManager c None
     | None => ret tt
     end s = (Ok tt, s1) /\
   cm s1 = cm s /\ drainHelper_ s1 = drainHelper_ s /\ inLoop (env s1) = inLoop (env s) /\
   (forall d, d <> c -> conn s1 d = conn s d) /\ connectionManager_ (conn s1 c) = None /\
   drainState s1 c = drainState s c.
Proof.
  intros Hc Hwf. destruct (connectionManager_ (conn s c)) as [m|] eqn:Hm.
  - eexists. split; [reflexivity|]. split_and!; try done.
    + intros d Hd. exact (eq_trans (conn_setConnectionManager c None s d) (decide_False _ _ Hd)).
    + unfold conn. simpl. by rewrite lookup_insert_eq.
    + unfold drainState, conn. simpl. by rewrite lookup_insert_eq.
  - exists s. by split_and!.
Qed.

Lemma linked_refl c s : wfc s -> c ∈ elems s -> linked c s s.
Proof. intros Hwf Hc. split; try done. by rewrite decide_True. Qed.

Lemma linked_log c s s1 b k :
  linked c s s1 -> exists s2, when b (logCall k) s1 = (Ok tt, s2) /\ linked c s s2.
Proof.
  intros Hl. destruct b; [|by exists s1]. eexists. split; [reflexivity|].
  by apply (linked_env c s s1 (mkEnv _ _ _ _)).
Qed.

Lemma linked_timeout c s s1 b t :
  linked c s s1 -> exists s2, when b (scheduleTimeout c t) s1 = (Ok tt, s2) /\ linked c s s2.
Proof.
  intros Hl. destruct b; [|by exists s1]. unfold when, scheduleTimeout, when.
  destruct (0 <? t)%Z; [|by exists s1]. eexists. split; [reflexivity|].
  by apply (linked_env c s s1 (setTimeouts _ _)).
Qed.

Lemma run_addConnection c t s :
  wfc s -> exists s1, linked c s s1 /\ addConnection react c t s = addTail c s1.
Proof.
  intros Hwf. unfold addConnection. rewrite bind_get.
  assert (Hlink : exists s1, linked c s s1 /\
    when (negb (bool_decide (connectionManager_ (conn s c) = Some (this_ (cm s))))) (
      do! match connectionManager_ (conn s c) with
          | Some m =>
              do! logCall (OtherManagerRemoves m c) in
              do! cancelTimeout c in
              setConnectionManager c None
          | None => ret tt
          end in
      do! push_front c in
      do! setConnectionManager c (Some (this_ (cm s))) in
      when (callback_ (cm s)) (logCall OnConnectionAdded)) s = (Ok tt, s1)).
  { rewrite (bool_decide_ext _ (c ∈ elems s)) by (symmetry; apply (wfc_mgr _ Hwf)).
    case_bool_decide as Hc; simpl negb.
    - exists s. split; [by apply linked_refl|done].
    - destruct (run_oldManager c s Hc Hwf) as (s0 & E0 & H1 & H2 & H3 & H4 & H5 & H6).
      destruct (run_link c s s0 Hwf Hc H1 H2 H3 H4 H5 H6) as (s1 & E1 & L1).
      destruct (linked_log c s s1 (callback_ (cm s)) OnConnectionAdded L1) as (s2 & E2 & L2).
      exists s2. split; [done|]. unfold when at 1. rewrite (bind_Ok _ _ _ _ _ E0).
      rewrite <- bind_assoc, (bind_Ok _ _ _ _ _ E1). exact E2. }
  destruct Hlink as (s1 & L1 & E1). rewrite (bind_Ok _ _ _ _ _ E1).
  destruct (linked_timeout c s s1 t (timeout_ (cm s)) L1) as (s2 & E2 & L2).
  exists s2. split; [done|]. by rewrite (bind_Ok _ _ _ _ _ E2).
Qed.

(** A connection added during the shutdown is up to date when [addConnection]
    returns. *)
Lemma linked_visited c s s1 d :
  wfc s -> linked c s s1 -> d <> c -> d ∈ visited s1 -> d ∈ visited s.
Proof.
  intros Hwf [W M El Dr I S] Hdc. unfold visited. rewrite El, Dr. case_decide as Hc; [done|].
  rewrite before_cons; [intros [?|?]%elem_of_cons; done|].
  intros Hd. by apply Hc, (wfc_drain _ Hwf).
Qed.

Lemma getShutdownState_inv s : shutdownInv s -> getShutdownState s = shutdownState_ (drainHelper_ s).
Proof. intros [_ Hall _]. unfold getShutdownState. by rewrite Hall. Qed.

Lemma notify_le s : shutdownInv s ->
  (stateNum NOTIFY_PENDING_SHUTDOWN <=? stateNum (getShutdownState s)) = true.
Proof.
  intros Hi. rewrite (getShutdownState_inv _ Hi). destruct Hi as [_ _ Hp]. unfold phase in Hp.
  by destruct (shutdownState_ (drainHelper_ s)).
Qed.

Lemma inv_addTail c s s1 :
  shutdownInv s -> linked c s s1 ->
  exists s', addTail c s1 = (Ok tt, s') /\ shutdownInv s'.
Proof.
  intros Hi L1. pose proof L1 as [W1 (M1 & M2 & M3 & M4) El Dr I S]. unfold addTail. rewrite bind_get.
  assert (Hg : getShutdownState s1 = getShutdownState s) by (unfold getShutdownState; by rewrite M1).
  rewrite Hg, (notify_le _ Hi), M3. simpl andb.
  assert (Hfire : exists s2 f, when (notifyPendingShutdown_ (cm s)) (fireNotifyPendingShutdown react c) s1
      = (Ok tt, s2) /\ drained f c s1 s2 /\ progressing f /\ notifiedOk s2 c).
  { unfold when. destruct (notifyPendingShutdown_ (cm s)) eqn:En.
    - destruct (run_fireNotify react Hquiet c s1 W1) as (s2 & E2 & D2). exists s2, notifiedState.
      split_and!; [done|done|apply progressing_notified|]. left.
      rewrite (dr_state _ _ _ _ D2), decide_True by done. by destruct (drainState s1 c).
    - exists s1, (fun st => st). split_and!; [done| |done|].
      + apply drained_evolved; [done|by apply evolved_refl].
      + right. by rewrite M3. }
  destruct Hfire as (s2 & f & E2 & D2 & Hf & Hn). rewrite (bind_Ok _ _ _ _ _ E2), bind_get.
  assert (Hg2 : getShutdownState s2 = shutdownState_ (drainHelper_ s)).
  { rewrite <- (getShutdownState_inv _ Hi), <- Hg. unfold getShutdownState. by rewrite (dr_helper _ _ _ _ D2). }
  rewrite Hg2. destruct Hi as [Hwf Hall Hph].
  assert (Hold : forall d, d <> c -> d ∈ elems s2 -> d ∈ elems s /\
    (d ∈ visited s2 -> d ∈ visited s) /\ (notifiedOk s d -> notifiedOk s2 d) /\
    (closedOk s d -> closedOk s2 d)).
  { intros d Hdc Hd. assert (Hd1 := drained_elems _ _ _ _ _ D2 Hd). split_and!.
    - rewrite El in Hd1. case_decide; [done|]. apply elem_of_cons in Hd1 as [?|?]; done.
    - intros Hv. eapply linked_visited; [done..|]. by eapply drained_visited.
    - intros H1. eapply progress_notified; [done..|]. unfold notifiedOk. by rewrite S, M3.
    - intros H1. eapply progress_closed; [done..|]. unfold closedOk. by rewrite S, M4. }
  unfold when. destruct (stateNum CLOSE_WHEN_IDLE <=? _) eqn:Hcl.
  - eexists. split; [reflexivity|]. split.
    + apply wfc_mode with s2; try done; apply D2.
    + simpl. by rewrite (dr_helper _ _ _ _ D2), M1.
    + apply phase_mono with s; [simpl; by rewrite (dr_helper _ _ _ _ D2), M1| |done].
      intros d Hd. destruct (decide (d = c)) as [->|Hdc].
      * left. split; [done|]. intros _. right. simpl. set_solver.
      * right. destruct (Hold d Hdc Hd) as (H1 & H2 & H3 & H4). split_and!; [done|auto|done|].
        intros _ Hd'. destruct (H4 Hd') as [?|?]; [by left|right]. simpl. set_solver.
  - exists s2. split; [done|]. split; [apply D2|by rewrite (dr_helper _ _ _ _ D2), M1|].
    apply phase_mono with s; [by rewrite (dr_helper _ _ _ _ D2), M1| |done].
    intros d Hd. destruct (decide (d = c)) as [->|Hdc].
    + left. split; [done|]. unfold closing. rewrite (dr_helper _ _ _ _ D2), M1.
      apply Nat.leb_gt in Hcl. lia.
    + right. destruct (Hold d Hdc Hd) as (H1 & H2 & H3 & H4). split_and!; auto.
Qed.

(** ** The event loop *)

Lemma inv_runInLoop s :
  shutdownInv s -> exists s', runInLoop react s = (Ok tt, s') /\ shutdownInv s'.
Proof.
  intros Hi. pose proof Hi as [Hwf Hall Hph]. unfold runInLoop. rewrite bind_get.
  destruct (inLoop (env s)) as [|c rest] eqn:El; [by exists s|].
  rewrite bind_modify, bind_get. set (s1 := onEnv (setInLoop rest) s).
  assert (W1 : wfc s1) by (apply wfc_mode with s; try done; apply Hwf).
  assert (Hfire : exists s2 f, when (is_linked s1 c)
      (fireCloseWhenIdle react c (negb (notifyPendingShutdown_ (cm s1)))) s1 = (Ok tt, s2) /\
      drained f c s1 s2 /\ progressing f /\ (closing s -> c ∈ elems s -> closedOk s2 c)).
  { unfold when. destruct (is_linked s1 c) eqn:Hl.
    - destruct (run_fireClose react Hquiet c (negb (notifyPendingShutdown_ (cm s1))) s1 W1)
        as (s2 & E2 & D2).
      exists s2, (closedState (negb (notifyPendingShutdown_ (cm s1)))).
      split_and!; [done|done|apply progressing_closed|]. intros Hcl Hc. left.
      rewrite (dr_state _ _ _ _ D2), decide_True by done.
      apply closedState_notified. by apply (phase_notified s c).
    - exists s1, (fun st => st). split_and!; [done| |done|].
      + apply drained_evolved; [done|by apply evolved_refl].
      + intros _ Hc. unfold is_linked in Hl. apply orb_false_iff in Hl as [Hl _].
        by apply bool_decide_eq_false in Hl. }
  destruct Hfire as (s2 & f & E2 & D2 & Hf & Hc). exists s2. split; [done|].
  assert (Hh : drainHelper_ s2 = drainHelper_ s) by apply (dr_helper _ _ _ _ D2).
  split; [apply D2|by rewrite Hh|]. apply phase_mono with s; [done| |done].
  intros d Hd. right. assert (Hd1 : d ∈ elems s) by exact (drained_elems _ _ _ _ _ D2 Hd).
  split_and!; [done| | |].
  - intros _ Hv. exact (drained_visited _ _ _ _ _ W1 D2 Hv).
  - intros Hn. by apply (progress_notified _ _ _ _ _ Hf D2).
  - intros Hcl Hd'. destruct (decide (d = c)) as [->|Hdc]; [by apply Hc|].
    apply (progress_closed _ _ _ _ _ Hf D2). destruct Hd' as [?|Hin]; [by left|right].
    rewrite El in Hin. simpl. set_solver.
Qed.

Lemma inv_loop s :
  shutdownInv s -> loopScheduled (drainHelper_ s) = true ->
  exists s', runLoopCallback react s = (Ok tt, s') /\ shutdownInv s'.
Proof.
  intros [Hwf Hall Hph] Hl. unfold runLoopCallback. rewrite bind_modify.
  apply inv_drain; [by apply wfc_onDrain|done| |done].
  unfold drainPre, phase in *. simpl.
  destruct (shutdownState_ (drainHelper_ s)); try done.
  - apply Hph.
  - destruct Hph as [? _]. by rewrite Hl in *.
  - apply Hph.
  - destruct Hph as [? _]. by rewrite Hl in *.
Qed.

Lemma inv_timer s :
  shutdownInv s -> exists s', timeoutExpired react s = (Ok tt, s') /\
    (isScheduled (drainHelper_ s) = true -> shutdownInv s').
Proof.
  intros [Hwf Hall Hph]. unfold timeoutExpired. rewrite bind_modify.
  unfold idleGracefulTimeoutExpired. rewrite bind_get. simpl. unfold when.
  case_bool_decide as Hst.
  - rewrite bind_modify. unfold drainStartIterator. rewrite bind_assoc, bind_get.
    cbn [drainHelper_ onDrain setState setTimer all_]. rewrite Hall, bind_ret, bind_modify.
    unfold phase in Hph. rewrite Hst in Hph. destruct Hph as (Hl & Ht & Hn).
    match goal with |- exists s', DrainHelper_drainConnections _ ?s0 = _ /\ _ => set (s1 := s0) end.
    assert (Ev : visited s1 = []).
    { unfold visited. exact (before_head (elems s)). }
    destruct (inv_drain s1) as (s2 & E2 & I2); try done.
    + apply wfc_mode with s; try done.
      intros c Hc. change (head (elems s) = Some c) in Hc. destruct (elems s); simplify_eq/=. set_solver.
    + unfold drainPre. split; [done|]. rewrite Ev. by intros c ?%not_elem_of_nil.
    + intros Hl'. change (loopScheduled (drainHelper_ s) = true) in Hl'. by rewrite Hl in Hl'.
    + exists s2. by split.
  - eexists. split; [reflexivity|]. intros Ht. split; [by apply wfc_onDrain|done|].
    unfold phase in *. simpl. by destruct (shutdownState_ (drainHelper_ s)).
Qed.

(** What a connection reports may change at any time. *)
Definition setReports (c : nat) (busy : bool) (idle : Z) : M (CMState L) unit :=
  modify (fun s => onEnv (setConn c (mkConn (state_ (conn s c)) (connectionManager_ (conn s c)) busy idle)) s).

Lemma inv_setReports c b t s : shutdownInv s -> shutdownInv (setReports c b t s).2.
Proof.
  intros Hi. apply inv_drained with (fun st => st) c s; [done| |done].
  apply drained_evolved; [done|]. by apply evolved_setConn; [apply Hi|..].
Qed.

(** ** Progress *)

Lemma incl_length (l k : list nat) : NoDup l -> (forall c, c ∈ l -> c ∈ k) -> length l <= length k.
Proof. intros Hl Hi. by apply submseteq_length, NoDup_submseteq. Qed.

(** How [drainConnections] moves through the phases. *)
Inductive advance s s' : Prop :=
| adv_batch :
    drop 64 (pending s) <> [] ->
    shutdownState_ (drainHelper_ s') = shutdownState_ (drainHelper_ s) ->
    pending s' = drop 64 (pending s) -> advance s s'
| adv_notified :
    shutdownState_ (drainHelper_ s) = NOTIFY_PENDING_SHUTDOWN ->
    shutdownState_ (drainHelper_ s') = NOTIFY_PENDING_SHUTDOWN_COMPLETE -> advance s s'
| adv_restart :
    shutdownState_ (drainHelper_ s) = NOTIFY_PENDING_SHUTDOWN ->
    shutdownState_ (drainHelper_ s') = CLOSE_WHEN_IDLE -> pending s' = elems s' -> advance s s'
| adv_closed :
    shutdownState_ (drainHelper_ s) = CLOSE_WHEN_IDLE ->
    shutdownState_ (drainHelper_ s') = CLOSE_WHEN_IDLE_COMPLETE -> advance s s'.

Lemma drain_advance s :
  wfc s -> all_ (drainHelper_ s) = true -> drainPre s ->
  exists s', DrainHelper_drainConnections react s = (Ok tt, s') /\
    (forall c, c ∈ elems s' -> c ∈ elems s) /\ inLoop (env s') = inLoop (env s) /\ advance s s'.
Proof.
  intros Hwf Hall Hpre. pose proof (drainPre_draining _ Hpre) as Hdr.
  destruct (run_drainConnections react Hquiet s Hwf Hdr) as (s1 & B & ->).
  destruct (batch_parts _ _ _ _ Hwf (take_drop 64 _) B) as (W2 & Ep & Hsub & _).
  destruct (ba_mode _ _ _ _ _ B) as (Hh & _ & _ & Hin).
  unfold drainTail. rewrite bind_modify, bind_get.
  set (s2 := onManager (setDrainIterator (head (drop 64 (pending s)))) s1) in *.
  destruct (head (drop 64 (pending s))) as [c0|] eqn:Hrest.
  - eexists. split; [reflexivity|]. split; [exact Hsub|]. split; [exact Hin|]. apply adv_batch; [|by simpl; rewrite Hh|exact Ep].
    by destruct (drop 64 (pending s)).
  - change (drainHelper_ s2) with (drainHelper_ s1). rewrite Hh. destruct Hdr as [Est|Est]; rewrite Est.
    + rewrite bool_decide_true by done. rewrite bind_modify. unfold when.
      destruct (isScheduled (drainHelper_ s)); cbv [negb].
      * eexists. split; [reflexivity|]. split; [exact Hsub|]. split; [exact Hin|]. by apply adv_notified.
      * rewrite bind_modify. unfold drainStartIterator. rewrite bind_assoc, bind_get.
        cbn [drainHelper_ onDrain setState all_]. simpl. rewrite Hh, Hall, bind_ret, bind_modify.
        eexists. split; [reflexivity|]. split; [exact Hsub|]. split; [exact Hin|]. apply adv_restart; [done..|].
        exact (from_head (elems s2)).
    + rewrite bool_decide_false by done. eexists. split; [reflexivity|]. split; [exact Hsub|]. split; [exact Hin|].
      by apply adv_closed.
Qed.

(** An event loop with nothing else to do. *)
Definition eventLoop : M (CMState L) unit :=
  let! s := get in
  if loopScheduled (drainHelper_ s) then runLoopCallback react
  else when (isScheduled (drainHelper_ s)) (timeoutExpired react).

(** How many iterations of the event loop the shutdown still takes. *)
Definition remaining (n : nat) s : nat :=
  match shutdownState_ (drainHelper_ s) with
  | NOTIFY_PENDING_SHUTDOWN => length (pending s) / 64 + n / 64 + 3
  | NOTIFY_PENDING_SHUTDOWN_COMPLETE => n / 64 + 2
  | CLOSE_WHEN_IDLE => length (pending s) / 64 + 1
  | _ => 0
  end.

Lemma pending_length s : length (pending s) <= length (elems s).
Proof. rewrite <- visited_pending, length_app. lia. Qed.

Lemma advance_remaining n s s' :
  wfc s' -> length (elems s') <= n -> drainPre s -> advance s s' ->
  S (remaining n s') <= remaining n s.
Proof.
  intros Hwf Hn Hpre Ha. unfold drainPre in Hpre. unfold remaining. destruct Ha as [Hne E Ep|E E'|E E' Ep|E E'].
  - assert (Hlt : 64 < length (pending s)).
    { apply Nat.nle_gt. intros ?. apply Hne, drop_ge. lia. }
    rewrite E, Ep, length_drop.
    assert (Hd : length (pending s) / 64 = S ((length (pending s) - 64) / 64)).
    { replace (length (pending s)) with (1 * 64 + (length (pending s) - 64)) at 1 by lia.
      rewrite Nat.div_add_l; lia. }
    destruct (shutdownState_ (drainHelper_ s)); try done; lia.
  - rewrite E, E'. lia.
  - rewrite E, E', Ep. pose proof (Nat.Div0.div_le_mono _ _ 64 Hn). lia.
  - rewrite E, E'. lia.
Qed.

Lemma drain_step n s :
  wfc s -> all_ (drainHelper_ s) = true -> drainPre s ->
  (loopScheduled (drainHelper_ s) = true -> 64 < length (pending s)) ->
  length (elems s) <= n ->
  exists s', DrainHelper_drainConnections react s = (Ok tt, s') /\ shutdownInv s' /\
    length (elems s') <= n /\ inLoop (env s') = inLoop (env s) /\
    S (remaining n s') <= remaining n s.
Proof.
  intros Hwf Hall Hpre Hl Hn.
  destruct (inv_drain s Hwf Hall Hpre Hl) as (s' & E & Hi).
  destruct (drain_advance s Hwf Hall Hpre) as (s'' & E' & Hsub & Hin & Ha).
  rewrite E in E'. simplify_eq. exists s''. split; [done|]. split; [done|].
  assert (Hn' : length (elems s'') <= n).
  { pose proof (incl_length _ _ (wfc_nodup _ (si_wfc _ Hi)) Hsub). lia. }
  split; [done|]. split; [done|]. by apply advance_remaining; [apply Hi|..].
Qed.

(** No batch of an earlier drain is due, or the first batch of the new one
    leaves something for it. *)
Definition takeable s : Prop :=
  loopScheduled (drainHelper_ s) = true -> 64 < getNumConnections s.

(** The state in which [startDrain] calls [drainConnections]. *)
Record started s s2 : Prop := {
  st_wfc : wfc s2;
  st_all : all_ (drainHelper_ s2) = true;
  st_pre : drainPre s2;
  st_loop : loopScheduled (drainHelper_ s2) = loopScheduled (drainHelper_ s);
  st_timer : shutdownState_ (drainHelper_ s2) = NOTIFY_PENDING_SHUTDOWN -> isScheduled (drainHelper_ s2) = true;
  st_pending : pending s2 = elems s;
  st_elems : elems s2 = elems s;
  st_inLoop : inLoop (env s2) = inLoop (env s)
}.

Lemma run_initiate grace s :
  wfc s -> getShutdownState s = NONE ->
  exists s2, initiateGracefulShutdown react grace s = DrainHelper_drainConnections react s2 /\ started s s2.
Proof.
  intros Hwf Hst. unfold initiateGracefulShutdown. rewrite bind_get.
  unfold when. rewrite bool_decide_true by done. unfold startDrainAll. rewrite bind_modify, bind_get.
  set (s1 := onDrain (setAll true SF1) s).
  assert (Ht : exists d, when (isScheduled (drainHelper_ s1)) (modify (onDrain (setTimer false))) s1 =
    (Ok tt, onDrain (fun _ => d) s) /\ all_ d = true /\ loopScheduled d = loopScheduled (drainHelper_ s)).
  { unfold when. destruct (isScheduled (drainHelper_ s1));
      [exists (setTimer false (drainHelper_ s1))|exists (drainHelper_ s1)]; done. }
  destruct Ht as (d & Ed & Hall & Hl). unfold when in Ed. rewrite (bind_Ok _ _ _ _ _ Ed).
  unfold startDrain.
  assert (Hmode : exists d' b, (if (0 <? grace)%Z then
         do! modify (onDrain (setState NOTIFY_PENDING_SHUTDOWN)) in
         modify (onDrain (setTimer true))
       else
         do! modify (onManager (setNotifyPending false)) in
         modify (onDrain (setState CLOSE_WHEN_IDLE))) (onDrain (fun _ => d) s) =
       (Ok tt, onManager (setNotifyPending b) (onDrain (fun _ => d') s)) /\
       all_ d' = true /\ loopScheduled d' = loopScheduled (drainHelper_ s) /\
       ((shutdownState_ d' = NOTIFY_PENDING_SHUTDOWN /\ isScheduled d' = true) \/
        (shutdownState_ d' = CLOSE_WHEN_IDLE /\ b = false))).
  { destruct (0 <? grace)%Z.
    - exists (setTimer true (setState NOTIFY_PENDING_SHUTDOWN d)), (notifyPendingShutdown_ (cm s)).
      split_and!; try done; [by destruct s as [[]]|by left].
    - exists (setState CLOSE_WHEN_IDLE d), false. split_and!; try done. by right. }
  destruct Hmode as (d' & b & Em & Hall' & Hl' & Hmode). rewrite (bind_Ok _ _ _ _ _ Em).
  unfold drainStartIterator. rewrite bind_assoc, bind_get. cbn [drainHelper_ onManager onDrain].
  rewrite Hall', bind_ret, bind_modify. eexists. split; [reflexivity|].
  match goal with |- started _ ?s0 => set (s2 := s0) end. split; try done.
  - destruct Hwf as [W1 W2 W3 W4]. split; try done. intros c Hc.
    change (head (elems s) = Some c) in Hc. change (c ∈ elems s). destruct (elems s); simplify_eq/=. set_solver.
  - unfold drainPre. change (drainHelper_ s2) with d'.
    assert (Ev : visited s2 = []) by exact (before_head (elems s)).
    rewrite Ev. destruct Hmode as [[-> _] | [-> ->]]; [by intros c ?%not_elem_of_nil|].
    split; [by intros c _; right|by intros c ?%not_elem_of_nil].
  - change (drainHelper_ s2) with d'. destruct Hmode as [[_ ->] | [-> _]]; done.
  - exact (from_head (elems s)).
Qed.

Lemma inv_start grace s :
  wfc s -> getShutdownState s = NONE -> takeable s ->
  exists s', initiateGracefulShutdown react grace s = (Ok tt, s') /\ shutdownInv s' /\
    inLoop (env s') = inLoop (env s).
Proof.
  intros Hwf Hst Hlate. destruct (run_initiate grace s Hwf Hst) as (s2 & -> & [W A P Lo _ Pe El In]).
  destruct (drain_step (length (elems s2)) s2) as (s3 & E3 & I3 & _ & Hin3 & _); try done.
  - rewrite Lo, Pe. exact Hlate.
  - exists s3. split_and!; [done..|]. by rewrite Hin3.
Qed.

(** Otherwise the first batch is the whole drain, and the callback of the
    earlier one, which nobody cancels, fails the CHECK. *)
Lemma takeover_fails grace s :
  wfc s -> getShutdownState s = NONE -> ~ takeable s ->
  exists s1, initiateGracefulShutdown react grace s = (Ok tt, s1) /\
    loopScheduled (drainHelper_ s1) = true /\
    (runLoopCallback react s1).1 =
      Err (CheckFailed "shutdownState_").
Proof.
  intros Hwf Hst Hlate. destruct (run_initiate grace s Hwf Hst) as (s2 & -> & [W A P Lo Ti Pe El In]).
  unfold takeable, getNumConnections in Hlate.
  assert (Hle : ~ 64 < length (elems s)) by tauto.
  assert (Hl : loopScheduled (drainHelper_ s) = true).
  { apply not_false_is_true. intros E. apply Hlate. by rewrite E. }
  assert (Hdrop : drop 64 (pending s2) = []) by (apply drop_ge; rewrite Pe; lia).
  destruct (run_drainConnections react Hquiet s2 W (drainPre_draining _ P)) as (s1 & B & ->).
  destruct (ba_mode _ _ _ _ _ B) as (Hh & _). rewrite Hdrop. unfold drainTail.
  rewrite bind_modify, bind_get. change (drainHelper_ (onManager _ s1)) with (drainHelper_ s1).
  rewrite Hh. rewrite Hl in Lo. simpl head. cbv iota. destruct (drainPre_draining _ P) as [Est|Est]; rewrite Est.
  - rewrite bool_decide_true, (Ti Est) by done. cbv iota. unfold bind at 1, modify at 1. cbn [when negb].
    eexists. split; [reflexivity|]. simpl. by rewrite Hh, Lo.
  - rewrite bool_decide_false by done.
    eexists. split; [reflexivity|]. simpl. by rewrite Hh, Lo.
Qed.

Lemma eventLoop_step n s :
  shutdownInv s -> length (elems s) <= n ->
  exists s', eventLoop s = (Ok tt, s') /\ shutdownInv s' /\ length (elems s') <= n /\
    inLoop (env s') = inLoop (env s) /\ (remaining n s' <= remaining n s - 1).
Proof.
  intros Hi Hn. pose proof Hi as [Hwf Hall Hph]. unfold eventLoop. rewrite bind_get.
  destruct (loopScheduled (drainHelper_ s)) eqn:Hl.
  - unfold runLoopCallback. rewrite bind_modify.
    destruct (drain_step n (onDrain (setLoop false) s)) as (s' & E & I' & Hn' & Hin & Hr); try done.
    + by apply wfc_onDrain.
    + unfold drainPre, phase in *. simpl.
      destruct (shutdownState_ (drainHelper_ s)); try done; try apply Hph;
        destruct Hph as [? _]; by rewrite Hl in *.
    + exists s'. split_and!; [done..|]. change (remaining n (onDrain (setLoop false) s)) with (remaining n s) in Hr.
      lia.
  - unfold phase in Hph. destruct (shutdownState_ (drainHelper_ s)) eqn:Est; try done.
    + by rewrite Hl in Hph; destruct Hph.
    + destruct Hph as (_ & Ht & Hnot). unfold when. rewrite Ht. unfold timeoutExpired.
      rewrite bind_modify. unfold idleGracefulTimeoutExpired. rewrite bind_get. simpl. unfold when.
      rewrite Est, bool_decide_true, bind_modify by done.
      unfold drainStartIterator. rewrite bind_assoc, bind_get.
      cbn [drainHelper_ onDrain setState setTimer all_]. rewrite Hall, bind_ret, bind_modify.
      match goal with |- exists s', DrainHelper_drainConnections _ ?s0 = _ /\ _ => set (s1 := s0) end.
      destruct (drain_step n s1) as (s2 & E2 & I2 & Hn2 & Hin2 & Hr2); try done.
      * apply wfc_mode with s; try done.
        intros c Hc. change (head (elems s) = Some c) in Hc. destruct (elems s); simplify_eq/=. set_solver.
      * unfold drainPre. split; [done|]. intros c Hc.
        change (c ∈ before (head (elems s)) (elems s)) in Hc. rewrite before_head in Hc.
        by apply not_elem_of_nil in Hc.
      * intros Hl'. change (loopScheduled (drainHelper_ s) = true) in Hl'. by rewrite Hl in Hl'.
      * exists s2. split_and!; [done..|]. unfold remaining at 2. rewrite Est.
        assert (Ep : pending s1 = elems s) by exact (from_head (elems s)).
        change (remaining n s1) with (length (pending s1) / 64 + 1) in Hr2. rewrite Ep in Hr2.
        pose proof (Nat.Div0.div_le_mono _ _ 64 Hn). lia.
    + by rewrite Hl in Hph; destruct Hph.
    + destruct Hph as (_ & Hph). unfold when. destruct (isScheduled (drainHelper_ s)) eqn:Ht.
      * unfold timeoutExpired. rewrite bind_modify. unfold idleGracefulTimeoutExpired.
        rewrite bind_get. simpl. unfold when. rewrite Est, bool_decide_false by done.
        eexists. split; [reflexivity|]. split_and!.
        -- split; [by apply wfc_onDrain|done|]. unfold phase. simpl. rewrite Est. by rewrite Hl.
        -- done.
        -- done.
        -- unfold remaining. simpl. by rewrite Est.
      * exists s. split_and!; [done..|]. unfold remaining. by rewrite Est.
Qed.

Fixpoint eventLoops (k : nat) : M (CMState L) unit :=
  match k with
  | O => ret tt
  | S k => do! eventLoop in eventLoops k
  end.

Lemma eventLoops_complete k : forall n s,
  shutdownInv s -> length (elems s) <= n -> remaining n s <= k ->
  exists s', eventLoops k s = (Ok tt, s') /\ shutdownInv s' /\ inLoop (env s') = inLoop (env s) /\
    shutdownState_ (drainHelper_ s') = CLOSE_WHEN_IDLE_COMPLETE.
Proof.
  induction k as [|k IH]; intros n s Hi Hn Hr; simpl.
  - exists s. do 3 (split; [done|]). destruct Hi as [_ _ Hp]. unfold phase in Hp.
    unfold remaining in Hr. destruct (shutdownState_ (drainHelper_ s)); try done; lia.
  - destruct (eventLoop_step n s Hi Hn) as (s1 & E1 & I1 & Hn1 & Hin1 & Hr1).
    rewrite (bind_Ok _ _ _ _ _ E1), <- Hin1. apply (IH n); [done..|lia].
Qed.
End shutdown.
