(* ===== verification/ConnectionProps.v ===== *)
(** * Connection manager: the properties

    The main theorems about Connections.v, each with a witness. *)
From Stdlib Require Import ZArith Lia SpecFloat.
From stdpp Require Import base numbers list gmap strings.
From S2P Require Import Prelude Connections ConnectionFacts ConnectionDrain ConnectionShutdown.
Open Scope cpp_scope.

Set Default Goal Selector "!".

(** ** The abstract manager: a busy and an idle queue *)

(** The busy connections, most recently activated first, and the idle ones,
    longest idle first. *)
Record Parts : Type := mkParts { busyQ : list nat; idleQ : list nat }.

Inductive partsCmd : Type :=
| PAdd (c : nat)
| PRemove (c : nat)
| PActivated (c : nat)
| PDeactivated (c : nat).

Definition without (c : nat) (p : Parts) : Parts :=
  mkParts (filter (.≠ c) (busyQ p)) (filter (.≠ c) (idleQ p)).

Definition partsStep (p : Parts) (k : partsCmd) : Parts :=
  match k with
  | PAdd c => mkParts (c :: busyQ p) (idleQ p)
  | PRemove c => without c p
  | PActivated c => mkParts (c :: busyQ (without c p)) (idleQ (without c p))
  | PDeactivated c => mkParts (busyQ (without c p)) (idleQ (without c p) ++ [c])
  end.

(** A connection reports its activity only while it is managed, and does not
    report becoming idle while it is the longest idle one. *)
Definition partsLegal (p : Parts) (k : partsCmd) : Prop :=
  match k with
  | PAdd c => c ∉ busyQ p /\ c ∉ idleQ p
  | PRemove c => True
  | PActivated c => c ∈ busyQ p \/ c ∈ idleQ p
  | PDeactivated c => (c ∈ busyQ p \/ c ∈ idleQ p) /\ head (idleQ p) <> Some c
  end.

Fixpoint partsLegalAll (p : Parts) (l : list partsCmd) : Prop :=
  match l with
  | [] => True
  | k :: l => partsLegal p k /\ partsLegalAll (partsStep p k) l
  end.

(** Connections that do nothing, or that destroy themselves when dropped. *)
Definition passive {L} `{!IntrusiveList L} (k : Call) (s : CMState L) : list reaction := [].
Definition selfDestroying {L} `{!IntrusiveList L} (k : Call) (s : CMState L) : list reaction :=
  match k with
  | DropConnection c | CloseWhenIdle c => [RRemove c]
  | _ => []
  end.

Lemma quiet_passive {L} `{!IntrusiveList L} : quiet (passive (L:=L)).
Proof. intros k s. constructor. Qed.
Lemma quiet_selfDestroying {L} `{!IntrusiveList L} : quiet (selfDestroying (L:=L)).
Proof. intros [] s; repeat constructor. Qed.

(** ** Sample managers *)

(** Connections [1 .. n] were added in this order, then became idle in this
    order after [idle c] milliseconds ago. *)
Definition idleManager (n : nat) (idle : nat -> Z) : CMState (list nat) :=
  (for_each (seq 1 n) (fun c =>
     do! addConnection passive c false in
     do! onDeactivated c in
     setReports c false (idle c)) (newManager 9 10 true (mkEnv ∅ ∅ [] []))).2.
Definition busyManager (n : nat) : CMState (list nat) :=
  (for_each (seq 1 n) (fun c => addConnection passive c false)
     (newManager 9 10 true (mkEnv ∅ ∅ [] []))).2.

Section list_props.
Context {L : Type} `{!IntrusiveList L} `{!IntrusiveListLaws L}.
Context (react : Call -> CMState L -> list reaction).
Implicit Types (s : CMState L).

Definition execParts (k : partsCmd) : M (CMState L) unit :=
  match k with
  | PAdd c => addConnection react c false
  | PRemove c => removeConnection c
  | PActivated c => onActivated c
  | PDeactivated c => onDeactivated c
  end.

Definition parts s : Parts := mkParts (busyPart s) (idlePart s).

Lemma elem_of_parts s c : c ∈ busyPart s \/ c ∈ idlePart s <-> c ∈ elems s.
Proof. unfold busyPart, idlePart. rewrite <- elem_of_app. by rewrite before_from. Qed.

Lemma head_idlePart s : wfc s -> head (idlePart s) = idleIterator_ (cm s).
Proof. intros Hwf. apply head_from, Hwf. Qed.

(** While no shutdown is going on, adding is just linking. *)
Lemma run_addQuietly c s :
  wfc s -> c ∉ elems s -> getShutdownState s = NONE ->
  exists s', addConnection react c false s = (Ok tt, s') /\ linked c s s'.
Proof.
  intros Hwf Hc Hst. destruct (run_addConnection react c false s Hwf) as (s1 & L1 & ->).
  exists s1. split; [|done]. unfold addTail. rewrite bind_get.
  destruct (li_mode _ _ _ L1) as (Hh & _ & Hn & _).
  assert (Hg : getShutdownState s1 = NONE) by (unfold getShutdownState in *; by rewrite Hh).
  rewrite Hg. simpl andb. unfold when. rewrite bind_ret, bind_get. by rewrite Hg.
Qed.

Lemma parts_linked c s s' : wfc s -> c ∉ elems s -> linked c s s' -> parts s' = partsStep (parts s) (PAdd c).
Proof.
  intros Hwf Hc [W M El Dr I S]. unfold parts, busyPart, idlePart. simpl.
  rewrite El, I, decide_False by done.
  assert (Hne : idleIterator_ (cm s) <> Some c) by (intros Hi; by apply Hc, (wfc_idle _ Hwf)).
  by rewrite before_cons, from_cons.
Qed.

Lemma partsStep_sim k s :
  wfc s -> getShutdownState s = NONE -> partsLegal (parts s) k ->
  exists s', execParts k s = (Ok tt, s') /\ wfc s' /\ getShutdownState s' = NONE /\
    parts s' = partsStep (parts s) k.
Proof.
  intros Hwf Hst. destruct k as [c|c|c|c]; simpl.
  - intros [H1 H2]. assert (Hc : c ∉ elems s) by (rewrite <- elem_of_parts; tauto).
    destruct (run_addQuietly c s Hwf Hc Hst) as (s' & E & L1). exists s'.
    split_and!; [done|apply L1| |by apply parts_linked].
    destruct (li_mode _ _ _ L1) as (Hh & _). unfold getShutdownState in *. by rewrite Hh.
  - intros _. destruct (decide (c ∈ elems s)) as [Hc|Hc].
    + exists (removed c s). split; [by apply run_removeConnection|].
      split; [by apply wfc_removed|]. split; [done|].
      destruct (parts_removeConnection s c Hwf Hc) as (E1 & E2 & _). unfold parts. by rewrite E1, E2.
    + exists s. split_and!; [by apply removeConnection_notmine|done..|].
      rewrite <- elem_of_parts in Hc. unfold without, parts. simpl.
      rewrite !filter_all; [done|..]; intros x Hx ->; tauto.
  - intros Hin. apply elem_of_parts in Hin as Hc. exists (activated c s).
    split; [by apply run_onActivated|]. split; [by apply wfc_activated|]. split; [done|].
    destruct (parts_onActivated s c Hwf Hc) as (E1 & E2). unfold parts. by rewrite E1, E2.
  - intros [Hin Hh]. apply elem_of_parts in Hin as Hc. exists (deactivated c s).
    split; [by apply run_onDeactivated|]. split; [by apply wfc_deactivated|]. split; [done|].
    rewrite head_idlePart in Hh by done.
    destruct (parts_onDeactivated s c Hwf Hc Hh) as (E1 & E2). unfold parts. by rewrite E1, E2.
Qed.

(** C6. The one intrusive list with [idleIterator_] implements a manager of two
    queues: for every sequence of additions, removals, activations and
    deactivations, whatever the other iterator does, the connections before
    [idleIterator_] are the busy queue and the others the idle queue, oldest
    first, and no iterator is ever left on an unlinked connection. *)
Theorem list_refines_parts (l : list partsCmd) : forall s : CMState L,
  wfc s -> getShutdownState s = NONE -> partsLegalAll (parts s) l ->
  exists s', for_each l execParts s = (Ok tt, s') /\ wfc s' /\
    parts s' = foldl partsStep (parts s) l.
Proof.
  induction l as [|k l IH]; intros s Hwf Hst Hlegal; simpl.
  - by exists s.
  - destruct Hlegal as [Hk Hl].
    destruct (partsStep_sim k s Hwf Hst Hk) as (s1 & E1 & W1 & St1 & P1).
    rewrite <- P1 in Hl |- *. rewrite (bind_Ok _ _ _ _ _ E1). by apply IH.
Qed.

(** ** Dropping idle connections *)

Definition dropped (k : Call) : option nat :=
  match k with DropConnection c => Some c | _ => None end.
Definition dropsOf s : list nat := omap dropped (calls (env s)).

(** Longest prefix that passes a test. *)
Fixpoint takeWhile (ok : nat -> bool) (l : list nat) : list nat :=
  match l with
  | [] => []
  | c :: l => if ok c then c :: takeWhile ok l else []
  end.

(** Idle for longer than the threshold; 0 means never to be dropped early. *)
Definition droppable s (c : nat) : bool :=
  negb (getIdleTime (conn s c) =? 0)%Z &&
  (idleConnEarlyDropThreshold_ (cm s) <? getIdleTime (conn s c))%Z.

Lemma dropsOf_removedCalls s : omap dropped (removedCalls s) = [].
Proof. unfold removedCalls. by destruct (callback_ (cm s)), (length (elems s) =? 1). Qed.

Definition advancedIdle s (c : nat) : CMState L :=
  onEnv (fun e => mkEnv (objects e) (connTimeouts_ e) (inLoop e) (calls e ++ [DropConnection c]))
    (onManager (setIdleIterator (succ (elems s) c)) s).

Lemma idle_front s c :
  wfc s -> idleIterator_ (cm s) = Some c ->
  c ∈ elems s /\ c ∉ busyPart s /\ exists rest, idlePart s = c :: rest /\
    elems s = busyPart s ++ c :: rest /\ succ (elems s) c = head rest.
Proof.
  intros Hwf Hi. pose proof (head_idlePart s Hwf) as Hh. rewrite Hi in Hh.
  pose proof (before_from (idleIterator_ (cm s)) (elems s)) as E.
  change (busyPart s ++ idlePart s = elems s) in E.
  destruct (idlePart s) as [|d rest]; simplify_eq/=.
  pose proof (wfc_nodup _ Hwf) as Hnd. rewrite <- E in Hnd.
  assert (Hc : c ∉ busyPart s) by by eapply NoDup_middle_pre.
  split_and!; [rewrite <- E; set_solver|done|]. exists rest. split_and!; try done.
  rewrite <- E. by apply succ_middle.
Qed.

Lemma wfc_advancedIdle s c : wfc s -> idleIterator_ (cm s) = Some c -> wfc (advancedIdle s c).
Proof.
  intros Hwf Hi. destruct (idle_front s c Hwf Hi) as (Hc & _ & rest & _ & El & Es).
  destruct Hwf as [W1 W2 W3 W4]. split; try done.
  intros d Hd. change (succ (elems s) c = Some d) in Hd. change (d ∈ elems s).
  rewrite El. rewrite Es in Hd. destruct rest; simplify_eq/=. set_solver.
Qed.

Lemma takeWhile_ext (f g : nat -> bool) l :
  (forall c, c ∈ l -> f c = g c) -> takeWhile f l = takeWhile g l.
Proof.
  induction l as [|c l IH]; simpl; intros Hfg; [done|].
  rewrite <- Hfg by set_solver. rewrite IH; [done|]. intros d Hd. apply Hfg. set_solver.
Qed.

Context (Hself : forall c s, react (DropConnection c) s = [RRemove c]).

(** One iteration of the loop. *)
Definition droppedIdle s (c : nat) : CMState L := removed c (advancedIdle s c).

Lemma run_dropIdle {A} s c (k : M (CMState L) A) :
  wfc s -> idleIterator_ (cm s) = Some c ->
  (let! i := next (Some c) in
   do! modify (onManager (setIdleIterator i)) in
   do! invoke react (DropConnection c) in k) s = k (droppedIdle s c).
Proof.
  intros Hwf Hi. destruct (idle_front s c Hwf Hi) as (Hc & _).
  rewrite (bind_Ok _ _ _ _ _ (run_next s c Hc)), bind_modify.
  unfold invoke, logCall. rewrite bind_assoc, bind_modify, bind_assoc, bind_get, Hself.
  change (for_each [RRemove c] doReaction) with (do! removeConnection (L:=L) c in ret tt).
  rewrite bind_assoc. erewrite bind_Ok; [reflexivity|]. apply run_removeConnection; [by apply wfc_advancedIdle|done].
Qed.

Lemma droppedIdle_parts s c rest :
  wfc s -> idlePart s = c :: rest ->
  wfc (droppedIdle s c) /\ busyPart (droppedIdle s c) = busyPart s /\
  idlePart (droppedIdle s c) = rest /\ dropsOf (droppedIdle s c) = dropsOf s ++ [c] /\
  (forall d, d <> c -> droppable (droppedIdle s c) d = droppable s d).
Proof.
  intros Hwf Hp. assert (Hi : idleIterator_ (cm s) = Some c) by (by rewrite <- head_idlePart, Hp).
  destruct (idle_front s c Hwf Hi) as (Hc & Hcb & rest' & Hp' & El & Es).
  rewrite Hp in Hp'. simplify_eq. set (s1 := advancedIdle s c).
  assert (W1 : wfc s1) by by apply wfc_advancedIdle.
  pose proof (wfc_nodup _ Hwf) as Hnd. rewrite El in Hnd.
  assert (Hr : c ∉ rest') by by apply NoDup_app in Hnd as (_ & _ & [? _]%NoDup_cons).
  assert (Hnd1 : NoDup ((busyPart s ++ [c]) ++ rest')) by by rewrite <- app_assoc.
  assert (Eb : busyPart s1 = busyPart s ++ [c] /\ idlePart s1 = rest').
  { unfold busyPart at 1, idlePart at 1. change (elems s1) with (elems s).
    change (idleIterator_ (cm s1)) with (succ (elems s) c). rewrite Es, El.
    change (c :: rest') with ([c] ++ rest'). rewrite app_assoc. split.
    - by apply before_head_app.
    - by apply from_head_app. }
  destruct Eb as [Eb Ei].
  destruct (parts_removeConnection s1 c W1 Hc) as (B1 & I1 & _).
  split; [by apply wfc_removed|]. split_and!.
  - unfold droppedIdle. fold s1. rewrite B1, Eb, filter_app, filter_cons_False by naive_solver.
    rewrite app_nil_r. apply filter_all. by intros x Hx ->.
  - unfold droppedIdle. fold s1. rewrite I1, Ei. apply filter_all. by intros x Hx ->.
  - unfold dropsOf. simpl. by rewrite !omap_app, dropsOf_removedCalls, app_nil_r.
  - intros d Hd. unfold droppable, droppedIdle. rewrite conn_removed, decide_False by done. done.
Qed.

Lemma run_dropIdleLoop n : forall s count, wfc s ->
  let victims := take n (takeWhile (droppable s) (idlePart s)) in
  exists s', dropIdleLoop react n count s = (Ok (count + length victims), s') /\ wfc s' /\
    busyPart s' = busyPart s /\ idlePart s' = drop (length victims) (idlePart s) /\
    dropsOf s' = dropsOf s ++ victims.
Proof.
  induction n as [|n IH]; intros s count Hwf; cbv zeta.
  { exists s. simpl. rewrite app_nil_r, Nat.add_0_r. by rewrite drop_0. }
  simpl dropIdleLoop. rewrite bind_get. pose proof (head_idlePart s Hwf) as Hh.
  destruct (idlePart s) as [|c rest] eqn:Ep; simpl in Hh; rewrite <- Hh.
  { exists s. simpl. by rewrite app_nil_r, Nat.add_0_r. }
  assert (Hcond : ((getIdleTime (conn s c) =? 0)%Z ||
      (getIdleTime (conn s c) <=? idleConnEarlyDropThreshold_ (cm s))%Z) = negb (droppable s c)).
  { unfold droppable. rewrite negb_andb, negb_involutive. f_equal. by rewrite Z.leb_antisym. }
  rewrite Hcond. simpl takeWhile. destruct (droppable s c); cbv [negb].
  - rewrite (run_dropIdle s c _ Hwf (eq_sym Hh)).
    destruct (droppedIdle_parts s c rest Hwf Ep) as (W1 & B1 & I1 & D1 & Hd).
    destruct (IH (droppedIdle s c) (S count) W1) as (s' & E & W' & B' & I' & D').
    assert (Ev : takeWhile (droppable (droppedIdle s c)) rest = takeWhile (droppable s) rest).
    { apply takeWhile_ext. intros d Hdr. apply Hd. intros ->.
      pose proof (wfc_nodup _ Hwf) as Hnd. rewrite <- (before_from (idleIterator_ (cm s)) (elems s)) in Hnd.
      change (NoDup (busyPart s ++ idlePart s)) in Hnd. rewrite Ep in Hnd.
      by apply NoDup_app in Hnd as (_ & _ & [? _]%NoDup_cons). }
    rewrite I1, Ev in *. exists s'. rewrite E. split; [do 2 f_equal; simpl; lia|].
    split; [done|]. split; [by rewrite B'|]. split; [done|]. rewrite D', D1, <- app_assoc. done.
  - exists s. simpl. by rewrite app_nil_r, Nat.add_0_r.
Qed.

(** C7. [dropIdleConnections] drops the connections idle for longer than the
    threshold, longest idle first, stopping at the first that is not or when
    [num] were dropped; it returns their number, leaves the busy connections
    and the younger idle ones alone, and drops nothing when the threshold is
    not below the idle timeout. *)
Theorem dropIdle_oldest_first (num : nat) (s : CMState L) :
  wfc s ->
  let victims := if (timeout_ (cm s) <=? idleConnEarlyDropThreshold_ (cm s))%Z then []
                 else take num (takeWhile (droppable s) (idlePart s)) in
  exists s', dropIdleConnections react num s = (Ok (length victims), s') /\ wfc s' /\
    busyPart s' = busyPart s /\ idlePart s' = drop (length victims) (idlePart s) /\
    dropsOf s' = dropsOf s ++ victims.
Proof.
  intros Hwf. unfold dropIdleConnections. rewrite bind_get.
  destruct (timeout_ (cm s) <=? idleConnEarlyDropThreshold_ (cm s))%Z; cbv zeta.
  - exists s. rewrite app_nil_r. simpl. by rewrite drop_0.
  - by apply run_dropIdleLoop.
Qed.
End list_props.

(** ** Graceful shutdown *)

(** What can happen while a shutdown is going on. *)
Inductive cmEvent : Type :=
| ELoop
| ETimer
| EInLoop
| EAdd (c : nat) (timeout : bool)
| ERemove (c : nat)
| EActivated (c : nat)
| EDeactivated (c : nat)
| EReports (c : nat) (busy : bool) (idle : Z)
| EShutdown (idleGrace : Z)
| EDrain (pct : spec_float) (idleGrace : Z).

Section shutdown_props.
Context {L : Type} `{!IntrusiveList L} `{!IntrusiveListLaws L}.
Context (react : Call -> CMState L -> list reaction).
Implicit Types (s : CMState L).

Definition runEvent (e : cmEvent) : M (CMState L) unit :=
  match e with
  | ELoop => runLoopCallback react
  | ETimer => timeoutExpired react
  | EInLoop => runInLoop react
  | EAdd c t => addConnection react c t
  | ERemove c => removeConnection c
  | EActivated c => onActivated c
  | EDeactivated c => onDeactivated c
  | EReports c b t => setReports c b t
  | EShutdown g => initiateGracefulShutdown react g
  | EDrain p g => drainConnections react p g
  end.

(** The event base runs what is scheduled; activity is reported by managed
    connections.  Excluded is only the activation of a connection the running
    batches have not come to yet. *)
Definition enabled (e : cmEvent) s : Prop :=
  match e with
  | ELoop => loopScheduled (drainHelper_ s) = true
  | ETimer => isScheduled (drainHelper_ s) = true
  | EActivated c => c ∈ elems s /\ (draining s -> c ∉ tail (pending s))
  | EDeactivated c => c ∈ elems s
  | _ => True
  end.

(** The states a graceful shutdown of [s] can be in. *)
Inductive shuttingDown (s : CMState L) : CMState L -> Prop :=
| sd_start g s' : initiateGracefulShutdown react g s = (Ok tt, s') -> shuttingDown s s'
| sd_event e s1 r s2 : shuttingDown s s1 -> enabled e s1 -> runEvent e s1 = (r, s2) ->
    shuttingDown s s2.

Context (Hquiet : quiet react).

Lemma inv_event e s :
  shutdownInv s -> enabled e s -> exists s', runEvent e s = (Ok tt, s') /\ shutdownInv s'.
Proof.
  intros Hi Hen. pose proof (si_wfc _ Hi) as Hwf.
  assert (Hst : bool_decide (getShutdownState s = NONE) = false).
  { apply bool_decide_eq_false. pose proof (notify_le s Hi) as Hle. intros E. by rewrite E in Hle. }
  destruct e as [| | |c t|c|c|c|c b t|g|p g]; simpl in *.
  - by apply inv_loop.
  - destruct (inv_timer react Hquiet s Hi) as (s' & E & H'). exists s'. auto.
  - by apply inv_runInLoop.
  - destruct (run_addConnection react c t s Hwf) as (s1 & L1 & ->). by apply (inv_addTail _ Hquiet c s).
  - destruct (decide (c ∈ elems s)).
    + exists (removed c s). split; [by apply run_removeConnection|by apply inv_removed].
    + exists s. split; [by apply removeConnection_notmine|done].
  - exists (activated c s). split; [apply run_onActivated|apply inv_activated]; naive_solver.
  - exists (deactivated c s). split; [by apply run_onDeactivated|by apply inv_deactivated].
  - eexists. split; [reflexivity|]. by apply inv_setReports.
  - exists s. split; [|done]. unfold initiateGracefulShutdown. by rewrite bind_get, Hst.
  - exists s. split; [|done]. unfold drainConnections. by rewrite bind_get, Hst.
Qed.

Lemma shuttingDown_inv s s' :
  wfc s -> getShutdownState s = NONE -> takeable s -> shuttingDown s s' -> shutdownInv s'.
Proof.
  intros Hwf Hst Hl Hr. induction Hr as [g s' Hs|e s1 r s2 Hr IH Hen He].
  - destruct (inv_start react Hquiet g s Hwf Hst Hl) as (s'' & E & Hi & _). rewrite E in Hs. by simplify_eq.
  - destruct (inv_event e s1 IH Hen) as (s'' & E & Hi). rewrite E in He. by simplify_eq.
Qed.

(** C8. Take a manager whose connections, from their methods, at most change
    their own busyness or destroy themselves ([quiet]; a connection that
    destroys another one is [drain_next_removed]), and start a graceful
    shutdown when no batch of an earlier, partial drain is due, or more than
    64 connections are managed ([takeable]; otherwise the left over callback
    fails the CHECK, [takeover_fails]).  Then for every interleaving of loop
    callbacks, the grace timer, additions, removals, further requests, activity
    and idleness - except the activation of a connection the running batches
    have not come to ([activation_escapes_drain]), and forced drops
    ([dropConnections_leaves_callback]) - nothing faults, the CHECK
    of [drainConnections] included; the drain never gets stuck before it is
    complete; and once it is complete every connection still in the manager
    has been told [closeWhenIdle], or will be at the end of the loop in which
    it was added. *)
Theorem shutdown_safe (s s' : CMState L) :
  wfc s -> getShutdownState s = NONE -> takeable s -> shuttingDown s s' ->
  (forall e, enabled e s' -> (runEvent e s').1 = Ok tt) /\
  (shutdownState_ (drainHelper_ s') <> CLOSE_WHEN_IDLE_COMPLETE ->
     loopScheduled (drainHelper_ s') = true \/ isScheduled (drainHelper_ s') = true) /\
  (shutdownState_ (drainHelper_ s') = CLOSE_WHEN_IDLE_COMPLETE ->
     forall c, c ∈ elems s' -> state_ (conn s' c) = SENT_CLOSE_WHEN_IDLE \/ c ∈ inLoop (env s')).
Proof.
  intros Hwf Hst Hl Hr. pose proof (shuttingDown_inv s s' Hwf Hst Hl Hr) as Hi. split_and!.
  - intros e Hen. by destruct (inv_event e s' Hi Hen) as (s'' & -> & _).
  - destruct Hi as [_ _ Hp]. unfold phase in Hp. destruct (shutdownState_ (drainHelper_ s')); try done; intros _;
      [left|right|left]; apply Hp.
  - intros E. destruct Hi as [_ _ Hp]. unfold phase in Hp. rewrite E in Hp. apply Hp.
Qed.

(** C9. A graceful shutdown of such connections, started when no batch of an
    earlier drain is due or more than 64 connections are managed, comes to an
    end: with nothing else going on, it is complete after at most
    [2 (n / 64) + 3] turns of the event loop, [n] being the number of
    connections left by the first batch, and then every connection has been
    told [closeWhenIdle], or is among those added earlier in the present loop,
    which are told at its end. *)
Theorem shutdown_completes (grace : Z) (s : CMState L) :
  wfc s -> getShutdownState s = NONE -> takeable s ->
  exists s1 s2, initiateGracefulShutdown react grace s = (Ok tt, s1) /\
    eventLoops react (2 * (getNumConnections s1 / 64) + 3) s1 = (Ok tt, s2) /\
    shutdownState_ (drainHelper_ s2) = CLOSE_WHEN_IDLE_COMPLETE /\
    (forall c, c ∈ elems s2 -> state_ (conn s2 c) = SENT_CLOSE_WHEN_IDLE \/ c ∈ inLoop (env s)).
Proof.
  intros Hwf Hst Hl. destruct (inv_start react Hquiet grace s Hwf Hst Hl) as (s1 & E1 & I1 & Hin1).
  destruct (eventLoops_complete react Hquiet (2 * (getNumConnections s1 / 64) + 3)
    (getNumConnections s1) s1 I1) as (s2 & E2 & I2 & Hin2 & St2); [done| |].
  - unfold remaining, getNumConnections.
    pose proof (Nat.Div0.div_le_mono _ _ 64 (pending_length s1)) as Hp.
    destruct (shutdownState_ (drainHelper_ s1)); lia.
  - exists s1, s2. split_and!; [done..|]. destruct I2 as [_ _ Hp]. unfold phase in Hp.
    rewrite St2 in Hp. destruct Hp as (_ & _ & Hcl). rewrite <- Hin1, <- Hin2. exact Hcl.
Qed.
End shutdown_props.

(** ** Dropping everything *)

Section drop_props.
Context {L : Type} `{!IntrusiveList L} `{!IntrusiveListLaws L}.
Context (react : Call -> CMState L -> list reaction).
Implicit Types (s : CMState L).

Definition mgrOf s (c : nat) : option nat := connectionManager_ (conn s c).

(** A virtual call on a connection that has left the manager. *)
Record aside (k : list Call) s s' : Prop := {
  as_cm : cm s' = cm s;
  as_helper : drainHelper_ s' = drainHelper_ s;
  as_mgr : forall d, mgrOf s' d = mgrOf s d;
  as_timeouts : connTimeouts_ (env s') = connTimeouts_ (env s);
  as_calls : calls (env s') = calls (env s) ++ k
}.

Lemma aside_trans k1 k2 s1 s2 s3 : aside k1 s1 s2 -> aside k2 s2 s3 -> aside (k1 ++ k2) s1 s3.
Proof.
  intros [C1 H1 M1 T1 L1] [C2 H2 M2 T2 L2]. split; try congruence.
  by rewrite L2, L1, app_assoc.
Qed.

Lemma run_reaction_aside k c r s :
  callee k = Some c -> quietReaction k r -> mgrOf s c = None ->
  exists s', doReaction r s = (Ok tt, s') /\ aside [] s s'.
Proof.
  intros Hk Hr Hm. destruct r as [d|d|d|d b]; simpl in Hr; try done; rewrite Hk in Hr; simplify_eq/=.
  - exists s. split; [|split; try done; by rewrite app_nil_r].
    unfold removeConnection, when. rewrite bind_get, bool_decide_false; [done|].
    unfold mgrOf in Hm. by rewrite Hm.
  - eexists. split; [reflexivity|]. split; try done; [|simpl; by rewrite app_nil_r].
    intros e. unfold mgrOf, conn at 1. simpl. destruct (decide (e = d)) as [->|Hne].
    + by rewrite lookup_insert_eq.
    + by rewrite lookup_insert_ne.
Qed.

Context (Hquiet : quiet react).

Lemma run_invoke_aside k c s :
  callee k = Some c -> mgrOf s c = None -> exists s', invoke react k s = (Ok tt, s') /\ aside [k] s s'.
Proof.
  intros Hk Hm. unfold invoke, logCall. rewrite bind_modify, bind_get.
  match goal with |- exists _, for_each _ _ ?s0 = _ /\ _ => set (s1 := s0) end.
  assert (A1 : aside [k] s s1) by by split.
  assert (Hrun : forall rs s0, Forall (quietReaction k) rs -> mgrOf s0 c = None ->
    exists s', for_each rs doReaction s0 = (Ok tt, s') /\ aside [] s0 s').
  { intros rs s0 Hrs. revert s0. induction Hrs as [|r rs Hr Hrs IH]; intros s0 Hm0; simpl.
    - exists s0. split; [done|]. split; try done. by rewrite app_nil_r.
    - destruct (run_reaction_aside k c r s0 Hk Hr Hm0) as (s2 & E2 & A2).
      destruct (IH s2) as (s3 & E3 & A3); [by rewrite (as_mgr _ _ _ A2)|].
      exists s3. rewrite (bind_Ok _ _ _ _ _ E2). split; [done|]. exact (aside_trans _ _ _ _ _ A2 A3). }
  destruct (Hrun (react k s1) s1 (Hquiet _ _) Hm) as (s2 & E2 & A2).
  exists s2. split; [done|]. exact (aside_trans _ _ _ _ _ A1 A2).
Qed.

(** The state when [c] has been taken off the front of the list. *)
Definition popped (c : nat) s : CMState L :=
  mkCMState (setConns (il_erase c (conns_ (cm s))) (cm s)) (drainHelper_ s)
    (mkEnv (<[c := mkConn (state_ (conn s c)) None (isBusy (conn s c)) (getIdleTime (conn s c))]>
        (objects (env s)))
      (delete c (connTimeouts_ (env s))) (inLoop (env s)) (calls (env s))).

Lemma run_pop {A} c s l (k : M (CMState L) A) :
  elems s = c :: l ->
  (do! erase c in do! cancelTimeout c in do! setConnectionManager c None in k) s = k (popped c s).
Proof.
  intros El. unfold erase. rewrite bind_assoc, bind_get, bool_decide_true.
  2: { rewrite El. set_solver. }
  unfold cancelTimeout, setConnectionManager. by rewrite !bind_modify.
Qed.

Lemma mgrOf_popped c s d : mgrOf (popped c s) d = if decide (d = c) then None else mgrOf s d.
Proof.
  unfold mgrOf, conn at 1. simpl. case_decide as Hd; [subst d; by rewrite lookup_insert_eq|].
  by rewrite lookup_insert_ne.
Qed.

Lemma run_dropOne {A} c s l i (k : M (CMState L) A) :
  elems s = c :: l ->
  exists s', (do! erase c in
    do! cancelTimeout c in
    do! setConnectionManager c None in
    do! when (S i <=? 2) (invoke react (DumpConnectionState c)) in
    do! invoke react (DropConnection c) in k) s = k s' /\
  aside ((if S i <=? 2 then [DumpConnectionState c] else []) ++ [DropConnection c]) (popped c s) s'.
Proof.
  intros El. rewrite (run_pop c s l _ El).
  assert (Hm : mgrOf (popped c s) c = None) by by rewrite mgrOf_popped, decide_True.
  assert (Hdump : exists s1, when (S i <=? 2) (invoke react (DumpConnectionState c)) (popped c s) = (Ok tt, s1) /\
    aside (if S i <=? 2 then [DumpConnectionState c] else []) (popped c s) s1).
  { unfold when. destruct (S i <=? 2); [by apply run_invoke_aside with c|].
    exists (popped c s). split; [done|]. split; try done. by rewrite app_nil_r. }
  destruct Hdump as (s1 & E1 & A1). rewrite (bind_Ok _ _ _ _ _ E1).
  destruct (run_invoke_aside (DropConnection c) c s1 eq_refl) as (s2 & E2 & A2).
  { by rewrite (as_mgr _ _ _ A1). }
  exists s2. split; [by rewrite (bind_Ok _ _ _ _ _ E2)|]. exact (aside_trans _ _ _ _ _ A1 A2).
Qed.

Lemma elems_popped c s l : elems s = c :: l -> elems (popped c s) = l.
Proof. intros El. exact (il_elems_erase [] l c _ (not_elem_of_nil c) El). Qed.

Lemma run_dropAllLoop l : forall s i,
  elems s = l ->
  exists s', dropAllLoop react (length l) i s = (Ok tt, s') /\ elems s' = [] /\
    this_ (cm s') = this_ (cm s) /\ drainHelper_ s' = drainHelper_ s /\
    (forall d, mgrOf s' d = if decide (d ∈ l) then None else mgrOf s d) /\
    (forall d, connTimeouts_ (env s') !! d =
       if decide (d ∈ l) then None else connTimeouts_ (env s) !! d) /\
    dropsOf s' = dropsOf s ++ l.
Proof.
  induction l as [|c l IH]; intros s i El.
  { exists s. simpl. rewrite bind_get, El, app_nil_r. by split_and!. }
  cbn [dropAllLoop length]. rewrite bind_get, El.
  destruct (run_dropOne c s l i (dropAllLoop react (length l) (S i)) El) as (s1 & -> & A1).
  assert (El1 : elems s1 = l).
  { unfold elems. rewrite (as_cm _ _ _ A1). by apply elems_popped. }
  destruct (IH s1 (S i) El1) as (s2 & E2 & H1 & H2 & H3 & H4 & H5 & H6).
  exists s2. split; [done|]. split; [done|].
  split; [by rewrite H2, (as_cm _ _ _ A1)|]. split; [by rewrite H3, (as_helper _ _ _ A1)|].
  split_and!.
  - intros d. rewrite H4, (as_mgr _ _ _ A1), mgrOf_popped.
    destruct (decide (d = c)), (decide (d ∈ l)), (decide (d ∈ c :: l)); subst; try done; set_solver.
  - intros d. rewrite H5, (as_timeouts _ _ _ A1). simpl.
    destruct (decide (d = c)), (decide (d ∈ l)), (decide (d ∈ c :: l)); subst; try done;
      rewrite ?lookup_delete_eq, ?lookup_delete_ne by done; try done; set_solver.
  - rewrite H6. unfold dropsOf. rewrite (as_calls _ _ _ A1). simpl. rewrite !omap_app.
    destruct (i <=? 1); simpl; by rewrite <- app_assoc.
Qed.

(** [dropAllConnections], in the middle of a drain or not, drops every
    connection, in list order, and leaves an empty manager with no timeout of a
    dropped connection registered, no iterator into the list, and neither the
    loop callback nor the grace timer scheduled, so that the shutdown is over. *)
Lemma dropAll_drops_all (s : CMState L) :
  wfc s ->
  exists s', dropAllConnections react s = (Ok tt, s') /\ wfc s' /\ elems s' = [] /\
    dropsOf s' = dropsOf s ++ elems s /\
    (forall c, c ∈ elems s -> connTimeouts_ (env s') !! c = None /\ mgrOf s' c = None) /\
    drainIterator_ (cm s') = None /\ idleIterator_ (cm s') = None /\
    drainHelper_ s' = mkDrain (all_ (drainHelper_ s)) (pct_ (drainHelper_ s)) CLOSE_WHEN_IDLE_COMPLETE
      false false.
Proof.
  intros Hwf. unfold dropAllConnections, stopDrainingForShutdown.
  rewrite bind_assoc, !bind_modify, bind_get.
  set (s1 := onDrain _ (onDrain _ s)).
  destruct (run_dropAllLoop (elems s1) s1 0 eq_refl) as (s2 & E2 & H1 & H2 & H3 & H4 & H5 & H6).
  unfold getNumConnections. rewrite (bind_Ok _ _ _ _ _ E2), !bind_modify.
  set (s3 := onDrain _ (onManager _ (onManager _ s2))).
  assert (Hend : exists s', when (callback_ (cm s1)) (logCall OnEmpty) s3 = (Ok tt, s') /\
    cm s' = cm s3 /\ drainHelper_ s' = drainHelper_ s3 /\ objects (env s') = objects (env s3) /\
    connTimeouts_ (env s') = connTimeouts_ (env s3) /\ dropsOf s' = dropsOf s3).
  { unfold when. destruct (callback_ (cm s1)); [|by exists s3].
    eexists. split; [reflexivity|]. split_and!; try done. unfold dropsOf. simpl.
    by rewrite omap_app, app_nil_r. }
  destruct Hend as (s' & -> & C & D & O & T & Dr). exists s'. split; [done|].
  assert (El : elems s' = []) by (unfold elems; by rewrite C).
  assert (Hm : forall d, mgrOf s' d = mgrOf s2 d) by (intros d; unfold mgrOf, conn; by rewrite O).
  split_and!.
  - split; rewrite ?El, ?C; try done.
    + constructor.
    + intros c. change (c ∈ [] <-> mgrOf s' c = Some (this_ (cm s3))). rewrite Hm, H4.
      change (this_ (cm s3)) with (this_ (cm s2)). rewrite H2. change (elems s1) with (elems s).
      change (mgrOf s1 c) with (mgrOf s c). change (this_ (cm s1)) with (this_ (cm s)).
      case_decide as Hc; [by split; [intros ?%not_elem_of_nil|]|].
      split; [by intros ?%not_elem_of_nil|]. intros Hm'. by apply (wfc_mgr _ Hwf) in Hm'.
  - done.
  - by rewrite Dr.
  - intros c Hc. rewrite T, Hm, H4. change (connTimeouts_ (env s3)) with (connTimeouts_ (env s2)).
    rewrite H5, !decide_True by done. done.
  - by rewrite C.
  - by rewrite C.
  - rewrite D. simpl. by rewrite H3.
Qed.

(** ** Dropping a share of the connections *)

Lemma wfc_aside k s s' : wfc s -> aside k s s' -> wfc s'.
Proof.
  intros [W1 W2 W3 W4] [C H Mg T Cl]. assert (El : elems s' = elems s) by (unfold elems; by rewrite C).
  split; rewrite ?El, ?C; try done. intros c. rewrite W4. unfold mgrOf in Mg. by rewrite Mg.
Qed.

Lemma run_dropLoop n : forall s, wfc s ->
  exists s', dropLoop react n s = (Ok tt, s') /\ wfc s' /\ elems s' = drop n (elems s) /\
    drainHelper_ s' = drainHelper_ s /\ dropsOf s' = dropsOf s ++ take n (elems s).
Proof.
  induction n as [|n IH]; intros s Hwf; cbn [dropLoop]; rewrite bind_get.
  { exists s. rewrite app_nil_r. destruct (elems s) eqn:E; by rewrite ?drop_0. }
  destruct (elems s) as [|c l] eqn:El; [exists s; by rewrite app_nil_r|].
  assert (Hc : c ∈ elems s) by (rewrite El; set_solver).
  rewrite (bind_Ok _ _ _ _ _ (run_removeConnection s c Hwf Hc)).
  destruct (run_invoke_aside (DropConnection c) c (removed c s) eq_refl) as (s1 & E1 & A1).
  { unfold mgrOf. by rewrite conn_removed, decide_True. }
  rewrite (bind_Ok _ _ _ _ _ E1).
  assert (W1 : wfc s1) by (eapply wfc_aside; [by apply wfc_removed|exact A1]).
  assert (El1 : elems s1 = l).
  { unfold elems. rewrite (as_cm _ _ _ A1). change (elems (removed c s) = l).
    rewrite elems_removed, El by done. apply (filter_ne_middle [] l).
    rewrite <- El. apply (wfc_nodup _ Hwf). }
  destruct (IH s1 W1) as (s2 & E2 & W2 & El2 & H2 & D2). rewrite El1 in *.
  exists s2. split_and!; [done..| |].
  - by rewrite H2, (as_helper _ _ _ A1).
  - rewrite D2. unfold dropsOf. rewrite (as_calls _ _ _ A1). simpl.
    by rewrite !omap_app, dropsOf_removedCalls, app_nil_r, <- app_assoc.
Qed.

(** [dropConnections(pct)] drops exactly the first
    [min(n, size_t(n * pct))] connections of the list, in list order, busy ones
    first, keeps the others and the iterators valid. *)
Lemma dropConnections_front (pct : spec_float) (k : nat) (s : CMState L) :
  wfc s -> portion (getNumConnections s) pct = Some k ->
  exists s', dropConnections react pct s = (Ok tt, s') /\ wfc s' /\
    elems s' = drop k (elems s) /\ dropsOf s' = dropsOf s ++ take k (elems s).
Proof.
  intros Hwf Hk. unfold dropConnections, stopDrainingForShutdown.
  rewrite bind_assoc, !bind_modify, bind_get. set (s1 := onDrain _ (onDrain _ s)).
  assert (W1 : wfc s1) by by do 2 apply wfc_onDrain.
  change (getNumConnections s1) with (getNumConnections s). rewrite Hk. unfold of_option, bind at 1.
  destruct (run_dropLoop k s1 W1) as (s' & E & W & El & _ & D). by exists s'.
Qed.

(** [dropConnections] leaves a pending loop callback of the drain
    scheduled but marks the drain complete: the callback then fails the CHECK
    of [drainConnections], which ends the process. *)
Lemma dropConnections_leaves_callback (pct : spec_float) (k : nat) (s : CMState L) :
  wfc s -> portion (getNumConnections s) pct = Some k -> loopScheduled (drainHelper_ s) = true ->
  exists s', dropConnections react pct s = (Ok tt, s') /\
    loopScheduled (drainHelper_ s') = true /\
    (runLoopCallback react s').1 = Err (CheckFailed "shutdownState_").
Proof.
  intros Hwf Hk Hl. unfold dropConnections, stopDrainingForShutdown.
  rewrite bind_assoc, !bind_modify, bind_get. set (s1 := onDrain _ (onDrain _ s)).
  assert (W1 : wfc s1) by by do 2 apply wfc_onDrain.
  change (getNumConnections s1) with (getNumConnections s). rewrite Hk. unfold of_option, bind at 1.
  destruct (run_dropLoop k s1 W1) as (s' & E & _ & _ & H & _). exists s'.
  split; [done|]. rewrite H. split; [done|].
  unfold runLoopCallback, DrainHelper_drainConnections. rewrite bind_modify, bind_get.
  simpl. rewrite H. done.
Qed.

(** ** What a drain misses *)

(** A connection that becomes busy between two batches, before the drain
    has come to it, is moved to the front of the list and never visited: the
    drain completes although that connection was not told [closeWhenIdle]. *)
Lemma activation_escapes_drain (c : nat) (s : CMState L) :
  wfc s -> shutdownState_ (drainHelper_ s) = CLOSE_WHEN_IDLE -> c ∈ tail (pending s) ->
  length (pending s) <= 65 ->
  exists s', (do! onActivated c in runLoopCallback react) s = (Ok tt, s') /\
    shutdownState_ (drainHelper_ s') = CLOSE_WHEN_IDLE_COMPLETE /\
    c ∈ elems s' /\ state_ (conn s' c) = state_ (conn s c).
Proof.
  intros Hwf Hst Hc Hlen. pose proof (head_pending s Hwf) as Hh.
  pose proof (visited_pending s) as El. pose proof (wfc_nodup _ Hwf) as Hnd.
  destruct (pending s) as [|d rest] eqn:Ep; [by apply not_elem_of_nil in Hc|]. simpl in *.
  assert (Hin : c ∈ elems s) by (rewrite <- El; set_solver).
  rewrite <- El in Hnd. apply NoDup_app in Hnd as (_ & _ & [Hdr Hndr]%NoDup_cons).
  assert (Hdc : d <> c) by by intros ->.
  rewrite (bind_Ok _ _ _ _ _ (run_onActivated s c Hwf Hin)).
  set (s1 := activated c s). assert (W1 : wfc s1) by by apply wfc_activated.
  assert (Hit : drainIterator_ (cm s) <> Some c) by (rewrite <- Hh; naive_solver).
  assert (Ep1 : pending s1 = filter (.≠ c) (d :: rest)).
  { destruct (parts_removed _ _ _ (wfc_nodup _ Hwf) Hin (wfc_drain _ Hwf)) as (_ & E & _).
    unfold bumped in E. rewrite decide_False in E by done. rewrite <- Ep.
    unfold pending, s1. rewrite elems_activated by done.
    change (drainIterator_ (cm (activated c s))) with (drainIterator_ (cm s)).
    by rewrite from_cons. }
  assert (Hlen1 : length (pending s1) <= 64).
  { rewrite Ep1. rewrite filter_cons_True by done. simpl.
    pose proof (length_filter_ne c rest Hndr Hc). lia. }
  unfold runLoopCallback. rewrite bind_modify. set (s2 := onDrain (setLoop false) s1).
  destruct (run_drainConnections react Hquiet s2) as (s3 & B & ->); [by apply wfc_onDrain|by right|].
  change (pending s2) with (pending s1) in *. change (visited s2) with (visited s1) in B.
  rewrite drop_ge in * by lia. rewrite take_ge in B by lia. unfold drainTail.
  rewrite bind_modify, bind_get. destruct (ba_mode _ _ _ _ _ B) as (Hh3 & _). simpl. rewrite Hh3.
  change (shutdownState_ (drainHelper_ s2)) with (shutdownState_ (drainHelper_ s)). rewrite Hst. simpl.
  eexists. split; [reflexivity|]. split; [done|]. split.
  - change (c ∈ elems s3). destruct (ba_list _ _ _ _ _ B) as (kept & -> & _).
    apply elem_of_app. left. unfold s1. rewrite visited_activated by done.
    rewrite decide_False by done. set_solver.
  - change (drainState s3 c = drainState s c). rewrite (ba_state _ _ _ _ _ B).
    rewrite decide_False; [done|]. rewrite Ep1. apply notin_filter_ne.
Qed.
End drop_props.

Section removal_during_drain.
Context {L : Type} `{!IntrusiveList L} `{!IntrusiveListLaws L}.

Lemma next_unlinked (s : CMState L) c :
  c ∉ elems s -> next (Some c) s = (Err (Undefined "++ of an iterator that is not linked"), s).
Proof. intros Hc. unfold next. by rewrite bind_get, bool_decide_false. Qed.

(** The loop of [drainConnections] holds an iterator to the next connection
    while it calls [closeWhenIdle]; [removeConnection] only protects the two
    iterators of the manager.  A connection that makes the next one in the list
    go away (whose destructor calls [removeConnection]) leaves the loop with an
    iterator to an unlinked node. *)
Theorem drain_next_removed (react : Call -> CMState L -> list reaction) (c d : nat) (rest : list nat)
    (s : CMState L) :
  wfc s -> shutdownState_ (drainHelper_ s) = CLOSE_WHEN_IDLE ->
  notifyPendingShutdown_ (cm s) = false -> pending s = c :: d :: rest ->
  (forall s0, react (CloseWhenIdle c) s0 = [RRemove d]) ->
  (DrainHelper_drainConnections react s).1 =
    Err (Undefined "++ of an iterator that is not linked").
Proof.
  intros Hwf Hst Hforce Ep Hr. pose proof (head_pending s Hwf) as Hh. rewrite Ep in Hh. simpl in Hh.
  pose proof (visited_pending s) as El. rewrite Ep in El. pose proof (wfc_nodup _ Hwf) as Hnd.
  rewrite <- El in Hnd. pose proof (NoDup_middle_pre _ _ _ Hnd) as Hpre.
  assert (Hc : c ∈ elems s) by (rewrite <- El; set_solver).
  unfold DrainHelper_drainConnections. rewrite bind_get, Hst, <- Hh. simpl orb. cbv iota. rewrite bind_ret.
  change 64 with (S 63). unfold bind at 1. cbn [drainLoop].
  rewrite (bind_Ok _ _ _ _ _ (run_next s c Hc)), bind_get, Hst, Hforce, bool_decide_false by done.
  rewrite <- El, succ_middle by done. simpl head. simpl negb.
  unfold fireCloseWhenIdle. rewrite bind_assoc, bind_get. simpl orb. unfold when, setDrainState.
  rewrite bind_assoc, bind_modify. unfold invoke, logCall. rewrite bind_assoc, bind_modify, bind_assoc, bind_get, Hr.
  match goal with |- context [bind _ _ ?s0] => set (s1 := s0) end.
  assert (Ec : forall e, mgrOf s1 e = mgrOf s e).
  { intros e. unfold mgrOf, conn at 1. simpl. destruct (decide (e = c)) as [->|He].
    - by rewrite lookup_insert_eq.
    - by rewrite lookup_insert_ne. }
  assert (W1 : wfc s1).
  { destruct Hwf as [W1 W2 W3 W4]. split; try done. intros e.
    change (e ∈ elems s <-> mgrOf s1 e = Some (this_ (cm s))). by rewrite W4, Ec. }
  assert (Hd : d ∈ elems s1) by (change (d ∈ elems s); rewrite <- El; set_solver).
  cbn [for_each doReaction].
  rewrite bind_assoc, (bind_Ok _ _ _ _ _ (run_removeConnection s1 d W1 Hd)), bind_ret.
  assert (Hd' : d ∉ elems (removed d s1)).
  { rewrite elems_removed by done. apply notin_filter_ne. }
  cbn [head]. by rewrite (bind_Err _ _ _ _ _ (next_unlinked _ d Hd')).
Qed.
End removal_during_drain.

(** ** Witnesses *)

Definition emptyManager : CMState (list nat) := newManager 9 10 true (mkEnv ∅ ∅ [] []).

Lemma wfc_emptyManager : wfc emptyManager.
Proof.
  split; [constructor|by intros ? [=]|by intros ? [=]|].
  intros c. split; [by intros ?%not_elem_of_nil|]. unfold conn. simpl. by rewrite lookup_empty.
Qed.

(** Nothing of the drain has been used. *)
Definition calm (s : CMState (list nat)) : Prop :=
  wfc s /\ drainHelper_ s = mkDrain true SF1 NONE false false /\ inLoop (env s) = [].

Lemma calm_added c s : calm s ->
  exists s', addConnection passive c false s = (Ok tt, s') /\ calm s' /\ c ∈ elems s'.
Proof.
  intros (Hwf & Hh & Hin). destruct (run_addConnection passive c false s Hwf) as (s' & L1 & ->).
  pose proof (li_mode _ _ _ L1) as (H1 & _ & _ & H4).
  exists s'. unfold addTail. rewrite bind_get. unfold getShutdownState. rewrite H1, Hh. split; [|split].
  - simpl andb. unfold when. rewrite bind_ret, bind_get. by rewrite H1, Hh.
  - split; [apply L1|]. split; [by rewrite H1|by rewrite H4].
  - rewrite (li_elems _ _ _ L1). case_decide; set_solver.
Qed.

Lemma calm_busyManager n : calm (busyManager n).
Proof.
  unfold busyManager. generalize (seq 1 n). intros l.
  assert (Hs : calm emptyManager) by (split; [apply wfc_emptyManager|done]).
  change (calm (for_each l (fun c => addConnection passive c false) emptyManager).2).
  revert Hs. generalize emptyManager. induction l as [|c l IH]; intros s Hs; [done|].
  destruct (calm_added c s Hs) as (s1 & E1 & C1 & _). cbn [for_each].
  rewrite (bind_Ok _ _ _ _ _ E1). by apply IH.
Qed.

Lemma calm_idleManager n idle : calm (idleManager n idle).
Proof.
  unfold idleManager. generalize (seq 1 n). intros l.
  assert (Hs : calm emptyManager) by (split; [apply wfc_emptyManager|done]).
  revert Hs. fold emptyManager. generalize emptyManager.
  induction l as [|c l IH]; intros s Hs; [done|].
  destruct (calm_added c s Hs) as (s1 & E1 & (W1 & H1 & I1) & Hc). cbn [for_each].
  rewrite bind_assoc, (bind_Ok _ _ _ _ _ E1), bind_assoc.
  rewrite (bind_Ok _ _ _ _ _ (run_onDeactivated s1 c W1 Hc)). apply IH.
  pose proof (wfc_deactivated s1 c W1 Hc) as W2. split; [|done].
  by apply (evolved_setConn (deactivated c s1) c (mkConn _ _ _ _)).
Qed.

Lemma list_refines_parts_witness :
  exists s', for_each [PAdd 1; PAdd 2; PAdd 3; PDeactivated 1; PDeactivated 3; PActivated 1; PRemove 2]
      (execParts passive) emptyManager = (Ok tt, s') /\ wfc s' /\ parts s' = mkParts [1] [3].
Proof.
  destruct (list_refines_parts passive
    [PAdd 1; PAdd 2; PAdd 3; PDeactivated 1; PDeactivated 3; PActivated 1; PRemove 2] emptyManager)
    as (s' & E & W & P).
  - apply wfc_emptyManager.
  - done.
  - cbn [partsLegalAll partsLegal]. rewrite !list_elem_of_In. vm_compute. intuition discriminate.
  - exists s'. split; [exact E|]. split; [exact W|]. rewrite P. by vm_compute.
Defined.

Definition sampleIdle (c : nat) : Z := match c with 1 => 9 | 2 => 8 | _ => 3 end.

Lemma dropIdle_oldest_first_witness :
  exists s', dropIdleConnections selfDestroying 5 (idleManager 3 sampleIdle) = (Ok 2, s') /\
    wfc s' /\ busyPart s' = [] /\ idlePart s' = [3] /\ dropsOf s' = [1; 2].
Proof.
  destruct (dropIdle_oldest_first selfDestroying (fun c s => eq_refl) 5 (idleManager 3 sampleIdle))
    as (s' & E & W & B & I & D); [apply calm_idleManager|].
  exists s'. split; [rewrite E; by vm_compute|]. split; [exact W|].
  split; [rewrite B; by vm_compute|]. split; [rewrite I; by vm_compute|]. rewrite D; by vm_compute.
Defined.

(** A shutdown of 66 connections after its first batch. *)
Definition midDrain : CMState (list nat) :=
  (initiateGracefulShutdown selfDestroying 0 (idleManager 66 (fun _ => 0%Z))).2.
Definition midDrainBusy : CMState (list nat) :=
  (initiateGracefulShutdown passive 0 (busyManager 66)).2.

Lemma midDrain_shuttingDown : shuttingDown selfDestroying (idleManager 66 (fun _ => 0%Z)) midDrain.
Proof. apply sd_start with 0%Z. unfold midDrain. by vm_compute. Qed.

Lemma shutdown_safe_witness :
  (runEvent selfDestroying ELoop midDrain).1 = Ok tt /\
  enabled ELoop midDrain /\ elems midDrain = [65; 66].
Proof.
  split; [|by vm_compute].
  destruct (calm_idleManager 66 (fun _ => 0%Z)) as (Hwf & Hh & _).
  apply (shutdown_safe selfDestroying quiet_selfDestroying (idleManager 66 (fun _ => 0%Z)) midDrain).
  - exact Hwf.
  - unfold getShutdownState. by rewrite Hh.
  - unfold takeable. by rewrite Hh.
  - apply midDrain_shuttingDown.
  - by vm_compute.
Defined.

Lemma shutdown_completes_witness :
  exists s1 s2, initiateGracefulShutdown passive 5 (busyManager 66) = (Ok tt, s1) /\
    eventLoops passive (2 * (getNumConnections s1 / 64) + 3) s1 = (Ok tt, s2) /\
    shutdownState_ (drainHelper_ s2) = CLOSE_WHEN_IDLE_COMPLETE /\
    (forall c, c ∈ elems s2 -> state_ (conn s2 c) = SENT_CLOSE_WHEN_IDLE \/ c ∈ inLoop (env (busyManager 66))).
Proof.
  destruct (calm_busyManager 66) as (Hwf & Hh & Hin).
  apply (shutdown_completes passive quiet_passive 5 (busyManager 66)).
  - exact Hwf.
  - unfold getShutdownState. by rewrite Hh.
  - unfold takeable. by rewrite Hh.
Defined.

Lemma wfc_midDrainBusy : wfc midDrainBusy.
Proof.
  destruct (calm_busyManager 66) as (Hwf & Hh & _).
  destruct (inv_start passive quiet_passive 0 (busyManager 66) Hwf) as (s' & E & Hi & _).
  - unfold getShutdownState. by rewrite Hh.
  - unfold takeable. by rewrite Hh.
  - unfold midDrainBusy. rewrite E. apply Hi.
Qed.

Lemma dropAll_drops_all_witness :
  exists s', dropAllConnections selfDestroying midDrainBusy = (Ok tt, s') /\ elems s' = [] /\
    dropsOf s' = reverse (seq 1 66) /\ loopScheduled (drainHelper_ s') = false.
Proof.
  destruct (dropAll_drops_all selfDestroying quiet_selfDestroying midDrainBusy wfc_midDrainBusy)
    as (s' & E & _ & El & Ed & _ & _ & _ & Eh).
  exists s'. split; [exact E|]. split; [exact El|]. split; [rewrite Ed; by vm_compute|].
  rewrite Eh. done.
Defined.

Definition half : spec_float := S754_finite false (2 ^ 52)%positive (-53).

Lemma dropConnections_front_witness :
  exists s', dropConnections selfDestroying half (busyManager 5) = (Ok tt, s') /\ wfc s' /\
    elems s' = [3; 2; 1] /\ dropsOf s' = [5; 4].
Proof.
  destruct (dropConnections_front selfDestroying quiet_selfDestroying half 2 (busyManager 5))
    as (s' & E & W & El & D); [apply calm_busyManager|by vm_compute|].
  exists s'. split; [exact E|]. split; [exact W|].
  split; [rewrite El; by vm_compute|]. rewrite D; by vm_compute.
Defined.

Lemma dropConnections_leaves_callback_witness :
  exists s', dropConnections selfDestroying half midDrainBusy = (Ok tt, s') /\
    loopScheduled (drainHelper_ s') = true /\
    (runLoopCallback selfDestroying s').1 = Err (CheckFailed "shutdownState_").
Proof.
  apply (dropConnections_leaves_callback selfDestroying quiet_selfDestroying half 33 midDrainBusy).
  - apply wfc_midDrainBusy.
  - by vm_compute.
  - by vm_compute.
Defined.

Lemma activation_escapes_drain_witness :
  exists s', (do! onActivated 1 in runLoopCallback passive) midDrainBusy = (Ok tt, s') /\
    shutdownState_ (drainHelper_ s') = CLOSE_WHEN_IDLE_COMPLETE /\
    1 ∈ elems s' /\ state_ (conn s' 1) = NOT_DRAINING.
Proof.
  apply (activation_escapes_drain passive quiet_passive 1 midDrainBusy).
  - apply wfc_midDrainBusy.
  - by vm_compute.
  - apply list_elem_of_In. vm_compute. tauto.
  - apply (bool_decide_unpack _). by vm_compute.
Defined.

(** Connection 3 is a proxy whose close also destroys connection 2. *)
Definition chained (k : Call) (s : CMState (list nat)) : list reaction :=
  match k with CloseWhenIdle 3 => [RRemove 2] | _ => [] end.
Definition closingThree : CMState (list nat) :=
  onManager (setDrainIterator (Some 3))
    (onManager (setNotifyPending false) (onDrain (setState CLOSE_WHEN_IDLE) (busyManager 3))).

Lemma drain_next_removed_witness :
  (DrainHelper_drainConnections chained closingThree).1 =
    Err (Undefined "++ of an iterator that is not linked").
Proof.
  apply (drain_next_removed chained 3 2 [1] closingThree).
  - apply wfc_mode with (busyManager 3); try done; [apply calm_busyManager|].
    intros c [= <-]. apply list_elem_of_In. vm_compute. tauto.
  - done.
  - done.
  - by vm_compute.
  - done.
Defined.
