(* ===== verification/Buffers.v ===== *)
(** * Byte buffers

    [folly::IOBuf], [folly::IOBufQueue] and [folly::io::Cursor] are not part of
    this repository.  What the codecs use of them is the interface [IOBufs];
    [IOBufLaws] states their documented behaviour in terms of the bytes they
    hold, and lists of bytes are an instance.

    The lengths passed to the queue are [size_t]; a queue holds fewer than
    2^64 bytes. *)
From Stdlib Require Import ZArith Lia NArith Strings.Byte.
From stdpp Require Import base numbers list countable strings.
From S2P Require Import Prelude.
Open Scope cpp_scope.

Set Default Goal Selector "!".


(** ** Bytes and integers *)

Definition byteZ (b : byte) : Z := Z.of_N (Byte.to_N b).
Definition byteOf (z : Z) : byte :=
  match Byte.of_N (Z.to_N (u8 z)) with Some b => b | None => Byte.x00 end.

#[export] Instance byte_eq_dec : EqDecision byte.
Proof. exact Byte.byte_eq_dec. Defined.

#[export] Instance byte_countable : Countable byte.
Proof. exact (inj_countable Byte.to_N Byte.of_N Byte.of_to_N). Defined.

Lemma byteZ_bounds b : (0 <= byteZ b < 256)%Z.
Proof. unfold byteZ. pose proof (Byte.to_N_bounded b). lia. Qed.

Lemma byteZ_byteOf z : byteZ (byteOf z) = u8 z.
Proof.
  unfold byteZ, byteOf. pose proof (wrap_bounds 8 z ltac:(lia)) as Hb. fold (u8 z) in Hb.
  destruct (Byte.of_N (Z.to_N (u8 z))) as [b|] eqn:E.
  - apply Byte.to_of_N in E. rewrite E. lia.
  - apply Byte.of_N_None_iff in E. lia.
Qed.

(** Little-endian and big-endian numbers. *)
Fixpoint leZ (l : list byte) : Z :=
  match l with
  | [] => 0
  | b :: l => byteZ b + 256 * leZ l
  end.
Definition beZ (l : list byte) : Z := leZ (reverse l).
Fixpoint leBytes (n : nat) (z : Z) : list byte :=
  match n with
  | O => []
  | S n => byteOf z :: leBytes n (z / 256)
  end.
Definition beBytes (n : nat) (z : Z) : list byte := reverse (leBytes n z).

Lemma leBytes_length n z : length (leBytes n z) = n.
Proof. revert z. induction n as [|n IH]; intros z; simpl; [done|]. by rewrite IH. Qed.

Lemma beBytes_length n z : length (beBytes n z) = n.
Proof. unfold beBytes. by rewrite length_reverse, leBytes_length. Qed.

Lemma leZ_leBytes n z : (0 <= z < 256 ^ Z.of_nat n)%Z -> leZ (leBytes n z) = z.
Proof.
  revert z. induction n as [|n IH]; intros z Hz; [simpl in *; lia|].
  rewrite Nat2Z.inj_succ, Z.pow_succ_r in Hz by lia. simpl leBytes. simpl leZ.
  rewrite byteZ_byteOf, IH.
  - unfold u8, wrap. change (2 ^ 8)%Z with 256%Z. pose proof (Z.div_mod z 256). lia.
  - split; [apply Z.div_pos; lia|]. apply Z.div_lt_upper_bound; lia.
Qed.

Lemma beZ_beBytes n z : (0 <= z < 256 ^ Z.of_nat n)%Z -> beZ (beBytes n z) = z.
Proof. intros Hz. unfold beZ, beBytes. rewrite reverse_involutive. by apply leZ_leBytes. Qed.

Lemma leZ_bounds l : (0 <= leZ l < 256 ^ Z.of_nat (length l))%Z.
Proof.
  induction l as [|b l IH]; [simpl; lia|]. cbn [leZ length].
  rewrite Nat2Z.inj_succ, Z.pow_succ_r by lia. pose proof (byteZ_bounds b). lia.
Qed.

Lemma beZ_bounds l : (0 <= beZ l < 256 ^ Z.of_nat (length l))%Z.
Proof. unfold beZ. pose proof (leZ_bounds (reverse l)) as H. by rewrite length_reverse in H. Qed.

(** The integer the bytes of a field stand for, and the other way round. *)
Definition decodeInt (networkByteOrder : bool) (l : list byte) : Z :=
  if networkByteOrder then beZ l else leZ l.
Definition encodeInt (networkByteOrder : bool) (n : nat) (z : Z) : list byte :=
  if networkByteOrder then beBytes n z else leBytes n z.

Lemma encodeInt_length o n z : length (encodeInt o n z) = n.
Proof. destruct o; [apply beBytes_length|apply leBytes_length]. Qed.

Lemma decode_encodeInt o n z :
  (0 <= z < 256 ^ Z.of_nat n)%Z -> decodeInt o (encodeInt o n z) = z.
Proof. destruct o; [apply beZ_beBytes|apply leZ_leBytes]. Qed.

(** ** The interface *)

Class IOBufs (Q B C : Type) : Type := {
  (* IOBuf *)
  computeChainDataLength : B -> Z;
  copyBuffer : list byte -> B;
  prependChain : B -> B -> B;                   (* len->prependChain(buf) *)
  data : B -> list byte;                        (* coalesce(), data(), length() *)
  (* IOBufQueue *)
  append : Q -> B -> Q;
  chainLength : Q -> Z;
  split : Q -> Z -> res (B * Q);
  trimStart : Q -> Z -> res Q;
  trimStartAtMost : Q -> Z -> Q;
  move : Q -> Q;                                (* the queue after move() *)
  (* Cursor *)
  cursor : Q -> C;                              (* Cursor(buf.front()) *)
  skip : C -> Z -> res C;
  readInt : bool -> nat -> C -> res (Z * C);    (* readBE / readLE of n bytes *)
  readChar : C -> res (byte * C);
  isAtEnd : C -> bool
}.

(** The bytes of a queue, and those a cursor has not read. *)
Class IOBufView (Q B C : Type) : Type := {
  queued : Q -> list byte;
  unread : C -> list byte
}.

Definition underflow : fault := OutOfRange "underflow".

Class IOBufLaws (Q B C : Type) `{!IOBufs Q B C} `{!IOBufView Q B C} : Prop := {
  data_copyBuffer (l : list byte) : data (copyBuffer l) = l;
  data_prependChain (a b : B) : data (prependChain a b) = data a ++ data b;
  computeChainDataLength_data (b : B) :
    computeChainDataLength b = Z.of_nat (length (data b));
  queued_append (q : Q) (b : B) : queued (append q b) = queued q ++ data b;
  chainLength_queued (q : Q) : chainLength q = Z.of_nat (length (queued q));
  split_ok (q : Q) (n : Z) :
    (0 <= n <= chainLength q)%Z ->
    exists b q', split q n = Ok (b, q') /\
      data b = take (Z.to_nat n) (queued q) /\ queued q' = drop (Z.to_nat n) (queued q);
  split_underflow (q : Q) (n : Z) :
    (chainLength q < n)%Z -> split q n = Err (UnderflowError "split");
  trimStart_ok (q : Q) (n : Z) :
    (0 <= n <= chainLength q)%Z ->
    exists q', trimStart q n = Ok q' /\ queued q' = drop (Z.to_nat n) (queued q);
  trimStart_underflow (q : Q) (n : Z) :
    (chainLength q < n)%Z -> trimStart q n = Err (UnderflowError "trimStart");
  queued_trimStartAtMost (q : Q) (n : Z) :
    (0 <= n)%Z -> queued (trimStartAtMost q n) = drop (Z.to_nat n) (queued q);
  queued_move (q : Q) : queued (move q) = [];
  unread_cursor (q : Q) : unread (cursor q) = queued q;
  skip_ok (c : C) (n : Z) :
    (0 <= n <= Z.of_nat (length (unread c)))%Z ->
    exists c', skip c n = Ok c' /\ unread c' = drop (Z.to_nat n) (unread c);
  skip_underflow (c : C) (n : Z) :
    (Z.of_nat (length (unread c)) < n)%Z -> skip c n = Err underflow;
  readInt_ok (c : C) (o : bool) (n : nat) :
    n <= length (unread c) ->
    exists c', readInt o n c = Ok (decodeInt o (take n (unread c)), c') /\
      unread c' = drop n (unread c);
  readInt_underflow (c : C) (o : bool) (n : nat) :
    length (unread c) < n -> readInt o n c = Err underflow;
  readChar_ok (c : C) (b : byte) (l : list byte) :
    unread c = b :: l -> exists c', readChar c = Ok (b, c') /\ unread c' = l;
  readChar_underflow (c : C) : unread c = [] -> readChar c = Err underflow;
  isAtEnd_unread (c : C) : isAtEnd c = bool_decide (unread c = [])
}.

(** ** Lists of bytes are buffers *)

Definition takeBytes (e : fault) (l : list byte) (n : Z) : res (list byte * list byte) :=
  if (n <=? Z.of_nat (length l))%Z then Ok (take (Z.to_nat n) l, drop (Z.to_nat n) l) else Err e.

#[export] Instance list_IOBufs : IOBufs (list byte) (list byte) (list byte) := {|
  computeChainDataLength l := Z.of_nat (length l);
  copyBuffer l := l;
  prependChain a b := a ++ b;
  data l := l;
  append q b := q ++ b;
  chainLength l := Z.of_nat (length l);
  split q n := takeBytes (UnderflowError "split") q n;
  trimStart q n := res_bind (takeBytes (UnderflowError "trimStart") q n) (fun p => Ok p.2);
  trimStartAtMost q n := drop (Z.to_nat n) q;
  move _ := [];
  cursor q := q;
  skip c n := res_bind (takeBytes underflow c n) (fun p => Ok p.2);
  readInt o n c := res_bind (takeBytes underflow c (Z.of_nat n))
    (fun p => Ok (decodeInt o p.1, p.2));
  readChar c := match c with [] => Err underflow | b :: l => Ok (b, l) end;
  isAtEnd c := bool_decide (c = [])
|}.
#[export] Instance list_IOBufView : IOBufView (list byte) (list byte) (list byte) := {|
  queued l := l;
  unread l := l
|}.

Lemma takeBytes_ok e l n :
  (0 <= n <= Z.of_nat (length l))%Z -> takeBytes e l n = Ok (take (Z.to_nat n) l, drop (Z.to_nat n) l).
Proof. intros Hn. unfold takeBytes. destruct (Z.leb_spec n (Z.of_nat (length l))); [done|lia]. Qed.

Lemma takeBytes_err e l n : (Z.of_nat (length l) < n)%Z -> takeBytes e l n = Err e.
Proof. intros Hn. unfold takeBytes. destruct (Z.leb_spec n (Z.of_nat (length l))); [lia|done]. Qed.

#[export] Instance list_IOBufLaws : IOBufLaws (list byte) (list byte) (list byte).
Proof.
  split; simpl; try done.
  - intros q n Hn. eexists _, _. by rewrite takeBytes_ok.
  - intros q n Hn. by rewrite takeBytes_err.
  - intros q n Hn. rewrite takeBytes_ok by done. simpl. eauto.
  - intros q n Hn. by rewrite takeBytes_err.
  - intros c n Hn. rewrite takeBytes_ok by done. simpl. eauto.
  - intros c n Hn. by rewrite takeBytes_err.
  - intros c o n Hn. rewrite takeBytes_ok by lia. simpl. rewrite Nat2Z.id. eauto.
  - intros c o n Hn. by rewrite takeBytes_err by lia.
  - intros c b l ->. eauto.
  - by intros c ->.
Qed.
