(* ===== verification/Codec.v ===== *)
(** * Codecs (src/wangle/codec)

    [ByteToMessageDecoder] and its three frame decoders, the length prepender,
    [StringCodec] and [MessageToByteEncoder], over the buffers of Buffers.v.

    A decoder is an object with its members and the queue it is given; what it
    fires on its context is recorded in order.  The fixed-width arithmetic of
    the code ([uint32_t] members added to [int32_t] ones, conversions to [int]
    and to [size_t]) is written out.  Tracing to std::cout is left out. *)
From Stdlib Require Import ZArith Lia Strings.Byte.
From stdpp Require Import base numbers list strings pretty.
From S2P Require Import Prelude Buffers.
Open Scope cpp_scope.

Set Default Goal Selector "!".

(** What a handler fires on its context. *)
Inductive Fired (B : Type) : Type :=
| FireRead (b : B)
| FireReadException (what : string).
Arguments FireRead {B} b.
Arguments FireReadException {B} what.

(** A decoder [D] working on a queue. *)
Record Decoding (D Q B : Type) : Type := mkDecoding {
  self : D;
  queue : Q;
  fired : list (Fired B)
}.
Arguments mkDecoding {D Q B}.
Arguments self {D Q B}.
Arguments queue {D Q B}.
Arguments fired {D Q B}.

Section codec.
Context {Q B C : Type} `{!IOBufs Q B C}.

Section decoding.
Context {D : Type}.

Definition setSelf (d : D) : M (Decoding D Q B) unit :=
  modify (fun s => mkDecoding d (queue s) (fired s)).
Definition setQueue (q : Q) : M (Decoding D Q B) unit :=
  modify (fun s => mkDecoding (self s) q (fired s)).
Definition fireRead (b : B) : M (Decoding D Q B) unit :=
  modify (fun s => mkDecoding (self s) (queue s) (fired s ++ [FireRead b])).
Definition fireReadException (what : string) : M (Decoding D Q B) unit :=
  modify (fun s => mkDecoding (self s) (queue s) (fired s ++ [FireReadException what])).
(** A call on the queue or on a cursor: its exceptions are the method's. *)
Definition lift {A} (r : res A) : M (Decoding D Q B) A := fun s =>
  match r with Ok a => (Ok a, s) | Err f => (Err f, s) end.

(** [buf.trimStart(n)], [buf.trimStartAtMost(n)], [buf.split(n)] *)
Definition bufTrimStart (n : Z) : M (Decoding D Q B) unit :=
  let! s := get in
  let! q := lift (trimStart (queue s) n) in
  setQueue q.
Definition bufTrimStartAtMost (n : Z) : M (Decoding D Q B) unit :=
  let! s := get in
  setQueue (trimStartAtMost (queue s) n).
Definition bufSplit (n : Z) : M (Decoding D Q B) B :=
  let! s := get in
  let! p := lift (split (queue s) n) in
  do! setQueue p.2 in
  ret p.1.

(** The result of [decode]: the message, when it returns true, and [needed]. *)
Definition DecodeResult : Type := option B * Z.

(** [ByteToMessageDecoder::read]: true when its loop has ended, false when the
    fuel has. *)
Fixpoint read (decode : M (Decoding D Q B) DecodeResult) (fuel : nat) : M (Decoding D Q B) bool :=
  match fuel with
  | O => ret false
  | S fuel =>
      let! r := decode in
      match r.1 with
      | Some result =>
          do! fireRead result in
          read decode fuel
      | None => ret true
      end
  end.

(** A fragment received from the transport: appended to the queue, which is
    then given to the decoder. *)
Definition receive (decode : M (Decoding D Q B) DecodeResult) (fuel : nat) (b : B) :
    M (Decoding D Q B) bool :=
  do! modify (fun s => mkDecoding (self s) (append (queue s) b) (fired s)) in
  read decode fuel.
End decoding.

(** ** FixedLengthFrameDecoder *)

Record FixedLengthFrameDecoder : Type := mkFixed { length_ : Z }.

Definition FixedLength_decode : M (Decoding FixedLengthFrameDecoder Q B) DecodeResult :=
  let! s := get in
  if (chainLength (queue s) <? length_ (self s))%Z
  then ret (None, length_ (self s) - chainLength (queue s))%Z
  else
    let! result := bufSplit (length_ (self s)) in
    ret (Some result, 0%Z).

(** ** LengthFieldBasedFrameDecoder *)

Record LengthFieldBasedFrameDecoder : Type := mkLengthField {
  lengthFieldLength_ : Z;
  maxFrameLength_ : Z;
  lengthFieldOffset_ : Z;
  lengthAdjustment_ : Z;
  initialBytesToStrip_ : Z;
  networkByteOrder_ : bool;
  lengthFieldEndOffset_ : Z
}.

(** The constructor and its CHECKs; [maxFrameLength - lengthFieldLength] is
    unsigned. *)
Definition newLengthFieldDecoder (lengthFieldLength maxFrameLength lengthFieldOffset
    lengthAdjustment initialBytesToStrip : Z) (networkByteOrder : bool)
    : res LengthFieldBasedFrameDecoder :=
  if negb (0 <? maxFrameLength)%Z then Err (CheckFailed "maxFrameLength > 0")
  else if negb (lengthFieldOffset <=? u32 (maxFrameLength - lengthFieldLength))%Z
  then Err (CheckFailed "lengthFieldOffset <= maxFrameLength - lengthFieldLength")
  else Ok (mkLengthField lengthFieldLength maxFrameLength lengthFieldOffset lengthAdjustment
             initialBytesToStrip networkByteOrder (u32 (lengthFieldOffset + lengthFieldLength))).

(** [getUnadjustedFrameLength]: for a field length that is not 1, 2, 4 or 8
    the variable it returns is not initialised. *)
Definition getUnadjustedFrameLength (buf : Q) (offset len : Z) (networkByteOrder : bool) : res Z :=
  try! c := skip (cursor buf) (u64 offset) in
  match len with
  | 1 => try! p := readInt networkByteOrder 1 c in Ok p.1
  | 2 => try! p := readInt networkByteOrder 2 c in Ok p.1
  | 4 => try! p := readInt networkByteOrder 4 c in Ok p.1
  | 8 => try! p := readInt networkByteOrder 8 c in Ok p.1
  | _ => Err (Undefined "frameLength")
  end%Z.

Definition LengthField_decode : M (Decoding LengthFieldBasedFrameDecoder Q B) DecodeResult :=
  let! s := get in
  let d := self s in
  if (chainLength (queue s) <? lengthFieldEndOffset_ d)%Z then ret (None, 0%Z)
  else
    let! unadjusted := lift (getUnadjustedFrameLength (queue s) (i32 (lengthFieldOffset_ d))
                               (i32 (lengthFieldLength_ d)) (networkByteOrder_ d)) in
    (* int32_t + uint32_t is uint32_t *)
    let frameLength := u64 (unadjusted + u32 (lengthAdjustment_ d + lengthFieldEndOffset_ d)) in
    if (frameLength <? lengthFieldEndOffset_ d)%Z then
      do! bufTrimStart (lengthFieldEndOffset_ d) in
      do! fireReadException "Frame too small" in
      ret (None, 0%Z)
    else if (maxFrameLength_ d <? frameLength)%Z then
      do! bufTrimStartAtMost frameLength in
      do! fireReadException ("Frame larger than " +:+ pretty (maxFrameLength_ d)) in
      ret (None, 0%Z)
    else if (chainLength (queue s) <? frameLength)%Z then ret (None, 0%Z)
    else if (frameLength <? initialBytesToStrip_ d)%Z then
      do! bufTrimStart frameLength in
      do! fireReadException "InitialBytesToSkip larger than frame" in
      ret (None, 0%Z)
    else
      do! bufTrimStart (initialBytesToStrip_ d) in
      let actualFrameLength := i32 (u64 (frameLength - initialBytesToStrip_ d)) in
      let! result := bufSplit (u64 actualFrameLength) in
      ret (Some result, 0%Z).

(** ** LengthFieldPrepender *)

Record LengthFieldPrepender : Type := mkPrepender {
  lfp_lengthFieldLength_ : Z;
  lfp_lengthAdjustment_ : Z;
  lengthIncludesLengthField_ : bool;
  lfp_networkByteOrder_ : bool
}.

Definition newLengthFieldPrepender (lengthFieldLength lengthAdjustment : Z)
    (lengthIncludesLengthField networkByteOrder : bool) : res LengthFieldPrepender :=
  if (lengthFieldLength =? 1)%Z || (lengthFieldLength =? 2)%Z || (lengthFieldLength =? 4)%Z ||
     (lengthFieldLength =? 8)%Z
  then Ok (mkPrepender lengthFieldLength lengthAdjustment lengthIncludesLengthField networkByteOrder)
  else Err (CheckFailed "lengthFieldLength").

(** The value of the length field; an overflow of [int] is undefined. *)
Definition prependedLength (p : LengthFieldPrepender) (buf : B) : res Z :=
  let length := i32 (u64 (lfp_lengthAdjustment_ p + computeChainDataLength buf)) in
  if lengthIncludesLengthField_ p then
    let length := (length + lfp_lengthFieldLength_ p)%Z in
    if (length =? i32 length)%Z then Ok length else Err (Undefined "int overflow")
  else Ok length.

(** [LengthFieldPrepender::write]: the buffer it fires. *)
Definition LengthFieldPrepender_write (p : LengthFieldPrepender) (buf : B) : res B :=
  try! length := prependedLength p buf in
  if (length <? 0)%Z then Err (RuntimeError "Length field < 0")
  else
    let o := lfp_networkByteOrder_ p in
    try! len :=
      match lfp_lengthFieldLength_ p with
      | 1 => if (256 <=? length)%Z then Err (RuntimeError "length does not fit byte")
             else Ok (copyBuffer (encodeInt o 1 (u8 length)))
      | 2 => if (65536 <=? length)%Z then Err (RuntimeError "length does not fit byte")
             else Ok (copyBuffer (encodeInt o 2 (u16 length)))
      | 4 => Ok (copyBuffer (encodeInt o 4 (u32 length)))
      | 8 => Ok (copyBuffer (encodeInt o 8 (u64 length)))
      | _ => Err (RuntimeError "Invalid lengthFieldLength")
      end%Z in
    Ok (prependChain len buf).

(** ** LineBasedFrameDecoder *)

Inductive TerminatorType : Type := TBOTH | NEWLINE | CARRIAGENEWLINE.
#[export] Instance TerminatorType_eq_dec : EqDecision TerminatorType.
Proof. solve_decision. Defined.

Record LineBasedFrameDecoder : Type := mkLineBased {
  maxLength_ : Z;
  stripDelimiter_ : bool;
  discarding_ : bool;
  discardedBytes_ : Z;
  terminatorType_ : TerminatorType
}.
Definition newLineBased (maxLength : Z) (stripDelimiter : bool) (t : TerminatorType) :
    LineBasedFrameDecoder := mkLineBased maxLength stripDelimiter false 0 t.
Definition setDiscarding (b : bool) (n : Z) (d : LineBasedFrameDecoder) : LineBasedFrameDecoder :=
  mkLineBased (maxLength_ d) (stripDelimiter_ d) b n (terminatorType_ d).

Definition LF : byte := x0a.
Definition CR : byte := x0d.

(** [findEndOfLine]; [i] grows with every iteration up to [chainLength], which
    is enough fuel. *)
Fixpoint findLoop (d : LineBasedFrameDecoder) (buf : Q) (fuel : nat) (i : Z) (c : C) : res Z :=
  match fuel with
  | O => Ok (-1)%Z
  | S fuel =>
      if (i <? maxLength_ d)%Z && (i <? chainLength buf)%Z then
        try! p := readChar c in
        let (b, c) := (p : byte * C) in
        if bool_decide (b = LF) && negb (bool_decide (terminatorType_ d = CARRIAGENEWLINE)) then Ok i
        else if negb (bool_decide (terminatorType_ d = NEWLINE)) && bool_decide (b = CR) &&
                negb (isAtEnd c) then
          try! p := readChar c in
          if bool_decide (p.1 = LF) then Ok i else findLoop d buf fuel (i + 1)%Z p.2
        else findLoop d buf fuel (i + 1)%Z c
      else Ok (-1)%Z
  end.
Definition findEndOfLine (d : LineBasedFrameDecoder) (buf : Q) : res Z :=
  findLoop d buf (S (Z.to_nat (chainLength buf))) 0 (cursor buf).

(** [c += eol; c.read<char>() == '\r' ? 2 : 1] *)
Definition delimLength (buf : Q) (eol : Z) : res Z :=
  try! c := skip (cursor buf) eol in
  try! p := readChar c in
  Ok (if bool_decide (p.1 = CR) then 2%Z else 1%Z).

Definition fail (d : LineBasedFrameDecoder) (len : string) : M (Decoding LineBasedFrameDecoder Q B) unit :=
  fireReadException ("frame length" +:+ len +:+ " exeeds max " +:+ pretty (maxLength_ d)).

Definition LineBased_decode : M (Decoding LineBasedFrameDecoder Q B) DecodeResult :=
  let! s := get in
  let d := self s in
  let! eol := lift (findEndOfLine d (queue s)) in
  if negb (discarding_ d) then
    if (0 <=? eol)%Z then
      let! delim := lift (delimLength (queue s) eol) in
      if (maxLength_ d <? eol)%Z then
        do! bufSplit (eol + delim) in
        do! fail d (pretty eol) in
        ret (None, 0%Z)
      else if stripDelimiter_ d then
        let! frame := bufSplit eol in
        do! bufTrimStart delim in
        ret (Some frame, 0%Z)
      else
        let! frame := bufSplit (eol + delim) in
        ret (Some frame, 0%Z)
    else
      let len := chainLength (queue s) in
      if (maxLength_ d <? len)%Z then
        do! bufTrimStart len in
        do! setSelf (setDiscarding true (u32 len) d) in
        do! fail d ("over " +:+ pretty len) in
        ret (None, 0%Z)
      else ret (None, 0%Z)
  else
    if (0 <=? eol)%Z then
      let! delim := lift (delimLength (queue s) eol) in
      do! bufTrimStart (eol + delim) in
      do! setSelf (setDiscarding false 0 d) in
      ret (None, 0%Z)
    else
      do! setSelf (setDiscarding true (u32 (chainLength (queue s))) d) in
      do! setQueue (move (queue s)) in
      ret (None, 0%Z).

(** ** StringCodec and MessageToByteEncoder *)

(** [StringCodec::read] fires a string, unless the buffer is null. *)
Definition StringCodec_read (buf : option B) : option (list byte) := data <$> buf.
Definition StringCodec_write (msg : list byte) : B := copyBuffer msg.

(** [MessageToByteEncoder::write]: nothing is fired for a null buffer. *)
Definition MessageToByteEncoder_write {Msg} (encode : Msg -> option B) (msg : Msg) : option B :=
  match encode msg with
  | Some buf => Some buf
  | None => None
  end.
End codec.
