(* ===== verification/CodecFacts.v ===== *)
(** * Codecs: framing

    What a frame decoder promises ([Framing]): a step on the bytes in the
    queue that its [decode] implements, under which an encoded frame is
    delivered whatever follows it and a part of one is waited on.  From that,
    once for all decoders, the delivery of a stream received in arbitrary
    fragments. *)
From Stdlib Require Import ZArith Lia Strings.Byte.
From stdpp Require Import base numbers list strings pretty.
From S2P Require Import Prelude Buffers Codec.
Open Scope cpp_scope.

Set Default Goal Selector "!".

(** ** Steps on bytes *)

(** One [decode]: a frame and what is left of the queue; no frame, with the
    decoder, the queue and the exceptions fired; or an exception out of
    [decode]. *)
Inductive ByteStep (D : Type) : Type :=
| Emit (frame rest : list byte)
| Halt (d : D) (rest : list byte) (exns : list string)
| Throw (f : fault).
Arguments Emit {D}.
Arguments Halt {D}.
Arguments Throw {D}.

Section steps.
Context {Q B C : Type} `{!IOBufs Q B C} `{!IOBufView Q B C} `{!IOBufLaws Q B C}.
Context {D : Type}.
Implicit Types (s : Decoding D Q B).

(** [decode] of the decoder [d] does what [step] says on queues of fewer than
    [bound] bytes. *)
Definition implements (bound : Z) (decode : M (Decoding D Q B) DecodeResult)
    (step : D -> list byte -> ByteStep D) (d : D) : Prop :=
  forall s, self s = d -> (Z.of_nat (length (queued (queue s))) < bound)%Z ->
  match step (self s) (queued (queue s)) with
  | Emit frame rest => exists b q,
      decode s = (Ok (Some b, 0%Z), mkDecoding (self s) q (fired s)) /\
      data b = frame /\ queued q = rest
  | Halt d rest exns => exists needed q,
      decode s = (Ok (None, needed), mkDecoding d q (fired s ++ (FireReadException <$> exns))) /\
      queued q = rest
  | Throw f => exists s', decode s = (Err f, s')
  end.

(** The bytes of what was fired. *)
Definition firedBytes (f : Fired B) : Fired (list byte) :=
  match f with
  | FireRead b => FireRead (data b)
  | FireReadException e => FireReadException e
  end.
Definition log s : list (Fired (list byte)) := firedBytes <$> fired s.

(** ** Framings *)

(** Frames [F], their encoding and what is delivered for each. *)
Class Framing (F : Type) (bound : Z) (step : D -> list byte -> ByteStep D) (d : D)
    (valid : F -> Prop) (encode output : F -> list byte) : Prop := {
  framing_empty : step d [] = Halt d [] [];
  framing_nonempty (f : F) : valid f -> encode f <> [];
  framing_emit (f : F) (rest : list byte) :
    valid f -> (Z.of_nat (length (encode f ++ rest)) < bound)%Z ->
    step d (encode f ++ rest) = Emit (output f) rest;
  framing_wait (f : F) (part rest : list byte) :
    valid f -> encode f = part ++ rest -> rest <> [] ->
    (Z.of_nat (length part) < bound)%Z -> step d part = Halt d part []
}.

Section framing.
Context {F : Type} (bound : Z) (decode : M (Decoding D Q B) DecodeResult)
  (step : D -> list byte -> ByteStep D) (d : D)
  (valid : F -> Prop) (encode output : F -> list byte)
  `{!Framing F bound step d valid encode output}
  (Himpl : implements bound decode step d).

(** Nothing, or the beginning of a frame. *)
Definition partial (l : list byte) : Prop :=
  l = [] \/ exists f rest, valid f /\ encode f = l ++ rest /\ rest <> [].

Lemma partial_waits l : partial l -> (Z.of_nat (length l) < bound)%Z -> step d l = Halt d l [].
Proof.
  intros [->|(f & rest & Hf & E & Hrest)]; [intros _; apply framing_empty|].
  by apply (framing_wait f l rest).
Qed.

Definition encodeAll (fs : list F) : list byte := concat (encode <$> fs).

Lemma encodeAll_cons f fs : encodeAll (f :: fs) = encode f ++ encodeAll fs.
Proof. done. Qed.

Lemma encodeAll_length fs : Forall valid fs -> length fs <= length (encodeAll fs).
Proof.
  induction 1 as [|f fs Hf _ IH]; [done|]. rewrite encodeAll_cons, length_app.
  pose proof (framing_nonempty f Hf). destruct (encode f); [done|]. simpl. lia.
Qed.

(** The loop of [read] on whole frames followed by the beginning of one. *)
Lemma read_frames fs : forall fuel tail s,
  Forall valid fs -> partial tail -> self s = d ->
  queued (queue s) = encodeAll fs ++ tail ->
  (Z.of_nat (length (encodeAll fs ++ tail)) < bound)%Z -> length fs < fuel ->
  exists s', read decode fuel s = (Ok true, s') /\ self s' = d /\ queued (queue s') = tail /\
    log s' = log s ++ (FireRead <$> (output <$> fs)).
Proof.
  induction fs as [|f fs IH]; intros fuel tail s Hfs Hpart Hd Hq Hb Hfuel;
    (destruct fuel as [|fuel]; [lia|]); cbn [read].
  - simpl in *. pose proof (Himpl s Hd) as Hi. rewrite Hd, Hq in Hi.
    rewrite (partial_waits tail Hpart Hb) in Hi.
    destruct (Hi Hb) as (needed & q & E & Eq). rewrite (bind_Ok _ _ _ _ _ E). simpl.
    eexists. split; [reflexivity|]. split_and!; [done..|].
    unfold log. cbn [fired fmap list_fmap]. by rewrite !app_nil_r.
  - apply Forall_cons in Hfs as [Hf Hfs]. pose proof (Himpl s Hd) as Hi.
    assert (Eb : encodeAll (f :: fs) ++ tail = encode f ++ (encodeAll fs ++ tail)).
    { by rewrite encodeAll_cons, <- app_assoc. }
    rewrite Eb in Hq, Hb. rewrite Hd, Hq, (framing_emit f _ Hf Hb) in Hi.
    destruct (Hi Hb) as (b & q & E & Ed & Eq). rewrite (bind_Ok _ _ _ _ _ E).
    cbn [fst]. unfold fireRead. rewrite bind_modify. simpl.
    destruct (IH fuel tail (mkDecoding d q (fired s ++ [FireRead b]))) as (s' & E' & H1 & H2 & H3).
    + done.
    + done.
    + done.
    + done.
    + rewrite length_app in Hb. lia.
    + simpl in Hfuel. lia.
    + exists s'. split; [done|]. split; [done|]. split; [done|]. rewrite H3. unfold log.
      cbn [fired]. rewrite fmap_app, <- app_assoc. cbn [fmap list_fmap firedBytes]. by rewrite Ed.
Qed.

(** Any prefix of a stream is whole frames and the beginning of one. *)
Lemma stream_prefix fs : forall tail l r,
  Forall valid fs -> partial tail -> l ++ r = encodeAll fs ++ tail ->
  exists fs1 fs2 l', fs = fs1 ++ fs2 /\ l = encodeAll fs1 ++ l' /\ partial l' /\
    l' ++ r = encodeAll fs2 ++ tail.
Proof.
  induction fs as [|f fs IH]; intros tail l r Hfs Ht E.
  - simpl in E. exists [], [], l. split_and!; [done..| |done].
    destruct Ht as [->|(g & rest & Hg & Eg & Hrest)]; [left; by apply app_nil in E as [-> _]|].
    right. exists g, (r ++ rest). rewrite app_assoc, E. split_and!; [done..|]. by destruct r.
  - apply Forall_cons in Hfs as [Hf Hfs].
    assert (Eb : encodeAll (f :: fs) ++ tail = encode f ++ (encodeAll fs ++ tail)).
    { by rewrite encodeAll_cons, <- app_assoc. }
    rewrite Eb in E. destruct (decide (length (encode f) <= length l)) as [Hle|Hlt].
    + assert (El : exists l2, l = encode f ++ l2).
      { exists (drop (length (encode f)) l). rewrite <- (take_drop (length (encode f)) l) at 1.
        f_equal. apply (f_equal (take (length (encode f)))) in E.
        by rewrite take_app_le, take_app_length in E by done. }
      destruct El as [l2 ->]. rewrite <- app_assoc in E. apply app_inv_head in E.
      destruct (IH tail l2 r Hfs Ht E) as (fs1 & fs2 & l' & -> & -> & Hp & E').
      exists (f :: fs1), fs2, l'. split_and!; [done| |done..].
      by rewrite encodeAll_cons, <- app_assoc.
    + exists [], (f :: fs), l. split_and!; [done..| |].
      * right. exists f, (drop (length l) (encode f)). split_and!; [done| |].
        -- rewrite <- (take_drop (length l) (encode f)) at 1. f_equal.
           apply (f_equal (take (length l))) in E.
           rewrite take_app_length, take_app_le in E by lia. done.
        -- intros Hn. apply (f_equal length) in Hn. rewrite length_drop in Hn. simpl in Hn. lia.
      * by rewrite Eb.
Qed.

(** The fragments of a stream, one after the other. *)
Fixpoint receiveAll (fuel : nat) (frags : list B) : M (Decoding D Q B) bool :=
  match frags with
  | [] => ret true
  | b :: frags =>
      let! ended := receive decode fuel b in
      let! rest := receiveAll fuel frags in
      ret (ended && rest)
  end.

Lemma receive_stream frags : forall fuel fs tail s,
  Forall valid fs -> partial tail -> self s = d -> partial (queued (queue s)) ->
  queued (queue s) ++ concat (data <$> frags) = encodeAll fs ++ tail ->
  (Z.of_nat (length (encodeAll fs ++ tail)) < bound)%Z ->
  length (encodeAll fs) < fuel ->
  exists s', receiveAll fuel frags s = (Ok true, s') /\ self s' = d /\ queued (queue s') = tail /\
    log s' = log s ++ (FireRead <$> (output <$> fs)).
Proof.
  induction frags as [|b frags IH]; intros fuel fs tail s Hfs Ht Hd Hp E Hb Hfuel.
  - simpl in E. rewrite app_nil_r in E.
    destruct (stream_prefix fs tail (queued (queue s)) [] Hfs Ht) as (fs1 & fs2 & l' & -> & El & Hp' & E').
    { by rewrite app_nil_r. }
    assert (fs1 = []) as ->.
    { destruct fs1 as [|f fs1]; [done|]. exfalso.
      apply Forall_app in Hfs as [[Hf Hfs1]%Forall_cons _].
      assert (Hbf : (Z.of_nat (length (encode f ++ (encodeAll fs1 ++ l'))) < bound)%Z).
      { rewrite app_assoc, <- encodeAll_cons, <- El, E. done. }
      pose proof (framing_emit f (encodeAll fs1 ++ l') Hf Hbf) as He.
      assert (Hq : queued (queue s) = encode f ++ (encodeAll fs1 ++ l')).
      { by rewrite El, encodeAll_cons, <- app_assoc. }
      rewrite <- Hq in He, Hbf. by rewrite (partial_waits _ Hp Hbf) in He. }
    simpl in *. subst l'. rewrite app_nil_r in E'.
    assert (fs2 = []) as ->.
    { destruct fs2 as [|f fs2]; [done|]. exfalso.
      apply Forall_cons in Hfs as [Hf Hfs2].
      assert (Hq : queued (queue s) = encode f ++ (encodeAll fs2 ++ tail)).
      { by rewrite E', encodeAll_cons, <- app_assoc. }
      assert (Hbf : (Z.of_nat (length (queued (queue s))) < bound)%Z) by by rewrite E.
      pose proof (partial_waits _ Hp Hbf) as Hw. rewrite Hq in Hw, Hbf.
      by rewrite (framing_emit f _ Hf Hbf) in Hw. }
    exists s. simpl in *. by rewrite app_nil_r.
  - cbn [receiveAll concat fmap list_fmap] in *. rewrite app_assoc in E.
    destruct (stream_prefix fs tail (queued (queue s) ++ data b) (concat (data <$> frags)) Hfs Ht E)
      as (fs1 & fs2 & l' & -> & El & Hp' & E').
    apply Forall_app in Hfs as [Hfs1 Hfs2].
    assert (Hlen : length (encodeAll (fs1 ++ fs2)) = length (encodeAll fs1) + length (encodeAll fs2)).
    { unfold encodeAll. by rewrite fmap_app, concat_app, length_app. }
    unfold receive. rewrite bind_assoc, bind_modify.
    set (s1 := mkDecoding (self s) (append (queue s) b) (fired s)).
    destruct (read_frames fs1 fuel l' s1) as (s2 & E2 & D2 & Q2 & L2); try done.
    + unfold s1. simpl. by rewrite queued_append, El.
    + rewrite <- El. apply (f_equal length) in E. rewrite !length_app in *. lia.
    + pose proof (encodeAll_length fs1 Hfs1). lia.
    + rewrite (bind_Ok _ _ _ _ _ E2).
      destruct (IH fuel fs2 tail s2) as (s3 & E3 & D3 & Q3 & L3); try done.
      * by rewrite Q2.
      * by rewrite Q2, E'.
      * rewrite length_app in *. lia.
      * lia.
      * rewrite (bind_Ok _ _ _ _ _ E3). exists s3. split; [done|]. split; [done|]. split; [done|].
        rewrite L3, L2. unfold log. simpl. by rewrite !fmap_app, <- app_assoc.
Qed.
End framing.
End steps.
