(* ===== verification/CodecProps.v ===== *)
(** * Codecs: the properties

    For each frame decoder the step that its [decode] implements, its framing,
    and the main theorems with their witnesses. *)
From Stdlib Require Import ZArith Lia Strings.Byte.
From stdpp Require Import base numbers list strings pretty.
From S2P Require Import Prelude Buffers Codec CodecFacts.
Open Scope cpp_scope.

Set Default Goal Selector "!".

Section calls.
Context {Q B C : Type} `{!IOBufs Q B C} `{!IOBufView Q B C} `{!IOBufLaws Q B C}.
Context {D : Type}.
Implicit Types (s : Decoding D Q B).

Lemma decoding_eta s : mkDecoding (self s) (queue s) (fired s ++ (FireReadException <$> [])) = s.
Proof. destruct s. simpl. by rewrite app_nil_r. Qed.

Lemma run_bufSplit n s :
  (0 <= n <= Z.of_nat (length (queued (queue s))))%Z ->
  exists b q, bufSplit n s = (Ok b, mkDecoding (self s) q (fired s)) /\
    data b = take (Z.to_nat n) (queued (queue s)) /\ queued q = drop (Z.to_nat n) (queued (queue s)).
Proof.
  intros Hn. rewrite <- chainLength_queued in Hn.
  destruct (split_ok (queue s) n Hn) as (b & q & E & Eb & Eq). exists b, q.
  split; [|done]. unfold bufSplit. rewrite bind_get. unfold lift. rewrite E. by destruct s.
Qed.

Lemma run_bufTrimStart n s :
  (0 <= n <= Z.of_nat (length (queued (queue s))))%Z ->
  exists q, bufTrimStart n s = (Ok tt, mkDecoding (self s) q (fired s)) /\
    queued q = drop (Z.to_nat n) (queued (queue s)).
Proof.
  intros Hn. rewrite <- chainLength_queued in Hn.
  destruct (trimStart_ok (queue s) n Hn) as (q & E & Eq). exists q.
  split; [|done]. unfold bufTrimStart. rewrite bind_get. unfold lift. rewrite E. by destruct s.
Qed.

(** One round of the loop of [read]. *)
Section rounds.
Context (decode : M (Decoding D Q B) (DecodeResult (B:=B))) (step : D -> list byte -> ByteStep D).

Lemma read_Emit fuel s f rest :
  (forall bound, implements bound decode step (self s)) ->
  step (self s) (queued (queue s)) = Emit f rest ->
  exists s', read decode (S fuel) s = read decode fuel s' /\ self s' = self s /\
    queued (queue s') = rest /\ log s' = log s ++ [FireRead f].
Proof.
  intros Himpl Estep.
  pose proof (Himpl _ s eq_refl (Z.lt_succ_diag_r _)) as Hi. rewrite Estep in Hi.
  destruct Hi as (b & q & E & Eb & Eq). cbn [read]. rewrite (bind_Ok _ _ _ _ _ E). cbn [fst].
  unfold fireRead. rewrite bind_modify. eexists. split; [reflexivity|]. simpl. split_and!; [done..|].
  unfold log. simpl. rewrite fmap_app. simpl. by rewrite Eb.
Qed.

Lemma read_Halt fuel s d rest exns :
  (forall bound, implements bound decode step (self s)) ->
  step (self s) (queued (queue s)) = Halt d rest exns ->
  exists s', read decode (S fuel) s = (Ok true, s') /\ self s' = d /\
    queued (queue s') = rest /\ log s' = log s ++ (FireReadException <$> exns).
Proof.
  intros Himpl Estep.
  pose proof (Himpl _ s eq_refl (Z.lt_succ_diag_r _)) as Hi. rewrite Estep in Hi.
  destruct Hi as (needed & q & E & Eq). cbn [read]. rewrite (bind_Ok _ _ _ _ _ E). cbn [fst].
  eexists. split; [reflexivity|]. simpl. split_and!; [done..|].
  unfold log. simpl. rewrite fmap_app, <- list_fmap_compose. done.
Qed.

Lemma read_Throw fuel s f :
  (forall bound, implements bound decode step (self s)) ->
  step (self s) (queued (queue s)) = Throw f ->
  exists s', read decode (S fuel) s = (Err f, s').
Proof.
  intros Himpl Estep.
  pose proof (Himpl _ s eq_refl (Z.lt_succ_diag_r _)) as Hi. rewrite Estep in Hi.
  destruct Hi as (s' & E). exists s'. cbn [read]. by rewrite (bind_Err _ _ _ _ _ E).
Qed.
End rounds.
End calls.

(** ** FixedLengthFrameDecoder *)

Definition fixedStep (d : FixedLengthFrameDecoder) (l : list byte) : ByteStep FixedLengthFrameDecoder :=
  if (Z.of_nat (length l) <? length_ d)%Z then Halt d l []
  else Emit (take (Z.to_nat (length_ d)) l) (drop (Z.to_nat (length_ d)) l).

Section fixed.
Context {Q B C : Type} `{!IOBufs Q B C} `{!IOBufView Q B C} `{!IOBufLaws Q B C}.

Lemma FixedLength_implements (bound n : Z) :
  (0 <= n)%Z -> implements (Q:=Q) (B:=B) bound FixedLength_decode fixedStep (mkFixed n).
Proof.
  intros Hn s Hs _. unfold fixedStep, FixedLength_decode. rewrite bind_get, chainLength_queued, Hs.
  simpl. destruct (Z.ltb_spec (Z.of_nat (length (queued (queue s)))) n) as [Hlt|Hle].
  - eexists _, (queue s). split; [|done]. unfold ret. rewrite <- Hs. by rewrite decoding_eta.
  - destruct (run_bufSplit n s) as (b & q & E & Eb & Eq); [lia|].
    exists b, q. rewrite (bind_Ok _ _ _ _ _ E). unfold ret. by rewrite Hs.
Qed.

#[export] Instance fixed_Framing (n : nat) (bound : Z) :
  Framing (list byte) bound fixedStep (mkFixed (Z.of_nat (S n))) (fun f => length f = S n)
    (fun f => f) (fun f => f).
Proof.
  split.
  - done.
  - by intros [|b f].
  - intros f rest Hf _. unfold fixedStep. simpl length_. rewrite length_app, Nat2Z.id.
    destruct (Z.ltb_spec (Z.of_nat (length f + length rest)) (Z.of_nat (S n))); [lia|].
    by rewrite <- Hf, take_app_length, drop_app_length.
  - intros f part rest Hf -> Hrest _. unfold fixedStep. simpl length_.
    rewrite length_app in Hf.
    assert (0 < length rest) by (destruct rest; [done|simpl; lia]).
    destruct (Z.ltb_spec (Z.of_nat (length part)) (Z.of_nat (S n))); [done|lia].
Qed.

(** A [FixedLengthFrameDecoder] of a positive length delivers the stream
    it receives, in whatever fragments, as consecutive frames of that length:
    no byte is lost, invented or reordered, the loop of [read] ends on every
    fragment, and what is left in the queue is shorter than a frame. *)
Lemma FixedLength_stream (n : nat) (frags : list B) (fs : list (list byte)) (tail : list byte)
    (q : Q) (fuel : nat) :
  Forall (fun f => length f = S n) fs -> length tail <= n -> queued q = [] ->
  concat (data <$> frags) = concat fs ++ tail -> length (concat fs) < fuel ->
  exists s', receiveAll FixedLength_decode fuel frags
      (mkDecoding (mkFixed (Z.of_nat (S n))) q []) = (Ok true, s') /\
    log s' = FireRead <$> fs /\ queued (queue s') = tail.
Proof.
  intros Hfs Htail Hq E Hfuel.
  assert (Hpart : forall l : list byte, length l <= n -> partial (fun f : list byte => length f = S n) (fun f => f) l).
  { intros l Hl. right. exists (l ++ repeat x00 (S n - length l)), (repeat x00 (S n - length l)).
    rewrite length_app, repeat_length. split_and!; [lia|done|].
    destruct (S n - length l) eqn:En; [lia|done]. }
  destruct (receive_stream (Z.of_nat (length (concat fs ++ tail)) + 1) FixedLength_decode fixedStep
    (mkFixed (Z.of_nat (S n))) (fun f => length f = S n) (fun f => f) (fun f => f)
    (FixedLength_implements _ _ (Nat2Z.is_nonneg (S n))) frags fuel fs tail (mkDecoding (mkFixed (Z.of_nat (S n))) q []))
    as (s' & E' & _ & Hq' & Hl); try done.
  - by apply Hpart.
  - apply Hpart. simpl. rewrite Hq. simpl. lia.
  - simpl. rewrite Hq. unfold encodeAll. by rewrite list_fmap_id.
  - unfold encodeAll. rewrite list_fmap_id. lia.
  - unfold encodeAll. by rewrite list_fmap_id.
  - exists s'. split; [done|]. split; [|done]. rewrite Hl. simpl. by rewrite list_fmap_id.
Qed.

(** A [FixedLengthFrameDecoder] of length 0 never returns from [read]: it
    delivers empty frames for ever. *)
Lemma FixedLength_zero_diverges (fuel : nat) (s : Decoding FixedLengthFrameDecoder Q B) :
  length_ (self s) = 0%Z ->
  exists s', read FixedLength_decode fuel s = (Ok false, s') /\ queued (queue s') = queued (queue s) /\
    log s' = log s ++ repeat (FireRead []) fuel.
Proof.
  revert s. induction fuel as [|fuel IH]; intros s Hs; cbn [read].
  - exists s. by rewrite app_nil_r.
  - assert (Hself : self s = mkFixed 0) by (destruct (self s); simpl in *; by subst).
    pose proof (FixedLength_implements (Z.succ (Z.of_nat (length (queued (queue s))))) 0 (Z.le_refl 0) s Hself (Z.lt_succ_diag_r _)) as Hi.
    rewrite Hself in Hi. unfold fixedStep in Hi. simpl in Hi.
    destruct (Z.ltb_spec (Z.of_nat (length (queued (queue s)))) 0); [lia|].
    destruct Hi as (b & q & E & Eb & Eq). rewrite (bind_Ok _ _ _ _ _ E). cbn [fst].
    unfold fireRead. rewrite bind_modify. simpl.
    destruct (IH (mkDecoding (mkFixed 0) q (fired s ++ [FireRead b])) eq_refl) as (s' & E' & Q' & L').
    exists s'. split; [done|]. split; [by rewrite Q'|]. rewrite L'. unfold log. cbn [fired].
    rewrite fmap_app, <- app_assoc. cbn [fmap list_fmap firedBytes]. by rewrite Eb.
Qed.
End fixed.

(** ** LengthFieldBasedFrameDecoder and LengthFieldPrepender *)

(** A configuration whose offsets are small enough for the conversions to
    [int], and whose field length is one [getUnadjustedFrameLength] reads. *)
Record saneConfig (d : LengthFieldBasedFrameDecoder) : Prop := {
  sane_field : lengthFieldLength_ d = 1%Z \/ lengthFieldLength_ d = 2%Z \/
    lengthFieldLength_ d = 4%Z \/ lengthFieldLength_ d = 8%Z;
  sane_offset : (0 <= lengthFieldOffset_ d < 2 ^ 30)%Z;
  sane_end : lengthFieldEndOffset_ d = (lengthFieldOffset_ d + lengthFieldLength_ d)%Z;
  sane_strip : (0 <= initialBytesToStrip_ d)%Z;
  sane_max : (0 <= maxFrameLength_ d < 2 ^ 32)%Z
}.

(** The length of the frame at the front of the queue, as the code computes it. *)
Definition frameLengthOf (d : LengthFieldBasedFrameDecoder) (l : list byte) : Z :=
  u64 (decodeInt (networkByteOrder_ d)
         (take (Z.to_nat (lengthFieldLength_ d)) (drop (Z.to_nat (lengthFieldOffset_ d)) l)) +
       u32 (lengthAdjustment_ d + lengthFieldEndOffset_ d)).

Definition tooLarge (d : LengthFieldBasedFrameDecoder) : string :=
  "Frame larger than " +:+ pretty (maxFrameLength_ d).

Definition lengthFieldStep (d : LengthFieldBasedFrameDecoder) (l : list byte) :
    ByteStep LengthFieldBasedFrameDecoder :=
  let len := Z.of_nat (length l) in
  let n := frameLengthOf d l in
  if (len <? lengthFieldEndOffset_ d)%Z then Halt d l []
  else if (n <? lengthFieldEndOffset_ d)%Z then
    Halt d (drop (Z.to_nat (lengthFieldEndOffset_ d)) l) ["Frame too small"]
  else if (maxFrameLength_ d <? n)%Z then Halt d (drop (Z.to_nat n) l) [tooLarge d]
  else if (len <? n)%Z then Halt d l []
  else if (n <? initialBytesToStrip_ d)%Z then
    Halt d (drop (Z.to_nat n) l) ["InitialBytesToSkip larger than frame"]
  else Emit (take (Z.to_nat (n - initialBytesToStrip_ d)) (drop (Z.to_nat (initialBytesToStrip_ d)) l))
         (drop (Z.to_nat n) l).

Section length_field.
Context {Q B C : Type} `{!IOBufs Q B C} `{!IOBufView Q B C} `{!IOBufLaws Q B C}.

Lemma run_getUnadjusted (d : LengthFieldBasedFrameDecoder) (q : Q) :
  saneConfig d -> (lengthFieldEndOffset_ d <= Z.of_nat (length (queued q)))%Z ->
  getUnadjustedFrameLength q (i32 (lengthFieldOffset_ d)) (i32 (lengthFieldLength_ d))
      (networkByteOrder_ d) =
    Ok (decodeInt (networkByteOrder_ d)
          (take (Z.to_nat (lengthFieldLength_ d)) (drop (Z.to_nat (lengthFieldOffset_ d)) (queued q)))).
Proof.
  intros [Hf Ho He _ _] Hlen. unfold getUnadjustedFrameLength.
  assert (Hw : (0 < lengthFieldLength_ d <= 8)%Z) by (destruct Hf as [-> | [-> | [-> | ->]]]; lia).
  rewrite !i32_small by lia.
  assert (Hskip : u64 (lengthFieldOffset_ d) = lengthFieldOffset_ d) by (apply wrap_small; lia).
  rewrite Hskip. destruct (skip_ok (cursor q) (lengthFieldOffset_ d)) as (c & Ec & Eu).
  { rewrite unread_cursor. lia. }
  rewrite Ec. simpl res_bind. rewrite unread_cursor in Eu.
  assert (Hread : forall w : nat, Z.of_nat w = lengthFieldLength_ d ->
    exists c', readInt (networkByteOrder_ d) w c =
      Ok (decodeInt (networkByteOrder_ d) (take w (drop (Z.to_nat (lengthFieldOffset_ d)) (queued q))), c')).
  { intros w Ew. destruct (readInt_ok c (networkByteOrder_ d) w) as (c' & Er & _).
    - rewrite Eu, length_drop. lia.
    - exists c'. by rewrite Er, Eu. }
  destruct Hf as [E|[E|[E|E]]]; rewrite E.
  - destruct (Hread 1) as (c' & ->); [by rewrite E|done].
  - destruct (Hread 2) as (c' & ->); [by rewrite E|done].
  - destruct (Hread 4) as (c' & ->); [by rewrite E|done].
  - destruct (Hread 8) as (c' & ->); [by rewrite E|done].
Qed.

(** The three branches that throw away bytes and fire an exception. *)
Lemma run_discard (s : Decoding LengthFieldBasedFrameDecoder Q B) n what :
  (0 <= n <= Z.of_nat (length (queued (queue s))))%Z ->
  exists q, (do! bufTrimStart n in do! fireReadException what in ret (None, 0%Z)) s =
    (Ok (@None B, 0%Z), mkDecoding (self s) q (fired s ++ [FireReadException what])) /\
    queued q = drop (Z.to_nat n) (queued (queue s)).
Proof.
  intros Hn. destruct (run_bufTrimStart n s Hn) as (q & E & Eq). exists q.
  by rewrite (bind_Ok _ _ _ _ _ E).
Qed.

Lemma LengthField_implements (d : LengthFieldBasedFrameDecoder) :
  saneConfig d -> implements (Q:=Q) (B:=B) (2 ^ 31) LengthField_decode lengthFieldStep d.
Proof.
  intros Hd s Hs Hb. unfold lengthFieldStep, LengthField_decode. rewrite bind_get, chainLength_queued, Hs.
  pose proof Hd as [_ Ho He Hst Hmax].
  destruct (Z.ltb_spec (Z.of_nat (length (queued (queue s)))) (lengthFieldEndOffset_ d)) as [Hlt|Hle].
  { eexists _, (queue s). split; [|done]. unfold ret. rewrite <- Hs. by rewrite decoding_eta. }
  erewrite bind_Ok; [|unfold lift; by rewrite run_getUnadjusted]. cbv zeta.
  fold (frameLengthOf d (queued (queue s))).
  set (n := frameLengthOf d (queued (queue s))).
  assert (Hn : (0 <= n)%Z) by (apply wrap_bounds; lia).
  assert (Hw : (0 < lengthFieldLength_ d)%Z) by (destruct (sane_field _ Hd) as [-> | [-> | [-> | ->]]]; lia).
  destruct (Z.ltb_spec n (lengthFieldEndOffset_ d)) as [Hsmall|Hlarge].
  { destruct (run_discard s (lengthFieldEndOffset_ d) "Frame too small") as (q & E & Eq); [lia|].
    exists 0%Z, q. by rewrite E, Hs. }
  destruct (Z.ltb_spec (maxFrameLength_ d) n) as [Htoo|Hfits].
  { eexists _, _. split.
    - unfold bufTrimStartAtMost. rewrite bind_assoc, bind_get. unfold setQueue, fireReadException.
      rewrite !bind_modify. simpl. rewrite Hs. reflexivity.
    - by apply queued_trimStartAtMost. }
  destruct (Z.ltb_spec (Z.of_nat (length (queued (queue s)))) n) as [Hwait|Hhave].
  { eexists _, (queue s). split; [|done]. unfold ret. rewrite <- Hs. by rewrite decoding_eta. }
  destruct (Z.ltb_spec n (initialBytesToStrip_ d)) as [Hstrip|Hok].
  { destruct (run_discard s n "InitialBytesToSkip larger than frame") as (q & E & Eq); [lia|].
    exists 0%Z, q. by rewrite E, Hs. }
  destruct (run_bufTrimStart (initialBytesToStrip_ d) s) as (q1 & E1 & Eq1); [lia|].
  rewrite (bind_Ok _ _ _ _ _ E1).
  assert (Hint : u64 (i32 (u64 (n - initialBytesToStrip_ d))) = (n - initialBytesToStrip_ d)%Z).
  { unfold u64. rewrite (wrap_small 64 (n - _)) by lia. rewrite i32_small by lia. apply wrap_small. lia. }
  cbv zeta. rewrite Hint.
  destruct (run_bufSplit (n - initialBytesToStrip_ d) (mkDecoding (self s) q1 (fired s))) as (b & q & E & Eb & Eq).
  { simpl. rewrite Eq1, length_drop. lia. }
  exists b, q. rewrite (bind_Ok _ _ _ _ _ E). simpl in Eb, Eq. rewrite Eq1 in Eb, Eq.
  unfold ret. simpl. rewrite Hs. split_and!; [done..|]. rewrite Eq, drop_drop. f_equal. lia.
Qed.
End length_field.

(** The decoder that undoes a prepender: it skips the field, and takes back
    what the prepender added to it. *)
Definition matchingDecoder (p : LengthFieldPrepender) (max : Z) : LengthFieldBasedFrameDecoder :=
  let w := lfp_lengthFieldLength_ p in
  mkLengthField w max 0
    (- lfp_lengthAdjustment_ p - (if lengthIncludesLengthField_ p then w else 0)) w
    (lfp_networkByteOrder_ p) w.

Section roundtrip.
Context (p : LengthFieldPrepender) (max : Z).

Definition headerValue (f : list byte) : Z :=
  (Z.of_nat (length f) + lfp_lengthAdjustment_ p +
   (if lengthIncludesLengthField_ p then lfp_lengthFieldLength_ p else 0))%Z.
Definition header (f : list byte) : list byte :=
  encodeInt (lfp_networkByteOrder_ p) (Z.to_nat (lfp_lengthFieldLength_ p)) (headerValue f).
Definition encodeFrame (f : list byte) : list byte := header f ++ f.

Definition validFrame (f : list byte) : Prop :=
  (0 <= headerValue f < 256 ^ lfp_lengthFieldLength_ p)%Z /\
  (lfp_lengthFieldLength_ p + Z.of_nat (length f) <= max)%Z.

(** A prepender the constructor accepts, a maximum frame length, and an
    adjustment that does not count more than the field itself. *)
Record sanePrepender : Prop := {
  sp_field : lfp_lengthFieldLength_ p = 1%Z \/ lfp_lengthFieldLength_ p = 2%Z \/
    lfp_lengthFieldLength_ p = 4%Z \/ lfp_lengthFieldLength_ p = 8%Z;
  sp_adjust : (- 2 ^ 31 < lfp_lengthAdjustment_ p)%Z /\
    (lfp_lengthAdjustment_ p + (if lengthIncludesLengthField_ p then lfp_lengthFieldLength_ p else 0) <=
       lfp_lengthFieldLength_ p)%Z;
  sp_max : (0 <= max < 2 ^ 32)%Z
}.
Context (Hsp : sanePrepender).

Lemma sane_matching : saneConfig (matchingDecoder p max).
Proof. destruct Hsp as [Hf _ Hm]. split; simpl; [done|lia|lia| |done]. destruct Hf as [-> | [-> | [-> | ->]]]; lia. Qed.

Lemma width_bounds : (1 <= lfp_lengthFieldLength_ p <= 8)%Z.
Proof. destruct (sp_field Hsp) as [-> | [-> | [-> | ->]]]; lia. Qed.

Lemma header_length f : length (header f) = Z.to_nat (lfp_lengthFieldLength_ p).
Proof. apply encodeInt_length. Qed.

(** On the header of a frame the decoder computes the length of the frame. *)
Lemma frameLengthOf_header f rest :
  (0 <= headerValue f < 256 ^ lfp_lengthFieldLength_ p)%Z -> (Z.of_nat (length f) < 2 ^ 32)%Z ->
  frameLengthOf (matchingDecoder p max) (header f ++ rest) =
    (lfp_lengthFieldLength_ p + Z.of_nat (length f))%Z.
Proof.
  intros Hv Hlen. pose proof width_bounds as Hw. unfold frameLengthOf. simpl. rewrite drop_0.
  rewrite <- (header_length f), take_app_length. unfold header.
  rewrite decode_encodeInt by (rewrite Z2Nat.id by lia; done).
  destruct Hsp as [_ [Ha1 Ha2] _]. unfold headerValue, u32, u64 in *.
  rewrite (wrap_small 32).
  - rewrite wrap_small; [lia|]. destruct (lengthIncludesLengthField_ p); lia.
  - destruct (lengthIncludesLengthField_ p); lia.
Qed.

Lemma lengthField_Framing :
  Framing (list byte) (2 ^ 31) lengthFieldStep (matchingDecoder p max) validFrame encodeFrame (fun f => f).
Proof.
  pose proof width_bounds as Hw. split.
  - unfold lengthFieldStep. change (lengthFieldEndOffset_ (matchingDecoder p max)) with (lfp_lengthFieldLength_ p).
    destruct (Z.ltb_spec (Z.of_nat (length (@nil byte))) (lfp_lengthFieldLength_ p)); [done|simpl in *; lia].
  - intros f _ E. apply (f_equal length) in E. unfold encodeFrame in E.
    rewrite length_app, header_length in E. simpl in E. lia.
  - intros f rest Hf Hb. unfold encodeFrame in *. rewrite <- app_assoc in *.
    rewrite !length_app, header_length in Hb.
    destruct Hf as [Hv Hm]. unfold lengthFieldStep. rewrite frameLengthOf_header by (try done; lia).
    rewrite !length_app, header_length. simpl.
    repeat (case_ltb; [lia|]).
    assert (E1 : Z.to_nat (lfp_lengthFieldLength_ p + Z.of_nat (length f) - lfp_lengthFieldLength_ p) = length f) by lia.
    rewrite E1, <- (header_length f), drop_app_length, take_app_length. f_equal.
    replace (Z.to_nat (lfp_lengthFieldLength_ p + Z.of_nat (length f))) with (length (header f ++ f))
      by (rewrite length_app, header_length; lia).
    by rewrite app_assoc, drop_app_length.
  - intros f part rest Hf E Hrest Hb. unfold lengthFieldStep. simpl.
    assert (Hlen : length part < Z.to_nat (lfp_lengthFieldLength_ p) + length f).
    { apply (f_equal length) in E. unfold encodeFrame in E. rewrite !length_app, header_length in E.
      destruct rest; [done|simpl in E; lia]. }
    destruct (Z.ltb_spec (Z.of_nat (length part)) (lfp_lengthFieldLength_ p)) as [|Hhdr]; [done|].
    assert (Hpart : exists l, part = header f ++ l).
    { exists (drop (length (header f)) part). rewrite <- (take_drop (length (header f)) part) at 1.
      f_equal. unfold encodeFrame in E. apply (f_equal (take (length (header f)))) in E.
      rewrite take_app_length, take_app_le in E by (rewrite header_length; lia). done. }
    destruct Hpart as [l ->]. pose proof Hf as [Hv Hm].
    assert (Hfl : (Z.of_nat (length f) < 2 ^ 32)%Z) by (destruct Hsp; lia).
    rewrite frameLengthOf_header by done. rewrite length_app, header_length in *.
    repeat (case_ltb; try done; try lia).
Qed.

(** ** What the prepender writes *)

Context {Q B C : Type} `{!IOBufs Q B C} `{!IOBufView Q B C} `{!IOBufLaws Q B C}.

Lemma i32_u64 x : (- 2 ^ 31 <= x < 2 ^ 31)%Z -> i32 (u64 x) = x.
Proof. intros Hx. unfold i32, u64, u32, wrap. Z.div_mod_to_equations. lia. Qed.

Lemma i32_u64_big x : (2 ^ 31 <= x < 2 ^ 32)%Z -> i32 (u64 x) = (x - 2 ^ 32)%Z.
Proof. intros Hx. unfold i32, u64, u32, wrap. Z.div_mod_to_equations. lia. Qed.

Lemma run_prependedLength (m : B) v :
  (Z.of_nat (length (data m)) < 2 ^ 31 - 8)%Z ->
  prependedLength (Q:=Q) (C:=C) p m = Ok v -> (0 <= v)%Z -> v = headerValue (data m) /\ (v < 2 ^ 31)%Z.
Proof.
  intros Hlen. destruct Hsp as [Hf [Ha1 Ha2] _]. pose proof width_bounds as Hw.
  unfold prependedLength. rewrite computeChainDataLength_data. unfold headerValue.
  set (x := (lfp_lengthAdjustment_ p + Z.of_nat (length (data m)))%Z).
  assert (Hx : (- 2 ^ 31 <= x < 2 ^ 31)%Z) by (unfold x; destruct (lengthIncludesLengthField_ p); lia).
  rewrite i32_u64 by done. destruct (lengthIncludesLengthField_ p).
  - destruct (Z.eqb_spec (x + lfp_lengthFieldLength_ p) (i32 (x + lfp_lengthFieldLength_ p))) as [E|]; [|done].
    intros [= <-] Hv. split; [unfold x; lia|]. rewrite E in *. unfold i32 in *.
    pose proof (wrap_bounds 32 (x + lfp_lengthFieldLength_ p + 2 ^ 31) ltac:(lia)). unfold u32. lia.
  - intros [= <-] Hv. split; [unfold x; lia|lia].
Qed.

Lemma prepender_write (m b : B) :
  (Z.of_nat (length (data m)) < 2 ^ 31 - 8)%Z ->
  LengthFieldPrepender_write (Q:=Q) (C:=C) p m = Ok b ->
  data b = encodeFrame (data m) /\ (0 <= headerValue (data m) < 256 ^ lfp_lengthFieldLength_ p)%Z.
Proof.
  intros Hlen. unfold LengthFieldPrepender_write.
  destruct (prependedLength p m) as [v|] eqn:Ev; [simpl|done].
  case_ltb; [done|]. destruct (run_prependedLength m v Hlen Ev) as [-> Hv]; [done|].
  unfold encodeFrame, header.
  destruct (sp_field Hsp) as [E|[E|[E|E]]]; rewrite E; simpl.
  - destruct (Z.leb_spec 256 (headerValue (data m))); [done|]. simpl. intros [= <-].
    rewrite data_prependChain, data_copyBuffer. unfold u8. rewrite wrap_small by lia. split; [done|lia].
  - destruct (Z.leb_spec 65536 (headerValue (data m))); [done|]. simpl. intros [= <-].
    rewrite data_prependChain, data_copyBuffer. unfold u16. rewrite wrap_small by lia. split; [done|lia].
  - intros [= <-]. rewrite data_prependChain, data_copyBuffer. unfold u32.
    rewrite wrap_small by lia. split; [done|lia].
  - intros [= <-]. rewrite data_prependChain, data_copyBuffer. unfold u64.
    rewrite wrap_small by lia. split; [done|lia].
Qed.
End roundtrip.

Lemma new_sane w adj max incl o p d :
  newLengthFieldPrepender w adj incl o = Ok p ->
  newLengthFieldDecoder w max 0 (- adj - (if incl then w else 0)) w o = Ok d ->
  (- 2 ^ 31 < adj)%Z -> (adj + (if incl then w else 0) <= w)%Z -> (max < 2 ^ 32)%Z ->
  sanePrepender p max /\ d = matchingDecoder p max.
Proof.
  unfold newLengthFieldPrepender, newLengthFieldDecoder. intros Hp Hd Ha1 Ha2 Hm.
  destruct ((w =? 1)%Z || (w =? 2)%Z || (w =? 4)%Z || (w =? 8)%Z) eqn:Hw; [|done].
  rewrite !orb_true_iff, !Z.eqb_eq in Hw. simplify_eq.
  revert Hd. case_ltb; [simpl|done]. destruct (0 <=? _)%Z; [simpl|done]. intros Hd. simplify_eq.
  split.
  - split; simpl; [|done|lia]. destruct Hw as [[[-> | ->] | ->] | ->]; auto.
  - unfold matchingDecoder. f_equal. simpl. destruct Hw as [[[-> | ->] | ->] | ->]; done.
Qed.

Section stream.
Context {Q B C : Type} `{!IOBufs Q B C} `{!IOBufView Q B C} `{!IOBufLaws Q B C}.

(** C10. What [LengthFieldPrepender::write] puts on the wire for a sequence of
    messages, cut into fragments in whatever way, a
    [LengthFieldBasedFrameDecoder] with the matching field length, byte order,
    adjustment and strip delivers as exactly those messages, in order, with
    nothing left over. *)
Theorem LengthField_roundtrip (w adj max : Z) (incl o : bool) (p : LengthFieldPrepender)
    (d : LengthFieldBasedFrameDecoder) (msgs wire frags : list B) (q : Q) (fuel : nat) :
  newLengthFieldPrepender w adj incl o = Ok p ->
  newLengthFieldDecoder w max 0 (- adj - (if incl then w else 0)) w o = Ok d ->
  (- 2 ^ 31 < adj)%Z -> (adj + (if incl then w else 0) <= w)%Z -> (max < 2 ^ 32)%Z ->
  Forall2 (fun m b => LengthFieldPrepender_write (Q:=Q) (C:=C) p m = Ok b) msgs wire ->
  Forall (fun m => (w + Z.of_nat (length (data m)) <= max)%Z) msgs ->
  queued q = [] -> concat (data <$> frags) = concat (data <$> wire) ->
  (Z.of_nat (length (concat (data <$> msgs))) + 8 * Z.of_nat (length msgs) < 2 ^ 31 - 8)%Z ->
  length (concat (data <$> wire)) < fuel ->
  exists s', receiveAll LengthField_decode fuel frags (mkDecoding d q []) = (Ok true, s') /\
    log s' = (fun m => FireRead (data m)) <$> msgs /\ queued (queue s') = [].
Proof.
  intros Hp Hd Ha1 Ha2 Hm Hwrite Hmax Hq Hfrag Hlen Hfuel.
  destruct (new_sane w adj max incl o p d Hp Hd Ha1 Ha2 Hm) as [Hsp ->].
  assert (Ew : lfp_lengthFieldLength_ p = w).
  { revert Hp. unfold newLengthFieldPrepender. destruct (_ || _); [|done]. by intros [= <-]. }
  assert (Hw := width_bounds p max Hsp). rewrite Ew in Hw.
  assert (Henc : data <$> wire = encodeFrame p <$> (data <$> msgs) /\
    Forall (validFrame p max) (data <$> msgs) /\
    (Z.of_nat (length (concat (data <$> wire))) <=
       Z.of_nat (length (concat (data <$> msgs))) + 8 * Z.of_nat (length msgs))%Z).
  { clear Hfrag Hfuel. induction Hwrite as [|m b msgs wire Hb Hwrite IH].
    { split_and!; [done|constructor|simpl; lia]. }
    apply Forall_cons in Hmax as [Hm1 Hmax]. cbn [fmap list_fmap concat length] in *.
    rewrite length_app in *.
    destruct (prepender_write p max Hsp m b) as [Eb Hv]; [lia|done|].
    destruct IH as (IH1 & IH2 & IH3); [done|lia|]. split_and!.
    - by rewrite Eb, IH1.
    - constructor; [|done]. split; [done|by rewrite Ew].
    - rewrite Eb. unfold encodeFrame. rewrite !length_app, header_length, Ew by done. lia. }
  destruct Henc as (E1 & E2 & E3).
  pose proof (lengthField_Framing p max Hsp) as Hframing.
  destruct (receive_stream (2 ^ 31) LengthField_decode lengthFieldStep (matchingDecoder p max)
    (validFrame p max) (encodeFrame p) (fun f => f)
    (LengthField_implements _ (sane_matching p max Hsp))
    frags fuel (data <$> msgs) [] (mkDecoding (matchingDecoder p max) q [])) as (s' & E & _ & Hq' & Hl).
  - done.
  - by left.
  - done.
  - by left.
  - simpl. rewrite Hq, app_nil_r. unfold encodeAll. by rewrite <- E1.
  - rewrite app_nil_r. unfold encodeAll. rewrite <- E1. lia.
  - unfold encodeAll. by rewrite <- E1.
  - exists s'. split; [done|]. split; [|done]. rewrite Hl. simpl. by rewrite list_fmap_id, <- list_fmap_compose.
Qed.

(** C11. [lengthAdjustment_ + lengthFieldEndOffset_] is computed in [uint32_t]:
    when the sum is negative, 2^32 is added to the length of every frame, and
    the decoder answers a well-formed frame by emptying the queue with a
    "Frame larger than" exception. *)
Theorem LengthField_negative_sum (d : LengthFieldBasedFrameDecoder) (s : Decoding LengthFieldBasedFrameDecoder Q B) :
  let l := queued (queue s) in
  let field := decodeInt (networkByteOrder_ d)
    (take (Z.to_nat (lengthFieldLength_ d)) (drop (Z.to_nat (lengthFieldOffset_ d)) l)) in
  saneConfig d -> self s = d -> (lengthFieldLength_ d <= 4)%Z -> (- 2 ^ 31 <= lengthAdjustment_ d)%Z ->
  (lengthAdjustment_ d + lengthFieldEndOffset_ d < 0)%Z ->
  (lengthFieldEndOffset_ d <= Z.of_nat (length l) < 2 ^ 31)%Z ->
  (lengthFieldEndOffset_ d <= field + (lengthAdjustment_ d + lengthFieldEndOffset_ d) <= maxFrameLength_ d)%Z ->
  exists needed q, LengthField_decode s =
      (Ok (None, needed), mkDecoding d q (fired s ++ [FireReadException (tooLarge d)])) /\
    queued q = [].
Proof.
  intros l field Hd Hs Hw Ha Hneg Hl Hframe. pose proof Hd as [Hf Ho He _ Hmax].
  assert (Hend : (0 <= lengthFieldEndOffset_ d)%Z) by (destruct Hf as [E|[E|[E|E]]]; lia).
  assert (Hn : frameLengthOf d l = (field + (lengthAdjustment_ d + lengthFieldEndOffset_ d) + 2 ^ 32)%Z).
  { unfold frameLengthOf. fold field. revert Hneg Ha Hframe Hmax Hend. clear. generalize field. intros v Hneg Ha Hv Hmax Hend.
    assert (E : u32 (lengthAdjustment_ d + lengthFieldEndOffset_ d) =
      (lengthAdjustment_ d + lengthFieldEndOffset_ d + 2 ^ 32)%Z).
    { unfold u32, wrap. symmetry. apply (Z.mod_unique _ _ (-1)); lia. }
    rewrite E. unfold u64. rewrite wrap_small; lia. }
  pose proof (LengthField_implements d Hd s Hs) as Hi. rewrite Hs in Hi. fold l in Hi.
  unfold lengthFieldStep in Hi. rewrite Hn in Hi.
  case_ltb_in Hi; [lia|]. case_ltb_in Hi; [lia|]. case_ltb_in Hi; [|lia].
  destruct Hi as (needed & q & E & Eq); [fold l; lia|]. exists needed, q.
  split; [done|]. rewrite Eq. apply drop_ge. lia.
Qed.

(** A frame over the maximum is thrown away only as far as it has arrived:
    the rest of it, received later, is taken for the beginning of a frame.  A
    frame hidden inside the payload of a rejected one is delivered. *)
Lemma LengthField_oversize_desync (p : LengthFieldPrepender) (max : Z) (f a g : list byte)
    (b1 b2 : B) (q : Q) (fuel : nat) :
  sanePrepender p max ->
  (0 <= headerValue p f < 256 ^ lfp_lengthFieldLength_ p)%Z ->
  (max < lfp_lengthFieldLength_ p + Z.of_nat (length f) < 2 ^ 31)%Z ->
  f = a ++ encodeFrame p g -> validFrame p max g ->
  data b1 = header p f ++ a -> data b2 = encodeFrame p g -> queued q = [] -> 1 < fuel ->
  exists s', receiveAll LengthField_decode fuel [b1; b2] (mkDecoding (matchingDecoder p max) q []) =
      (Ok true, s') /\
    log s' = [FireReadException (tooLarge (matchingDecoder p max)); FireRead g] /\
    queued (queue s') = [].
Proof.
  intros Hsp Hv Hsize Hf Hg E1 E2 Hq Hfuel. set (d := matchingDecoder p max).
  pose proof (width_bounds p max Hsp) as Hw. pose proof (LengthField_implements d (sane_matching p max Hsp)) as Himpl.
  pose proof (lengthField_Framing p max Hsp) as Hframing.
  assert (Hlf : length f = length a + (Z.to_nat (lfp_lengthFieldLength_ p) + length g)).
  { rewrite Hf. unfold encodeFrame. by rewrite !length_app, header_length. }
  destruct fuel as [|fuel]; [lia|]. cbn [receiveAll]. unfold receive. rewrite bind_assoc, bind_modify.
  cbn [read]. set (s1 := mkDecoding _ _ _).
  assert (Hq1 : queued (queue s1) = header p f ++ a) by (simpl; by rewrite queued_append, Hq, E1).
  pose proof (Himpl s1 eq_refl) as Hi. rewrite Hq1 in Hi. change (self s1) with d in Hi.
  unfold lengthFieldStep in Hi. unfold d in Hi. rewrite frameLengthOf_header in Hi by (done || lia).
  rewrite length_app, header_length in Hi by done. fold d in Hi.
  change (lengthFieldEndOffset_ d) with (lfp_lengthFieldLength_ p) in Hi. change (maxFrameLength_ d) with max in Hi.
  case_ltb_in Hi; [lia|]. case_ltb_in Hi; [lia|]. case_ltb_in Hi; [|lia].
  destruct Hi as (needed & q1 & E & Eq1); [lia|].
  rewrite drop_ge in Eq1 by (rewrite length_app, header_length by done; lia).
  rewrite bind_assoc, (bind_Ok _ _ _ _ _ E). cbn [fst]. rewrite bind_ret, !bind_assoc, bind_modify.
  destruct (read_frames (2 ^ 31) LengthField_decode lengthFieldStep d (validFrame p max) (encodeFrame p)
    (fun f => f) Himpl [g] (S fuel) [] (mkDecoding d (append q1 b2) (fired s1 ++ (FireReadException <$> [tooLarge d]))))
    as (s' & E' & _ & Q' & L').
  - by constructor.
  - by left.
  - done.
  - cbn [queue]. unfold encodeAll. cbn [fmap list_fmap concat]. by rewrite queued_append, Eq1, E2, !app_nil_r.
  - rewrite app_nil_r. unfold encodeAll. simpl. rewrite app_nil_r. unfold encodeFrame.
    rewrite length_app, header_length by done. lia.
  - simpl. lia.
  - cbn [self queue fired]. change (let! r := LengthField_decode in
      match r.1 with
      | Some result => do! fireRead result in read LengthField_decode fuel
      | None => ret true
      end) with (read (Q:=Q) (B:=B) LengthField_decode (S fuel)).
    rewrite (bind_Ok _ _ _ _ _ E'), bind_assoc, !bind_ret. exists s'.
    split; [done|]. split; [|done]. by rewrite L'.
Qed.
End stream.

(** ** LineBasedFrameDecoder *)

(** [findEndOfLine] on bytes: [l] is what the cursor has not read, [i] the
    index of the loop, which falls behind when a second byte is read. *)
Fixpoint findBytes (t : TerminatorType) (max len : Z) (l : list byte) (i : Z) : res Z :=
  if (i <? max)%Z && (i <? len)%Z then
    match l with
    | [] => Err underflow
    | b :: r =>
        if bool_decide (b = LF) && negb (bool_decide (t = CARRIAGENEWLINE)) then Ok i
        else if negb (bool_decide (t = NEWLINE)) && bool_decide (b = CR) then
          match r with
          | [] => findBytes t max len r (i + 1)
          | b2 :: r2 => if bool_decide (b2 = LF) then Ok i else findBytes t max len r2 (i + 1)
          end
        else findBytes t max len r (i + 1)
    end
  else Ok (-1)%Z.

Definition delimAt (l : list byte) (eol : Z) : Z :=
  if bool_decide (l !! Z.to_nat eol = Some CR) then 2 else 1.

Definition overLong (d : LineBasedFrameDecoder) (len : string) : string :=
  "frame length" +:+ len +:+ " exeeds max " +:+ pretty (maxLength_ d).

Definition lineStep (d : LineBasedFrameDecoder) (l : list byte) : ByteStep LineBasedFrameDecoder :=
  let len := Z.of_nat (length l) in
  match findBytes (terminatorType_ d) (maxLength_ d) len l 0 with
  | Err f => Throw f
  | Ok eol =>
      let stop := Z.to_nat (eol + delimAt l eol) in
      if negb (discarding_ d) then
        if (0 <=? eol)%Z then
          if (maxLength_ d <? eol)%Z then Halt d (drop stop l) [overLong d (pretty eol)]
          else if stripDelimiter_ d then Emit (take (Z.to_nat eol) l) (drop stop l)
          else Emit (take stop l) (drop stop l)
        else if (maxLength_ d <? len)%Z then
          Halt (setDiscarding true (u32 len) d) [] [overLong d ("over " +:+ pretty len)]
        else Halt d l []
      else
        if (0 <=? eol)%Z then Halt (setDiscarding false 0 d) (drop stop l) []
        else Halt (setDiscarding true (u32 len) d) [] []
  end.

(** The byte the end of line was found at is a line feed at or after the index
    that is returned. *)
Lemma findBytes_LF t max len l : forall i e full pre,
  full = pre ++ l -> (i <= Z.of_nat (length pre))%Z -> (0 <= i)%Z ->
  findBytes t max len l i = Ok e -> e <> (-1)%Z ->
  (0 <= e)%Z /\ exists k, (e <= Z.of_nat k)%Z /\ full !! k = Some LF.
Proof.
  remember (length l) as n eqn:Hn. revert l Hn.
  induction (lt_wf n) as [n _ IH]. intros l Hn i e full pre Hfull Hi Hi0.
  destruct l as [|b r]; cbn [findBytes].
  - destruct (_ && _); [done|]. by intros [= <-].
  - destruct (_ && _); [|by intros [= <-]].
    case_bool_decide as Hb; simpl andb.
    + destruct (negb _).
      * intros [= <-] _. split; [done|]. exists (length pre). split; [done|].
        rewrite Hfull, Hb. by rewrite list_lookup_middle.
      * destruct (negb _ && _) eqn:Hc.
        -- by rewrite Hb, andb_false_r in Hc.
        -- eapply (IH (length r)); [simpl in Hn; lia|done|..]; rewrite ?Hfull.
           ++ by rewrite (cons_middle b pre r), app_assoc.
           ++ rewrite length_app. simpl. lia.
           ++ lia.
    + destruct (negb _ && _).
      * destruct r as [|b2 r2].
        -- eapply (IH 0); [simpl in Hn; lia|done|..]; rewrite ?Hfull.
           ++ by rewrite (cons_middle b pre []), app_assoc.
           ++ rewrite length_app. simpl. lia.
           ++ lia.
        -- case_bool_decide as Hb2.
           ++ intros [= <-] _. split; [done|]. exists (S (length pre)). split; [lia|].
              rewrite Hfull, Hb2, lookup_app_r by lia.
              by replace (S (length pre) - length pre) with 1 by lia.
           ++ eapply (IH (length r2)); [simpl in Hn; lia|done|..]; rewrite ?Hfull.
              ** by rewrite (cons_middle b pre), app_assoc, (cons_middle b2 (pre ++ [b])), app_assoc.
              ** rewrite !length_app. simpl. lia.
              ** lia.
      * eapply (IH (length r)); [simpl in Hn; lia|done|..]; rewrite ?Hfull.
        -- by rewrite (cons_middle b pre r), app_assoc.
        -- rewrite length_app. simpl. lia.
        -- lia.
Qed.

(** A byte that does not end a line and does not put the cursor and the index
    of [findEndOfLine] out of step. *)
Definition inert (t : TerminatorType) (b : byte) : Prop :=
  (b = LF -> t = CARRIAGENEWLINE) /\ (b = CR -> t = NEWLINE).

Lemma findBytes_inert t max len line : forall r i,
  Forall (inert t) line -> (i + Z.of_nat (length line) <= len)%Z ->
  findBytes t max len (line ++ r) i =
    if (max <? i + Z.of_nat (length line))%Z then
      (if (i <? max)%Z then Ok (-1)%Z else findBytes t max len (line ++ r) i)
    else findBytes t max len r (i + Z.of_nat (length line)).
Proof.
  induction line as [|b line IH]; intros r i Hl Hlen; simpl app; simpl length.
  - rewrite Z.add_0_r. case_ltb; [|done]. case_ltb; [lia|done].
  - apply Forall_cons in Hl as [[H1 H2] Hl]. cbn [length] in Hlen.
    destruct (Z.ltb_spec i max) as [Hi|Hi].
    + assert (Estep : findBytes t max len (b :: line ++ r) i = findBytes t max len (line ++ r) (i + 1)).
      { cbn [findBytes]. destruct (Z.ltb_spec i max); [|lia]. destruct (Z.ltb_spec i len); [|lia]. simpl andb.
        destruct (bool_decide (b = LF)) eqn:E1; simpl.
        - apply bool_decide_eq_true in E1. rewrite (H1 E1), E1. done.
        - destruct (bool_decide (b = CR)) eqn:E2; [|by rewrite andb_false_r].
          apply bool_decide_eq_true in E2. by rewrite (H2 E2). }
      rewrite Estep, IH by (done || lia).
      replace (i + 1 + Z.of_nat (length line))%Z with (i + Z.of_nat (S (length line)))%Z by lia.
      case_ltb; [|done]. case_ltb; [done|].
      replace (i + 1)%Z with max by lia. 
      destruct (line ++ r) as [|b' l'] eqn:E; cbn [findBytes]; case_ltb; (lia || done).
    + case_ltb; [done|lia].
Qed.

(** No terminator in a line that is not longer than the limit. *)
Lemma findBytes_none t max line :
  Forall (inert t) line -> findBytes t max (Z.of_nat (length line)) line 0 = Ok (-1)%Z.
Proof.
  intros Hl. rewrite <- (app_nil_r line) at 2. rewrite findBytes_inert by (done || lia).
  case_ltb.
  - case_ltb; [done|]. rewrite app_nil_r. destruct line; cbn [findBytes]; case_ltb; (lia || done).
  - cbn [findBytes]. case_ltb; [|done]. case_ltb; [lia|done].
Qed.

Definition terminator (crlf : bool) : list byte := if crlf then [CR; LF] else [LF].
Definition terminates (t : TerminatorType) (crlf : bool) : Prop :=
  if crlf then t <> NEWLINE else t <> CARRIAGENEWLINE.

Lemma findBytes_line t max len crlf line r :
  Forall (inert t) line -> terminates t crlf -> (Z.of_nat (length line) < max)%Z ->
  len = Z.of_nat (length (line ++ terminator crlf ++ r)) ->
  findBytes t max len (line ++ terminator crlf ++ r) 0 = Ok (Z.of_nat (length line)).
Proof.
  intros Hl Ht Hmax Hlen. rewrite !length_app in Hlen.
  rewrite findBytes_inert by (try done; lia). case_ltb; [lia|]. rewrite Z.add_0_l.
  assert (0 < length (terminator crlf)) by (destruct crlf; simpl; lia).
  destruct crlf; simpl app; cbn [findBytes]; (case_ltb; [|lia]); (case_ltb; [|lia]); simpl.
  - simpl in Ht. by rewrite (bool_decide_false _ Ht).
  - simpl in Ht. by rewrite (bool_decide_false _ Ht).
Qed.

Section line_based.
Context {Q B C : Type} `{!IOBufs Q B C} `{!IOBufView Q B C} `{!IOBufLaws Q B C}.

Lemma findLoop_findBytes d (buf : Q) fuel : forall i (c : C),
  length (unread c) < fuel ->
  findLoop d buf fuel i c =
    findBytes (terminatorType_ d) (maxLength_ d) (chainLength buf) (unread c) i.
Proof.
  induction fuel as [|fuel IH]; intros i c Hfuel; [lia|]. cbn [findLoop].
  destruct (unread c) as [|b r] eqn:Eu; cbn [findBytes].
  - destruct (_ && _); [|done]. by rewrite (readChar_underflow c Eu).
  - destruct (_ && _); [|done]. destruct (readChar_ok c b r Eu) as (c1 & -> & Eu1). simpl res_bind.
    simpl in Hfuel. destruct (bool_decide (b = LF) && _); [done|].
    rewrite (isAtEnd_unread c1), Eu1. destruct (negb _ && bool_decide (b = CR)); simpl.
    + destruct r as [|b2 r2]; simpl.
      * rewrite IH by (rewrite Eu1; lia). by rewrite Eu1.
      * destruct (readChar_ok c1 b2 r2 Eu1) as (c2 & -> & Eu2). simpl.
        case_bool_decide; [done|]. rewrite IH by (rewrite Eu2; simpl in *; lia). by rewrite Eu2.
    + rewrite IH by (rewrite Eu1; lia). by rewrite Eu1.
Qed.

Lemma run_findEndOfLine d (buf : Q) :
  findEndOfLine d buf =
    findBytes (terminatorType_ d) (maxLength_ d) (Z.of_nat (length (queued buf))) (queued buf) 0.
Proof.
  unfold findEndOfLine. rewrite findLoop_findBytes; rewrite unread_cursor, ?chainLength_queued; [done|lia].
Qed.

Lemma run_delimLength (buf : Q) e :
  (0 <= e < Z.of_nat (length (queued buf)))%Z -> delimLength buf e = Ok (delimAt (queued buf) e).
Proof.
  intros He. unfold delimLength, delimAt.
  destruct (skip_ok (cursor buf) e) as (c & -> & Eu); [rewrite unread_cursor; lia|]. simpl.
  rewrite unread_cursor in Eu.
  destruct (lookup_lt_is_Some_2 (queued buf) (Z.to_nat e)) as [b Hb]; [lia|].
  rewrite (drop_S _ b) in Eu by done. destruct (readChar_ok c b _ Eu) as (c' & -> & _). simpl.
  rewrite Hb. by repeat case_bool_decide; simplify_eq.
Qed.

(** The bytes up to the end of line and its delimiter are in the queue. *)
Lemma eol_fits d (l : list byte) e :
  findBytes (terminatorType_ d) (maxLength_ d) (Z.of_nat (length l)) l 0 = Ok e -> (0 <= e)%Z ->
  (e + delimAt l e <= Z.of_nat (length l))%Z.
Proof.
  intros E He.
  destruct (findBytes_LF _ _ _ l 0 e l [] eq_refl ltac:(simpl; lia) ltac:(lia) E ltac:(lia)) as (_ & k & Hk & Hlf).
  pose proof (lookup_lt_Some _ _ _ Hlf). unfold delimAt. case_bool_decide as Hcr; [|lia].
  assert (Z.to_nat e <> k); [|lia]. intros <-. rewrite Hcr in Hlf. by simplify_eq.
Qed.

Lemma LineBased_implements bound d :
  implements (Q:=Q) (B:=B) bound LineBased_decode lineStep d.
Proof.
  intros s Hs _. unfold lineStep. rewrite Hs. set (l := queued (queue s)).
  destruct (LineBased_decode s) as [r s'] eqn:E. unfold LineBased_decode in E.
  rewrite bind_get, Hs in E. unfold lift at 1 in E. rewrite run_findEndOfLine in E. fold l in E.
  destruct (findBytes (terminatorType_ d) (maxLength_ d) (Z.of_nat (length l)) l 0) as [e|f] eqn:Ee.
  2: { unfold bind in E. injection E as <- <-. by exists s. }
  rewrite (bind_Ok _ _ s e s eq_refl), chainLength_queued in E. fold l in E.
  assert (Heta : s = mkDecoding d (queue s) (fired s ++ (FireReadException <$> []))).
  { rewrite <- Hs. by rewrite decoding_eta. }
  destruct (Z.leb_spec 0 e) as [He|He].
  - pose proof (eol_fits d l e Ee He) as Hfit.
    assert (Hd1 : (1 <= delimAt l e)%Z) by (unfold delimAt; case_bool_decide; lia).
    assert (Edelim : lift (delimLength (queue s) e) s = (Ok (delimAt l e), s)).
    { unfold lift. by rewrite run_delimLength by (fold l; lia). }
    destruct (negb (discarding_ d)); rewrite (bind_Ok _ _ _ _ _ Edelim) in E.
    + destruct (Z.ltb_spec (maxLength_ d) e).
      { destruct (run_bufSplit (e + delimAt l e) s) as (b & q & E1 & _ & Eq); [fold l; lia|].
        rewrite (bind_Ok _ _ _ _ _ E1) in E. exists 0%Z, q. split; [by rewrite <- E, Hs|done]. }
      destruct (stripDelimiter_ d).
      * destruct (run_bufSplit e s) as (b & q & E1 & Eb & Eq); [fold l; lia|].
        rewrite (bind_Ok _ _ _ _ _ E1) in E.
        destruct (run_bufTrimStart (delimAt l e) (mkDecoding (self s) q (fired s))) as (q2 & E2 & Eq2).
        { simpl. rewrite Eq, length_drop. fold l. lia. }
        rewrite (bind_Ok _ _ _ _ _ E2) in E. exists b, q2. split; [by rewrite <- E, Hs|]. split; [done|].
        rewrite Eq2. simpl. rewrite Eq, drop_drop. f_equal. lia.
      * destruct (run_bufSplit (e + delimAt l e) s) as (b & q & E1 & Eb & Eq); [fold l; lia|].
        rewrite (bind_Ok _ _ _ _ _ E1) in E. exists b, q. by rewrite <- E, Hs.
    + destruct (run_bufTrimStart (e + delimAt l e) s) as (q & E1 & Eq); [fold l; lia|].
      rewrite (bind_Ok _ _ _ _ _ E1) in E. exists 0%Z, q. split; [|done].
      rewrite <- E. unfold setSelf. rewrite bind_modify. simpl. by rewrite app_nil_r.
  - destruct (negb (discarding_ d)).
    + destruct (Z.ltb_spec (maxLength_ d) (Z.of_nat (length l))).
      * destruct (run_bufTrimStart (Z.of_nat (length l)) s) as (q & E1 & Eq); [fold l; lia|].
        rewrite (bind_Ok _ _ _ _ _ E1) in E. exists 0%Z, q. split; [by rewrite <- E|].
        rewrite Eq. apply drop_ge. fold l. lia.
      * exists 0%Z, (queue s). split; [|done]. rewrite <- E. unfold ret. by rewrite <- Heta.
    + exists 0%Z, (move (queue s)). split; [|apply queued_move].
      rewrite <- E. unfold setSelf, setQueue. rewrite !bind_modify. simpl. by rewrite app_nil_r.
Qed.
End line_based.

(** ** Lines *)

Definition encodeLine (f : list byte * bool) : list byte := f.1 ++ terminator f.2.
Definition validLine (d : LineBasedFrameDecoder) (f : list byte * bool) : Prop :=
  Forall (inert (terminatorType_ d)) f.1 /\ terminates (terminatorType_ d) f.2 /\
  (Z.of_nat (length f.1) < maxLength_ d)%Z.
Definition outputLine (d : LineBasedFrameDecoder) (f : list byte * bool) : list byte :=
  if stripDelimiter_ d then f.1 else encodeLine f.

Lemma delimAt_line line crlf r :
  delimAt (line ++ terminator crlf ++ r) (Z.of_nat (length line)) = Z.of_nat (length (terminator crlf)).
Proof.
  unfold delimAt. rewrite Nat2Z.id, lookup_app_r, Nat.sub_diag by lia. by destruct crlf.
Qed.

(** No end of line in the bytes: they stay in the queue. *)
Lemma lineStep_waits d l :
  discarding_ d = false -> (Z.of_nat (length l) <= maxLength_ d)%Z ->
  findBytes (terminatorType_ d) (maxLength_ d) (Z.of_nat (length l)) l 0 = Ok (-1)%Z ->
  lineStep d l = Halt d l [].
Proof.
  intros Hd Hlen E. unfold lineStep. rewrite E, Hd. simpl. case_ltb; [lia|done].
Qed.

Lemma findBytes_line_CR t max line :
  Forall (inert t) line -> (Z.of_nat (length line) < max)%Z ->
  findBytes t max (Z.of_nat (length (line ++ [CR]))) (line ++ [CR]) 0 = Ok (-1)%Z.
Proof.
  intros Hl Hmax. rewrite length_app. simpl length.
  rewrite findBytes_inert by (try done; lia). case_ltb; [lia|]. rewrite Z.add_0_l.
  assert (Hend : forall i, (Z.of_nat (length line + 1) <= i)%Z ->
    findBytes t max (Z.of_nat (length line + 1)) [] i = Ok (-1)%Z).
  { intros i Hi. cbn [findBytes]. destruct (Z.ltb_spec i (Z.of_nat (length line + 1))); [lia|].
    by rewrite andb_false_r. }
  cbn [findBytes]. case_ltb; [|lia]. case_ltb; [|lia]. simpl.
  destruct (negb _ && _); apply Hend; lia.
Qed.

#[export] Instance line_Framing (d : LineBasedFrameDecoder) (bound : Z) :
  discarding_ d = false -> (0 <= maxLength_ d)%Z ->
  Framing (list byte * bool) bound lineStep d (validLine d) encodeLine (outputLine d).
Proof.
  intros Hd Hpos. split.
  - by apply lineStep_waits; [done|simpl; lia|apply findBytes_none].
  - intros [line crlf] _. unfold encodeLine. simpl. by destruct line, crlf.
  - intros [line crlf] rest (Hl & Ht & Hmax) _. unfold encodeLine, outputLine, lineStep.
    simpl fst in *. simpl snd in *. rewrite <- app_assoc, findBytes_line by done. rewrite Hd, delimAt_line. simpl negb. cbv iota.
    case_ltb; [|].
    all: try (destruct (Z.leb_spec 0 (Z.of_nat (length line))); [|lia]); try lia.
    rewrite <- Nat2Z.inj_add, !Nat2Z.id.
    unfold encodeLine. simpl fst. simpl snd. rewrite app_assoc.
    rewrite <- (length_app line), take_app_length, drop_app_length.
    destruct (stripDelimiter_ d); [|done]. by rewrite <- app_assoc, take_app_length.
  - intros [line crlf] part rest (Hl & Ht & Hmax) E Hrest _. unfold encodeLine in E. simpl in *.
    assert (Hcase : (exists r, line = part ++ r) \/ part = line ++ [CR]).
    { destruct (decide (length part <= length line)) as [Hle|Hgt].
      - left. exists (drop (length part) line). rewrite <- (take_drop (length part) line) at 1.
        f_equal. apply (f_equal (take (length part))) in E.
        by rewrite take_app_le, take_app_length in E by done.
      - right. apply app_eq_inv in E as [(k & E1 & E2)|(k & E1 & E2)].
        + exfalso. rewrite E1, length_app in Hgt. lia.
        + subst part. f_equal. destruct k as [|c k]; [rewrite app_nil_r in Hgt; lia|].
          assert (length rest <> 0) by (by destruct rest).
          pose proof (f_equal length E2) as Hlen. rewrite length_app in Hlen.
          destruct crlf; simpl in Hlen, E2; injection E2 as <- E2; [|lia].
          destruct k; [done|simpl in Hlen; lia]. }
    destruct Hcase as [[r ->]| ->].
    + apply Forall_app in Hl as [Hl _]. rewrite length_app in Hmax.
      apply lineStep_waits; [done|lia|by apply findBytes_none].
    + apply lineStep_waits; [done|rewrite length_app; simpl; lia|by apply findBytes_line_CR].
Qed.

(** A carriage return that no line feed follows: the byte after it is read
    with it, and the index falls one behind. *)
Lemma findBytes_skips max len a r i :
  (i < max)%Z -> (i < len)%Z -> a <> LF ->
  findBytes TBOTH max len (CR :: a :: r) i = findBytes TBOTH max len r (i + 1).
Proof.
  intros H1 H2 Ha. cbn [findBytes]. case_ltb; [|lia]. case_ltb; [|lia]. simpl.
  by rewrite (bool_decide_false _ Ha).
Qed.

Lemma inert_LF b : inert TBOTH b -> b <> LF.
Proof. intros [H _] ->. by specialize (H eq_refl). Qed.

Section lone_CR.
Context (d : LineBasedFrameDecoder) (pre w : list byte) (x : byte).
Context (Ht : terminatorType_ d = TBOTH) (Hd : discarding_ d = false)
  (Hstrip : stripDelimiter_ d = true) (Hin : Forall (inert TBOTH) (pre ++ w ++ [x]))
  (Hmax : (Z.of_nat (length (pre ++ CR :: w)) < maxLength_ d)%Z).

Lemma findBytes_lone_CR r :
  findBytes TBOTH (maxLength_ d) (Z.of_nat (length (pre ++ CR :: w ++ x :: r))) (pre ++ CR :: w ++ x :: r) 0 =
  findBytes TBOTH (maxLength_ d) (Z.of_nat (length (pre ++ CR :: w ++ x :: r))) r
    (Z.of_nat (length (pre ++ CR :: w))).
Proof.
  apply Forall_app in Hin as [Hpre Hwx].
  set (len := Z.of_nat (length (pre ++ CR :: w ++ x :: r))).
  assert (Hlen : len = (Z.of_nat (length pre) + 1 + Z.of_nat (length w) + 1 + Z.of_nat (length r))%Z).
  { unfold len. rewrite length_app. simpl. rewrite length_app. simpl. lia. }
  clearbody len. rewrite length_app in Hmax |- *. simpl length in Hmax |- *.
  rewrite findBytes_inert by (try done; lia). case_ltb; [lia|]. rewrite Z.add_0_l.
  destruct w as [|a w']; simpl app; simpl length in *.
  - apply Forall_singleton, inert_LF in Hwx. rewrite findBytes_skips by (done || lia). f_equal. lia.
  - simpl in Hwx. apply Forall_cons in Hwx as [Ha%inert_LF Hwx].
    rewrite findBytes_skips by (done || lia). rewrite (cons_middle x w' r), app_assoc.
    rewrite findBytes_inert by (try done; rewrite length_app; simpl; lia). rewrite length_app. simpl length.
    case_ltb; [lia|]. f_equal. lia.
Qed.

Lemma lineStep_lone_CR :
  lineStep d (pre ++ CR :: w ++ [x; LF]) = Emit (pre ++ CR :: w) [LF].
Proof.
  unfold lineStep. rewrite Ht, findBytes_lone_CR.
  cbn [findBytes]. case_ltb; [|lia].
  assert (E : pre ++ CR :: w ++ [x; LF] = (pre ++ CR :: w) ++ [x; LF]) by by rewrite <- app_assoc.
  rewrite E. case_ltb; [|rewrite length_app in *; simpl length in *; lia]. simpl.
  rewrite Hd, Hstrip. simpl. case_ltb; [lia|].
  assert (Hx : delimAt ((pre ++ CR :: w) ++ [x; LF]) (Z.of_nat (length (pre ++ CR :: w))) = 1%Z).
  { unfold delimAt. rewrite Nat2Z.id, lookup_app_r, Nat.sub_diag by lia. simpl.
    rewrite bool_decide_false; [done|]. intros [= ->].
    rewrite !Forall_app, Forall_singleton in Hin. destruct Hin as (_ & _ & _ & Hx). by specialize (Hx eq_refl). }
  rewrite Hx. destruct (Z.leb_spec 0 (Z.of_nat (length (pre ++ CR :: w)))); [|lia].
  replace (Z.of_nat (length (pre ++ CR :: w)) + 1)%Z with (Z.of_nat (length ((pre ++ CR :: w) ++ [x])))
    by (rewrite (length_app _ [x]); simpl length; lia).
  rewrite !Nat2Z.id, take_app_length, (cons_middle x _ [LF]), app_assoc. by rewrite drop_app_length.
Qed.

Lemma lineStep_lone_CR_partial : lineStep d (pre ++ CR :: w ++ [x]) = Throw underflow.
Proof.
  unfold lineStep. rewrite Ht, findBytes_lone_CR. cbn [findBytes].
  case_ltb; [|lia]. case_ltb; [done|]. rewrite !length_app in *. simpl length in *. rewrite !length_app in *. simpl length in *. lia.
Qed.

Lemma lineStep_LF : lineStep d [LF] = Emit [] [].
Proof.
  rewrite length_app in Hmax. simpl in Hmax.
  unfold lineStep. rewrite Ht. cbn [findBytes]. case_ltb; [|lia]. case_ltb; [|simpl in *; lia]. simpl.
  rewrite Hd, Hstrip. simpl. case_ltb; [lia|done].
Qed.
End lone_CR.

Section line_stream.
Context {Q B C : Type} `{!IOBufs Q B C} `{!IOBufView Q B C} `{!IOBufLaws Q B C}.

(** A [LineBasedFrameDecoder] delivers exactly the lines of the stream it
    receives, in order, whatever its fragments, with or without their
    delimiters as [stripDelimiter] says, when each line is shorter than
    [maxLength] and holds, besides its terminator, none of the bytes that
    terminate a line for the decoder; the beginning of a line stays in the
    queue. *)
Lemma LineBased_stream (d : LineBasedFrameDecoder) (frags : list B)
    (fs : list (list byte * bool)) (tail : list byte) (q : Q) (fuel : nat) :
  discarding_ d = false -> (0 <= maxLength_ d)%Z -> Forall (validLine d) fs ->
  partial (validLine d) encodeLine tail -> queued q = [] ->
  concat (data <$> frags) = encodeAll encodeLine fs ++ tail ->
  length (encodeAll encodeLine fs) < fuel ->
  exists s', receiveAll LineBased_decode fuel frags (mkDecoding d q []) = (Ok true, s') /\
    log s' = FireRead <$> (outputLine d <$> fs) /\ queued (queue s') = tail /\ self s' = d.
Proof.
  intros Hd Hpos Hfs Ht Hq E Hfuel. set (bound := (Z.of_nat (length (encodeAll encodeLine fs ++ tail)) + 1)%Z).
  pose proof (line_Framing d bound Hd Hpos) as Hfr.
  destruct (receive_stream bound LineBased_decode lineStep d (validLine d) encodeLine (outputLine d)
    (LineBased_implements bound d) frags fuel fs tail (mkDecoding d q [])) as (s' & E' & Hs & Hq' & Hl); try done.
  - simpl. rewrite Hq. by left.
  - simpl. by rewrite Hq.
  - lia.
  - exists s'. by rewrite Hl.
Qed.

(** A carriage return inside a line puts [findEndOfLine] out of step.
    When the line [pre CR w x] and its line feed are in the queue, the frame
    lacks its last byte [x], which is lost, and the line feed left behind is
    delivered as an empty line; when the line feed has not arrived yet,
    [decode] throws out of the cursor. *)
Lemma LineBased_lone_CR (d : LineBasedFrameDecoder) (pre w : list byte) (x : byte) (b : B)
    (q : Q) (fuel : nat) :
  terminatorType_ d = TBOTH -> discarding_ d = false -> stripDelimiter_ d = true ->
  Forall (inert TBOTH) (pre ++ w ++ [x]) ->
  (Z.of_nat (length (pre ++ CR :: w)) < maxLength_ d)%Z -> queued q = [] ->
  (data b = pre ++ CR :: w ++ [x; LF] ->
   exists s', receive LineBased_decode (3 + fuel) b (mkDecoding d q []) = (Ok true, s') /\
     log s' = [FireRead (pre ++ CR :: w); FireRead []] /\ queued (queue s') = []) /\
  (data b = pre ++ CR :: w ++ [x] ->
   exists s', receive LineBased_decode (3 + fuel) b (mkDecoding d q []) = (Err underflow, s')).
Proof.
  intros Ht Hd Hstrip Hin Hmax Hq. set (s1 := mkDecoding d (append q b) [] : Decoding LineBasedFrameDecoder Q B).
  assert (Hq1 : queued (queue s1) = data b) by (simpl; by rewrite queued_append, Hq).
  split; intros Eb; unfold receive; rewrite bind_modify; fold s1; rewrite Eb in Hq1.
  - destruct (read_Emit LineBased_decode lineStep (2 + fuel) s1 (pre ++ CR :: w) [LF]) as (s2 & E2 & D2 & Q2 & L2).
    { intros n. apply LineBased_implements. }
    { rewrite Hq1. by apply lineStep_lone_CR. }
    destruct (read_Emit LineBased_decode lineStep (1 + fuel) s2 [] []) as (s3 & E3 & D3 & Q3 & L3).
    { intros n. apply LineBased_implements. }
    { rewrite Q2, D2. by apply (lineStep_LF d pre w). }
    destruct (read_Halt LineBased_decode lineStep fuel s3 d [] []) as (s4 & E4 & D4 & Q4 & L4).
    { intros n. apply LineBased_implements. }
    { rewrite Q3, D3, D2. apply lineStep_waits; [done|simpl in *; lia|by apply findBytes_none]. }
    exists s4. split; [by etransitivity; [exact E2|]; etransitivity; [exact E3|]|]. split; [|done]. by rewrite L4, L3, L2.
  - apply (read_Throw LineBased_decode lineStep (2 + fuel) s1 underflow); [intros n; apply LineBased_implements|].
    rewrite Hq1. by apply lineStep_lone_CR_partial.
Qed.

(** A line that reaches [maxLength] before its end costs the stream more
    than itself: everything received with it is thrown away, lines after it
    included, and then the bytes up to the next end of line are, however short
    the line they are.  One exception is fired. *)
Lemma LineBased_overlong (d : LineBasedFrameDecoder) (line after next : list byte) (crlf : bool)
    (tail : list byte) (b1 b2 : B) (q : Q) (fuel : nat) :
  discarding_ d = false -> Forall (inert (terminatorType_ d)) line ->
  (maxLength_ d <= Z.of_nat (length line))%Z -> after <> [] ->
  validLine d (next, crlf) -> queued q = [] ->
  data b1 = line ++ after -> data b2 = next ++ terminator crlf ++ tail ->
  exists s', receiveAll LineBased_decode (S fuel) [b1; b2] (mkDecoding d q []) = (Ok true, s') /\
    log s' = [FireReadException (overLong d ("over " +:+ pretty (Z.of_nat (length (line ++ after)))))] /\
    queued (queue s') = tail /\ discarding_ (self s') = false.
Proof.
  intros Hd Hl Hlong Hafter (Hn & Ht & Hmax) Hq E1 E2. cbn [receiveAll]. unfold receive.
  rewrite bind_assoc, bind_modify. cbn [self queue fired].
  simpl fst in *. simpl snd in *.
  set (s1 := mkDecoding d (append q b1) [] : Decoding LineBasedFrameDecoder Q B).
  set (len := Z.of_nat (length (line ++ after))).
  assert (Hlen : (maxLength_ d < len)%Z).
  { unfold len. rewrite length_app. destruct after; [done|simpl; lia]. }
  destruct (read_Halt LineBased_decode lineStep fuel s1 (setDiscarding true (u32 len) d) []
    [overLong d ("over " +:+ pretty len)]) as (s2 & R2 & D2 & Q2 & L2).
  { intros n. apply LineBased_implements. }
  { unfold s1. simpl queue. simpl self. rewrite queued_append, Hq, E1. simpl app. unfold lineStep.
    fold len. rewrite findBytes_inert by (try done; unfold len; rewrite length_app; lia).
    assert (Hnone : forall r i, i = maxLength_ d -> findBytes (terminatorType_ d) (maxLength_ d) len r i = Ok (-1)%Z).
    { intros r i ->. destruct r; cbn [findBytes]; by rewrite Z.ltb_irrefl. }
    rewrite Hd. simpl negb. cbv iota. case_ltb.
    - case_ltb; [|].
      + simpl. case_ltb; [done|lia].
      + rewrite Hnone by lia. simpl. case_ltb; [done|lia].
    - rewrite Hnone by lia. simpl. case_ltb; [done|lia]. }
  rewrite (bind_Ok _ _ _ _ _ R2), bind_assoc, bind_assoc, bind_modify.
  set (s3 := mkDecoding (self s2) (append (queue s2) b2) (fired s2)).
  destruct (read_Halt LineBased_decode lineStep fuel s3 (setDiscarding false 0 (self s2)) tail [])
    as (s4 & R4 & D4 & Q4 & L4).
  { intros n. apply LineBased_implements. }
  { unfold s3. simpl. rewrite queued_append, Q2, E2, D2. simpl app. unfold lineStep. simpl.
    rewrite findBytes_line by done. rewrite delimAt_line.
    destruct (Z.leb_spec 0 (Z.of_nat (length next))); [|lia]. f_equal.
    rewrite <- Nat2Z.inj_add, Nat2Z.id, app_assoc, <- length_app. by rewrite drop_app_length. }
  rewrite (bind_Ok _ _ _ _ _ R4). exists s4. split; [done|]. split; [|split; [done|by rewrite D4]].
  rewrite L4, app_nil_r. unfold s3, log. simpl. exact L2.
Qed.
End line_stream.

(** ** Witnesses, on lists of bytes *)

Lemma FixedLength_stream_witness :
  exists s', receiveAll FixedLength_decode 10
      [[x61; x62; x63]; [x64]; [x65; x66; x67]] (mkDecoding (mkFixed 3) ([] : list byte) []) = (Ok true, s') /\
    log s' = [FireRead [x61; x62; x63]; FireRead [x64; x65; x66]] /\ queued (queue s') = [x67].
Proof.
  apply (FixedLength_stream (Q:=list byte) (B:=list byte) 2 [[x61; x62; x63]; [x64]; [x65; x66; x67]]
    [[x61; x62; x63]; [x64; x65; x66]] [x67] [] 10).
  - by repeat constructor.
  - simpl. lia.
  - done.
  - done.
  - simpl. lia.
Defined.

Lemma FixedLength_zero_diverges_witness :
  exists s', read FixedLength_decode 5 (mkDecoding (mkFixed 0) ([x61] : list byte) []) = (Ok false, s') /\
    queued (queue s') = [x61] /\ log s' = repeat (FireRead []) 5.
Proof. exact (FixedLength_zero_diverges (Q:=list byte) (B:=list byte) 5 (mkDecoding (mkFixed 0) [x61] []) eq_refl). Defined.

Lemma LengthField_roundtrip_witness :
  exists s', receiveAll LengthField_decode 10
      [[x00]; [x05; x61; x62; x63; x00; x03]; [x64]]
      (mkDecoding (mkLengthField 2 100 0 (-2) 2 true 2) ([] : list byte) []) = (Ok true, s') /\
    log s' = (fun m : list byte => FireRead (data m)) <$> [[x61; x62; x63]; [x64]] /\
    queued (queue s') = [].
Proof.
  apply (LengthField_roundtrip (Q:=list byte) (B:=list byte) 2 0 100 true true
    (mkPrepender 2 0 true true) (mkLengthField 2 100 0 (-2) 2 true 2) [[x61; x62; x63]; [x64]]
    [[x00; x05; x61; x62; x63]; [x00; x03; x64]] [[x00]; [x05; x61; x62; x63; x00; x03]; [x64]] [] 10);
    try reflexivity; try (simpl; lia).
  - repeat constructor.
  - repeat constructor; simpl; lia.
Defined.

Lemma LengthField_negative_sum_witness :
  let d := mkLengthField 2 100 0 (-4) 2 true 2 in
  exists needed q, LengthField_decode (mkDecoding d ([x00; x06; x61; x62; x63; x64] : list byte) []) =
      (Ok (@None (list byte), needed), mkDecoding d q [FireReadException (tooLarge d)]) /\ queued q = [].
Proof.
  apply (LengthField_negative_sum (Q:=list byte) (B:=list byte) (mkLengthField 2 100 0 (-4) 2 true 2)
    (mkDecoding (mkLengthField 2 100 0 (-4) 2 true 2) [x00; x06; x61; x62; x63; x64] [])); try done.
  split; simpl; lia.
Defined.

Lemma LengthField_oversize_desync_witness :
  let p := mkPrepender 2 0 false true in
  exists s', receiveAll LengthField_decode 10 [[x00; x08; x61; x61; x61; x61; x61]; [x00; x01; x7a]]
      (mkDecoding (matchingDecoder p 9) ([] : list byte) []) = (Ok true, s') /\
    log s' = [FireReadException (tooLarge (matchingDecoder p 9)); FireRead [x7a]] /\
    queued (queue s') = [].
Proof.
  apply (LengthField_oversize_desync (Q:=list byte) (B:=list byte) (mkPrepender 2 0 false true) 9
    [x61; x61; x61; x61; x61; x00; x01; x7a] [x61; x61; x61; x61; x61] [x7a]); try (vm_compute; done); try lia.
  split; simpl; lia.
Defined.

Lemma LineBased_stream_witness :
  exists s', receiveAll LineBased_decode 10 [[x61; x62; CR]; [LF; x63]; [LF; x64]]
      (mkDecoding (newLineBased 80 true TBOTH) ([] : list byte) []) = (Ok true, s') /\
    log s' = [FireRead [x61; x62]; FireRead [x63]] /\ queued (queue s') = [x64] /\
    self s' = newLineBased 80 true TBOTH.
Proof.
  apply (LineBased_stream (Q:=list byte) (B:=list byte) (newLineBased 80 true TBOTH) [[x61; x62; CR]; [LF; x63]; [LF; x64]]
    [([x61; x62], true); ([x63], false)] [x64] [] 10); try done.
  - repeat constructor; done.
  - right. exists ([x64; x65], false), [x65; LF]. split; [|done]. repeat constructor; done.
  - simpl. lia.
Defined.

Lemma LineBased_lone_CR_witness :
  exists s', receive LineBased_decode 5 [x61; CR; x62; LF]
      (mkDecoding (newLineBased 80 true TBOTH) ([] : list byte) []) = (Ok true, s') /\
    log s' = [FireRead [x61; CR]; FireRead []] /\ queued (queue s') = [].
Proof.
  apply (LineBased_lone_CR (Q:=list byte) (B:=list byte) (newLineBased 80 true TBOTH) [x61] [] x62 [x61; CR; x62; LF] [] 2); try done.
  repeat constructor; done.
Defined.

Lemma LineBased_overlong_witness :
  exists s', receiveAll LineBased_decode 5 [[x61; x62; x63; x64; LF; x65; LF]; [x66; LF; x67; LF]]
      (mkDecoding (newLineBased 4 true TBOTH) ([] : list byte) []) = (Ok true, s') /\
    log s' = [FireReadException (overLong (newLineBased 4 true TBOTH) "over 7")] /\
    queued (queue s') = [x67; LF] /\ discarding_ (self s') = false.
Proof.
  apply (LineBased_overlong (Q:=list byte) (B:=list byte) (newLineBased 4 true TBOTH) [x61; x62; x63; x64] [LF; x65; LF] [x66] false
    [x67; LF] _ _ [] 4); try done.
  - repeat constructor; done.
  - repeat constructor; done.
Defined.
