(* ===== verification/Tickets.v ===== *)
(** * TLS ticket keys (src/wangle/ssl)

    [TLSTicketKeySeeds] and [TLSTicketKeyManager]: the seeds of the
    configuration, the keys derived from them, and the OpenSSL callback that
    chooses the key of a ticket.

    SHA-256 and folly's [hexlify]/[unhexlify] are parameters, as are the
    random numbers.  Key sources are never changed once made, so the raw
    pointers of [activeKeys_] are modelled by the key sources themselves. *)
From Stdlib Require Import ZArith Lia NArith Strings.Byte.
From stdpp Require Import base numbers list gmap strings.
From S2P Require Import Prelude Buffers.
Open Scope cpp_scope.

Set Default Goal Selector "!".

(** ** TLSTicketKeySeeds *)

Record TLSTicketKeySeeds : Type := mkSeeds {
  oldSeeds : list (list byte);
  currentSeeds : list (list byte);
  newSeeds : list (list byte)
}.

(** [areSeedsSubset]; the unordered sets are finite sets. *)
Definition areSeedsSubset (lhs rhs : list (list byte)) : bool :=
  if length rhs <? length lhs then false
  else
    let a : gset (list byte) := list_to_set rhs in
    forallb (fun v => bool_decide (v ∈ a)) (elements (list_to_set lhs : gset (list byte))).

Definition isEmpty (s : TLSTicketKeySeeds) : bool :=
  bool_decide (oldSeeds s = []) && bool_decide (currentSeeds s = []) && bool_decide (newSeeds s = []).
Definition isNotEmpty (s : TLSTicketKeySeeds) : bool :=
  negb (bool_decide (oldSeeds s = [])) && negb (bool_decide (currentSeeds s = [])) &&
  negb (bool_decide (newSeeds s = [])).

Definition isValidRotation (s next : TLSTicketKeySeeds) : bool :=
  (isEmpty s && isNotEmpty next) ||
  (areSeedsSubset (newSeeds s) (currentSeeds next) &&
   areSeedsSubset (currentSeeds s) (oldSeeds next)) ||
  (areSeedsSubset (oldSeeds s) (oldSeeds next) &&
   areSeedsSubset (currentSeeds s) (currentSeeds next) &&
   areSeedsSubset (newSeeds s) (newSeeds next)).

(** ** TLSTicketKeyManager *)

Inductive TLSTicketSeedType : Type := SEED_OLD | SEED_CURRENT | SEED_NEW.
#[export] Instance TLSTicketSeedType_eq_dec : EqDecision TLSTicketSeedType.
Proof. solve_decision. Defined.

Record TLSTicketSeed : Type := mkSeed {
  seed_ : list byte;
  seed_type_ : TLSTicketSeedType;
  seedName_ : list byte
}.

Record TLSTicketKeySource : Type := mkKey {
  hashCount_ : Z;
  keyName_ : list byte;
  key_type_ : TLSTicketSeedType;
  keySource_ : list byte
}.

(** What is recorded in [SSLStats]. *)
Inductive Stat : Type :=
| RecordTLSTicket (ticketNew ticketHit : bool)
| RecordTLSTicketRotation (valid : bool).

(** The manager; [keyCallback] is whether the ticket key callback of its
    [SSL_CTX] is the manager's, and [stats_] what was recorded, if anything
    records. *)
Record TLSTicketKeyManager : Type := mkManager {
  ticketSeeds_ : list TLSTicketSeed;
  ticketKeys_ : gmap (list byte) TLSTicketKeySource;
  activeKeys_ : list TLSTicketKeySource;
  keyCallback : bool;
  stats_ : option (list Stat)
}.

Definition newManager (stats : bool) : TLSTicketKeyManager :=
  mkManager [] ∅ [] false (if stats then Some [] else None).

Definition record (x : Stat) (m : TLSTicketKeyManager) : TLSTicketKeyManager :=
  mkManager (ticketSeeds_ m) (ticketKeys_ m) (activeKeys_ m) (keyCallback m)
    ((fun l => l ++ [x]) <$> stats_ m).

Definition kTLSTicketKeyNameLen : nat := 4.
Definition kTLSTicketKeySaltLen : nat := 12.
Definition SHA256_DIGEST_LENGTH : nat := 32.

Section manager.
Context (SHA256 : list byte -> list byte).
Context (unhexlify : list byte -> option (list byte)) (hexlify : list byte -> option (list byte)).
(** The bytes of a [keySource_] that was not written yet. *)
Context (indeterminate : list byte).

(** [hashNth]: [output] is left as it is for [n = 0], which the assertion
    excludes. *)
Fixpoint hashNth (input output : list byte) (n : nat) : list byte :=
  match n with
  | O => output
  | S n => let output := SHA256 input in hashNth output output n
  end.

(** [makeKeyName]; [n] is hashed as the four bytes of a little-endian
    [uint32_t]. *)
Definition makeKeyName (seed : TLSTicketSeed) (n : Z) : list byte :=
  take kTLSTicketKeyNameLen (SHA256 (seedName_ seed ++ leBytes 4 n)).

(** [ticketKeys_.insert] keeps the key that is there under the name. *)
Definition insertNewKey (seed : TLSTicketSeed) (hashCount : nat) (prevKey : option TLSTicketKeySource)
    (m : TLSTicketKeyManager) : TLSTicketKeySource * TLSTicketKeyManager :=
  let keySource :=
    match prevKey with
    | Some p => hashNth (keySource_ p) indeterminate 1
    | None => hashNth (seed_ seed) indeterminate hashCount
    end in
  let name := makeKeyName seed (Z.of_nat hashCount) in
  let newKey := mkKey (Z.of_nat hashCount) name (seed_type_ seed) keySource in
  let (key, keys) :=
    match ticketKeys_ m !! name with
    | Some key => (key, ticketKeys_ m)
    | None => (newKey, <[name := newKey]> (ticketKeys_ m))
    end in
  let active :=
    if bool_decide (key_type_ key = SEED_CURRENT) then activeKeys_ m ++ [key] else activeKeys_ m in
  (key, mkManager (ticketSeeds_ m) keys active (keyCallback m) (stats_ m)).

Definition insertSeed (seedInput : list byte) (type : TLSTicketSeedType) (m : TLSTicketKeyManager) :
    option TLSTicketSeed * TLSTicketKeyManager :=
  match unhexlify seedInput with
  | None => (None, m)
  | Some seedOutput =>
      let seed := mkSeed seedOutput type (SHA256 seedOutput) in
      (Some seed, mkManager (ticketSeeds_ m ++ [seed]) (ticketKeys_ m) (activeKeys_ m)
                    (keyCallback m) (stats_ m))
  end.

Definition getTLSTicketKeySeeds (m : TLSTicketKeyManager) : bool * TLSTicketKeySeeds :=
  foldl (fun '(allGot, s) seed =>
    match hexlify (seed_ seed) with
    | None => (false, s)
    | Some hexSeed =>
        (allGot,
         match seed_type_ seed with
         | SEED_OLD => mkSeeds (oldSeeds s ++ [hexSeed]) (currentSeeds s) (newSeeds s)
         | SEED_CURRENT => mkSeeds (oldSeeds s) (currentSeeds s ++ [hexSeed]) (newSeeds s)
         | SEED_NEW => mkSeeds (oldSeeds s) (currentSeeds s) (newSeeds s ++ [hexSeed])
         end)
    end) (true, mkSeeds [] [] []) (ticketSeeds_ m).

Definition recordTlsTicketRotation (next : TLSTicketKeySeeds) (m : TLSTicketKeyManager) :
    TLSTicketKeyManager :=
  match stats_ m with
  | Some _ => record (RecordTLSTicketRotation (isValidRotation (getTLSTicketKeySeeds m).2 next)) m
  | None => m
  end.

(** The body of the loops of [setTLSTicketKeySeeds]. *)
Definition addSeed (type : TLSTicketSeedType) (m : TLSTicketKeyManager) (seedInput : list byte) :
    TLSTicketKeyManager :=
  match insertSeed seedInput type m with
  | (None, m) => m
  | (Some seed, m) => (insertNewKey seed 1 None m).2
  end.

Definition seedList (s : TLSTicketKeySeeds) (type : TLSTicketSeedType) : list (list byte) :=
  match type with
  | SEED_OLD => oldSeeds s
  | SEED_CURRENT => currentSeeds s
  | SEED_NEW => newSeeds s
  end.

Definition setTLSTicketKeySeeds (s : TLSTicketKeySeeds) (m : TLSTicketKeyManager) :
    bool * TLSTicketKeyManager :=
  let m := recordTlsTicketRotation s m in
  let m := mkManager [] ∅ [] (keyCallback m) (stats_ m) in
  let m := foldl (fun m type => foldl (addSeed type) m (seedList s type)) m
             [SEED_OLD; SEED_CURRENT; SEED_NEW] in
  let ok := negb ((size (ticketKeys_ m) =? 0) || (length (activeKeys_ m) =? 0)) in
  (ok, mkManager (ticketSeeds_ m) (ticketKeys_ m) (activeKeys_ m) ok (stats_ m)).

(** [findEncryptionKey]; [rand32 n] is the random number below [n]. *)
Definition findEncryptionKey (rand32 : nat -> nat) (m : TLSTicketKeyManager) : option TLSTicketKeySource :=
  let numKeys := length (activeKeys_ m) in
  if 0 <? numKeys then activeKeys_ m !! (if numKeys =? 1 then 0 else rand32 numKeys) else None.

Definition findDecryptionKey (keyName : list byte) (m : TLSTicketKeyManager) : option TLSTicketKeySource :=
  ticketKeys_ m !! take kTLSTicketKeyNameLen keyName.

Definition makeUniqueKeys (parentKey salt : list byte) : list byte :=
  SHA256 (parentKey ++ take kTLSTicketKeySaltLen salt).

(** What [processTicket] leaves in the buffers and contexts it is given: the
    key name of the ticket, the iv, and the keys that the MAC and the cipher
    are initialised with, if they are. *)
Record TicketContext : Type := mkTicket {
  tc_keyName : list byte;
  tc_iv : list byte;
  tc_keys : option (list byte * list byte)
}.

Definition splitKeys (output : list byte) : list byte * list byte :=
  (take (SHA256_DIGEST_LENGTH / 2) output,
   take (SHA256_DIGEST_LENGTH / 2) (drop (SHA256_DIGEST_LENGTH / 2) output)).

Definition processTicket (rand32 : nat -> nat) (salt freshIv : list byte) (keyName iv : list byte)
    (encrypt : bool) (m : TLSTicketKeyManager) : Z * TicketContext * TLSTicketKeyManager :=
  if encrypt then
    match findEncryptionKey rand32 m with
    | None => ((-1)%Z, mkTicket keyName iv None, m)
    | Some key =>
        let keyName := take kTLSTicketKeyNameLen (keyName_ key) ++ take kTLSTicketKeySaltLen salt ++
                       drop (kTLSTicketKeyNameLen + kTLSTicketKeySaltLen) keyName in
        (1%Z, mkTicket keyName freshIv (Some (splitKeys (makeUniqueKeys (keySource_ key) salt))),
         record (RecordTLSTicket encrypt true) m)
    end
  else
    match findDecryptionKey keyName m with
    | None => (0%Z, mkTicket keyName iv None, record (RecordTLSTicket encrypt false) m)
    | Some key =>
        let saltptr := drop kTLSTicketKeyNameLen keyName in
        (1%Z, mkTicket keyName iv (Some (splitKeys (makeUniqueKeys (keySource_ key) saltptr))),
         record (RecordTLSTicket encrypt true) m)
    end.

(** [callback]: the manager is found in the ex data of the [SSL_CTX]. *)
Definition callback (manager : option TLSTicketKeyManager) (rand32 : nat -> nat)
    (salt freshIv keyName iv : list byte) (encrypt : bool) : res (Z * TicketContext * TLSTicketKeyManager) :=
  match manager with
  | None => Err (CheckFailed "Null TLSTicketKeyManager in callback")
  | Some m => Ok (processTicket rand32 salt freshIv keyName iv encrypt m)
  end.
End manager.
