(* ===== verification/TicketProps.v ===== *)
(** * TLS ticket keys: the properties

    What [setTLSTicketKeySeeds] leaves in the manager, whatever was there
    before ([loaded]), and from it: tickets survive every rotation that
    [isValidRotation] accepts, which keys encrypt and which decrypt, and the
    seeds that are read back. *)
From Stdlib Require Import ZArith Lia NArith Strings.Byte.
From stdpp Require Import base numbers list gmap strings.
From S2P Require Import Prelude Buffers Tickets.
Open Scope cpp_scope.

Set Default Goal Selector "!".

(** ** Seeds *)

Lemma areSeedsSubset_spec l r :
  areSeedsSubset l r = true <-> length l <= length r /\ l ⊆ r.
Proof.
  unfold areSeedsSubset. destruct (Nat.ltb_spec (length r) (length l)) as [Hlt|Hle].
  - split; [done|lia].
  - rewrite forallb_forall. split.
    + intros H. split; [done|]. intros x Hx.
      assert (Hin : In x (elements (list_to_set l : gset (list byte)))).
      { apply list_elem_of_In, elem_of_elements. by apply elem_of_list_to_set. }
      specialize (H x Hin). by rewrite bool_decide_eq_true, elem_of_list_to_set in H.
    + intros [_ H] x Hx. apply list_elem_of_In, elem_of_elements, elem_of_list_to_set in Hx.
      apply bool_decide_eq_true, elem_of_list_to_set. by apply H.
Qed.

Section manager.
Context (SHA256 : list byte -> list byte).
Context (unhexlify : list byte -> option (list byte)) (hexlify : list byte -> option (list byte)).
Context (indeterminate : list byte).

#[local] Abbreviation setSeeds := (setTLSTicketKeySeeds SHA256 unhexlify hexlify indeterminate).
#[local] Abbreviation addSeed := (addSeed SHA256 unhexlify indeterminate).

(** The name and the key of a decoded seed. *)
Definition baseName (x : list byte) : list byte :=
  take kTLSTicketKeyNameLen (SHA256 (SHA256 x ++ leBytes 4 1)).
Definition keyOf (t : TLSTicketSeedType) (x : list byte) : TLSTicketKeySource :=
  mkKey 1 (baseName x) t (SHA256 x).

Definition decoded (l : list (list byte)) : list (list byte) := omap unhexlify l.
Definition entriesOf (t : TLSTicketSeedType) (l : list (list byte)) := pair t <$> decoded l.
Definition entries (s : TLSTicketKeySeeds) : list (TLSTicketSeedType * list byte) :=
  entriesOf SEED_OLD (oldSeeds s) ++ entriesOf SEED_CURRENT (currentSeeds s) ++
  entriesOf SEED_NEW (newSeeds s).
Definition allSeeds (s : TLSTicketKeySeeds) : list (list byte) := (entries s).*2.

(** The key under a name: that of the first seed with the name. *)
Fixpoint firstNamed (name : list byte) (l : list (TLSTicketSeedType * list byte)) :
    option TLSTicketKeySource :=
  match l with
  | [] => None
  | (t, x) :: l => if decide (baseName x = name) then Some (keyOf t x) else firstNamed name l
  end.

Lemma firstNamed_app name l1 l2 :
  firstNamed name (l1 ++ l2) =
    match firstNamed name l1 with Some k => Some k | None => firstNamed name l2 end.
Proof. induction l1 as [|[t x] l1 IH]; [done|]. simpl. by case_decide. Qed.

Lemma firstNamed_Some name l k :
  firstNamed name l = Some k -> exists t x, (t, x) ∈ l /\ k = keyOf t x /\ baseName x = name.
Proof.
  induction l as [|[t x] l IH]; [done|]. simpl. case_decide.
  - intros [= <-]. exists t, x. split; [by left|done].
  - intros (t' & x' & Hin & H')%IH. exists t', x'. split; [by right|done].
Qed.

Lemma firstNamed_elem t x l : (t, x) ∈ l -> is_Some (firstNamed (baseName x) l).
Proof.
  induction l as [|[t' x'] l IH]; [by intros ?%elem_of_nil|].
  intros [[= -> ->]|H]%elem_of_cons; simpl; [by rewrite decide_True|].
  case_decide; [done|]. by apply IH.
Qed.

Definition isCurrent (k : TLSTicketKeySource) : Prop := key_type_ k = SEED_CURRENT.
#[local] Instance isCurrent_dec k : Decision (isCurrent k).
Proof. unfold isCurrent. apply _. Defined.

Definition activeOf (l : list (TLSTicketSeedType * list byte)) : list TLSTicketKeySource :=
  filter isCurrent (omap (fun e => firstNamed (baseName e.2) l) l).

(** The manager holds the seeds [l]. *)
Definition loaded (l : list (TLSTicketSeedType * list byte)) (m : TLSTicketKeyManager) : Prop :=
  ticketSeeds_ m = (fun e => mkSeed e.2 e.1 (SHA256 e.2)) <$> l /\
  (forall name, ticketKeys_ m !! name = firstNamed name l) /\
  activeKeys_ m = activeOf l.

Lemma activeOf_snoc t x l :
  activeOf (l ++ [(t, x)]) =
    activeOf l ++ filter isCurrent (option_list (firstNamed (baseName x) (l ++ [(t, x)]))).
Proof.
  unfold activeOf. rewrite omap_app, filter_app. f_equal.
  f_equal. apply list_omap_ext, Forall2_same_length_lookup_2; [done|].
  intros i [t1 x1] [t2 x2] H1 H2. simplify_eq. simpl.
  rewrite firstNamed_app. by apply list_elem_of_lookup_2, firstNamed_elem in H1 as [k ->].
Qed.

Lemma addSeed_Some t m seedInput x :
  unhexlify seedInput = Some x ->
  let key := default (keyOf t x) (ticketKeys_ m !! baseName x) in
  addSeed t m seedInput =
    mkManager (ticketSeeds_ m ++ [mkSeed x t (SHA256 x)])
      (if ticketKeys_ m !! baseName x is Some _ then ticketKeys_ m
       else <[baseName x := keyOf t x]> (ticketKeys_ m))
      (if bool_decide (key_type_ key = SEED_CURRENT) then activeKeys_ m ++ [key] else activeKeys_ m)
      (keyCallback m) (stats_ m).
Proof.
  intros E. unfold Tickets.addSeed, insertSeed. rewrite E. unfold insertNewKey.
  change (makeKeyName SHA256 (mkSeed x t (SHA256 x)) (Z.of_nat 1)) with (baseName x).
  cbn [ticketKeys_]. by destruct (ticketKeys_ m !! baseName x).
Qed.

Lemma addSeed_loaded t m seedInput l :
  loaded l m -> loaded (l ++ entriesOf t [seedInput]) (addSeed t m seedInput).
Proof.
  intros (H1 & H2 & H3). unfold entriesOf, decoded. cbn [omap list_omap].
  destruct (unhexlify seedInput) as [x|] eqn:E.
  2: { unfold Tickets.addSeed, insertSeed. rewrite E. simpl. by rewrite app_nil_r. }
  rewrite (addSeed_Some t m seedInput x E), H2. cbn [fmap list_fmap].
  pose proof (firstNamed_app (baseName x) l [(t, x)]) as Happ. simpl in Happ. rewrite decide_True in Happ by done.
  split; [by rewrite fmap_app, <- H1|]. split.
  - intros name. cbn [ticketKeys_]. rewrite firstNamed_app. simpl.
    destruct (firstNamed (baseName x) l) as [k|] eqn:Ek.
    + rewrite H2. destruct (firstNamed name l) eqn:En; [done|].
      rewrite decide_False; [done|]. intros <-. by rewrite Ek in En.
    + case_decide as Hn.
      * subst name. rewrite Ek. by rewrite lookup_insert_eq.
      * rewrite lookup_insert_ne by done. rewrite H2. by destruct (firstNamed name l).
  - cbn [activeKeys_]. rewrite activeOf_snoc, Happ, H3.
    destruct (firstNamed (baseName x) l) as [k|]; simpl; unfold filter; simpl; unfold isCurrent;
      case_bool_decide; case_decide; by rewrite ?app_nil_r.
Qed.

Lemma addSeeds_loaded t inputs : forall m l,
  loaded l m -> loaded (l ++ entriesOf t inputs) (foldl (addSeed t) m inputs).
Proof.
  induction inputs as [|i inputs IH]; intros m l Hm; simpl; [by rewrite app_nil_r|].
  pose proof (IH _ _ (addSeed_loaded t m i l Hm)) as H.
  assert (E : l ++ entriesOf t (i :: inputs) = (l ++ entriesOf t [i]) ++ entriesOf t inputs); [|by rewrite E].
  rewrite <- app_assoc. f_equal. unfold entriesOf, decoded. simpl. by destruct (unhexlify i).
Qed.

Lemma setSeeds_loaded s m : loaded (entries s) (setSeeds s m).2.
Proof.
  unfold setTLSTicketKeySeeds. simpl.
  set (m0 := mkManager [] ∅ [] _ _).
  assert (H0 : loaded [] m0) by (split; [done|]; split; [intros name; apply lookup_empty|done]).
  pose proof (addSeeds_loaded SEED_NEW (newSeeds s) _ _
    (addSeeds_loaded SEED_CURRENT (currentSeeds s) _ _
      (addSeeds_loaded SEED_OLD (oldSeeds s) _ _ H0))) as (H1 & H2 & H3).
  unfold entries. rewrite app_nil_l, <- app_assoc in *. by split.
Qed.

Lemma elem_of_entriesOf t t' x l : (t, x) ∈ entriesOf t' l <-> t = t' /\ x ∈ decoded l.
Proof.
  unfold entriesOf. rewrite list_elem_of_fmap. split.
  - by intros (y & [= -> ->] & H).
  - intros [-> H]. eauto.
Qed.

Lemma elem_of_entries t x s : (t, x) ∈ entries s <-> x ∈ decoded (seedList s t).
Proof.
  unfold entries. rewrite !elem_of_app, !elem_of_entriesOf. destruct t; naive_solver.
Qed.

(** ** Names *)

(** No two different seeds of a list have keys of the same name. *)
Definition collisionFree (l : list (list byte)) : Prop :=
  forall x y, x ∈ l -> y ∈ l -> baseName x = baseName y -> x = y.

Lemma elem_of_allSeeds t x s : (t, x) ∈ entries s -> x ∈ allSeeds s.
Proof. intros H. apply list_elem_of_fmap. by exists (t, x). Qed.

Lemma firstNamed_free s x :
  collisionFree (allSeeds s) -> x ∈ allSeeds s ->
  exists t, firstNamed (baseName x) (entries s) = Some (keyOf t x).
Proof.
  intros Hfree Hx. pose proof Hx as ([t y] & -> & Hin)%list_elem_of_fmap.
  destruct (firstNamed_elem t y (entries s) Hin) as [k Hk]. simpl in *.
  apply firstNamed_Some in Hk as Hk'. destruct Hk' as (t' & x' & Hin' & -> & Hname).
  exists t'. rewrite Hk. repeat f_equal. apply Hfree; [by eapply elem_of_allSeeds|done|done].
Qed.

(** What an active key is. *)
Lemma active_key s m k :
  k ∈ activeKeys_ (setSeeds s m).2 ->
  exists x, x ∈ decoded (currentSeeds s) /\ k = keyOf SEED_CURRENT x /\
    ticketKeys_ (setSeeds s m).2 !! baseName x = Some k.
Proof.
  destruct (setSeeds_loaded s m) as (_ & H2 & H3). rewrite H3. unfold activeOf.
  intros [Hc ([t y] & Hin & Hk)%list_elem_of_omap]%list_elem_of_filter. simpl in Hk.
  pose proof Hk as (t' & x & Hin' & -> & Hname)%firstNamed_Some. unfold isCurrent in Hc. simpl in Hc.
  subst t'. exists x. split; [by apply elem_of_entries in Hin'|]. split; [done|]. by rewrite H2, Hname.
Qed.

(** What a call that encrypts a ticket does. *)
Lemma encrypts rand32 salt freshIv keyName iv m ticket m' :
  processTicket SHA256 rand32 salt freshIv keyName iv true m = (1%Z, ticket, m') ->
  exists k, k ∈ activeKeys_ m /\
    tc_keyName ticket = take kTLSTicketKeyNameLen (keyName_ k) ++ take kTLSTicketKeySaltLen salt ++
      drop (kTLSTicketKeyNameLen + kTLSTicketKeySaltLen) keyName /\
    tc_keys ticket = Some (splitKeys (makeUniqueKeys SHA256 (keySource_ k) salt)).
Proof.
  unfold processTicket, findEncryptionKey. destruct (Nat.ltb_spec 0 (length (activeKeys_ m))); [|done].
  destruct (activeKeys_ m !! _) as [k|] eqn:E; [|done]. intros [= <- <-].
  exists k. split; [|done]. by apply list_elem_of_lookup_2 in E.
Qed.

(** Every seed that encrypted is among the seeds after a valid rotation. *)
Lemma rotation_keeps s1 s2 x :
  isValidRotation s1 s2 = true -> x ∈ decoded (currentSeeds s1) -> x ∈ allSeeds s2.
Proof.
  intros Hvalid Hx. unfold decoded in Hx. apply list_elem_of_omap in Hx as (h & Hh & Eh).
  unfold isValidRotation in Hvalid. rewrite !orb_true_iff, !andb_true_iff, !areSeedsSubset_spec in Hvalid.
  assert (Hcase : h ∈ oldSeeds s2 \/ h ∈ currentSeeds s2).
  { destruct Hvalid as [[[He _]|[_ [_ Hsub]]]|[[_ [_ Hsub]] _]]; [exfalso|left; by apply Hsub|right; by apply Hsub].
    unfold isEmpty in He. rewrite !andb_true_iff, !bool_decide_eq_true in He.
    destruct He as [[_ He] _]. rewrite He in Hh. by apply elem_of_nil in Hh. }
  destruct Hcase as [Hin|Hin].
  - apply (elem_of_allSeeds SEED_OLD), elem_of_entries. apply list_elem_of_omap. eauto.
  - apply (elem_of_allSeeds SEED_CURRENT), elem_of_entries. apply list_elem_of_omap. eauto.
Qed.

(** C12. Tickets survive rotation.  A ticket issued under the seeds [s1] is
    accepted, with the very keys it was protected with, by every manager with
    the seeds [s2], when [isValidRotation] accepts the rotation and no two
    seeds of [s2] share a key name. *)
Theorem ticket_survives_rotation (s1 s2 : TLSTicketKeySeeds) (m m' before' : TLSTicketKeyManager)
    (rand32 rand32' : nat -> nat) (salt freshIv keyName iv salt' freshIv' : list byte)
    (ticket : TicketContext) :
  let before := (setSeeds s1 m).2 in
  let after := (setSeeds s2 m').2 in
  (forall l, length (SHA256 l) = SHA256_DIGEST_LENGTH) -> length salt = kTLSTicketKeySaltLen ->
  isValidRotation s1 s2 = true -> collisionFree (allSeeds s2) ->
  processTicket SHA256 rand32 salt freshIv keyName iv true before = (1%Z, ticket, before') ->
  is_Some (tc_keys ticket) /\
  exists after', processTicket SHA256 rand32' salt' freshIv' (tc_keyName ticket) (tc_iv ticket) false after =
    (1%Z, ticket, after').
Proof.
  intros before after Hsha Hsalt Hvalid Hfree Hp.
  apply encrypts in Hp as (k & Hk & Hname & Hkeys). split; [by rewrite Hkeys|].
  apply active_key in Hk as (x & Hx & -> & _). cbn [keyName_ keySource_ keyOf] in Hname, Hkeys.
  assert (Hlen : length (baseName x) = 4) by (unfold baseName; by rewrite length_take, Hsha).
  destruct (firstNamed_free s2 x Hfree (rotation_keeps s1 s2 x Hvalid Hx)) as [t Ht].
  destruct (setSeeds_loaded s2 m') as (_ & H2 & _). fold after in H2.
  rewrite (take_ge (baseName x)) in Hname by (rewrite Hlen; done).
  unfold processTicket, findDecryptionKey. rewrite Hname.
  rewrite take_app_length' by done. rewrite H2, Ht. cbn [keySource_ keyOf].
  rewrite drop_app_length' by done. eexists. rewrite <- Hname.
  assert (Hu : makeUniqueKeys SHA256 (SHA256 x) (take kTLSTicketKeySaltLen salt ++
      drop (kTLSTicketKeyNameLen + kTLSTicketKeySaltLen) keyName) = makeUniqueKeys SHA256 (SHA256 x) salt).
  { unfold makeUniqueKeys. rewrite (take_ge salt) by lia. by rewrite take_app_length' by done. }
  rewrite Hu, <- Hkeys. destruct ticket. reflexivity.
Qed.

(** The type of the key of a seed: that of the first list it is in. *)
Definition typeOf (s : TLSTicketKeySeeds) (x : list byte) : TLSTicketSeedType :=
  if decide (x ∈ decoded (oldSeeds s)) then SEED_OLD
  else if decide (x ∈ decoded (currentSeeds s)) then SEED_CURRENT else SEED_NEW.

Lemma firstNamed_entriesOf t x l r :
  (forall y, y ∈ decoded l -> baseName x = baseName y -> x = y) ->
  firstNamed (baseName x) (entriesOf t l ++ r) =
    if decide (x ∈ decoded l) then Some (keyOf t x) else firstNamed (baseName x) r.
Proof.
  unfold entriesOf. generalize (decoded l). intros ys Hys. induction ys as [|y ys IH].
  - rewrite decide_False; [done|]. by intros ?%elem_of_nil.
  - rewrite fmap_cons. cbn [app firstNamed]. rewrite IH by (intros z Hz; apply Hys; by right).
    destruct (decide (baseName y = baseName x)) as [E|E].
    + assert (x = y) as ->; [|by rewrite decide_True by (by left)]. apply Hys; [by left|done].
    + apply decide_ext. rewrite elem_of_cons. split; [by right|]. by intros [->|?].
Qed.

Lemma firstNamed_typeOf s x :
  collisionFree (allSeeds s) -> x ∈ allSeeds s ->
  firstNamed (baseName x) (entries s) = Some (keyOf (typeOf s x) x).
Proof.
  intros Hfree Hx.
  assert (Hin : forall t y, y ∈ decoded (seedList s t) -> baseName x = baseName y -> x = y).
  { intros t y Hy. apply Hfree; [done|]. by apply (elem_of_allSeeds t), elem_of_entries. }
  unfold entries, typeOf. rewrite (firstNamed_entriesOf SEED_OLD) by apply (Hin SEED_OLD).
  case_decide; [done|]. rewrite (firstNamed_entriesOf SEED_CURRENT) by apply (Hin SEED_CURRENT).
  case_decide; [done|]. rewrite <- (app_nil_r (entriesOf SEED_NEW _)).
  rewrite (firstNamed_entriesOf SEED_NEW) by apply (Hin SEED_NEW). rewrite decide_True; [done|].
  apply list_elem_of_fmap in Hx as ([t y] & -> & Hy%elem_of_entries). by destruct t.
Qed.

(** The keys of a manager, whatever it held before, when no two seeds
    share a key name: every seed that decodes has its key for decryption;
    exactly the current seeds that are not old ones as well encrypt; and when
    there is no such seed, and only then, [setTLSTicketKeySeeds] returns false
    and takes its callback off the [SSL_CTX]. *)
Lemma setSeeds_keys (s : TLSTicketKeySeeds) (m : TLSTicketKeyManager) :
  let m' := (setSeeds s m).2 in
  collisionFree (allSeeds s) ->
  (forall name k, ticketKeys_ m' !! name = Some k <->
     exists x, x ∈ allSeeds s /\ name = baseName x /\ k = keyOf (typeOf s x) x) /\
  (forall k, k ∈ activeKeys_ m' <->
     exists x, x ∈ decoded (currentSeeds s) /\ x ∉ decoded (oldSeeds s) /\ k = keyOf SEED_CURRENT x) /\
  ((setSeeds s m).1 = true <-> exists x, x ∈ decoded (currentSeeds s) /\ x ∉ decoded (oldSeeds s)) /\
  keyCallback m' = (setSeeds s m).1.
Proof.
  intros m' Hfree. destruct (setSeeds_loaded s m) as (_ & H2 & H3). fold m' in H2, H3.
  assert (Hkeys : forall name k, ticketKeys_ m' !! name = Some k <->
     exists x, x ∈ allSeeds s /\ name = baseName x /\ k = keyOf (typeOf s x) x).
  { intros name k. rewrite H2. split.
    - intros Hk. apply firstNamed_Some in Hk as Hk'. destruct Hk' as (t & x & Hin%elem_of_allSeeds & -> & <-).
      exists x. rewrite (firstNamed_typeOf s x Hfree Hin) in Hk. by simplify_eq.
    - intros (x & Hx & -> & ->). by apply firstNamed_typeOf. }
  assert (Hactive : forall k, k ∈ activeKeys_ m' <->
     exists x, x ∈ decoded (currentSeeds s) /\ x ∉ decoded (oldSeeds s) /\ k = keyOf SEED_CURRENT x).
  { intros k. rewrite H3. unfold activeOf. rewrite list_elem_of_filter, list_elem_of_omap. split.
    - intros [Hc ([t x] & Hin%elem_of_allSeeds & Hk)]. simpl in Hk.
      rewrite (firstNamed_typeOf s x Hfree Hin) in Hk. simplify_eq. unfold isCurrent, typeOf in *. simpl in Hc.
      exists x. case_decide; [done|]. by case_decide.
    - intros (x & Hx & Hno & ->). split; [done|]. exists (SEED_CURRENT, x).
      assert (Hin : (SEED_CURRENT, x) ∈ entries s) by by apply elem_of_entries.
      split; [done|]. simpl. rewrite (firstNamed_typeOf s x Hfree (elem_of_allSeeds _ _ _ Hin)).
      unfold typeOf. by rewrite decide_False, decide_True. }
  split; [done|]. split; [done|]. split; [|done].
  change (setSeeds s m).1 with (negb ((size (ticketKeys_ m') =? 0) || (length (activeKeys_ m') =? 0))).
  rewrite negb_true_iff, orb_false_iff, !Nat.eqb_neq. split.
  - intros [_ Hlen]. destruct (activeKeys_ m') as [|k l] eqn:El; [done|].
    destruct (proj1 (Hactive k)) as (x & Hx & Hno & _); [by left|]. eauto.
  - intros (x & Hx & Hno). split.
    + rewrite map_size_non_empty_iff. intros He.
      assert (Hin : x ∈ allSeeds s) by by apply (elem_of_allSeeds SEED_CURRENT), elem_of_entries.
      pose proof (proj2 (Hkeys (baseName x) _) (ex_intro _ x (conj Hin (conj eq_refl eq_refl)))) as Hl.
      by rewrite He, lookup_empty in Hl.
    + intros Hlen%length_zero_iff_nil.
      pose proof (proj2 (Hactive (keyOf SEED_CURRENT x)) ltac:(eauto)) as Hl.
      rewrite Hlen in Hl. by apply elem_of_nil in Hl.
Qed.

(** ** Reading the seeds back *)

Lemma foldl_stats types s : forall m,
  stats_ (foldl (fun m type => foldl (addSeed type) m (seedList s type)) m types) = stats_ m.
Proof.
  assert (H1 : forall t m i, stats_ (addSeed t m i) = stats_ m).
  { intros t m i. unfold Tickets.addSeed, insertSeed. destruct (unhexlify i) as [x|]; [|done].
    unfold insertNewKey. by destruct (ticketKeys_ _ !! _). }
  assert (H2 : forall t l m, stats_ (foldl (addSeed t) m l) = stats_ m).
  { intros t l. induction l as [|i l IH]; intros m; [done|]. simpl. by rewrite IH, H1. }
  induction types as [|t types IH]; intros m; [done|]. simpl. by rewrite IH, H2.
Qed.

Lemma setSeeds_stats s m : stats_ (setSeeds s m).2 = stats_ (recordTlsTicketRotation hexlify s m).
Proof. unfold setTLSTicketKeySeeds. cbn [snd stats_]. by rewrite foldl_stats. Qed.

(** A seed in the form [hexlify] prints. *)
Definition canonical (h : list byte) : Prop :=
  exists x, unhexlify h = Some x /\ hexlify x = Some h.

Definition appendSeeds (t : TLSTicketSeedType) (l : list (list byte)) (s : TLSTicketKeySeeds) :
    TLSTicketKeySeeds :=
  match t with
  | SEED_OLD => mkSeeds (oldSeeds s ++ l) (currentSeeds s) (newSeeds s)
  | SEED_CURRENT => mkSeeds (oldSeeds s) (currentSeeds s ++ l) (newSeeds s)
  | SEED_NEW => mkSeeds (oldSeeds s) (currentSeeds s) (newSeeds s ++ l)
  end.

Definition getStep (acc : bool * TLSTicketKeySeeds) (seed : TLSTicketSeed) : bool * TLSTicketKeySeeds :=
  match hexlify (seed_ seed) with
  | None => (false, acc.2)
  | Some h => (acc.1, appendSeeds (seed_type_ seed) [h] acc.2)
  end.

Lemma getSeeds_foldl m :
  getTLSTicketKeySeeds hexlify m = foldl getStep (true, mkSeeds [] [] []) (ticketSeeds_ m).
Proof.
  unfold getTLSTicketKeySeeds. generalize (true, mkSeeds [] [] []).
  induction (ticketSeeds_ m) as [|seed l IH]; intros [b acc]; [done|]. cbn [foldl]. rewrite IH. f_equal.
Qed.

Lemma get_entriesOf t hs : forall acc,
  Forall canonical hs ->
  foldl getStep (true, acc) ((fun e => mkSeed e.2 e.1 (SHA256 e.2)) <$> entriesOf t hs) =
    (true, appendSeeds t hs acc).
Proof.
  unfold entriesOf, decoded. induction hs as [|h hs IH]; intros acc Hc.
  - destruct acc, t; simpl; by rewrite app_nil_r.
  - apply Forall_cons in Hc as [(x & Ex & Eh) Hc]. cbn [omap list_omap]. rewrite Ex, !fmap_cons.
    cbn [foldl]. unfold getStep at 2. simpl seed_. rewrite Eh. rewrite IH by done. f_equal.
    destruct acc, t; simpl; by rewrite <- app_assoc.
Qed.

Lemma areSeedsSubset_refl l : areSeedsSubset l l = true.
Proof. by apply areSeedsSubset_spec. Qed.

Lemma getSeeds_set s m :
  Forall canonical (oldSeeds s ++ currentSeeds s ++ newSeeds s) ->
  getTLSTicketKeySeeds hexlify (setSeeds s m).2 = (true, s).
Proof.
  rewrite !Forall_app. intros (Ho & Hc & Hn).
  rewrite getSeeds_foldl. destruct (setSeeds_loaded s m) as (H1 & _). rewrite H1.
  unfold entries. rewrite !fmap_app, !foldl_app, !get_entriesOf by done. by destruct s.
Qed.

(** The keys are those of the seeds, whatever the manager held before. *)
Lemma setSeeds_same s m1 m2 :
  ticketKeys_ (setSeeds s m1).2 = ticketKeys_ (setSeeds s m2).2 /\
  activeKeys_ (setSeeds s m1).2 = activeKeys_ (setSeeds s m2).2.
Proof.
  destruct (setSeeds_loaded s m1) as (_ & H1 & H2), (setSeeds_loaded s m2) as (_ & H3 & H4).
  rewrite H2, H4. split; [|done]. apply map_eq. intros name. by rewrite H1, H3.
Qed.

Lemma processTicket_keys rand32 salt freshIv keyName iv encrypt m1 m2 :
  ticketKeys_ m1 = ticketKeys_ m2 -> activeKeys_ m1 = activeKeys_ m2 ->
  (processTicket SHA256 rand32 salt freshIv keyName iv encrypt m1).1 =
  (processTicket SHA256 rand32 salt freshIv keyName iv encrypt m2).1.
Proof.
  intros Hk Ha. unfold processTicket, findEncryptionKey, findDecryptionKey. rewrite Hk, Ha.
  repeat case_goal; naive_solver.
Qed.

(** The seeds of the configuration, when they are printed the way
    [hexlify] prints them, are read back as they were, whatever they are and
    whatever the manager held before; and setting them again is recorded as a
    valid rotation. *)
Lemma seeds_read_back (s : TLSTicketKeySeeds) (m : TLSTicketKeyManager) :
  Forall canonical (oldSeeds s ++ currentSeeds s ++ newSeeds s) ->
  let m' := (setSeeds s m).2 in
  getTLSTicketKeySeeds hexlify m' = (true, s) /\
  (forall l, stats_ m' = Some l ->
     stats_ (setSeeds s m').2 = Some (l ++ [RecordTLSTicketRotation true])).
Proof.
  intros Hs m'. pose proof (getSeeds_set s m Hs) as Hget. fold m' in Hget.
  split; [done|]. intros l Hl. rewrite setSeeds_stats. unfold recordTlsTicketRotation.
  rewrite Hl, Hget. cbn [snd]. unfold record. cbn [stats_]. rewrite Hl. simpl.
  unfold isValidRotation. rewrite !areSeedsSubset_refl. by rewrite !orb_true_r.
Qed.
End manager.

(** ** Witnesses: a hash that pads to 32 bytes, and seeds printed as they are *)

Definition padHash (l : list byte) : list byte := take 32 (l ++ repeat x00 32).

Lemma padHash_length l : length (padHash l) = SHA256_DIGEST_LENGTH.
Proof. unfold padHash. rewrite length_take, length_app, repeat_length. unfold SHA256_DIGEST_LENGTH. lia. Qed.

Lemma collisionFree_decide (H : list byte -> list byte) l :
  forallb (fun x => forallb (fun y => negb (bool_decide (baseName H x = baseName H y)) || bool_decide (x = y)) l) l = true ->
  collisionFree H l.
Proof.
  rewrite forallb_forall. intros Hb x y Hx Hy E. apply list_elem_of_In in Hx, Hy.
  specialize (Hb x Hx). rewrite forallb_forall in Hb. specialize (Hb y Hy).
  rewrite (bool_decide_true _ E) in Hb. simpl in Hb. by apply bool_decide_eq_true in Hb.
Qed.

Definition seedsBefore : TLSTicketKeySeeds := mkSeeds [[x61]] [[x62]] [[x63]].
Definition seedsAfter : TLSTicketKeySeeds := mkSeeds [[x62]] [[x63]] [[x64]].
Definition someSalt : list byte := repeat x2a 12.

Definition issued : Z * TicketContext * TLSTicketKeyManager :=
  processTicket padHash (fun _ => 0) someSalt [x01] (repeat x00 16) [] true
    (setTLSTicketKeySeeds padHash Some Some [] seedsBefore (newManager true)).2.

Lemma ticket_survives_rotation_witness :
  issued.1.1 = 1%Z /\
  exists after',
    processTicket padHash (fun _ => 0) [] [] (tc_keyName issued.1.2) (tc_iv issued.1.2) false
      (setTLSTicketKeySeeds padHash Some Some [] seedsAfter (newManager false)).2 =
    (1%Z, issued.1.2, after').
Proof.
  split; [vm_compute; reflexivity|].
  apply (ticket_survives_rotation padHash Some Some [] seedsBefore seedsAfter (newManager true)
    (newManager false) issued.2 (fun _ => 0) (fun _ => 0) someSalt [x01] (repeat x00 16) [] [] [] issued.1.2).
  - apply padHash_length.
  - reflexivity.
  - vm_compute. reflexivity.
  - apply collisionFree_decide. vm_compute. reflexivity.
  - vm_compute. reflexivity.
Defined.

Lemma setSeeds_keys_witness :
  (setTLSTicketKeySeeds padHash Some Some [] seedsBefore (newManager true)).1 = true.
Proof.
  pose proof (setSeeds_keys padHash Some Some [] seedsBefore (newManager true)) as H. cbv zeta in H.
  destruct H as (_ & _ & Hr & _).
  - apply collisionFree_decide. vm_compute. reflexivity.
  - apply Hr. exists [x62]. split; [by left|]. vm_compute. intros Hin. inversion Hin as [|? ? ? Hin']. inversion Hin'.
Defined.

Lemma seeds_read_back_witness :
  getTLSTicketKeySeeds Some (setTLSTicketKeySeeds padHash Some Some [] seedsBefore (newManager true)).2 =
    (true, seedsBefore).
Proof.
  apply (seeds_read_back padHash Some Some [] seedsBefore (newManager true)).
  repeat (constructor; [by eexists|]). constructor.
Defined.
