(* ===== verification/Dispatch.v ===== *)
(** * Services: dispatchers and filters (src/wangle/service)

    The server dispatchers that answer requests of a pipeline, the client
    dispatchers that turn a pipeline into a service, and the two filters that
    close a service.

    A service is asynchronous: its future is completed later, with a value or
    with an exception, in any order.  A run is a sequence of events; an event
    that cannot happen (a future completed twice) leaves the state alone. *)
From Stdlib Require Import ZArith Lia.
From stdpp Require Import base numbers list gmap strings.
From S2P Require Import Prelude.
Open Scope cpp_scope.

Set Default Goal Selector "!".

(** ** Server dispatchers *)

Section server.
Context {Req Resp : Type}.

(** [SerialServerDispatcher::read]: [get()] waits for the future and throws
    its exception; the result is what is written. *)
Definition SerialServer_read (service : Req -> res Resp) (inb : Req) : res Resp :=
  try! resp := service inb in Ok resp.

(** [MultiplexServerDispatcher::read]: what is written when the future is
    completed. *)
Definition MultiplexServer_then (r : option Resp) (written : list Resp) : list Resp :=
  match r with
  | Some resp => written ++ [resp]
  | None => written
  end.

(** [PipelinedServerDispatcher], and what it wrote to its context. *)
Record PipelinedServerDispatcher : Type := mkPipelinedServer {
  requestId_ : Z;
  responses_ : gmap Z Resp;
  lastWrittenId_ : Z;
  written : list Resp
}.
Definition newPipelinedServer : PipelinedServerDispatcher := mkPipelinedServer 1 ∅ 0 [].

(** [read]: the id given to the request. *)
Definition PipelinedServer_read (d : PipelinedServerDispatcher) : Z * PipelinedServerDispatcher :=
  (requestId_ d,
   mkPipelinedServer (u32 (requestId_ d + 1)) (responses_ d) (lastWrittenId_ d) (written d)).

(** [sendResponses]; every round erases a response. *)
Fixpoint sendLoop (fuel : nat) (d : PipelinedServerDispatcher) : PipelinedServerDispatcher :=
  match fuel with
  | O => d
  | S fuel =>
      let next := u32 (lastWrittenId_ d + 1) in
      match responses_ d !! next with
      | None => d
      | Some resp =>
          sendLoop fuel (mkPipelinedServer (requestId_ d) (delete next (responses_ d))
                           next (written d ++ [resp]))
      end
  end.
Definition sendResponses (d : PipelinedServerDispatcher) : PipelinedServerDispatcher :=
  sendLoop (S (size (responses_ d))) d.

(** The continuation of [read]: it takes a [Resp&], so that it is not called
    for an exception. *)
Definition PipelinedServer_then (requestId : Z) (r : option Resp) (d : PipelinedServerDispatcher) :
    PipelinedServerDispatcher :=
  match r with
  | Some resp =>
      sendResponses (mkPipelinedServer (requestId_ d) (<[requestId := resp]> (responses_ d))
                       (lastWrittenId_ d) (written d))
  | None => d
  end.

(** The dispatcher with the futures it is waiting for: for each request, its
    id and the outcome, when there is one. *)
Record Server : Type := mkServer {
  dispatcher : PipelinedServerDispatcher;
  ids : list Z;
  outcomes : list (option (option Resp))
}.
Inductive ServerEvent : Type :=
| Request
| Complete (k : nat) (r : option Resp).

Definition serverStep (s : Server) (e : ServerEvent) : Server :=
  match e with
  | Request =>
      let (id, d) := PipelinedServer_read (dispatcher s) in
      mkServer d (ids s ++ [id]) (outcomes s ++ [None])
  | Complete k r =>
      match ids s !! k, outcomes s !! k with
      | Some id, Some None =>
          mkServer (PipelinedServer_then id r (dispatcher s)) (ids s) (<[k := Some r]> (outcomes s))
      | _, _ => s
      end
  end.
Definition newServer : Server := mkServer newPipelinedServer [] [].
Definition serve (events : list ServerEvent) : Server := foldl serverStep newServer events.
End server.
Arguments PipelinedServerDispatcher : clear implicits.
Arguments Server : clear implicits.
Arguments ServerEvent : clear implicits.

(** ** Client dispatchers *)

Section client.
Context {Req Resp : Type}.

(** What the user of a dispatcher does when the [k]-th future is completed:
    the requests its continuation sends at once. *)
Context (continuation : nat -> Resp -> list Req).

(** A dispatcher with its outstanding promises, the requests written to the
    pipeline and the promises fulfilled.  Promises are numbered as they are
    made. *)
Record Client : Type := mkClient {
  p_ : list nat;
  promises : nat;
  requests : list Req;
  fulfilled : list (nat * Resp)
}.
Definition newClient : Client := mkClient [] 0 [] [].

(** [p_.push_back(std::move(p)); this->pipeline_->write(std::move(arg))] *)
Definition PipelinedClient_call (arg : Req) : M Client unit :=
  modify (fun c => mkClient (p_ c ++ [promises c]) (S (promises c)) (requests c ++ [arg]) (fulfilled c)).

(** [Promise::setValue] runs the continuation. *)
Definition setValue (call : Req -> M Client unit) (p : nat) (inb : Resp) : M Client unit :=
  do! modify (fun c => mkClient (p_ c) (promises c) (requests c) (fulfilled c ++ [(p, inb)])) in
  for_each (continuation p inb) call.

(** [PipelinedClientDispatcher::read]; without the DCHECK the front of an
    empty deque is undefined. *)
Definition PipelinedClient_read (inb : Resp) : M Client unit :=
  let! c := get in
  match p_ c with
  | [] => raise (Undefined "p_.front()")
  | p :: rest =>
      do! modify (fun c => mkClient rest (promises c) (requests c) (fulfilled c)) in
      setValue PipelinedClient_call p inb
  end.

(** [SerialClientDispatcher]: [p_] is an optional promise. *)
Definition SerialClient_call (arg : Req) : M Client unit :=
  let! c := get in
  match p_ c with
  | _ :: _ => raise (CheckFailed "!p_")
  | [] => modify (fun c => mkClient [promises c] (S (promises c)) (requests c ++ [arg]) (fulfilled c))
  end.

Definition SerialClient_read (inb : Resp) : M Client unit :=
  let! c := get in
  match p_ c with
  | [] => raise (Undefined "*p_")
  | p :: _ =>
      do! setValue SerialClient_call p inb in
      modify (fun c => mkClient [] (promises c) (requests c) (fulfilled c))
  end.

Inductive ClientEvent : Type :=
| Send (arg : Req)
| Receive (inb : Resp).
Definition clientStep (e : ClientEvent) : M Client unit :=
  match e with
  | Send arg => PipelinedClient_call arg
  | Receive inb => PipelinedClient_read inb
  end.
Definition received (events : list ClientEvent) : list Resp :=
  omap (fun e => match e with Receive inb => Some inb | Send _ => None end) events.
End client.
Arguments Client : clear implicits.
Arguments ClientEvent : clear implicits.

(** ** Filters *)

(** What the innermost service sees. *)
Inductive ServiceCall : Type := Served | Closed.

(** [CloseOnReleaseFilter] on a service. *)
Record CloseOnReleaseFilter : Type := mkCloseOnRelease {
  released : bool;
  service_ : list ServiceCall
}.

(** [operator()]: whether the request got to the service. *)
Definition CloseOnRelease_call (f : CloseOnReleaseFilter) : bool * CloseOnReleaseFilter :=
  if negb (released f) then (true, mkCloseOnRelease (released f) (service_ f ++ [Served]))
  else (false, f).
Definition CloseOnRelease_close (f : CloseOnReleaseFilter) : CloseOnReleaseFilter :=
  if negb (released f) then mkCloseOnRelease true (service_ f ++ [Closed]) else f.

(** [ExpiringFilter] in front of it.  [idleTimeout_] and [maxTimeout_] are true
    while the timer is running; a running timer whose future is assigned over
    is not cancelled: it is counted in [orphans].  [outstanding] is the number
    of futures the filter returned that are not completed. *)
Record ExpiringFilter : Type := mkExpiring {
  filtered : CloseOnReleaseFilter;
  idleTimeout_ : bool;
  maxTimeout_ : bool;
  idleTimeoutTime_ : Z;
  maxTime_ : Z;
  requests_ : Z;
  orphans : nat;
  outstanding : nat
}.

Definition startIdleTimer (f : ExpiringFilter) : ExpiringFilter :=
  if negb (requests_ f =? 0)%Z then f
  else if (0 <? idleTimeoutTime_ f)%Z then
    mkExpiring (filtered f) true (maxTimeout_ f) (idleTimeoutTime_ f) (maxTime_ f) (requests_ f)
      (if idleTimeout_ f then S (orphans f) else orphans f) (outstanding f)
  else f.

Definition newExpiring (idleTimeoutTime maxTime : Z) : ExpiringFilter :=
  startIdleTimer (mkExpiring (mkCloseOnRelease false []) false (0 <? maxTime)%Z
                    idleTimeoutTime maxTime 0 0 0).

(** [ServiceFilter::close] *)
Definition Expiring_close (f : ExpiringFilter) : ExpiringFilter :=
  mkExpiring (CloseOnRelease_close (filtered f)) (idleTimeout_ f) (maxTimeout_ f)
    (idleTimeoutTime_ f) (maxTime_ f) (requests_ f) (orphans f) (outstanding f).

(** The [ensure] of [operator()]. *)
Definition Expiring_ensure (f : ExpiringFilter) : ExpiringFilter :=
  startIdleTimer (mkExpiring (filtered f) (idleTimeout_ f) (maxTimeout_ f)
    (idleTimeoutTime_ f) (maxTime_ f) (u32 (requests_ f - 1)) (orphans f) (outstanding f - 1)).

(** [operator()]: a rejected request is completed at once. *)
Definition Expiring_call (f : ExpiringFilter) : ExpiringFilter :=
  let (ok, inner) := CloseOnRelease_call (filtered f) in
  let f := mkExpiring inner false (maxTimeout_ f) (idleTimeoutTime_ f) (maxTime_ f)
             (u32 (requests_ f + 1)) (orphans f) (S (outstanding f)) in
  if ok then f else Expiring_ensure f.

Inductive FilterEvent : Type := Call | Done | IdleFires | OrphanFires | MaxFires.

Definition filterStep (f : ExpiringFilter) (e : FilterEvent) : ExpiringFilter :=
  match e with
  | Call => Expiring_call f
  | Done => if outstanding f =? 0 then f else Expiring_ensure f
  | IdleFires =>
      if idleTimeout_ f then
        Expiring_close (mkExpiring (filtered f) false (maxTimeout_ f) (idleTimeoutTime_ f)
          (maxTime_ f) (requests_ f) (orphans f) (outstanding f))
      else f
  | OrphanFires =>
      if orphans f =? 0 then f
      else Expiring_close (mkExpiring (filtered f) (idleTimeout_ f) (maxTimeout_ f)
          (idleTimeoutTime_ f) (maxTime_ f) (requests_ f) (orphans f - 1) (outstanding f))
  | MaxFires =>
      if maxTimeout_ f then
        Expiring_close (mkExpiring (filtered f) (idleTimeout_ f) false (idleTimeoutTime_ f)
          (maxTime_ f) (requests_ f) (orphans f) (outstanding f))
      else f
  end.
Definition filterRun (f : ExpiringFilter) (events : list FilterEvent) : ExpiringFilter :=
  foldl filterStep f events.
