(* ===== verification/DispatchProps.v ===== *)
(** * Services: the properties

    Response order of the pipelined server dispatcher under every order of
    completion, the pairing of requests and responses by the client
    dispatchers with re-entrant continuations, and the closing filters. *)
From Stdlib Require Import ZArith Lia.
From stdpp Require Import base numbers list gmap strings.
From S2P Require Import Prelude Dispatch.
Open Scope cpp_scope.

Set Default Goal Selector "!".

(** ** Server *)

Section server.
Context {Resp : Type}.
Implicit Types (d : PipelinedServerDispatcher Resp) (s : Server Resp).

(** The responses that can be sent: those of the requests before the first
    one that is not answered with a value. *)
Fixpoint answered (l : list (option (option Resp))) : list Resp :=
  match l with
  | Some (Some r) :: l => r :: answered l
  | _ => []
  end.

Definition done_with (r : Resp) : option (option Resp) := Some (Some r).

Lemma answered_app w l : answered ((done_with <$> w) ++ l) = w ++ answered l.
Proof. induction w as [|r w IH]; [done|]. simpl. by rewrite <- IH. Qed.

(** The id of the [k]-th request, from 0. *)
Definition idOf (k : nat) : Z := u32 (Z.of_nat k + 1).

Lemma u32_succ z : u32 (u32 z + 1) = u32 (z + 1).
Proof. unfold u32, wrap. by rewrite Zplus_mod_idemp_l. Qed.

Lemma idOf_inj n i j :
  (Z.of_nat i < 2 ^ 32)%Z -> (Z.of_nat j < 2 ^ 32)%Z -> idOf (n + i) = idOf (n + j) -> i = j.
Proof.
  unfold idOf, u32, wrap. intros Hi Hj E.
  pose proof (Z.div_mod (Z.of_nat (n + i) + 1) (2 ^ 32) ltac:(lia)).
  pose proof (Z.div_mod (Z.of_nat (n + j) + 1) (2 ^ 32) ltac:(lia)). nia.
Qed.

(** The dispatcher has sent [w], and holds the responses of the outcomes
    [rest] of the requests after. *)
Definition holds d (rest : list (option (option Resp))) : Prop :=
  lastWrittenId_ d = u32 (Z.of_nat (length (written d))) /\
  forall id r, responses_ d !! id = Some r <->
    exists j, rest !! j = Some (done_with r) /\ id = idOf (length (written d) + j).

Lemma sendLoop_holds fuel : forall d rest,
  holds d rest -> (Z.of_nat (length rest) < 2 ^ 32)%Z -> size (responses_ d) < fuel ->
  let d' := sendLoop fuel d in
  written d' = written d ++ answered rest /\ requestId_ d' = requestId_ d /\
  holds d' (drop (length (answered rest)) rest).
Proof.
  induction fuel as [|fuel IH]; intros d rest Hh Hlen Hfuel; [lia|]. simpl.
  pose proof Hh as [Hlast Hresp]. rewrite Hlast, u32_succ. fold (idOf (length (written d))).
  pose proof (Hresp (idOf (length (written d)))) as Hhead.
  destruct (responses_ d !! idOf (length (written d))) as [r|] eqn:E.
  - destruct (proj1 (Hhead r) eq_refl) as (j & Hj & Eid).
    pose proof (lookup_lt_Some _ _ _ Hj) as Hjlt.
    assert (j = 0) as ->.
    { apply (idOf_inj (length (written d))); [lia|lia|]. by rewrite Nat.add_0_r. }
    destruct rest as [|x rest]; [done|]. simpl in Hj. injection Hj as ->.
    destruct (IH (mkPipelinedServer (requestId_ d)
      (delete (idOf (length (written d))) (responses_ d)) (idOf (length (written d))) (written d ++ [r])) rest)
      as (H1 & H2 & H3).
    + split; simpl.
      * rewrite length_app. unfold idOf. f_equal. simpl. lia.
      * intros id r'. rewrite length_app. simpl. rewrite lookup_delete_Some, Hresp. split.
        -- intros [Hne (j & Hj & ->)]. destruct j as [|j]; [by rewrite Nat.add_0_r in Hne|].
           exists j. split; [done|]. f_equal. lia.
        -- intros (j & Hj & ->). pose proof (lookup_lt_Some _ _ _ Hj). simpl in Hlen. split.
           ++ intros Eq. rewrite <- (Nat.add_0_r (length (written d))) in Eq at 1.
              rewrite <- Nat.add_assoc in Eq. apply idOf_inj in Eq; lia.
           ++ exists (S j). split; [done|]. f_equal. lia.
    + simpl in *. lia.
    + assert (size (responses_ d) <> 0).
      { intros Hz%map_size_empty_iff. by rewrite Hz, lookup_empty in E. }
      simpl. rewrite map_size_delete_Some by by eexists. lia.
    + rewrite H1. split; [|done]. simpl. by rewrite <- app_assoc.
  - assert (Hno : answered rest = []).
    { destruct rest as [|[[r|]|] rest]; [done| |done|done]. exfalso.
      enough (@None Resp = Some r) by done. apply Hhead. exists 0. by rewrite Nat.add_0_r. }
    rewrite Hno. simpl. by rewrite app_nil_r.
Qed.

(** The state of the dispatcher after some requests: the outcomes are those of
    the responses it sent and of the rest, of which the first is not there. *)
Definition inOrder s : Prop :=
  exists rest, outcomes s = (done_with <$> written (dispatcher s)) ++ rest /\ answered rest = [] /\
    holds (dispatcher s) rest /\
    requestId_ (dispatcher s) = u32 (Z.of_nat (length (outcomes s)) + 1) /\
    ids s = idOf <$> seq 0 (length (outcomes s)).

Definition unsent s : nat := length (outcomes s) - length (answered (outcomes s)).

Lemma inOrder_written s : inOrder s -> written (dispatcher s) = answered (outcomes s).
Proof. intros (rest & E & Hno & _). by rewrite E, answered_app, Hno, app_nil_r. Qed.

Lemma inOrder_request s : inOrder s -> inOrder (serverStep s Request).
Proof.
  intros (rest & E & Hno & [Hl Hr] & Hid & Hids). simpl. exists (rest ++ [None]).
  split_and!; simpl.
  - by rewrite E, <- app_assoc.
  - clear -Hno. induction rest as [|[[]|] rest IH]; simpl in *; try done.
  - split; [done|]. intros id r. rewrite Hr. split; intros (j & Hj & ->); exists j; (split; [|done]).
    + by apply lookup_app_l_Some.
    + apply lookup_app_Some in Hj as [?|[? Hj]]; [done|].
      destruct (j - length rest) as [|[|]]; simpl in Hj; by simplify_eq.
  - rewrite Hid, u32_succ, length_app. simpl. f_equal. lia.
  - rewrite Hids, Hid, length_app. simpl. by rewrite seq_app, fmap_app.
Qed.

Lemma answered_insert_None (rest : list (option (option Resp))) j :
  answered rest = [] -> rest !! j = Some None -> answered (<[j := Some None]> rest) = [].
Proof. intros Hno Hj. destruct rest as [|[[]|] rest], j; simpl in *; try done; by simplify_eq. Qed.

Lemma inOrder_complete s k r :
  inOrder s -> (Z.of_nat (unsent s) < 2 ^ 32)%Z -> inOrder (serverStep s (Complete k r)).
Proof.
  intros Hs Hbound. pose proof Hs as (rest & E & Hno & Hh & Hid & Hids). simpl.
  destruct (ids s !! k) as [id|] eqn:Ek; [|done].
  destruct (outcomes s !! k) as [[o|]|] eqn:Eo; [done| |done].
  assert (Eid : id = idOf k).
  { rewrite Hids, list_lookup_fmap in Ek. apply lookup_lt_Some in Eo as Hlt.
    rewrite lookup_seq_lt in Ek by done. simpl in Ek. by simplify_eq. }
  set (n := length (written (dispatcher s))).
  assert (Hk : exists j, k = n + j /\ rest !! j = Some None).
  { rewrite E in Eo. apply lookup_app_Some in Eo as [Eo|[Hge Eo]].
    - rewrite list_lookup_fmap in Eo. by destruct (written _ !! k).
    - rewrite length_fmap in Hge, Eo. exists (k - n). split; [unfold n; lia|done]. }
  destruct Hk as (j & -> & Hj). pose proof (lookup_lt_Some _ _ _ Hj) as Hjlt.
  assert (Eins : forall x, <[n + j := x]> (outcomes s) =
    (done_with <$> written (dispatcher s)) ++ <[j := x]> rest).
  { intros x. rewrite E, insert_app_r_alt by (rewrite length_fmap; unfold n; lia). f_equal. f_equal.
    rewrite length_fmap. unfold n. lia. }
  assert (Hlen : (Z.of_nat (length rest) < 2 ^ 32)%Z).
  { unfold unsent in Hbound. rewrite E, answered_app, Hno, app_nil_r, length_app, length_fmap in Hbound. lia. }
  destruct r as [r|]; simpl.
  2: { exists (<[j := Some None]> rest). simpl. rewrite Eins. split_and!; [done| | | |].
    - by apply answered_insert_None.
    - destruct Hh as [Hl Hr]. split; [done|]. intros i r. rewrite Hr.
      split; intros (j' & Hj' & ->); exists j'; (split; [|done]).
      + destruct (decide (j = j')) as [->|]; [by rewrite Hj in Hj'|]. by rewrite list_lookup_insert_ne.
      + apply list_lookup_insert_Some in Hj' as [(_ & [=] & _)|[_ ?]]. done.
    - by rewrite <- Eins, length_insert.
    - by rewrite <- Eins, length_insert. }
  set (d := mkPipelinedServer _ _ _ _). set (rest' := <[j := done_with r]> rest).
  assert (Hd : holds d rest').
  { destruct Hh as [Hl Hr]. split; [done|]. intros i r'. unfold d. simpl. fold n.
    rewrite lookup_insert_Some, Hr. fold n. subst id. split.
    - intros [[<- <-]|[Hne (j' & Hj' & ->)]].
      + exists j. split; [|done]. unfold rest'. by rewrite list_lookup_insert_eq.
      + exists j'. split; [|done]. unfold rest'. rewrite list_lookup_insert_ne; [done|]. by intros ->.
    - intros (j' & Hj' & ->). unfold rest' in Hj'.
      apply list_lookup_insert_Some in Hj' as [(<- & [= <-] & _)|[Hne Hj']]; [by left|].
      right. split; [|by exists j'].
      intros Eq. apply idOf_inj in Eq; [done|lia|]. apply lookup_lt_Some in Hj'. lia. }
  destruct (sendLoop_holds (S (size (responses_ d))) d rest' Hd) as (H1 & H2 & H3).
  { unfold rest'. by rewrite length_insert. }
  { lia. }
  exists (drop (length (answered rest')) rest'). cbn [outcomes dispatcher ids].
  change (sendResponses d) with (sendLoop (S (size (responses_ d))) d).
  assert (Hsplit : forall l : list (option (option Resp)), exists t, l = (done_with <$> answered l) ++ t /\ answered t = []).
  { clear. intros l. induction l as [|[[x|]|] l IH].
    - by exists [].
    - destruct IH as (t & E & Ht). exists t. split; [|done]. simpl. by f_equal.
    - by eexists.
    - by eexists. }
  destruct (Hsplit rest') as (t & Et & Ht).
  assert (Hdrop : drop (length (answered rest')) rest' = t).
  { rewrite Et at 2. by rewrite drop_app_length' by by rewrite length_fmap. }
  rewrite Hdrop in *. rewrite Eins. fold (done_with r). fold rest'. split_and!; [|done|done| |].
  - rewrite H1, fmap_app, <- app_assoc, <- Et. done.
  - rewrite H2. unfold d, rest'. cbn [requestId_]. rewrite Hid, E, !length_app, length_insert. done.
  - rewrite Hids, E. unfold rest'. by rewrite !length_app, length_insert.
Qed.

(** C13. Whatever the order in which the service completes its futures, a
    [PipelinedServerDispatcher] has written, after every event, the responses
    of exactly the requests before the first one that is not answered with a
    value, in the order of the requests: in order, each once, as soon as
    possible.  (A request whose future fails is never answered, and no later
    one is.)  Fewer than 2^32 requests may wait at a time: ids wrap. *)
Theorem PipelinedServer_in_order (events : list (ServerEvent Resp)) :
  (forall n, (Z.of_nat (unsent (serve (take n events))) < 2 ^ 32)%Z) ->
  written (dispatcher (serve events)) = answered (outcomes (serve events)).
Proof.
  intros Hbound. apply inOrder_written.
  induction events as [|e events IH] using rev_ind.
  - exists []. split_and!; try done. split; [done|]. intros id r. simpl. rewrite lookup_empty.
    split; [done|]. by intros (j & ? & _).
  - assert (Hs : inOrder (serve events)).
    { apply IH. intros n. destruct (decide (n <= length events)) as [Hn|Hn].
      - specialize (Hbound n). by rewrite take_app_le in Hbound by done.
      - specialize (Hbound (length events)). rewrite take_app_length in Hbound.
        by rewrite take_ge by lia. }
    specialize (Hbound (length events)). rewrite take_app_length in Hbound.
    unfold serve in *. rewrite foldl_app. simpl. destruct e as [|k r].
    + by apply inOrder_request.
    + by apply inOrder_complete.
Qed.
End server.

(** ** Client *)

Section client.
Context {Req Resp : Type} (continuation : nat -> Resp -> list Req).
Implicit Types (c : Client Req Resp).

(** The outstanding promises are the youngest, oldest first, and each promise
    stands for the request written at its position. *)
Definition fifo (responses : list Resp) c : Prop :=
  fulfilled c = zip (seq 0 (length responses)) responses /\
  p_ c = seq (length responses) (promises c - length responses) /\
  length (requests c) = promises c /\ length responses <= promises c.

Lemma fifo_call arg rs c : fifo rs c -> fifo rs (PipelinedClient_call arg c).2.
Proof.
  intros (H1 & H2 & H3 & H4). split_and!; simpl; [done| | |lia].
  - rewrite H2. replace (S (promises c) - length rs) with (promises c - length rs + 1) by lia.
    rewrite seq_app. simpl. do 2 f_equal. lia.
  - rewrite length_app. simpl. lia.
Qed.

Lemma fifo_calls args rs : forall c, fifo rs c ->
  exists c', for_each args PipelinedClient_call c = (Ok tt, c') /\ fifo rs c' /\ fulfilled c' = fulfilled c.
Proof.
  induction args as [|arg args IH]; intros c Hc; [by exists c|].
  cbn [for_each]. rewrite (bind_Ok _ _ c tt (PipelinedClient_call arg c).2) by done.
  destruct (IH _ (fifo_call arg rs c Hc)) as (c' & E & Hc' & Hf). exists c'. by rewrite E.
Qed.

Lemma zip_snoc {A B} (l : list A) (k : list B) a b :
  length l = length k -> zip (l ++ [a]) (k ++ [b]) = zip l k ++ [(a, b)].
Proof. intros E. by rewrite zip_with_app. Qed.

Lemma fifo_read inb rs c :
  fifo rs c -> p_ c <> [] ->
  exists c', PipelinedClient_read continuation inb c = (Ok tt, c') /\ fifo (rs ++ [inb]) c' /\
    fulfilled c' = fulfilled c ++ [(length rs, inb)].
Proof.
  intros (H1 & H2 & H3 & H4) Hne. unfold PipelinedClient_read. rewrite bind_get.
  destruct (promises c - length rs) as [|n] eqn:En; [by rewrite H2 in Hne|].
  rewrite H2. cbn [seq]. rewrite bind_modify. unfold setValue. rewrite bind_modify. simpl.
  set (c1 := mkClient _ _ _ _).
  assert (Hc1 : fifo (rs ++ [inb]) c1).
  { split_and!; simpl; rewrite ?length_app; simpl; [| |done|lia].
    - rewrite seq_app. cbn [seq]. by rewrite zip_snoc, H1 by by rewrite length_seq.
    - f_equal; lia. }
  destruct (fifo_calls (continuation (length rs) inb) _ c1 Hc1) as (c' & E & Hc' & Hf).
  exists c'. by rewrite E, Hf.
Qed.

(** A [PipelinedClientDispatcher] pairs responses with requests first in,
    first out, also when the continuation of a future sends further requests
    from inside [setValue]: after any run, the promises fulfilled are those of
    the first requests written, each with the response at its position, the
    others are waiting in the order of their requests, and a response that
    comes while a request is outstanding fulfils the oldest promise. *)
Lemma PipelinedClient_fifo (events : list (ClientEvent Req Resp)) (c : Client Req Resp) :
  for_each events (clientStep continuation) newClient = (Ok tt, c) ->
  fulfilled c = zip (seq 0 (length (received events))) (received events) /\
  p_ c = seq (length (received events)) (length (requests c) - length (received events)) /\
  (forall inb, p_ c <> [] ->
   exists c', PipelinedClient_read continuation inb c = (Ok tt, c') /\
     fulfilled c' = fulfilled c ++ [(length (received events), inb)]).
Proof.
  assert (Hrun : forall evs rs c0, fifo rs c0 ->
    forall c, for_each evs (clientStep continuation) c0 = (Ok tt, c) -> fifo (rs ++ received evs) c).
  { induction evs as [|e evs IH]; intros rs c0 Hc0 c1; cbn [for_each].
    - intros [= <-]. by rewrite app_nil_r.
    - destruct e as [arg|inb]; cbn [clientStep].
      + rewrite (bind_Ok _ _ c0 tt (PipelinedClient_call arg c0).2) by done.
        apply IH. by apply fifo_call.
      + destruct (decide (p_ c0 = [])) as [E|Hne].
        * unfold bind at 1, PipelinedClient_read at 1. by rewrite bind_get, E.
        * destruct (fifo_read inb rs c0 Hc0 Hne) as (c2 & E & Hc2 & _).
          rewrite (bind_Ok _ _ _ _ _ E). intros Hr. unfold received. cbn [omap list_omap].
          rewrite (cons_middle inb rs), app_assoc. by eapply IH. }
  intros E. apply (Hrun _ []) in E as Hc; [|by split_and!]. pose proof Hc as (H1 & H2 & H3 & H4).
  simpl in *. split; [done|]. split; [by rewrite H3|]. intros inb Hne.
  destruct (fifo_read inb _ c Hc Hne) as (c' & E' & _ & Hf). eauto.
Qed.

(** A [SerialClientDispatcher] clears its promise only after the
    continuation has run: a response is taken if and only if the continuation
    sends no request; one that sends the next request as soon as it has its
    response fails the CHECK of [operator()]. *)
Theorem SerialClient_reentry (c : Client Req Resp) (p : nat) (inb : Resp) :
  p_ c = [p] ->
  (continuation p inb = [] ->
   SerialClient_read continuation inb c =
     (Ok tt, mkClient [] (promises c) (requests c) (fulfilled c ++ [(p, inb)]))) /\
  (continuation p inb <> [] ->
   (SerialClient_read continuation inb c).1 = Err (CheckFailed "!p_")).
Proof.
  intros Hp. unfold SerialClient_read. rewrite bind_get, Hp.
  unfold setValue. rewrite bind_assoc, bind_modify. split; intros Hc.
  - rewrite Hc. done.
  - destruct (continuation p inb) as [|arg args]; [done|].
    unfold for_each. unfold SerialClient_call at 1. unfold bind, get, raise. cbn [p_]. by rewrite Hp.
Qed.
End client.

(** ** Filters *)

(** The service was closed once, after everything it served, or not yet. *)
Definition closedOnce (f : CloseOnReleaseFilter) : Prop :=
  exists n, service_ f = repeat Served n ++ (if released f then [Closed] else []).

Lemma close_closedOnce f : closedOnce f -> closedOnce (CloseOnRelease_close f).
Proof.
  intros [n E]. unfold CloseOnRelease_close. destruct f as [[] l]; simpl in *; [by exists n|].
  exists n. by rewrite E, app_nil_r.
Qed.

Lemma call_closedOnce f : closedOnce f -> closedOnce (CloseOnRelease_call f).2.
Proof.
  intros [n E]. unfold CloseOnRelease_call. destruct f as [[] l]; simpl in *; [by exists n|].
  exists (S n). rewrite E, !app_nil_r. symmetry. apply repeat_cons.
Qed.

(** The idle timer runs only while nothing is outstanding, and no timer is
    left running without a future to cancel it. *)
Definition idleSafe (f : ExpiringFilter) : Prop :=
  closedOnce (filtered f) /\ orphans f = 0 /\ requests_ f = u32 (Z.of_nat (outstanding f)) /\
  (idleTimeout_ f = true -> outstanding f = 0).

Lemma idleSafe_start f :
  closedOnce (filtered f) -> orphans f = 0 -> requests_ f = u32 (Z.of_nat (outstanding f)) ->
  (Z.of_nat (outstanding f) < 2 ^ 32)%Z -> idleTimeout_ f = false -> idleSafe (startIdleTimer f).
Proof.
  intros H1 H2 H3 H4 H5. unfold startIdleTimer.
  assert (Hr : (requests_ f =? 0)%Z = true -> outstanding f = 0).
  { rewrite H3. unfold u32. rewrite wrap_small by lia. intros ?%Z.eqb_eq. lia. }
  destruct (requests_ f =? 0)%Z; simpl.
  - destruct (0 <? idleTimeoutTime_ f)%Z; unfold idleSafe; simpl; rewrite ?H5; auto.
  - split_and!; [done..|]. by rewrite H5.
Qed.

Lemma u32_pred n : u32 (u32 (Z.of_nat (S n)) - 1) = u32 (Z.of_nat n).
Proof. unfold u32, wrap. rewrite Zminus_mod_idemp_l. f_equal. lia. Qed.

Lemma idleSafe_ensure f n :
  closedOnce (filtered f) -> orphans f = 0 -> requests_ f = u32 (Z.of_nat (outstanding f)) ->
  outstanding f = S n -> (Z.of_nat n < 2 ^ 32)%Z -> idleTimeout_ f = false ->
  idleSafe (Expiring_ensure f).
Proof.
  intros H1 H2 H3 Hn H4 H5. unfold Expiring_ensure. apply idleSafe_start; simpl; try done.
  - rewrite H3, Hn, u32_pred. f_equal. lia.
  - lia.
Qed.

Lemma idleSafe_step f e :
  idleSafe f -> (Z.of_nat (outstanding f) < 2 ^ 32)%Z -> idleSafe (filterStep f e).
Proof.
  intros Hf Hb. pose proof Hf as (H1 & H2 & H3 & H4). destruct e; simpl.
  - unfold Expiring_call. pose proof (call_closedOnce _ H1) as Hc.
    destruct (CloseOnRelease_call (filtered f)) as [ok inner]. simpl in Hc.
    assert (Hs : u32 (requests_ f + 1) = u32 (Z.of_nat (S (outstanding f)))).
    { rewrite H3. unfold u32, wrap. rewrite Zplus_mod_idemp_l. f_equal. lia. }
    destruct ok; [split_and!; by simpl|]. by eapply idleSafe_ensure.
  - destruct (outstanding f) as [|n] eqn:En; [done|]. simpl.
    eapply idleSafe_ensure; rewrite ?En; try done; [lia|]. by destruct (idleTimeout_ f); [specialize (H4 eq_refl)|].
  - destruct (idleTimeout_ f); [|done]. unfold Expiring_close. split_and!; simpl; try done.
    by apply close_closedOnce.
  - by rewrite H2.
  - destruct (maxTimeout_ f); [|done]. unfold Expiring_close. split_and!; simpl; try done.
    by apply close_closedOnce.
Qed.

(** C14. An [ExpiringFilter] in front of a [CloseOnReleaseFilter], for every
    sequence of requests, completions and timers with fewer than 2^32 requests
    outstanding at a time: the idle timer runs only while no request is
    outstanding, so it never closes a service that is at work, and no timer
    escapes cancellation; however many timers fire, the service is closed at
    most once and serves nothing after. *)
Theorem ExpiringFilter_safe (idleTimeoutTime maxTime : Z) (events : list FilterEvent) :
  (forall n, (Z.of_nat (outstanding (filterRun (newExpiring idleTimeoutTime maxTime) (take n events))) < 2 ^ 32)%Z) ->
  let f := filterRun (newExpiring idleTimeoutTime maxTime) events in
  (idleTimeout_ f = true -> outstanding f = 0) /\ orphans f = 0 /\
  exists n, service_ (filtered f) = repeat Served n ++ (if released (filtered f) then [Closed] else []).
Proof.
  intros Hb. enough (H : idleSafe (filterRun (newExpiring idleTimeoutTime maxTime) events)) by by destruct H as (? & ? & ? & ?).
  induction events as [|e events IH] using rev_ind.
  - apply idleSafe_start; try done. by exists 0.
  - assert (Hs : idleSafe (filterRun (newExpiring idleTimeoutTime maxTime) events)).
    { apply IH. intros n. destruct (decide (n <= length events)) as [Hn|Hn].
      - specialize (Hb n). by rewrite take_app_le in Hb by done.
      - specialize (Hb (length events)). rewrite take_app_length in Hb. by rewrite take_ge by lia. }
    specialize (Hb (length events)). rewrite take_app_length in Hb.
    unfold filterRun in *. rewrite foldl_app. simpl. by apply idleSafe_step.
Qed.

(** ** Witnesses *)

Lemma PipelinedServer_in_order_witness :
  written (dispatcher (serve [Request; Request; Request; Complete 1 (Some 11); Complete 0 (Some 10);
    Complete 2 (None : option nat)])) = [10; 11].
Proof.
  rewrite PipelinedServer_in_order; [reflexivity|].
  intros n. do 6 (destruct n as [|n]; [vm_compute; reflexivity|]). destruct n; vm_compute; reflexivity.
Defined.

Lemma PipelinedClient_fifo_witness :
  exists c : Client nat nat,
    for_each [Send 1; Send 2; Receive 10; Receive 20] (clientStep (fun p _ => if p =? 0 then [3] else [])) newClient
      = (Ok tt, c) /\
    fulfilled c = [(0, 10); (1, 20)] /\ p_ c = [2].
Proof.
  eexists. split; [reflexivity|].
  destruct (PipelinedClient_fifo (fun p _ => if p =? 0 then [3] else [])
    [Send 1; Send 2; Receive 10; Receive 20] _ eq_refl) as (H1 & H2 & _). by split.
Defined.

Lemma SerialClient_reentry_witness :
  (SerialClient_read (fun _ _ => [7]) 10 (mkClient [0] 1 [5] [])).1 = Err (CheckFailed "!p_").
Proof. by apply (SerialClient_reentry (fun _ _ => [7]) (mkClient [0] 1 [5] []) 0 10). Defined.

Lemma ExpiringFilter_safe_witness :
  let f := filterRun (newExpiring 100 0) [Call; Done; IdleFires; Call] in
  exists n, service_ (filtered f) = repeat Served n ++ [Closed].
Proof.
  apply (ExpiringFilter_safe 100 0 [Call; Done; IdleFires; Call]).
  intros n. do 4 (destruct n as [|n]; [vm_compute; reflexivity|]). destruct n; vm_compute; reflexivity.
Defined.
