(* ===== verification/Persist.v ===== *)
(** * The persistent LRU cache (src/wangle/client/persistence)

    [LRUInMemoryCache], [CachePersistence] and [LRUPersistentCache] with its
    syncer thread.

    [folly::EvictingCacheMap] is an interface, [EvictingMap], with laws on the
    list of its entries from the most to the least recently used; lists are an
    instance.  [folly::dynamic] values are a type [Dyn] with conversions that
    may throw.  The threads interleave at the points where no lock is held:
    an [Event] is an operation of a client or the next step of the syncer. *)
From Stdlib Require Import ZArith Lia.
From stdpp Require Import base numbers list strings.
From S2P Require Import Prelude.
Open Scope cpp_scope.

Set Default Goal Selector "!".

(** ** EvictingCacheMap *)

Section lists.
Context {K V : Type}.

(** A capacity of 0 is no limit. *)
Definition prune (capacity : nat) (l : list (K * V)) : list (K * V) :=
  if capacity =? 0 then l else take capacity l.
End lists.

Class EvictingMap (Mp K V : Type) : Type := {
  newMap : nat -> Mp;
  maxSize : Mp -> nat;
  find : K -> Mp -> option V * Mp;               (* find() makes the entry the newest *)
  set : K -> V -> Mp -> Mp;
  erase : K -> Mp -> nat * Mp;
  mapSize : Mp -> nat;
  clearMap : Mp -> Mp;
  entries : Mp -> list (K * V)                   (* begin() to end(): newest first *)
}.

Class EvictingMapLaws (Mp K V : Type) `{!EqDecision K} `{!EvictingMap Mp K V} : Prop := {
  entries_newMap c : entries (newMap c) = [];
  maxSize_newMap c : maxSize (newMap c) = c;
  entries_NoDup m : NoDup (entries m).*1;
  entries_maxSize m : maxSize m <> 0 -> length (entries m) <= maxSize m;
  find_entries k m : (find k m).1 = assoc k (entries m) /\ maxSize (find k m).2 = maxSize m /\
    entries (find k m).2 =
      match assoc k (entries m) with
      | Some v => (k, v) :: without k (entries m)
      | None => entries m
      end;
  set_entries k v m : maxSize (set k v m) = maxSize m /\
    entries (set k v m) = prune (maxSize m) ((k, v) :: without k (entries m));
  erase_entries k m : maxSize (erase k m).2 = maxSize m /\
    entries (erase k m).2 = without k (entries m) /\
    (erase k m).1 = if assoc k (entries m) is Some _ then 1 else 0;
  mapSize_entries m : mapSize m = length (entries m);
  clearMap_entries m : entries (clearMap m) = [] /\ maxSize (clearMap m) = maxSize m
}.

Section cache.
Context {Mp K V Dyn : Type} `{!EqDecision K} `{!EvictingMap Mp K V}.
(** [folly::toDynamic] of a pair, and [folly::convertTo] of its two members. *)
Context (toDynamic : K * V -> option Dyn) (convertTo : Dyn -> option (K * V)).

(** ** LRUInMemoryCache *)

Record LRUInMemoryCache : Type := mkMemory {
  cache_ : Mp;
  version_ : Z
}.
Definition newMemory (capacity : nat) : LRUInMemoryCache := mkMemory (newMap capacity) 1.

Definition incrementVersion (m : Mp) (c : LRUInMemoryCache) : LRUInMemoryCache :=
  mkMemory m (u64 (version_ c + 1)).

Definition get (k : K) (c : LRUInMemoryCache) : option V * LRUInMemoryCache :=
  let (v, m) := find k (cache_ c) in (v, mkMemory m (version_ c)).
Definition put (k : K) (v : V) (c : LRUInMemoryCache) : LRUInMemoryCache :=
  incrementVersion (set k v (cache_ c)) c.
Definition remove (k : K) (c : LRUInMemoryCache) : bool * LRUInMemoryCache :=
  let (nErased, m) := erase k (cache_ c) in
  if 0 <? nErased then (true, incrementVersion m c) else (false, mkMemory m (version_ c)).
Definition size (c : LRUInMemoryCache) : nat := mapSize (cache_ c).
Definition clear (c : LRUInMemoryCache) : LRUInMemoryCache :=
  if mapSize (cache_ c) =? 0 then c else incrementVersion (clearMap (cache_ c)) c.

(** The loop of [loadData], up to the first pair that does not convert. *)
Fixpoint loadLoop (data : list Dyn) (m : Mp) (updated : bool) : Mp * bool :=
  match data with
  | [] => (m, updated)
  | d :: data =>
      match convertTo d with
      | None => (m, updated)
      | Some (k, v) => loadLoop data (set k v m) true
      end
  end.
Definition loadData (data : list Dyn) (c : LRUInMemoryCache) : Z * LRUInMemoryCache :=
  let (m, updated) := loadLoop data (cache_ c) false in
  let c := if updated then incrementVersion m c else mkMemory m (version_ c) in
  (version_ c, c).

Definition convertToKeyValuePairs (c : LRUInMemoryCache) : option (list Dyn * Z) :=
  match mapM toDynamic (entries (cache_ c)) with
  | Some kvPairs => Some (kvPairs, version_ c)
  | None => None
  end.

Definition hasChangedSince (version : Z) (c : LRUInMemoryCache) : bool :=
  negb (version_ c =? version)%Z.

(** ** CachePersistence *)

(** A persistence layer and what it stores, when [load] gives anything. *)
Record CachePersistence : Type := mkPersistence {
  store : option (list Dyn);
  persistedVersion_ : Z
}.
Definition newPersistence (content : option (list Dyn)) : CachePersistence :=
  mkPersistence content 0.

(** How [persist] ends: what a failed write leaves is not known. *)
Inductive PersistResult : Type :=
| Persisted
| Failed (remains : option (list Dyn)).

Definition persistVersionedData (kvPairs : list Dyn) (version : Z) (r : PersistResult)
    (p : CachePersistence) : bool * CachePersistence :=
  match r with
  | Persisted => (true, mkPersistence (Some kvPairs) version)
  | Failed remains => (false, mkPersistence remains (persistedVersion_ p))
  end.
Definition setPersistedVersion (version : Z) (p : CachePersistence) : CachePersistence :=
  mkPersistence (store p) version.

(** ** LRUPersistentCache *)

(** Where the syncer thread is; [pid] is the persistence layer it works on,
    of which it holds a [shared_ptr]. *)
Inductive Syncer : Type :=
| Top                                        (* the top of the loop of sync() *)
| Checking (pid : nat)                       (* syncNow() *)
| Converting (pid : nat)
| Persisting (pid : nat) (kvPairs : list Dyn) (version : Z)
| Finishing (pid : option nat) (ok : bool)   (* syncNow() has returned *)
| Waiting                                    (* before it starts, and in wait_for() *)
| Exited.

Record LRUPersistentCache : Type := mkCache {
  memory : LRUInMemoryCache;
  stopSyncer_ : bool;
  nSyncRetries_ : Z;
  persistences : list CachePersistence;      (* the layers ever set *)
  persistence_ : option nat;                 (* the current one *)
  syncer_ : Syncer;
  nSyncFailures : Z
}.

Definition setMemory (m : LRUInMemoryCache) (c : LRUPersistentCache) : LRUPersistentCache :=
  mkCache m (stopSyncer_ c) (nSyncRetries_ c) (persistences c) (persistence_ c) (syncer_ c)
    (nSyncFailures c).
Definition setSyncer (y : Syncer) (c : LRUPersistentCache) : LRUPersistentCache :=
  mkCache (memory c) (stopSyncer_ c) (nSyncRetries_ c) (persistences c) (persistence_ c) y
    (nSyncFailures c).
Definition setFailures (n : Z) (c : LRUPersistentCache) : LRUPersistentCache :=
  mkCache (memory c) (stopSyncer_ c) (nSyncRetries_ c) (persistences c) (persistence_ c)
    (syncer_ c) n.
Definition onPersistence (pid : nat) (f : CachePersistence -> CachePersistence)
    (c : LRUPersistentCache) : LRUPersistentCache :=
  mkCache (memory c) (stopSyncer_ c) (nSyncRetries_ c) (alter f pid (persistences c))
    (persistence_ c) (syncer_ c) (nSyncFailures c).

(** [load]: false, converted to a version, is 0. *)
Definition load (p : CachePersistence) (c : LRUInMemoryCache) : Z * LRUInMemoryCache :=
  match store p with
  | None => (0%Z, c)
  | Some kvPairs => loadData kvPairs c
  end.

Definition setPersistenceHelper (p : option CachePersistence) (syncVersion : bool)
    (c : LRUPersistentCache) : LRUPersistentCache :=
  match p with
  | None =>
      mkCache (memory c) (stopSyncer_ c) (nSyncRetries_ c) (persistences c) None (syncer_ c)
        (nSyncFailures c)
  | Some p =>
      let (version, m) := load p (memory c) in
      let p := if syncVersion then setPersistedVersion version p else p in
      mkCache m (stopSyncer_ c) (nSyncRetries_ c) (persistences c ++ [p])
        (Some (length (persistences c))) (syncer_ c) (nSyncFailures c)
  end.

(** The constructor, which starts the syncer. *)
Definition newCache (cacheCapacity : nat) (nSyncRetries : Z) (p : option CachePersistence) :
    LRUPersistentCache :=
  let c := mkCache (newMemory cacheCapacity) false nSyncRetries [] None Waiting 0 in
  match p with
  | Some p => setPersistenceHelper (Some p) true c
  | None => c
  end.

Definition hasPendingUpdates (c : LRUPersistentCache) : bool :=
  match persistence_ c ≫= (fun pid => persistences c !! pid) with
  | None => false
  | Some p => hasChangedSince (persistedVersion_ p) (memory c)
  end.

(** One step of the syncer thread; [r] is what [persist] answers if it is
    called.  The thread holds [stopSyncerMutex_] except when it waits. *)
Definition syncStep (r : PersistResult) (c : LRUPersistentCache) : LRUPersistentCache :=
  match syncer_ c with
  | Top =>
      let changed :=
        match persistence_ c ≫= (fun pid => persistences c !! pid) with
        | Some p => hasChangedSince (persistedVersion_ p) (memory c)
        | None => false
        end in
      if stopSyncer_ c && negb changed then setSyncer Exited c
      else
        match persistence_ c with
        | Some pid => setSyncer (Checking pid) c
        | None => setSyncer (Finishing None true) c
        end
  | Checking pid =>
      match persistences c !! pid with
      | Some p =>
          if hasChangedSince (persistedVersion_ p) (memory c) then setSyncer (Converting pid) c
          else setSyncer (Finishing (Some pid) true) c
      | None => c
      end
  | Converting pid =>
      match convertToKeyValuePairs (memory c) with
      | None => setSyncer (Finishing (Some pid) false) c
      | Some (kvPairs, version) => setSyncer (Persisting pid kvPairs version) c
      end
  | Persisting pid kvPairs version =>
      let ok := match r with Persisted => true | Failed _ => false end in
      setSyncer (Finishing (Some pid) ok)
        (onPersistence pid (fun p => (persistVersionedData kvPairs version r p).2) c)
  | Finishing pid ok =>
      let c :=
        match pid, ok with
        | Some pid, false =>
            let n := (nSyncFailures c + 1)%Z in
            if (n =? nSyncRetries_ c)%Z
            then setFailures 0 (onPersistence pid (setPersistedVersion (version_ (memory c))) c)
            else setFailures n c
        | _, _ => setFailures 0 c
        end in
      setSyncer (if stopSyncer_ c then Top else Waiting) c
  | Waiting => setSyncer Top c
  | Exited => c
  end.

Inductive Event : Type :=
| Get (k : K)
| Put (k : K) (v : V)
| Remove (k : K)
| Clear (clearPersistence : bool)
| SetPersistence (content : option (option (list Dyn)))
| Stop                                       (* the destructor's signal *)
| Sync (r : PersistResult).

Definition step (c : LRUPersistentCache) (e : Event) : LRUPersistentCache :=
  match e with
  | Get k => setMemory (get k (memory c)).2 c
  | Put k v => setMemory (put k v (memory c)) c
  | Remove k => setMemory (remove k (memory c)).2 c
  | Clear clearPersistence =>
      let c := setMemory (clear (memory c)) c in
      match persistence_ c with
      | Some pid =>
          if clearPersistence
          then onPersistence pid (fun p => mkPersistence None (persistedVersion_ p)) c
          else c
      | None => c
      end
  | SetPersistence content => setPersistenceHelper (newPersistence <$> content) false c
  | Stop =>
      match syncer_ c with
      | Waiting =>
          mkCache (memory c) true (nSyncRetries_ c) (persistences c) (persistence_ c) Top
            (nSyncFailures c)
      | _ => c
      end
  | Sync r => syncStep r c
  end.
Definition run (c : LRUPersistentCache) (events : list Event) : LRUPersistentCache := foldl step c events.
End cache.
Arguments LRUInMemoryCache : clear implicits.
Arguments LRUPersistentCache : clear implicits.
Arguments CachePersistence : clear implicits.
Arguments PersistResult : clear implicits.
Arguments Syncer : clear implicits.
Arguments Event : clear implicits.

(** ** Lists are evicting maps *)

Section instance.
Context {K V : Type} `{!EqDecision K}.

Definition lruWf (c : nat) (l : list (K * V)) : Prop := NoDup l.*1 /\ (c <> 0 -> length l <= c).

Record LRUList : Type := mkLRU {
  lru_max : nat;
  lru_list : list (K * V);
  lru_wf : lruWf lru_max lru_list
}.

Lemma wf_nil c : lruWf c [].
Proof. split; [constructor|simpl; lia]. Qed.

Lemma wf_without k c l : lruWf c l -> lruWf c (without k l).
Proof.
  intros [H1 H2]. split; [by apply without_NoDup|]. intros Hc. etransitivity; [apply length_filter|by apply H2].
Qed.

Lemma wf_promote k v c l : lruWf c l -> assoc k l = Some v -> lruWf c ((k, v) :: without k l).
Proof.
  intros [H1 H2] Hk. split.
  - simpl. constructor; [apply without_notin|by apply without_NoDup].
  - intros Hc. simpl. pose proof (without_length _ _ _ Hk). specialize (H2 Hc). lia.
Qed.

Lemma wf_set k v c l : lruWf c l -> lruWf c (prune c ((k, v) :: without k l)).
Proof.
  intros [H1 H2]. unfold prune.
  assert (Hnd : NoDup ((k, v) :: without k l).*1).
  { simpl. constructor; [apply without_notin|by apply without_NoDup]. }
  destruct (Nat.eqb_spec c 0) as [->|Hc]; [by split|]. split.
  - rewrite fmap_take. eapply sublist_NoDup; [exact Hnd|apply sublist_take].
  - intros _. rewrite length_take. lia.
Qed.

Definition promoted (k : K) (l : list (K * V)) : list (K * V) :=
  match assoc k l with
  | Some v => (k, v) :: without k l
  | None => l
  end.

Lemma wf_promoted k c l : lruWf c l -> lruWf c (promoted k l).
Proof. unfold promoted. intros H. destruct (assoc k l) as [v|] eqn:E; [by apply wf_promote|done]. Qed.

#[export] Instance list_EvictingMap : EvictingMap LRUList K V := {|
  newMap c := mkLRU c [] (wf_nil c);
  maxSize := lru_max;
  find k m := (assoc k (lru_list m),
               mkLRU (lru_max m) (promoted k (lru_list m)) (wf_promoted k _ _ (lru_wf m)));
  set k v m := mkLRU (lru_max m) (prune (lru_max m) ((k, v) :: without k (lru_list m)))
                 (wf_set k v _ _ (lru_wf m));
  erase k m := (if assoc k (lru_list m) is Some _ then 1 else 0,
                mkLRU (lru_max m) (without k (lru_list m)) (wf_without k _ _ (lru_wf m)));
  mapSize m := length (lru_list m);
  clearMap m := mkLRU (lru_max m) [] (wf_nil (lru_max m));
  entries := lru_list
|}.

#[export] Instance list_EvictingMapLaws : EvictingMapLaws LRUList K V.
Proof.
  split; try done.
  - intros m. apply (lru_wf m).
  - intros m. apply (lru_wf m).
Qed.
End instance.
Arguments LRUList : clear implicits.
