(* ===== verification/PersistProps.v ===== *)
(** * The persistent LRU cache: the properties

    No pending updates means that the layer stores what is cached, for every
    interleaving of clients and syncer; the destructor's wait for the syncer;
    and what a restart does to the order of the entries. *)
From Stdlib Require Import ZArith Lia.
From stdpp Require Import base numbers list strings.
From S2P Require Import Prelude Persist.
Open Scope cpp_scope.

Set Default Goal Selector "!".

Section lists.
Context {K V : Type}.
Implicit Types (l : list (K * V)).

Lemma prune_prune (capacity : nat) (p : K * V) l :
  prune capacity (p :: prune capacity l) = prune capacity (p :: l).
Proof.
  unfold prune. destruct (Nat.eqb_spec capacity 0); [done|].
  destruct capacity as [|c]; [done|]. simpl. f_equal. rewrite take_take. f_equal. lia.
Qed.
End lists.

Section cache.
Context {Mp K V Dyn : Type} `{!EqDecision K} `{!EvictingMap Mp K V} `{!EvictingMapLaws Mp K V}.
Context (toDynamic : K * V -> option Dyn) (convertTo : Dyn -> option (K * V)).
(** What is converted comes back up to what the conversion forgets. *)
Context (norm : K * V -> K * V) (Hnorm : forall d p, convertTo d = Some p -> norm p = p) (Hkey : forall p, (norm p).1 = p.1).
Context (Hconv : forall p d, toDynamic p = Some d -> convertTo d = Some (norm p)).
Implicit Types (m : LRUInMemoryCache Mp) (p : CachePersistence Dyn) (c : LRUPersistentCache Mp Dyn).

Notation syncStep := (syncStep (K:=K) (V:=V) toDynamic).
Notation step := (step toDynamic convertTo).
Notation run := (run toDynamic convertTo).

Definition cached m : list (K * V) := entries (cache_ m).
Definition stored p : list (K * V) := omap convertTo (default [] (store p)).

(** What is stored can be converted back: to the pairs of [l], in any order. *)
Definition restores (content : option (list Dyn)) (l : list (K * V)) : Prop :=
  match content with
  | None => l = []
  | Some data => exists l', mapM convertTo data = Some l' /\ l' ≡ₚ norm <$> l
  end.
Lemma restores_perm content l l' : l ≡ₚ l' -> restores content l -> restores content l'.
Proof.
  intros Hp. destruct content as [data|]; simpl; [intros (x & E & Hx); exists x; split; [done|by rewrite Hx, Hp]|].
  intros ->. by apply Permutation_nil_l in Hp as <-.
Qed.
Lemma restores_stored p l : restores (store p) l -> stored p ≡ₚ norm <$> l.
Proof.
  unfold stored. destruct (store p) as [data|]; simpl; [|by intros ->]. intros (l' & E & Hp). rewrite <- Hp. clear Hp.
  apply mapM_Some in E. induction E as [|q d ds l' E _ IH]; [done|]. cbn [omap list_omap]. rewrite E. by constructor.
Qed.

(** ** The memory cache *)

(** An operation of the memory cache either leaves the version and, up to
    their order, the entries, or increments the version. *)
Definition evolves m m' : Prop :=
  (version_ m' = version_ m /\ cached m' ≡ₚ cached m) \/ version_ m' = (version_ m + 1)%Z.

Lemma incrementVersion_evolves (x : Mp) m :
  (0 <= version_ m < 2 ^ 64 - 1)%Z -> evolves m (incrementVersion x m).
Proof. intros Hv. right. simpl. unfold u64. apply wrap_small. lia. Qed.

Lemma get_evolves k m : evolves m (get k m).2.
Proof.
  left. unfold get, cached. pose proof (find_entries k (cache_ m)) as (_ & _ & He).
  destruct (find k (cache_ m)) as [v x]. simpl in *. split; [done|]. rewrite He.
  destruct (assoc k (entries (cache_ m))) as [v'|] eqn:E; [|done].
  apply without_perm; [apply entries_NoDup|done].
Qed.

Lemma put_evolves k (v : V) m : (0 <= version_ m < 2 ^ 64 - 1)%Z -> evolves m (put k v m).
Proof. apply incrementVersion_evolves. Qed.

Lemma remove_evolves k m : (0 <= version_ m < 2 ^ 64 - 1)%Z -> evolves m (remove k m).2.
Proof.
  intros Hv. unfold remove. pose proof (erase_entries k (cache_ m)) as (_ & He & Hn).
  destruct (erase k (cache_ m)) as [n x]. simpl in *. subst n.
  destruct (assoc k (entries (cache_ m))) as [v|] eqn:E; simpl; [by apply incrementVersion_evolves|].
  left. split; [done|]. unfold cached. simpl. by rewrite He, without_assoc_None.
Qed.

Lemma clear_evolves m : (0 <= version_ m < 2 ^ 64 - 1)%Z -> evolves m (clear m).
Proof.
  intros Hv. unfold clear. destruct (mapSize (cache_ m) =? 0); [by left|by apply incrementVersion_evolves].
Qed.

Lemma clear_empty m : version_ (clear m) = version_ m -> (0 <= version_ m < 2 ^ 64 - 1)%Z -> cached (clear m) = [].
Proof.
  unfold clear. destruct (Nat.eqb_spec (mapSize (cache_ m)) 0) as [E|E].
  - intros _ _. unfold cached. rewrite mapSize_entries in E. by apply length_zero_iff_nil.
  - simpl. unfold u64. intros Hw Hv. rewrite wrap_small in Hw by lia. lia.
Qed.

Lemma loadLoop_updated data : forall x b, (loadLoop convertTo data x b).2 = false ->
  b = false /\ loadLoop convertTo data x b = (x, false).
Proof.
  induction data as [|d data IH]; intros x b; simpl; [by intros ->|].
  destruct (convertTo d) as [[k v]|]; [|simpl; by intros ->]. intros H. by apply IH in H as [? _].
Qed.

Lemma loadData_evolves data m :
  (0 <= version_ m < 2 ^ 64 - 1)%Z ->
  evolves m (loadData convertTo data m).2 /\
  (loadData convertTo data m).1 = version_ (loadData convertTo data m).2.
Proof.
  intros Hv. unfold loadData. destruct (loadLoop convertTo data (cache_ m) false) as [x b] eqn:E.
  split; [|done]. destruct b; [by apply incrementVersion_evolves|].
  pose proof (loadLoop_updated data (cache_ m) false) as H. rewrite E in H.
  destruct (H eq_refl) as [_ [= ->]]. by left.
Qed.

Lemma load_evolves p m : (0 <= version_ m < 2 ^ 64 - 1)%Z -> evolves m (load convertTo p m).2.
Proof. intros Hv. unfold load. destruct (store p); [by apply loadData_evolves|by left]. Qed.

(** Distinct keys that are not there yet are pushed to the front, one by one. *)
Lemma loadLoop_entries data : forall l (x : Mp) b,
  mapM convertTo data = Some l -> NoDup l.*1 -> (forall k, k ∈ l.*1 -> k ∉ (entries x).*1) ->
  entries (loadLoop convertTo data x b).1 = prune (maxSize x) (reverse l ++ entries x).
Proof.
  induction data as [|d data IH]; intros l x b E Hnd Hnew.
  - injection E as <-. rewrite reverse_nil. simpl. unfold prune. destruct (Nat.eqb_spec (maxSize x) 0) as [|Hc]; [done|].
    by rewrite take_ge by by apply entries_maxSize.
  - apply mapM_Some in E. apply Forall2_cons_inv_l in E as ([k v] & l' & Hd & Hl & ->).
    apply mapM_Some in Hl. simpl in Hnd, Hnew |- *. rewrite Hd.
    apply NoDup_cons in Hnd as [Hk Hnd]. pose proof (set_entries k v x) as [Hmax He].
    assert (Hkx : k ∉ (entries x).*1) by (apply Hnew; by left).
    rewrite without_id in He by done.
    assert (Hsub : forall k', k' ∈ (entries (set k v x)).*1 -> k' = k \/ k' ∈ (entries x).*1).
    { intros k' Hk'. rewrite He in Hk'. unfold prune in Hk'.
      assert (Hin : k' ∈ ((k, v) :: entries x).*1).
      { destruct (maxSize x =? 0); [done|].
        apply list_elem_of_fmap in Hk' as (q & -> & Hq). apply list_elem_of_fmap. exists q. split; [done|].
        rewrite <- (take_drop (maxSize x)). apply elem_of_app. by left. }
      simpl in Hin. by apply elem_of_cons in Hin. }
    rewrite (IH l' (set k v x) true Hl Hnd).
    + rewrite Hmax, He, reverse_cons, <- app_assoc. simpl.
      destruct (reverse l') as [|q r] eqn:Er; [simpl; unfold prune; case_match; [done|by rewrite take_take, Nat.min_id]|].
      unfold prune. destruct (Nat.eqb_spec (maxSize x) 0); [done|].
      rewrite <- (take_drop (maxSize x) ((k, v) :: entries x)) at 2. rewrite app_assoc.
      destruct (decide (length (take (maxSize x) ((k, v) :: entries x)) = maxSize x)) as [Hf|Hf].
      * symmetry. rewrite take_app_le; [done|]. rewrite length_app, Hf. lia.
      * rewrite length_take in Hf. rewrite drop_ge by lia. by rewrite app_nil_r.
    + intros k' Hk' [->|Hin]%Hsub; [done|]. apply (Hnew k'); [by right|done].
Qed.

(** ** Versions *)

(** A layer stores what is cached if it is marked with the current version. *)
Definition upToDate m p : Prop :=
  (0 <= persistedVersion_ p <= version_ m)%Z /\
  (persistedVersion_ p = version_ m -> restores (store p) (cached m)).

Definition behind m p : Prop := (0 <= persistedVersion_ p < version_ m)%Z.

Lemma behind_upToDate m p : behind m p -> upToDate m p.
Proof. unfold behind. split; [lia|]. lia. Qed.

Lemma evolves_version m m' : evolves m m' -> (version_ m <= version_ m' <= version_ m + 1)%Z.
Proof. intros [[-> _]| ->]; lia. Qed.

Lemma upToDate_evolves m m' p : evolves m m' -> upToDate m p -> upToDate m' p.
Proof.
  intros He [H1 H2]. apply evolves_version in He as Hv. split; [lia|]. intros E.
  destruct He as [[Ev Ep]|Ev]; [|lia]. eapply restores_perm; [by symmetry|]. apply H2. lia.
Qed.

Lemma behind_evolves m m' p : evolves m m' -> behind m p -> behind m' p.
Proof. intros He%evolves_version. unfold behind. lia. Qed.

(** What the syncer knows at each point of its loop. *)
Definition knows m (ps : list (CachePersistence Dyn)) (y : Syncer Dyn) : Prop :=
  match y with
  | Converting pid => exists p, ps !! pid = Some p /\ behind m p
  | Persisting pid kvs v => exists p, ps !! pid = Some p /\
      (0 <= persistedVersion_ p < v)%Z /\ (v <= version_ m)%Z /\
      (v = version_ m -> restores (Some kvs) (cached m))
  | _ => True
  end.

Lemma knows_evolves m m' ps y : evolves m m' -> knows m ps y -> knows m' ps y.
Proof.
  intros He. apply evolves_version in He as Hv. destruct y; simpl; try done.
  - intros (p & E & Hb). exists p. split; [done|]. by eapply behind_evolves.
  - intros (p & E & H1 & H2 & H3). exists p. split_and!; [done|lia|lia|lia|].
    intros ->. destruct He as [[Ev Ep]|Ev]; [|lia]. apply (restores_perm (Some _) (cached m)); [by symmetry|]. by apply H3.
Qed.

(** The invariant, after at most [n] changes of version. *)
Record synced (n : Z) c : Prop := {
  synced_version : (1 <= version_ (memory c) <= n + 1)%Z;
  synced_layers : Forall (upToDate (memory c)) (persistences c);
  synced_syncer : knows (memory c) (persistences c) (syncer_ c);
  synced_current : forall pid, persistence_ c = Some pid -> is_Some (persistences c !! pid)
}.

(** The step gives up: the layer is marked although it was not written. *)
Definition givesUp c : bool :=
  match syncer_ c with
  | Finishing (Some _) false => (nSyncFailures c + 1 =? nSyncRetries_ c)%Z
  | _ => false
  end.

Lemma synced_setMemory n c m' :
  synced n c -> evolves (memory c) m' -> synced (n + 1) (setMemory m' c).
Proof.
  intros [H1 H2 H3 H4] He. apply evolves_version in He as Hv. split; simpl.
  - lia.
  - eapply Forall_impl; [exact H2|]. intros p. by apply upToDate_evolves.
  - by eapply knows_evolves.
  - done.
Qed.

(** A change of one layer. *)
Lemma synced_onPersistence n c pid f y :
  synced n c ->
  (forall p, persistences c !! pid = Some p -> upToDate (memory c) (f p)) ->
  knows (memory c) (alter f pid (persistences c)) y ->
  synced n (setSyncer y (onPersistence pid f c)).
Proof.
  intros [H1 H2 H3 H4] Hf Hy. split; simpl; [done| |done|].
  - apply Forall_lookup_2. intros i p. rewrite list_lookup_alter. case_decide as E.
    + subst i. intros (q & Hq & ->)%fmap_Some. by apply Hf.
    + intros Hi. by eapply Forall_lookup_1 in H2.
  - intros i Hi%H4. rewrite list_lookup_alter. case_decide as E; [subst i|done]. by apply fmap_is_Some.
Qed.

Lemma synced_setSyncer n c y :
  synced n c -> knows (memory c) (persistences c) y -> synced n (setSyncer y c).
Proof. intros [H1 H2 H3 H4] Hy. by split. Qed.

Lemma synced_setFailures n c k : synced n c -> synced n (setFailures k c).
Proof. by intros []. Qed.

Lemma synced_weaken n n' c : (n <= n')%Z -> synced n c -> synced n' c.
Proof. intros Hn [H1 H2 H3 H4]. split; [lia|done..]. Qed.

Lemma mapM_decode (l : list (K * V)) ds : mapM toDynamic l = Some ds -> mapM convertTo ds = Some (norm <$> l).
Proof.
  intros E%mapM_Some. apply mapM_Some. clear -E Hconv. induction E as [|q d l ds Hq _ IH]; constructor; [by apply Hconv|done].
Qed.

Lemma mapM_norm ds (l : list (K * V)) : mapM convertTo ds = Some l -> norm <$> l = l.
Proof. intros E%mapM_Some. clear -E Hnorm. induction E as [|d q ds l Hq _ IH]; [done|]. rewrite fmap_cons, IH. f_equal. by apply (Hnorm d). Qed.
Lemma norm_keys (l : list (K * V)) : (norm <$> l).*1 = l.*1.
Proof. rewrite <- list_fmap_compose. apply list_fmap_ext. intros i p _. apply Hkey. Qed.

Lemma changed_behind m p :
  upToDate m p -> hasChangedSince (persistedVersion_ p) m = true -> behind m p.
Proof.
  intros [Hv _]. unfold hasChangedSince, behind. destruct (Z.eqb_spec (version_ m) (persistedVersion_ p)); [done|].
  lia.
Qed.

Lemma synced_sync n r c : synced n c -> givesUp c = false -> synced n (syncStep r c).
Proof.
  intros Hs Hg. pose proof Hs as [H1 H2 H3 H4]. unfold Persist.syncStep. unfold givesUp in Hg.
  destruct (syncer_ c) as [|pid|pid|pid kvs v|pid ok| |] eqn:Ey; simpl in H3.
  - destruct (_ && _); [by apply synced_setSyncer|].
    destruct (persistence_ c) as [pid|]; by apply synced_setSyncer.
  - destruct (persistences c !! pid) as [p|] eqn:Ep; [|done].
    destruct (hasChangedSince _ _) eqn:Ec; apply synced_setSyncer; try done.
    exists p. split; [done|]. apply changed_behind; [|done]. by eapply Forall_lookup_1 in H2.
  - destruct H3 as (p & Ep & Hb). unfold convertToKeyValuePairs.
    destruct (mapM toDynamic (entries (cache_ (memory c)))) as [kvs|] eqn:Em; [|by apply synced_setSyncer].
    apply synced_setSyncer; [done|]. exists p. unfold behind in Hb. split_and!; [done|lia|lia|lia|].
    intros _. exists (norm <$> cached (memory c)). split; [by apply mapM_decode|done].
  - destruct H3 as (p & Ep & Hv1 & Hv2 & Hperm). apply synced_onPersistence; [done| |done].
    intros p' Ep'. rewrite Ep in Ep'. injection Ep' as <-. destruct r as [|remains]; simpl.
    + split; simpl; [lia|]. intros E. by apply Hperm.
    + apply behind_upToDate. unfold behind. simpl. lia.
  - destruct pid as [pid|], ok; try (apply synced_setSyncer; [by apply synced_setFailures|by destruct (stopSyncer_ _)]).
    rewrite Hg. apply synced_setSyncer; [by apply synced_setFailures|by destruct (stopSyncer_ _)].
  - by apply synced_setSyncer.
  - done.
Qed.

Lemma synced_step n c (e : Event K V Dyn) :
  synced n c -> (0 <= n < 2 ^ 64 - 2)%Z -> (forall r, e = Sync r -> givesUp c = false) ->
  synced (n + 1) (step c e).
Proof.
  intros Hs Hn Hg. pose proof Hs as [H1 H2 H3 H4].
  assert (Hv : (0 <= version_ (memory c) < 2 ^ 64 - 1)%Z) by lia.
  destruct e as [k|k v|k|b|content| |r]; simpl.
  - by apply synced_setMemory, get_evolves.
  - by apply synced_setMemory, put_evolves.
  - by apply synced_setMemory, remove_evolves.
  - pose proof (clear_evolves (memory c) Hv) as He.
    pose proof (synced_setMemory _ _ _ Hs He) as Hc.
    destruct (persistence_ c) as [pid|]; [|done]. destruct b; [|done].
    pose proof Hc as [H1' H2' H3' H4'].
    change (onPersistence pid ?f ?c') with (setSyncer (syncer_ c') (onPersistence pid f c')).
    apply synced_onPersistence; [done| |].
    + intros p Hp. eapply Forall_lookup_1 in H2 as Hu; [|exact Hp]. destruct Hu as [Hu1 Hu2].
      apply evolves_version in He as Hv'. split; simpl; [lia|]. intros E.
      by apply clear_empty; [lia|].
    + simpl in H3' |- *. destruct (syncer_ c); simpl in *; try done.
      * destruct H3' as (p & Ep & Hb). destruct (decide (pid0 = pid)) as [->|Hne].
        -- exists (mkPersistence None (persistedVersion_ p)). split; [|done].
           by rewrite list_lookup_alter_eq, Ep.
        -- exists p. by rewrite list_lookup_alter_ne.
      * destruct H3' as (p & Ep & Hb). destruct (decide (pid0 = pid)) as [->|Hne].
        -- exists (mkPersistence None (persistedVersion_ p)). split; [|done].
           by rewrite list_lookup_alter_eq, Ep.
        -- exists p. by rewrite list_lookup_alter_ne.
  - destruct content as [content|]; simpl.
    2: { split; simpl; [lia|done..]. }
    pose proof (load_evolves (newPersistence content) (memory c) Hv) as He.
    destruct (load convertTo (newPersistence content) (memory c)) as [v m']. simpl in He |- *.
    destruct (synced_setMemory _ _ _ Hs He) as [H1' H2' H3' H4']. split; simpl in *; [done| | |].
    + apply Forall_app. split; [done|]. apply Forall_singleton. apply behind_upToDate.
      unfold behind. simpl. lia.
    + destruct (syncer_ c); simpl in *; try done.
      * destruct H3' as (p & Ep & Hb). exists p. split; [|done]. by apply lookup_app_l_Some.
      * destruct H3' as (p & Ep & Hb). exists p. split; [|done]. by apply lookup_app_l_Some.
    + intros pid [= <-]. by rewrite list_lookup_middle.
  - destruct (syncer_ c) eqn:Ey; try by apply (synced_weaken n); [lia|].
  - apply (synced_weaken n); [lia|]. apply synced_sync; [done|]. by apply (Hg r).
Qed.

Lemma synced_run events : forall n c,
  synced n c -> (0 <= n)%Z -> (n + Z.of_nat (length events) < 2 ^ 64 - 2)%Z ->
  (forall i r, events !! i = Some (Sync r) -> givesUp (run c (take i events)) = false) ->
  synced (n + Z.of_nat (length events)) (run c events).
Proof.
  induction events as [|e events IH]; intros n c Hs Hn Hb Hg; simpl; [by rewrite Z.add_0_r|].
  simpl length in Hb. replace (n + Z.of_nat (S (length events)))%Z with ((n + 1) + Z.of_nat (length events))%Z by lia.
  apply IH; [|lia|lia|].
  - apply synced_step; [done|lia|]. intros r ->. by apply (Hg 0 r).
  - intros i r Hi. by apply (Hg (S i) r).
Qed.

(** What the constructor is given: no layer, or one whose content cannot be
    loaded, or decodes to pairs of distinct keys that fit the capacity. *)
Definition loadable (capacity : nat) (start : option (option (list Dyn))) : Prop :=
  match start with
  | Some (Some data) => exists l, mapM convertTo data = Some l /\ NoDup l.*1 /\
      (capacity = 0 \/ length l <= capacity)
  | _ => True
  end.

Lemma synced_new capacity retries start :
  loadable capacity start ->
  synced 1 (newCache (Mp:=Mp) convertTo capacity retries (newPersistence <$> start)).
Proof.
  intros Hload. destruct start as [[data|]|]; simpl.
  - unfold load. simpl store. destruct Hload as (l & El & Hnd & Hcap).
    pose proof (loadData_evolves data (newMemory (Mp:=Mp) capacity) ltac:(simpl; lia)) as [He Hv].
    destruct (loadData convertTo data (newMemory capacity)) as [v m'] eqn:Em. simpl in He, Hv. subst v.
    apply evolves_version in He. simpl in He.
    assert (Hc : cached m' = reverse l).
    { unfold loadData in Em. pose proof (loadLoop_entries data l (cache_ (newMemory (Mp:=Mp) capacity)) false El Hnd) as Hl.
      destruct (loadLoop _ _ _ _) as [x b]. simpl in Hl. rewrite maxSize_newMap, entries_newMap, app_nil_r in Hl.
      assert (cached m' = entries x) as ->; [by destruct b; simplify_eq|].
      rewrite Hl by (intros k _; apply not_elem_of_nil). unfold prune.
      destruct (Nat.eqb_spec capacity 0); [done|]. rewrite take_ge; [done|]. rewrite length_reverse. lia. }
    split; simpl; [lia| |done|].
    + apply Forall_singleton. split; simpl; [lia|]. intros _. unfold setPersistedVersion. simpl.
      rewrite Hc. exists l. split; [done|]. rewrite reverse_Permutation. by rewrite (mapM_norm _ _ El).
    + intros pid [= <-]. done.
  - split; simpl; [lia| |done|].
    + apply Forall_singleton. apply behind_upToDate. unfold behind. simpl. lia.
    + intros pid [= <-]. done.
  - split; simpl; [lia|done..].
Qed.

(** When an [LRUPersistentCache] reports no pending updates, its
    persistence layer stores exactly the pairs that are cached (as they come
    back from their conversion), whatever gets,
    puts, removals, clears, changes of the layer, stops and failed writes were
    interleaved with the steps of the syncer thread, unless the syncer gave a
    layer up after [nSyncRetries] failures. *)
Lemma noPending_stored (capacity : nat) (retries : Z) (start : option (option (list Dyn)))
    (events : list (Event K V Dyn)) (pid : nat) (p : CachePersistence Dyn) :
  loadable capacity start -> (Z.of_nat (length events) < 2 ^ 64 - 3)%Z ->
  let c0 := newCache (Mp:=Mp) convertTo capacity retries (newPersistence <$> start) in
  (forall i r, events !! i = Some (Sync r) -> givesUp (run c0 (take i events)) = false) ->
  let c := run c0 events in
  persistence_ c = Some pid -> persistences c !! pid = Some p -> hasPendingUpdates c = false ->
  stored p ≡ₚ norm <$> cached (memory c).
Proof.
  intros Hload Hlen c0 Hg c Hcur Hp Hno.
  assert (Hs : synced (1 + Z.of_nat (length events)) c).
  { apply synced_run; [by apply synced_new|lia|lia|done]. }
  destruct Hs as [_ H2 _ _]. eapply Forall_lookup_1 in H2 as [_ Hu]; [|exact Hp]. apply restores_stored, Hu.
  unfold hasPendingUpdates in Hno. rewrite Hcur in Hno. simpl in Hno. rewrite Hp in Hno.
  unfold hasChangedSince in Hno. apply negb_false_iff, Z.eqb_eq in Hno. done.
Qed.

(** ** Stopping *)

Lemma run_app c (l1 l2 : list (Event K V Dyn)) : run c (l1 ++ l2) = run (run c l1) l2.
Proof. apply foldl_app. Qed.

Lemma run_Sync c r rs : run c (Sync <$> r :: rs) = run (syncStep r c) (Sync <$> rs).
Proof. done. Qed.

Lemma run_nil c : run c (Sync <$> []) = c.
Proof. done. Qed.

Lemma exited_stays c rs : syncer_ c = Exited -> run c (Sync <$> rs) = c.
Proof.
  intros E. induction rs as [|r rs IH]; [done|]. simpl.
  assert (Es : syncStep r c = c) by (unfold Persist.syncStep; by rewrite E). by rewrite Es.
Qed.

(** The syncer at the top of its loop, told to stop. *)
Record stopping pid c : Prop := {
  stop_top : syncer_ c = Top;
  stop_flag : stopSyncer_ c = true;
  stop_current : persistence_ c = Some pid;
  stop_layer : is_Some (persistences c !! pid)
}.

Lemma stop_exit pid c p r :
  stopping pid c -> persistences c !! pid = Some p -> persistedVersion_ p = version_ (memory c) ->
  syncer_ (syncStep r c) = Exited.
Proof.
  intros [H1 H2 H3 H4] Hp Hv. unfold Persist.syncStep. rewrite H1, H2, H3. simpl. rewrite Hp.
  unfold hasChangedSince. by rewrite Hv, Z.eqb_refl.
Qed.

(** What a round of the loop leads to: the end, or the top of the loop with
    the layer marked with the current version or one failure more. *)
Definition progress pid c c' : Prop :=
  syncer_ c' = Exited \/
  (stopping pid c' /\ nSyncRetries_ c' = nSyncRetries_ c /\
   ((exists p, persistences c' !! pid = Some p /\ persistedVersion_ p = version_ (memory c')) \/
    (nSyncFailures c' = (nSyncFailures c + 1)%Z /\ (nSyncFailures c + 1)%Z <> nSyncRetries_ c))).

Lemma progress_ext pid c1 c2 c' :
  nSyncFailures c1 = nSyncFailures c2 -> nSyncRetries_ c1 = nSyncRetries_ c2 ->
  progress pid c1 c' -> progress pid c2 c'.
Proof. unfold progress. by intros -> ->. Qed.

Lemma stop_finishing pid c p r ok :
  stopSyncer_ c = true -> persistence_ c = Some pid -> persistences c !! pid = Some p ->
  syncer_ c = Finishing (Some pid) ok ->
  (ok = true -> persistedVersion_ p = version_ (memory c)) ->
  progress pid c (syncStep r c).
Proof.
  intros H1 H2 H3 H4 Hok. right. unfold Persist.syncStep. rewrite H4. destruct ok.
  - split; [split; simpl; rewrite ?H1, ?H3; done|]. split; [done|]. left. exists p. split; [done|]. by apply Hok.
  - destruct (Z.eqb_spec (nSyncFailures c + 1) (nSyncRetries_ c)) as [E|E].
    + assert (Ep : alter (setPersistedVersion (version_ (memory c))) pid (persistences c) !! pid =
        Some (setPersistedVersion (version_ (memory c)) p)) by by rewrite list_lookup_alter_eq, H3.
      split; [split; simpl; rewrite ?H1, ?Ep; done|]. split; [done|]. left. eexists. split; [exact Ep|done].
    + split; [split; simpl; rewrite ?H1, ?H3; done|]. split; [done|]. by right.
Qed.

Lemma stop_round pid c r1 r2 r3 r4 r5 rs :
  stopping pid c ->
  exists n, n <= 5 /\ progress pid c (run c (Sync <$> take n (r1 :: r2 :: r3 :: r4 :: r5 :: rs))).
Proof.
  intros Hst. pose proof Hst as [H1 H2 H3 [p Hp]].
  destruct (decide (persistedVersion_ p = version_ (memory c))) as [Hv|Hv].
  { exists 1. split; [lia|]. left. cbn [take]. rewrite run_Sync, run_nil. by eapply stop_exit. }
  assert (Hc : hasChangedSince (persistedVersion_ p) (memory c) = true).
  { unfold hasChangedSince. by rewrite (proj2 (Z.eqb_neq _ _)) by congruence. }
  assert (E1 : syncStep r1 c = setSyncer (Checking pid) c).
  { unfold Persist.syncStep. rewrite H1, H3. simpl. rewrite Hp, Hc. simpl. by rewrite andb_false_r. }
  assert (E2 : syncStep r2 (setSyncer (Checking pid) c) = setSyncer (Converting pid) c).
  { unfold Persist.syncStep. simpl. by rewrite Hp, Hc. }
  destruct (convertToKeyValuePairs toDynamic (memory c)) as [[kvs v]|] eqn:Ec.
  - assert (E3 : syncStep r3 (setSyncer (Converting pid) c) = setSyncer (Persisting pid kvs v) c).
    { unfold Persist.syncStep. simpl. by rewrite Ec. }
    exists 5. split; [lia|]. cbn [take]. rewrite !run_Sync, run_nil, E1, E2, E3.
    set (p4 := (persistVersionedData kvs v r4 p).2).
    set (ok := match r4 with Persisted => true | Failed _ => false end).
    set (X := setSyncer (Finishing (Some pid) ok)
      (onPersistence pid (fun p => (persistVersionedData kvs v r4 p).2) c)).
    assert (E4 : syncStep r4 (setSyncer (Persisting pid kvs v) c) = X) by (unfold Persist.syncStep; done).
    rewrite E4. apply (progress_ext pid X); [done|done|].
    apply (stop_finishing pid X p4 r5 ok); [done|done| |done|].
    + unfold X. simpl. by rewrite list_lookup_alter_eq, Hp.
    + unfold ok. destruct r4; [|done]. intros _. simpl. unfold convertToKeyValuePairs in Ec.
      destruct (mapM _ _); [|done]. by injection Ec as _ <-.
  - assert (E3 : syncStep r3 (setSyncer (Converting pid) c) = setSyncer (Finishing (Some pid) false) c).
    { unfold Persist.syncStep. simpl. by rewrite Ec. }
    exists 4. split; [lia|]. cbn [take]. rewrite !run_Sync, run_nil, E1, E2, E3.
    apply (progress_ext pid (setSyncer (Finishing (Some pid) false) c)); [done|done|].
    by apply (stop_finishing pid _ p r4 false).
Qed.

Lemma stopping_exits k : forall pid c rs,
  stopping pid c -> (nSyncFailures c < nSyncRetries_ c)%Z ->
  (nSyncRetries_ c - nSyncFailures c <= Z.of_nat k)%Z -> 5 * k + 1 <= length rs ->
  syncer_ (run c (Sync <$> rs)) = Exited.
Proof.
  induction k as [|k IH]; intros pid c rs Hst Hlt Hk Hlen; [lia|].
  destruct rs as [|r1 [|r2 [|r3 [|r4 [|r5 rs]]]]]; simpl length in Hlen; try lia.
  destruct (stop_round pid c r1 r2 r3 r4 r5 rs Hst) as (n & Hn & Hprog).
  set (l := r1 :: r2 :: r3 :: r4 :: r5 :: rs) in *.
  rewrite <- (take_drop n l), fmap_app, run_app. set (c' := run c (Sync <$> take n l)) in *.
  assert (Hdrop : S (5 * k) <= length (drop n l)) by (rewrite length_drop; unfold l; simpl length; lia).
  destruct Hprog as [E|(Hst' & Hr & [(p & Hp & Hv)|[Hf Hne]])].
  - by rewrite exited_stays.
  - destruct (drop n l) as [|r rest]; [simpl in Hdrop; lia|].
    assert (E : syncer_ (syncStep r c') = Exited) by by eapply stop_exit.
    rewrite run_Sync. by rewrite exited_stays.
  - apply (IH pid c'); [done|lia|lia|lia].
Qed.

(** The destructor returns.  Once [stopSyncer_] is set, the syncer thread
    ends within five steps for each of the [nSyncRetries] attempts, whatever
    [persist] answers, when the retries are positive.  When they are not,
    failures are never given up: with a layer that keeps failing the thread,
    and the destructor that joins it, go on for ever (until the [int] that
    counts the failures overflows). *)
Lemma syncer_stops (c : LRUPersistentCache Mp Dyn) (pid : nat) (rs : list (PersistResult Dyn)) :
  stopping pid c -> (0 <= nSyncFailures c)%Z ->
  ((nSyncFailures c < nSyncRetries_ c)%Z ->
   (5 * (nSyncRetries_ c - nSyncFailures c) + 1 <= Z.of_nat (length rs))%Z ->
   syncer_ (run c (Sync <$> rs)) = Exited) /\
  ((nSyncRetries_ c <= 0)%Z -> hasPendingUpdates c = true ->
   Forall (fun r => r <> Persisted) rs -> (nSyncFailures c + Z.of_nat (length rs) < 2 ^ 31)%Z ->
   syncer_ (run c (Sync <$> rs)) <> Exited).
Proof.
  intros Hst Hpos. split.
  - intros Hlt Hlen. apply (stopping_exits (Z.to_nat (nSyncRetries_ c - nSyncFailures c)) pid); [done|done|lia|lia].
  - intros Hr Hpend Hfail _.
    (* pending, never marked, never finished with success *)
    set (Inv := fun c' : LRUPersistentCache Mp Dyn =>
      (nSyncRetries_ c' <= 0)%Z /\ (0 <= nSyncFailures c')%Z /\ stopSyncer_ c' = true /\
      persistence_ c' = Some pid /\ hasPendingUpdates c' = true /\
      match syncer_ c' with
      | Top | Converting _ | Persisting _ _ _ | Finishing (Some _) false => True
      | Checking i => i = pid
      | _ => False
      end).
    assert (Hstep : forall c' r, Inv c' -> r <> Persisted -> Inv (syncStep r c')).
    { intros c' r (I1 & I2 & I3 & I4 & I5 & I6) Hnp. pose proof I5 as I5'. unfold hasPendingUpdates in I5'.
      rewrite I4 in I5'. simpl in I5'. destruct (persistences c' !! pid) as [p|] eqn:Ep; [|done].
      unfold Persist.syncStep.
      destruct (syncer_ c') as [|i|i|i kvs v|[i|] [|]| |] eqn:Ey; try done.
      - rewrite I4. simpl. rewrite Ep, I5'. simpl. rewrite andb_false_r. by split_and!.
      - subst i. rewrite Ep, I5'. by split_and!.
      - destruct (convertToKeyValuePairs _ _) as [[kvs v]|]; by split_and!.
      - destruct r as [|remains]; [done|]. split_and!; simpl; try done.
        unfold hasPendingUpdates. simpl. rewrite I4. simpl. rewrite list_lookup_alter.
        destruct (decide (i = pid)) as [->|]; by rewrite Ep.
      - rewrite (proj2 (Z.eqb_neq _ _)) by lia. cbn [stopSyncer_ setFailures]. rewrite I3.
        split_and!; simpl; try done. lia. }
    assert (Hrun : forall rs c', Inv c' -> Forall (fun r => r <> Persisted) rs -> Inv (run c' (Sync <$> rs))).
    { induction rs0 as [|r rs0 IH]; intros c' Hi Hf; [done|]. apply Forall_cons in Hf as [Hr1 Hf].
      rewrite run_Sync. apply IH; [|done]. by apply Hstep. }
    pose proof Hst as [S1 S2 S3 S4]. destruct (Hrun rs c) as (_ & _ & _ & _ & _ & Hy); [|done|].
    + unfold Inv. rewrite S1. by split_and!.
    + intros E. by rewrite E in Hy.
Qed.

(** ** Restarting *)

(** A restart reverses the order in which entries are evicted.  What
    [convertToKeyValuePairs] writes is the list of the entries from the newest
    to the oldest, and [loadData] uses them one by one in that order: in the
    new cache the entry that was used last is the oldest, and it is the first
    to go when the new capacity is smaller. *)
Lemma reload_reverses (m : LRUInMemoryCache Mp) (capacity : nat) (data : list Dyn) (v : Z) :
  convertToKeyValuePairs toDynamic m = Some (data, v) ->
  cached (loadData convertTo data (newMemory (Mp:=Mp) capacity)).2 = prune capacity (reverse (norm <$> cached m)).
Proof.
  unfold convertToKeyValuePairs. destruct (mapM _ _) as [ds|] eqn:E; [|done]. intros [= <- <-].
  assert (El : mapM convertTo ds = Some (norm <$> cached m)) by by apply mapM_decode.
  pose proof (loadLoop_entries ds (norm <$> cached m) (cache_ (newMemory (Mp:=Mp) capacity)) false El) as Hl.
  unfold loadData. destruct (loadLoop _ _ _ _) as [x b]. cbn [fst cache_ newMemory] in Hl.
  rewrite maxSize_newMap, entries_newMap, app_nil_r in Hl.
  assert (Hx : entries x = prune capacity (reverse (norm <$> cached m))).
  { apply Hl; [rewrite norm_keys; apply entries_NoDup|]. intros k _. apply not_elem_of_nil. }
  unfold cached at 1. by destruct b.
Qed.
End cache.

(** ** Witnesses: pairs of numbers in a list, stored as they are *)

Definition noLayer : option (option (list (nat * nat))) := None.
Definition demoRun : list (Event nat nat (nat * nat)) :=
  [Put 1 10; SetPersistence (Some None); Put 2 20; Sync Persisted; Get 1; Sync Persisted;
   Sync (Failed None); Sync Persisted; Sync (Failed None); Put 3 30; Sync Persisted; Sync Persisted;
   Sync Persisted; Sync Persisted; Sync Persisted; Sync Persisted; Sync Persisted; Get 2].
Definition demo : LRUPersistentCache (LRUList nat nat) (nat * nat) :=
  run Some Some (newCache Some 2 3 (newPersistence <$> noLayer)) demoRun.

Lemma noPending_stored_witness :
  hasPendingUpdates demo = false /\
  exists p, persistences demo !! 0 = Some p /\ stored Some p ≡ₚ cached (memory demo).
Proof.
  split; [vm_compute; reflexivity|].
  eexists. split; [vm_compute; reflexivity|].
  rewrite <- (list_fmap_id (cached (memory demo))).
  apply (noPending_stored Some Some id (fun _ _ _ => eq_refl) (fun p d E => eq_sym E) 2 3 noLayer demoRun 0).
  - exact I.
  - vm_compute. reflexivity.
  - intros i r Hi. pose proof (lookup_lt_Some _ _ _ Hi) as Hlt. clear Hi.
    do 18 (destruct i as [|i]; [vm_compute; reflexivity|]). exfalso.
    change (length demoRun) with 18 in Hlt. lia.
  - vm_compute. reflexivity.
  - vm_compute. reflexivity.
  - vm_compute. reflexivity.
Defined.

Definition stoppedAt (retries : Z) : LRUPersistentCache (LRUList nat nat) (nat * nat) :=
  mkCache (mkMemory (newMap 2) 5) true retries [mkPersistence None 4] (Some 0) Top 0.

Lemma syncer_stops_witness :
  syncer_ (run Some Some (stoppedAt 1) (Sync <$> repeat (Failed (None : option (list (nat * nat)))) 6)) = Exited /\
  syncer_ (run Some Some (stoppedAt 0) (Sync <$> repeat (Failed (None : option (list (nat * nat)))) 6)) <> Exited.
Proof.
  assert (H : forall r, stopping 0 (stoppedAt r)) by (intros r; split; done).
  split.
  - apply (syncer_stops Some Some (stoppedAt 1) 0 _ (H 1%Z)); simpl; lia.
  - apply (syncer_stops Some Some (stoppedAt 0) 0 _ (H 0%Z)); try done.
    by repeat constructor.
Defined.

Lemma reload_reverses_witness :
  let m := (put 3 30 (put 2 20 (put 1 10 (newMemory (Mp:=LRUList nat nat) 3)))) in
  cached (loadData Some [(3, 30); (2, 20); (1, 10)] (newMemory (Mp:=LRUList nat nat) 2)).2 =
    [(1, 10); (2, 20)].
Proof.
  intros m.
  rewrite (reload_reverses Some Some id (fun _ => eq_refl) (fun p d E => eq_sym E) m 2 [(3, 30); (2, 20); (1, 10)] 4); reflexivity.
Defined.
