(* ===== verification/FilePersist.v ===== *)
(** * The cache on a file (src/wangle/client/persistence/FilePersistentCache)

    [PersistentCache] is the interface of the caches that clients use, with
    laws on what can be found in them.  [FilePersistenceLayer] stores the pairs
    as JSON in a file; [FilePersistentCache] is an [LRUPersistentCache] on such
    a layer.

    JSON is folly's: [serialize] and [parseJson] are parameters; what the
    system calls of [persist] answer is an input. *)
From Stdlib Require Import ZArith Lia.
From stdpp Require Import base numbers list gmap strings.
From S2P Require Import Prelude Persist.
Open Scope cpp_scope.

Set Default Goal Selector "!".

(** ** PersistentCache *)

Class PersistentCache (C K V : Type) : Type := {
  pc_get : K -> C -> option V * C;
  pc_put : K -> V -> C -> C;
  pc_remove : K -> C -> bool * C;
  pc_size : C -> nat
}.

(** [peek] is what a get would give; only a cache at its [capacity], if that
    is not 0, may drop entries. *)
Class PersistentCacheLaws (C K V : Type) `{!PersistentCache C K V} : Type := {
  peek : K -> C -> option V;
  capacity : C -> nat;
  pc_get_peek k c : (pc_get k c).1 = peek k c /\ forall j, peek j (pc_get k c).2 = peek j c;
  pc_put_peek k v c : peek k (pc_put k v c) = Some v;
  pc_put_others k v c j : j <> k -> peek j (pc_put k v c) = peek j c \/
    (peek j (pc_put k v c) = None /\ capacity c <> 0 /\ capacity c <= pc_size c);
  pc_remove_peek k c : (pc_remove k c).1 = (if peek k c is Some _ then true else false) /\
    peek k (pc_remove k c).2 = None /\ forall j, j <> k -> peek j (pc_remove k c).2 = peek j c;
  pc_laws_capacity k v c : capacity (pc_get k c).2 = capacity c /\ capacity (pc_put k v c) = capacity c /\
    capacity (pc_remove k c).2 = capacity c
}.

(** ** The file *)

Section layer.
Context {Dyn : Type}.
(** [folly::json::serialize], [parseJson]; the array of [push_back]s, and what
    a loop over a value visits ([TypeError] at its begin: nothing). *)
Context (serialize : Dyn -> option string) (parseJson : string -> option Dyn) (array : list Dyn -> Dyn) (elements : Dyn -> list Dyn).

(** What the calls of [persist] answer: [openNoInt]; how many bytes
    [writeFull] has written, and whether it returns -1; [fdatasyncNoInt];
    [closeNoInt]. *)
Record Syscalls : Type := mkSyscalls {
  opened : bool;
  written : nat;
  writeError : bool;
  datasynced : bool;
  closed : bool
}.
Definition nWritten (o : Syscalls) (serializedCache : string) : Z :=
  if writeError o then -1 else Z.of_nat (Nat.min (written o) (String.length serializedCache)).

Definition persist (file_ : string) (o : Syscalls) (dynObj : Dyn) (fs : gmap string string) : bool * gmap string string :=
  match serialize dynObj with
  | None => (false, fs)
  | Some serializedCache =>
      if opened o then
        let n := nWritten o serializedCache in
        let persisted := (0 <=? n)%Z && (n =? Z.of_nat (String.length serializedCache))%Z in
        let persisted := if datasynced o then persisted else false in
        let persisted := if closed o then persisted else false in
        (persisted, <[file_ := String.substring 0 (written o) serializedCache]> fs)
      else (false, fs)
  end.
Definition fileLoad (file_ : string) (fs : gmap string string) : option Dyn :=
  match fs !! file_ with
  | None => None
  | Some serializedCache => parseJson serializedCache
  end.
(** [unlink] may fail. *)
Definition fileClear (file_ : string) (unlinked : bool) (fs : gmap string string) : gmap string string :=
  if unlinked then delete file_ fs else fs.

(** The layer as [LRUPersistentCache] sees it. *)
Definition loads (file_ : string) (fs : gmap string string) : option (list Dyn) := elements <$> fileLoad file_ fs.

(** ** FilePersistentCache *)

Context {Mp K V : Type} `{!EqDecision K} `{!EvictingMap Mp K V}.
Context (toDynamic : K * V -> option Dyn) (convertTo : Dyn -> option (K * V)).

Record FilePersistentCache : Type := mkFileCache {
  file : string;
  lru : LRUPersistentCache Mp Dyn;
  fs : gmap string string
}.
Definition newFileCache (file : string) (cacheCapacity : nat) (nSyncRetries : Z) (fs : gmap string string) : FilePersistentCache :=
  mkFileCache file (newCache convertTo cacheCapacity nSyncRetries (Some (newPersistence (loads file fs)))) fs.

(** What happens to it: operations of clients, the destructor's signal and the
    steps of the syncer. *)
Inductive FileEvent : Type :=
| FileGet (k : K)
| FilePut (k : K) (v : V)
| FileRemove (k : K)
| FileClear (clearPersistence unlinked : bool)
| FileStop
| FileSync (o : Syscalls).

(** The step of the cache, given how [persist] ended if it was called: what a
    write that failed left behind is what [load] would find. *)
Definition lruEvent (e : FileEvent) (c : FilePersistentCache) : Event K V Dyn * gmap string string :=
  match e with
  | FileGet k => (Get k, fs c)
  | FilePut k v => (Put k v, fs c)
  | FileRemove k => (Remove k, fs c)
  | FileClear clearPersistence unlinked =>
      if clearPersistence then (Clear unlinked, fileClear (file c) unlinked (fs c)) else (Clear false, fs c)
  | FileStop => (Stop, fs c)
  | FileSync o =>
      match syncer_ (lru c) with
      | Persisting _ kvPairs _ =>
          let '(persisted, fs') := persist (file c) o (array kvPairs) (fs c) in
          (Sync (if persisted then Persisted else Failed (loads (file c) fs')), fs')
      | _ => (Sync Persisted, fs c)
      end
  end.
Definition fileStep (c : FilePersistentCache) (e : FileEvent) : FilePersistentCache :=
  let '(e', fs') := lruEvent e c in mkFileCache (file c) (step toDynamic convertTo (lru c) e') fs'.
Definition fileRun (c : FilePersistentCache) (events : list FileEvent) : FilePersistentCache := foldl fileStep c events.
End layer.
Arguments FilePersistentCache : clear implicits.
Arguments FileEvent : clear implicits.

(** ** The instances *)

Section instances.
Context {Mp K V Dyn : Type} `{!EqDecision K} `{!EvictingMap Mp K V}.

#[export] Instance LRU_PersistentCache : PersistentCache (LRUPersistentCache Mp Dyn) K V := {|
  pc_get k c := ((get k (memory c)).1, setMemory (get k (memory c)).2 c);
  pc_put k v c := setMemory (put k v (memory c)) c;
  pc_remove k c := ((remove k (memory c)).1, setMemory (remove k (memory c)).2 c);
  pc_size c := size (memory c)
|}.

#[export] Instance File_PersistentCache : PersistentCache (FilePersistentCache Dyn Mp) K V := {|
  pc_get k c := let (v, l) := pc_get k (lru c) in (v, mkFileCache (file c) l (fs c));
  pc_put k v c := mkFileCache (file c) (pc_put k v (lru c)) (fs c);
  pc_remove k c := let (b, l) := pc_remove k (lru c) in (b, mkFileCache (file c) l (fs c));
  pc_size c := pc_size (lru c)
|}.
End instances.
