(* ===== verification/FilePersistProps.v ===== *)
(** * The cache on a file: the properties

    The caches satisfy the laws of [PersistentCache]; the file implements the
    layer that [LRUPersistentCache] is proved against, so that its properties
    hold of the file, and a cache that is started again finds what was cached. *)
From Stdlib Require Import ZArith Lia.
From stdpp Require Import base numbers list gmap strings.
From S2P Require Import Prelude Persist PersistProps FilePersist.
Open Scope cpp_scope.

Set Default Goal Selector "!".

(** ** The laws of the caches *)

Section laws.
Context {Mp K V Dyn : Type} `{!EqDecision K} `{!EvictingMap Mp K V} `{!EvictingMapLaws Mp K V}.

Lemma prune_others (n : nat) (k j : K) (v : V) l : j <> k ->
  assoc j (prune n ((k, v) :: without k l)) = assoc j l \/
  (assoc j (prune n ((k, v) :: without k l)) = None /\ n <> 0 /\ n <= length l).
Proof.
  intros Hne. unfold prune. destruct (Nat.eqb_spec n 0) as [->|Hn].
  - left. simpl. rewrite decide_False by done. rewrite assoc_without. by rewrite decide_False.
  - destruct n as [|n]; [done|]. simpl. rewrite decide_False by done.
    destruct (assoc_take n j (without k l)) as [->|[-> Hlt]].
    + left. rewrite assoc_without. by rewrite decide_False.
    + right. split_and!; [done..|]. pose proof (length_filter (fun p : K * V => p.1 <> k) l). unfold without in Hlt. lia.
Qed.

#[export] Program Instance LRU_PersistentCacheLaws : PersistentCacheLaws (LRUPersistentCache Mp Dyn) K V := {|
  peek k c := assoc k (cached (memory c));
  capacity c := maxSize (cache_ (memory c))
|}.
Next Obligation.
  intros k c. destruct (find_entries k (cache_ (memory c))) as (Hv & _ & He). unfold cached. simpl. unfold get.
  destruct (find k _) as [v m] eqn:E. simpl in *. split; [done|]. intros j. rewrite He.
  destruct (assoc k (entries (cache_ (memory c)))) as [x|] eqn:Ex; [|done]. simpl.
  destruct (decide (k = j)) as [->|Hne]; [by rewrite Ex|]. rewrite assoc_without. by rewrite decide_False.
Qed.
Next Obligation.
  intros k v c. destruct (set_entries k v (cache_ (memory c))) as [_ He]. unfold cached. simpl. rewrite He. unfold prune.
  destruct (maxSize _); simpl; by rewrite decide_True.
Qed.
Next Obligation.
  intros k v c j Hne. destruct (set_entries k v (cache_ (memory c))) as [_ He]. unfold cached. simpl. unfold size.
  rewrite He, mapSize_entries. by apply prune_others.
Qed.
Next Obligation.
  intros k c. destruct (erase_entries k (cache_ (memory c))) as (_ & He & Hn). unfold cached. simpl. unfold remove.
  destruct (erase k _) as [n m] eqn:E. simpl in *. subst n.
  assert (Hm : entries (cache_ (setMemory (if 0 <? (if assoc k (entries (cache_ (memory c))) is Some _ then 1 else 0)
    then (true, incrementVersion m (memory c)) else (false, mkMemory m (version_ (memory c)))).2 c).(memory)) =
    without k (entries (cache_ (memory c)))) by by destruct (0 <? _).
  simpl in Hm. rewrite Hm. split_and!.
  - by destruct (assoc k _).
  - rewrite assoc_without. by rewrite decide_True.
  - intros j Hj. rewrite assoc_without. by rewrite decide_False.
Qed.
Next Obligation.
  intros k v c. simpl. unfold get, remove. destruct (find_entries k (cache_ (memory c))) as (_ & Hf & _).
  destruct (erase_entries k (cache_ (memory c))) as (Hr & _). destruct (set_entries k v (cache_ (memory c))) as [Hs _].
  destruct (find k _), (erase k _). simpl in *. split_and!; [done..|]. by destruct (0 <? _).
Qed.

#[export] Program Instance File_PersistentCacheLaws : PersistentCacheLaws (FilePersistentCache Dyn Mp) K V := {|
  peek k c := peek k (lru c);
  capacity c := capacity (lru c)
|}.
Next Obligation. intros k c. exact (pc_get_peek k (lru c)). Qed.
Next Obligation. intros k v c. exact (pc_put_peek k v (lru c)). Qed.
Next Obligation. intros k v c j. exact (pc_put_others k v (lru c) j). Qed.
Next Obligation. intros k c. exact (pc_remove_peek k (lru c)). Qed.
Next Obligation. intros k v c. exact (pc_laws_capacity k v (lru c)). Qed.
End laws.

(** ** The file as a layer *)

Lemma substring_all s : forall n, String.length s <= n -> String.substring 0 n s = s.
Proof. induction s as [|a s IH]; intros [|n] Hn; simpl in *; try done; [lia|]. rewrite IH by lia. done. Qed.

(** Every call succeeds, and all bytes are written. *)
Definition flawless (data : string) (o : Syscalls) : Prop :=
  opened o = true /\ writeError o = false /\ String.length data <= written o /\ datasynced o = true /\ closed o = true.

Section layer.
Context {Dyn : Type} (serialize : Dyn -> option string) (parseJson : string -> option Dyn) (array : list Dyn -> Dyn) (elements : Dyn -> list Dyn).
(** JSON that is parsed again. *)
Context (Hjson : forall l data, serialize (array l) = Some data -> exists d, parseJson data = Some d /\ elements d = l).
#[local] Abbreviation persist := (persist serialize).
#[local] Abbreviation loads := (loads parseJson elements).

Lemma persist_true file o d s : (persist file o d s).1 = true <-> exists data, serialize d = Some data /\ flawless data o.
Proof.
  unfold FilePersist.persist, flawless, nWritten. destruct (serialize d) as [data|]; [|split; [done|by intros (? & [=] & _)]].
  transitivity (opened o = true /\ writeError o = false /\ String.length data <= written o /\ datasynced o = true /\ closed o = true).
  2: { split; [by exists data|]. by intros (? & [= <-] & H). }
  destruct (opened o); simpl; [|naive_solver]. destruct (closed o); [|naive_solver]. destruct (datasynced o); [|naive_solver].
  destruct (writeError o); simpl; [naive_solver|]. rewrite andb_true_iff, Z.leb_le, Z.eqb_eq. split; [intros [_ H]; split_and!; [done..|lia|done|done]|].
  intros (_ & _ & H & _). lia.
Qed.

(** What [load] finds after [persist]. *)
Lemma persist_loads file o l s :
  ((persist file o (array l) s).1 = true -> loads file (persist file o (array l) s).2 = Some l) /\
  forall f, f <> file -> (persist file o (array l) s).2 !! f = s !! f.
Proof.
  split.
  - intros Hok. pose proof (proj1 (persist_true _ _ _ _) Hok) as (data & E & Ho & _ & Hw & _). unfold FilePersist.persist. rewrite E, Ho. simpl.
    unfold FilePersist.loads, fileLoad. rewrite lookup_insert_eq, substring_all by done.
    destruct (Hjson l data E) as (d & -> & <-). done.
  - intros f Hf. unfold FilePersist.persist. destruct (serialize _), (opened o); simpl; by rewrite ?lookup_insert_ne by done.
Qed.

(** ** The cache on the file *)

Context {Mp K V : Type} `{!EqDecision K} `{!EvictingMap Mp K V} `{!EvictingMapLaws Mp K V}.
Context (toDynamic : K * V -> option Dyn) (convertTo : Dyn -> option (K * V)).
Implicit Types (c : FilePersistentCache Dyn Mp) (e : FileEvent K V).
#[local] Abbreviation fileStep := (fileStep serialize parseJson array elements toDynamic convertTo).
#[local] Abbreviation fileRun := (fileRun serialize parseJson array elements toDynamic convertTo).
#[local] Abbreviation newFileCache := (newFileCache parseJson elements convertTo).
#[local] Abbreviation lruEvent := (lruEvent serialize parseJson array elements).
#[local] Abbreviation step := (step toDynamic convertTo).
#[local] Abbreviation run := (run toDynamic convertTo).

(** The layer that the syncer works on. *)
Definition syncsLayer (y : Syncer Dyn) : Prop :=
  match y with
  | Checking pid | Converting pid | Persisting pid _ _ | Finishing (Some pid) _ => pid = 0
  | _ => True
  end.
(** There is one layer, and it stores [content]. *)
Definition oneLayer (content : option (list Dyn)) (l : LRUPersistentCache Mp Dyn) : Prop :=
  persistence_ l = Some 0 /\ syncsLayer (syncer_ l) /\ exists p, persistences l = [p] /\ store p = content.
Definition onFile c : Prop := oneLayer (loads (file c) (fs c)) (lru c).

Lemma oneLayer_setSyncer content l y : oneLayer content l -> syncsLayer y -> oneLayer content (setSyncer y l).
Proof. by intros (? & _ & ?) Hy. Qed.
Lemma oneLayer_setMemory content l m : oneLayer content l -> oneLayer content (setMemory m l).
Proof. by intros (? & ? & ?). Qed.
Lemma oneLayer_setFailures content l n : oneLayer content l -> oneLayer content (setFailures n l).
Proof. by intros (? & ? & ?). Qed.
Lemma oneLayer_onPersistence content content' l g : oneLayer content l -> (forall p, store p = content -> store (g p) = content') ->
  oneLayer content' (onPersistence 0 g l).
Proof. intros (? & ? & p & Hps & Hst) Hg. split_and!; [done..|]. exists (g p). simpl. rewrite Hps. split; [done|by apply Hg]. Qed.

Lemma syncStep_oneLayer r content l : oneLayer content l ->
  oneLayer (match syncer_ l, r with Persisting _ kvs _, Persisted => Some kvs | Persisting _ _ _, Failed x => x | _, _ => content end)
    (syncStep toDynamic r l).
Proof.
  intros H. pose proof H as (Hcur & Hy & p & Hps & Hst). unfold syncStep. destruct (syncer_ l) as [|pid|pid|pid kvs v|pid ok| |] eqn:E; simpl in Hy; subst.
  - rewrite Hcur. simpl. case_match; by apply oneLayer_setSyncer.
  - rewrite Hps. simpl. case_match; by apply oneLayer_setSyncer.
  - destruct (convertToKeyValuePairs _ _) as [[? ?]|]; by apply oneLayer_setSyncer.
  - apply oneLayer_setSyncer; [|done]. eapply oneLayer_onPersistence; [exact H|]. by destruct r.
  - apply oneLayer_setSyncer; [|by destruct (stopSyncer_ _)]. destruct pid as [pid|], ok; subst; try by apply oneLayer_setFailures.
    destruct (_ =? _)%Z; apply oneLayer_setFailures; [|done]. eapply oneLayer_onPersistence; [exact H|done].
  - by apply oneLayer_setSyncer.
  - done.
Qed.

Lemma newFileCache_onFile file n retries s : onFile (newFileCache file n retries s).
Proof.
  unfold onFile, FilePersist.newFileCache, newCache, setPersistenceHelper. simpl. destruct (load convertTo _ _). simpl.
  split_and!; [done..|]. eexists. by split.
Qed.

Lemma fileStep_onFile c e : onFile c -> onFile (fileStep c e) /\ file (fileStep c e) = file c.
Proof.
  unfold onFile, FilePersist.fileStep. intros H. destruct e as [k|k v|k|b u| |o]; cbn [FilePersist.lruEvent].
  1,2,3: split; [by apply oneLayer_setMemory|done].
  - assert (Hm : oneLayer (loads (file c) (fs c)) (setMemory (clear (memory (lru c))) (lru c))) by by apply oneLayer_setMemory.
    destruct b; (split; [|done]); simpl; rewrite (proj1 H); [|done].
    destruct u; simpl; [|done]. eapply oneLayer_onPersistence; [exact Hm|]. intros p _. simpl.
    unfold FilePersist.loads, fileLoad. by rewrite lookup_delete_eq.
  - split; [|done]. simpl. destruct (syncer_ (lru c)) eqn:E; try done. by destruct H as (? & ? & ?).
  - destruct (syncer_ (lru c)) as [|pid|pid|pid kvs v|pid ok| |] eqn:E.
    1,2,3,5,6,7: split; [|done]; simpl; pose proof (syncStep_oneLayer Persisted _ _ H) as Hs; by rewrite E in Hs.
    pose proof (persist_loads (file c) o kvs (fs c)) as [Hl _].
    destruct (persist (file c) o (array kvs) (fs c)) as [ok s'] eqn:Ep. split; [|done]. simpl in Hl |- *.
    pose proof (syncStep_oneLayer (if ok then Persisted else Failed (loads (file c) s')) _ _ H) as Hs. rewrite E in Hs.
    destruct ok; [by rewrite Hl|exact Hs].
Qed.

(** ** What the file implements *)

(** The events of the cache with the same effects. *)
Fixpoint lruEvents c (events : list (FileEvent K V)) : list (Event K V Dyn) :=
  match events with
  | [] => []
  | e :: events => (lruEvent e c).1 :: lruEvents (fileStep c e) events
  end.
Lemma fileRun_onFile events : forall c, onFile c ->
  onFile (fileRun c events) /\ lru (fileRun c events) = run (lru c) (lruEvents c events) /\ file (fileRun c events) = file c.
Proof.
  induction events as [|e events IH]; intros c H; [done|]. destruct (fileStep_onFile c e H) as [H1 Hf].
  destruct (IH _ H1) as (H2 & E & Hf'). split; [exact H2|]. split; [|by rewrite <- Hf]. simpl. rewrite E. f_equal.
  unfold FilePersist.fileStep. by destruct (FilePersist.lruEvent _ _ _ _ _ _).
Qed.
Lemma lruEvents_length events : forall c, length (lruEvents c events) = length events.
Proof. induction events as [|e events IH]; intros c; simpl; [done|]. by rewrite IH. Qed.

(** C15. [FilePersistentCache] implements [LRUPersistentCache] on a layer that
    stores what [load] finds in the file: for every sequence of operations of
    clients, steps of the syncer and answers of the system calls, it is in the
    state that the cache reaches with the same operations when every [persist]
    ends as it does on the file; its layer stores what the file loads to; and
    a [persist] stores all pairs when it reports that it did, which it does
    exactly when the pairs serialize, every call succeeds and every byte is
    written. *)
Theorem file_cache_refines file n retries s events kvs o :
  let c := fileRun (newFileCache file n retries s) events in
  lru c = run (lru (newFileCache file n retries s)) (lruEvents (newFileCache file n retries s) events) /\
  length (lruEvents (newFileCache file n retries s) events) = length events /\
  (exists p, persistence_ (lru c) = Some 0 /\ persistences (lru c) = [p] /\ store p = loads file (fs c)) /\
  (let '(persisted, s') := persist file o (array kvs) (fs c) in
   (persisted = true <-> exists data, serialize (array kvs) = Some data /\ flawless data o) /\
   (persisted = true -> loads file s' = Some kvs)).
Proof.
  intros c. destruct (fileRun_onFile events _ (newFileCache_onFile file n retries s)) as ((Hcur & _ & p & Hps & Hst) & E & Hf). fold c in Hcur, Hps, Hst, E, Hf.
  split; [done|]. split; [apply lruEvents_length|]. split.
  - exists p. split_and!; [done..|]. by rewrite Hst, Hf.
  - destruct (persist file o (array kvs) (fs c)) as [ok s'] eqn:Ep. split.
    + pose proof (persist_true file o (array kvs) (fs c)) as H. by rewrite Ep in H.
    + pose proof (persist_loads file o kvs (fs c)) as [H _]. by rewrite Ep in H.
Qed.

(** ** Restarts *)

Lemma loadLoop_maxSize data : forall (x : Mp) b, maxSize (loadLoop convertTo data x b).1 = maxSize x.
Proof.
  induction data as [|d data IH]; intros x b; simpl; [done|]. destruct (convertTo d) as [[k v]|]; [|done]. rewrite IH. apply set_entries.
Qed.
Lemma load_maxSize p (m : LRUInMemoryCache Mp) : maxSize (cache_ (load convertTo p m).2) = maxSize (cache_ m).
Proof.
  unfold load. destruct (store p) as [data|]; [|done]. unfold loadData. pose proof (loadLoop_maxSize data (cache_ m) false) as H.
  destruct (loadLoop _ _ _ _) as [x b]. simpl in *. by destruct b.
Qed.
Lemma syncStep_memory r (l : LRUPersistentCache Mp Dyn) : memory (syncStep toDynamic r l) = memory l.
Proof. unfold syncStep. destruct (syncer_ l) as [| | | |[?|] []| |]; repeat case_match; done. Qed.
Lemma step_maxSize (l : LRUPersistentCache Mp Dyn) (e : Event K V Dyn) : maxSize (cache_ (memory (step l e))) = maxSize (cache_ (memory l)).
Proof.
  destruct e as [k|k v|k|b|content| |r]; simpl.
  - pose proof (find_entries k (cache_ (memory l))) as (_ & H & _). unfold get. by destruct (find k _).
  - apply (set_entries k v).
  - pose proof (erase_entries k (cache_ (memory l))) as (H & _). unfold remove. destruct (erase k _). by destruct (0 <? _).
  - assert (H : maxSize (cache_ (clear (memory l))) = maxSize (cache_ (memory l))).
    { unfold clear. destruct (mapSize _ =? 0); [done|]. simpl. apply clearMap_entries. }
    destruct (persistence_ l), b; exact H.
  - destruct content as [content|]; [|done]. simpl. pose proof (load_maxSize (newPersistence content) (memory l)) as H.
    by destruct (load convertTo _ _).
  - by destruct (syncer_ l).
  - by rewrite syncStep_memory.
Qed.
Lemma fileStep_capacity c e : maxSize (cache_ (memory (lru (fileStep c e)))) = maxSize (cache_ (memory (lru c))).
Proof. unfold FilePersist.fileStep. destruct (lruEvent e c) as [e' s'] eqn:E. simpl. apply step_maxSize. Qed.

Context (norm : K * V -> K * V) (Hnorm : forall d p, convertTo d = Some p -> norm p = p) (Hkey : forall p, (norm p).1 = p.1).
Context (Hconv : forall p d, toDynamic p = Some d -> convertTo d = Some (norm p)).

(** No layer is given up in the course of [events]. *)
Definition neverGivesUp c (events : list (FileEvent K V)) : Prop :=
  forall i o, events !! i = Some (FileSync o) -> givesUp (lru (fileRun c (take i events))) = false.

Lemma fileRun_synced events : forall k c, synced convertTo norm k (lru c) -> (0 <= k)%Z -> (k + Z.of_nat (length events) < 2 ^ 64 - 2)%Z ->
  neverGivesUp c events -> synced convertTo norm (k + Z.of_nat (length events)) (lru (fileRun c events)).
Proof.
  induction events as [|e events IH]; intros k c Hs Hk Hb Hg; simpl; [by rewrite Z.add_0_r|].
  simpl length in Hb. replace (k + Z.of_nat (S (length events)))%Z with ((k + 1) + Z.of_nat (length events))%Z by lia.
  apply IH; [|lia|lia|by intros i o Hi; apply (Hg (S i) o)].
  assert (E : lru (fileStep c e) = step (lru c) (lruEvent e c).1) by (unfold FilePersist.fileStep; by destruct (lruEvent e c)).
  rewrite E. eapply synced_step; [done..|lia|]. intros r Er. destruct e as [| | |[]| |o]; try done. by apply (Hg 0 o).
Qed.
Lemma fileRun_capacity events : forall c, maxSize (cache_ (memory (lru (fileRun c events)))) = maxSize (cache_ (memory (lru c))).
Proof. induction events as [|e events IH]; intros c; [done|]. simpl. rewrite IH. apply fileStep_capacity. Qed.

(** The entries of a cache that is started on a file. *)
Lemma newFileCache_cached file n retries s data l : loads file s = Some data -> mapM convertTo data = Some l -> NoDup l.*1 ->
  cached (memory (lru (newFileCache file n retries s))) = prune n (reverse l).
Proof.
  intros E El Hnd. unfold FilePersist.newFileCache, newCache. simpl. unfold load. simpl. rewrite E.
  pose proof (loadLoop_entries convertTo data l (newMap (Mp:=Mp) n) false El Hnd) as Hl. unfold loadData. simpl.
  destruct (loadLoop _ _ _ _) as [x b]. simpl in Hl. rewrite maxSize_newMap, entries_newMap, app_nil_r in Hl.
  unfold cached. destruct b; simpl; apply Hl; intros k _; apply not_elem_of_nil.
Qed.

Lemma assoc_norm k l : assoc k (norm <$> l) = (fun v => (norm (k, v)).2) <$> assoc k l.
Proof.
  induction l as [|[k' v] l IH]; [done|]. rewrite fmap_cons. pose proof (Hkey (k', v)) as Hk.
  destruct (norm (k', v)) as [k2 v2] eqn:E. simpl in Hk. subst k2. cbn [assoc]. destruct (decide (k' = k)) as [->|]; [|exact IH].
  simpl. by rewrite E.
Qed.

(** What a cache finds that is started on the file of another one, which has no
    pending updates. *)
Lemma restarted_peek file n retries s events retries' k :
  loadable convertTo n (Some (loads file s)) -> (Z.of_nat (length events) < 2 ^ 64 - 3)%Z ->
  let c0 := newFileCache file n retries s in
  neverGivesUp c0 events ->
  let c := fileRun c0 events in
  hasPendingUpdates (lru c) = false ->
  peek k (newFileCache file n retries' (fs c)) = (fun v => (norm (k, v)).2) <$> peek k c.
Proof.
  intros Hload Hlen c0 Hg c Hno. pose proof (newFileCache_onFile file n retries s) as Hon.
  assert (Hs : synced convertTo norm (1 + Z.of_nat (length events)) (lru c)).
  { apply fileRun_synced; [|lia|lia|done].
    exact (synced_new convertTo norm Hnorm n retries (Some (loads file s)) Hload). }
  destruct (fileRun_onFile events c0 Hon) as ((Hcur & _ & p & Hps & Hst) & _ & Hf). fold c in Hcur, Hps, Hst, Hf.
  simpl in Hf. rewrite Hf in Hst.
  destruct Hs as [_ H2 _ _]. rewrite Hps, Forall_singleton in H2. destruct H2 as [_ Hu].
  unfold hasPendingUpdates in Hno. rewrite Hcur in Hno. simpl in Hno. rewrite Hps in Hno. simpl in Hno.
  unfold hasChangedSince in Hno. apply negb_false_iff, Z.eqb_eq in Hno. specialize (Hu (eq_sym Hno)). rewrite Hst in Hu.
  assert (Hmax : maxSize (cache_ (memory (lru c))) = n).
  { unfold c. rewrite fileRun_capacity. unfold c0, FilePersist.newFileCache, newCache, setPersistenceHelper. simpl.
    pose proof (load_maxSize (newPersistence (loads file s)) (newMemory n)) as H. destruct (load convertTo _ _). simpl in *.
    by rewrite H, maxSize_newMap. }
  change (assoc k (cached (memory (lru (newFileCache file n retries' (fs c))))) =
    (fun v => (norm (k, v)).2) <$> assoc k (cached (memory (lru c)))).
  assert (Hnd : NoDup (cached (memory (lru c))).*1) by apply entries_NoDup.
  rewrite <- (assoc_norm k). destruct (loads file (fs c)) as [data|] eqn:El; simpl in Hu.
  - destruct Hu as (l & Em & Hp).
    assert (Hndl : NoDup l.*1) by by rewrite Hp, norm_keys. rewrite (newFileCache_cached _ _ _ _ _ _ El Em Hndl).
    assert (Hlen' : n <> 0 -> length l <= n).
    { intros Hn. rewrite Hp, length_fmap, <- Hmax. apply entries_maxSize. by rewrite Hmax. }
    assert (Epr : prune n (reverse l) = reverse l).
    { unfold prune. destruct (Nat.eqb_spec n 0); [done|]. apply take_ge. rewrite length_reverse. by apply Hlen'. }
    rewrite Epr. apply assoc_perm; [by rewrite reverse_Permutation|]. by rewrite reverse_Permutation.
  - unfold FilePersist.newFileCache, newCache. simpl. unfold load. simpl. rewrite El. simpl. unfold cached at 1. simpl.
    rewrite entries_newMap, Hu. done.
Qed.
End layer.

(** ** At concrete inputs *)

(** Trees of values as JSON, and a text that can be read back. *)
Section trees.
Context {A : Type} `{!EqDecision A} `{!Countable A}.

Fixpoint bitsOf (p : positive) : string :=
  match p with
  | xH => EmptyString
  | xO p => String Ascii.zero (bitsOf p)
  | xI p => String Ascii.one (bitsOf p)
  end.
Fixpoint ofBits (s : string) : positive :=
  match s with
  | EmptyString => xH
  | String a s => if decide (a = Ascii.zero) then xO (ofBits s) else xI (ofBits s)
  end.
Lemma ofBits_bitsOf p : ofBits (bitsOf p) = p.
Proof. induction p as [p IH|p IH|]; simpl; by rewrite ?IH. Qed.

Definition treeSerialize (t : gen_tree A) : option string := Some (bitsOf (encode t)).
Definition treeParse (s : string) : option (gen_tree A) := decode (ofBits s).
Definition treeArray (l : list (gen_tree A)) : gen_tree A := GenNode 0 l.
Definition treeElements (t : gen_tree A) : list (gen_tree A) := match t with GenNode 0 l => l | _ => [] end.
Lemma tree_json l data : treeSerialize (treeArray l) = Some data -> exists d, treeParse data = Some d /\ treeElements d = l.
Proof. intros [= <-]. exists (treeArray l). split; [|done]. unfold treeParse. by rewrite ofBits_bitsOf, decode_encode. Qed.
End trees.

Definition pairTree (p : nat * nat) : option (gen_tree nat) := Some (GenNode 1 [GenLeaf p.1; GenLeaf p.2]).
Definition treePair (t : gen_tree nat) : option (nat * nat) :=
  match t with GenNode 1 [GenLeaf k; GenLeaf v] => Some (k, v) | _ => None end.
Lemma treePair_norm d p : treePair d = Some p -> id p = p.
Proof. done. Qed.
Lemma treePair_pairTree p d : pairTree p = Some d -> treePair d = Some (id p).
Proof. intros [= <-]. by destruct p. Qed.

Definition allWell : Syscalls := mkSyscalls true 100000 false true true.
Definition exampleCache : FilePersistentCache (gen_tree nat) (LRUList nat nat) := newFileCache treeParse treeElements treePair "f" 2 3 ∅.
Definition exampleEvents : list (FileEvent nat nat) :=
  [FilePut 1 10; FilePut 2 20; FileSync allWell; FileSync allWell; FileSync allWell; FilePut 3 30; FileSync (mkSyscalls true 5 true true true);
   FileSync allWell; FileSync allWell; FileGet 2; FileSync allWell; FileSync allWell; FileSync allWell; FileSync allWell; FileSync allWell].
#[local] Abbreviation exampleRun := (fileRun treeSerialize treeParse treeArray treeElements pairTree treePair exampleCache exampleEvents).

Lemma file_cache_refines_witness :
  persistence_ (lru exampleRun) = Some 0 /\ exists p, persistences (lru exampleRun) = [p] /\ store p = loads treeParse treeElements "f" (fs exampleRun).
Proof.
  destruct (file_cache_refines treeSerialize treeParse treeArray treeElements tree_json pairTree treePair "f" 2 3 ∅ exampleEvents [] allWell)
    as (_ & _ & (p & Hc & Hps & Hst) & _).
  split; [exact Hc|]. exists p. split; [exact Hps|exact Hst].
Defined.

Lemma example_restarted :
  let restarted := newFileCache (Mp:=LRUList nat nat) treeParse treeElements treePair "f" 2 3 (fs exampleRun) in
  peek 1 restarted = None /\ peek 2 restarted = Some 20 /\ peek 3 restarted = Some 30.
Proof.
  assert (H : forall k, peek k (newFileCache (Mp:=LRUList nat nat) treeParse treeElements treePair "f" 2 3 (fs exampleRun)) = id <$> peek k exampleRun).
  { intros k. apply (restarted_peek treeSerialize treeParse treeArray treeElements tree_json pairTree treePair id treePair_norm (fun _ => eq_refl) treePair_pairTree
      "f" 2 3 ∅ exampleEvents 3 k).
    - exact I.
    - vm_compute. reflexivity.
    - intros i o Hi. pose proof (lookup_lt_Some _ _ _ Hi) as Hlt. clear Hi.
      do 15 (destruct i as [|i]; [vm_compute; reflexivity|]). exfalso. change (length exampleEvents) with 15 in Hlt. lia.
    - vm_compute. reflexivity. }
  intros restarted. unfold restarted. rewrite !H. vm_compute. repeat split; reflexivity.
Defined.

(** ** Where it goes wrong *)

(** The file is truncated before it is written: when that fails, or the process
    ends in between, what the file held is lost as well. *)
Lemma torn_write_loses_file :
  let torn := mkSyscalls true 3 true true true in
  loads (treeParse (A:=nat)) (treeElements (A:=nat)) "f" (fs exampleRun) <> None /\
  loads (treeParse (A:=nat)) (treeElements (A:=nat)) "f" (persist (treeSerialize (A:=nat)) "f" torn (treeArray (A:=nat) []) (fs exampleRun)).2 = None.
Proof. vm_compute. split; [done|reflexivity]. Qed.
