(* ===== verification/ClientSsl.v ===== *)
(** * TLS sessions of clients (src/wangle/client/ssl)

    [SSLSessionCallbacks] offers the sessions OpenSSL makes to a cache and
    takes away those OpenSSL drops; [SSLSessionPersistentCacheBase] keeps them,
    serialized, in a [PersistentCache] and gives new sessions made from what it
    kept; SSLSessionCacheUtils and SSLSessionCacheData do the conversions.

    Sessions are reference-counted objects of OpenSSL with a content, of which
    the functions of OpenSSL that read it are parameters, and one string of
    ex_data, the service identity.  [folly::dynamic] is a class with laws. *)
From Stdlib Require Import ZArith Lia.
From stdpp Require Import base numbers list gmap strings.
From S2P Require Import Prelude FilePersist.
Open Scope cpp_scope.

Set Default Goal Selector "!".

(** ** folly::dynamic *)

Class FollyDynamic (D : Type) : Type := {
  dString : string -> D;
  dInt : Z -> D;
  dObject : list (string * D) -> D;
  dArray : list D -> D;
  dAt : D -> nat -> option D;                (* operator[] of arrays; None: it throws *)
  dField : D -> string -> option D;
  dIsObject : D -> bool;
  asString : D -> option string;
  asInt : D -> option Z
}.
Class FollyDynamicLaws (D : Type) `{!FollyDynamic D} : Prop := {
  dAt_array l i : dAt (dArray l) i = l !! i;
  dField_object l k : dField (dObject l) k = assoc k l;
  dIsObject_object l : dIsObject (dObject l) = true;
  asString_string s : asString (dString s) = Some s;
  asInt_int z : (- 2 ^ 63 <= z < 2 ^ 63)%Z -> asInt (dInt z) = Some z;
  asInt_range d z : asInt d = Some z -> (- 2 ^ 63 <= z < 2 ^ 63)%Z
}.

(** Conversion to [int64_t]. *)
Definition i64 (z : Z) : Z := u64 (z + 2 ^ 63) - 2 ^ 63.

(** ** SSLSessionCacheData *)

Section client.
Context {Content : Type}.

(** The duplicate that is kept as template is never changed, and is its value:
    its content and its service identity. *)
Record SSLSessionCacheData : Type := mkData {
  sessionData : string;
  addedTime : Z;                             (* nanoseconds since the epoch *)
  serviceIdentity : string;
  sessionDuplicateTemplate : option (Content * option string)
}.

Section conversion.
Context {D : Type} `{!FollyDynamic D}.

Definition toDynamic (data : SSLSessionCacheData) : D :=
  dObject [("session_data", dString (sessionData data));
           ("added_time", dInt (i64 (u64 (addedTime data))));
           ("service_identity", dString (serviceIdentity data))].
Definition convertTo (d : D) : option SSLSessionCacheData :=
  data ← dField d "session_data" ≫= asString;
  time ← dField d "added_time" ≫= asInt;
  identity ← (if dIsObject d then asString (default (dString "") (dField d "service_identity")) else None);
  Some (mkData data time identity None).

(** The pairs of a cache, as its persistence layer sees them. *)
Definition pairToDynamic (p : string * SSLSessionCacheData) : option D := Some (dArray [dString p.1; toDynamic p.2]).
Definition pairConvertTo (d : D) : option (string * SSLSessionCacheData) :=
  k ← dAt d 0 ≫= asString;
  v ← dAt d 1 ≫= convertTo;
  Some (k, v).
End conversion.

(** ** OpenSSL's sessions *)

Record SSL_SESSION : Type := mkSession {
  content : Content;
  ex_identity : option string;               (* the std::string* of the ex_data *)
  refs : nat
}.
(** The members of an [SSL_CTX] that are set; caches are named by numbers. *)
Record SSL_CTX : Type := mkCtx {
  ex_cache : option nat;
  new_cb : bool;
  remove_cb : bool;
  session_cache_mode : bool
}.
Definition plainCtx : SSL_CTX := mkCtx None false false false.

Context {C : Type} `{!PersistentCache C string SSLSessionCacheData}.

(** [lost]: strings that nothing points to any more and nobody deleted. *)
Record Client : Type := mkClient {
  sessions : gmap nat SSL_SESSION;
  nextSession : nat;
  lost : list string;
  caches : gmap nat C;
  ctxs : gmap nat SSL_CTX
}.
Definition setSessions x (s : Client) : Client := mkClient x (nextSession s) (lost s) (caches s) (ctxs s).
Definition setCaches x (s : Client) : Client := mkClient (sessions s) (nextSession s) (lost s) x (ctxs s).
Definition setCtx ctx x (s : Client) : Client := mkClient (sessions s) (nextSession s) (lost s) (caches s) (<[ctx := x]> (ctxs s)).

(** [i2d_SSL_SESSION] (empty for an invalid session), [d2i_SSL_SESSION] and the
    properties of a session that are read. *)
Context (i2d : Content -> string) (d2i : string -> option Content)
  (has_ticket : Content -> bool) (ticket_lifetime_hint : Content -> Z) (hostname : Content -> option string).
(** WANGLE_HAVE_SSL_SESSION_DUP. *)
Context (dup : bool).

Definition session (sid : nat) : M Client SSL_SESSION :=
  let! s := get in of_option (Undefined "session freed") (sessions s !! sid).
Definition newSession (c : Content) (identity : option string) : M Client nat :=
  let! s := get in
  do! modify (fun s => mkClient (<[nextSession s := mkSession c identity 1]> (sessions s)) (S (nextSession s)) (lost s) (caches s) (ctxs s)) in
  ret (nextSession s).
Definition SSL_SESSION_up_ref (sid : nat) : M Client unit :=
  let! x := session sid in
  modify (fun s => setSessions (<[sid := mkSession (content x) (ex_identity x) (S (refs x))]> (sessions s)) s).
(** The destructor of [SSLSessionPtr]. *)
Definition SSL_SESSION_free (sid : nat) : M Client unit :=
  let! x := session sid in
  modify (fun s => setSessions (if refs x <=? 1 then delete sid (sessions s)
                                else <[sid := mkSession (content x) (ex_identity x) (refs x - 1)]> (sessions s)) s).
(** Setting does not delete what was there; [exDataStdStringDup] copies the
    string for a duplicate. *)
Definition SSL_SESSION_set_ex_data (sid : nat) (str : string) : M Client unit :=
  let! x := session sid in
  modify (fun s => mkClient (<[sid := mkSession (content x) (Some str) (refs x)]> (sessions s)) (nextSession s)
    (lost s ++ (if ex_identity x is Some old then [old] else [])) (caches s) (ctxs s)).
Definition SSL_SESSION_dup (sid : nat) : M Client nat :=
  let! x := session sid in newSession (content x) (ex_identity x).

(** ** SSLSessionCacheUtils *)

Definition sessionToFbString (session_ : option nat) : M Client (option string) :=
  match session_ with
  | None => ret None
  | Some sid =>
      let! x := session sid in
      ret (if 0 <? String.length (i2d (content x)) then Some (i2d (content x)) else None)
  end.
Definition fbStringToSession (str : string) : M Client (option nat) :=
  match d2i str with
  | None => ret None
  | Some c => let! sid := newSession c None in ret (Some sid)
  end.

Definition setSessionServiceIdentity (session_ : option nat) (str : string) : M Client bool :=
  match session_ with
  | None => ret false
  | Some sid =>
      if decide (str = EmptyString) then ret false
      else do! SSL_SESSION_set_ex_data sid str in ret true
  end.
Definition getSessionServiceIdentity (session_ : option nat) : M Client (option string) :=
  match session_ with
  | None => ret None
  | Some sid => let! x := session sid in ret (ex_identity x)
  end.

Definition getCacheDataForSession (sess : option nat) : M Client (option SSLSessionCacheData) :=
  let! sessionData := sessionToFbString sess in
  match sessionData with
  | None => ret None
  | Some data =>
      let! identity := getSessionServiceIdentity sess in
      let! template :=
        match sess, dup with
        | Some sid, true => let! x := session sid in ret (Some (content x, ex_identity x))
        | _, _ => ret None
        end in
      ret (Some (mkData data 0 (default EmptyString identity) template))
  end.
Definition getSessionFromCacheData (data : SSLSessionCacheData) : M Client (option nat) :=
  match dup, sessionDuplicateTemplate data with
  | true, Some (c, identity) => let! sid := newSession c identity in ret (Some sid)
  | _, _ =>
      let! result := fbStringToSession (sessionData data) in
      match result with
      | None => ret None
      | Some sid => do! setSessionServiceIdentity (Some sid) (serviceIdentity data) in ret (Some sid)
      end
  end.
Definition cloneSSLSession (toClone : option nat) : M Client (option nat) :=
  match toClone with
  | None => ret None
  | Some sid =>
      if dup then let! sid := SSL_SESSION_dup sid in ret (Some sid)
      else
        let! sessionData := sessionToFbString toClone in
        match sessionData with
        | None => ret None
        | Some data =>
            let! clone := fbStringToSession data in
            match clone with
            | None => ret None
            | Some sid' =>
                let! identity := getSessionServiceIdentity toClone in
                do! match identity with
                    | Some str => do! setSessionServiceIdentity clone str in ret tt
                    | None => ret tt
                    end in
                ret clone
            end
        end
  end.

(** ** SSLSessionPersistentCacheBase, with the key of SSLSessionPersistentCache *)

Definition getKey (identity : string) : string := identity.
Definition cacheAt (cid : nat) : M Client C :=
  let! s := get in of_option (Undefined "no cache") (caches s !! cid).
Definition putCache (cid : nat) (c : C) : M Client unit := modify (fun s => setCaches (<[cid := c]> (caches s)) s).

Definition setSSLSession (now : Z) (cid : nat) (identity : string) (session_ : option nat) : M Client unit :=
  match session_ with
  | None => ret tt
  | Some sid =>
      let! sessionCacheData := getCacheDataForSession (Some sid) in
      do! match sessionCacheData with
          | Some d =>
              let! c := cacheAt cid in
              putCache cid (pc_put (getKey identity)
                (mkData (sessionData d) now (serviceIdentity d) (sessionDuplicateTemplate d)) c)
          | None => ret tt
          end in
      SSL_SESSION_free sid
  end.

Definition nsPerSecond : Z := 1000000000.
(** [duration_cast<seconds>(now - addedTime)]. *)
Definition secsBetween (now addedTime : Z) : res Z :=
  let diff := (now - addedTime)%Z in
  if (- 2 ^ 63 <=? diff)%Z && (diff <? 2 ^ 63)%Z then Ok (diff ÷ nsPerSecond)%Z else Err (Undefined "overflow of now - addedTime").

Definition getSSLSession (now : Z) (cid : nat) (identity : string) : M Client (option nat) :=
  let! c := cacheAt cid in
  let '(hit, c) := pc_get (getKey identity) c in
  do! putCache cid c in
  match hit with
  | None => ret None
  | Some value =>
      let! sess := getSessionFromCacheData value in
      match sess with
      | None => ret None
      | Some sid =>
          let! x := session sid in
          if has_ticket (content x) && (0 <? ticket_lifetime_hint (content x))%Z then
            match secsBetween now (addedTime value) with
            | Err f => raise f
            | Ok secs =>
                if (ticket_lifetime_hint (content x) <=? secs)%Z then do! SSL_SESSION_free sid in ret None
                else ret (Some sid)
            end
          else ret (Some sid)
      end
  end.

Definition removeSSLSession (cid : nat) (identity : string) : M Client bool :=
  let! c := cacheAt cid in
  let '(removed, c) := pc_remove (getKey identity) c in
  do! putCache cid c in
  ret removed.

(** ** SSLSessionCallbacks *)

Definition ctxAt (ctx : nat) : M Client SSL_CTX := gets (fun s => default plainCtx (ctxs s !! ctx)).
Definition attachCallbacksToContext (ctx : nat) (callbacks : nat) : M Client unit :=
  modify (setCtx ctx (mkCtx (Some callbacks) true true true)).
Definition getCacheFromContext (ctx : nat) : M Client (option nat) := let! x := ctxAt ctx in ret (ex_cache x).
Definition detachCallbacksFromContext (ctx : nat) (callbacks : nat) : M Client unit :=
  let! sslSessionCache := getCacheFromContext ctx in
  if decide (sslSessionCache = Some callbacks) then
    let! x := ctxAt ctx in modify (setCtx ctx (mkCtx None false false (session_cache_mode x)))
  else ret tt.

(** A call on a null cache. *)
Definition callee (cache : option nat) : M Client nat := of_option (Undefined "null cache") cache.

(** [sessionKey]: of the socket, when there is one; [serverName]: of its SNI. *)
Definition newSessionCallback (now : Z) (ctx : nat) (sessionKey : option string) (serverName : option string) (sid : nat) : M Client Z :=
  let! sslSessionCache := getCacheFromContext ctx in
  let sessionKey := default EmptyString sessionKey in
  let sessionKey := if decide (sessionKey = EmptyString) then default EmptyString serverName else sessionKey in
  if decide (sessionKey = EmptyString) then do! SSL_SESSION_free sid in ret (-1)%Z
  else
    do! setSessionServiceIdentity (Some sid) sessionKey in
    let! cid := callee sslSessionCache in
    do! setSSLSession now cid sessionKey (Some sid) in
    ret 1%Z.

Definition removeSessionCallback (ctx : nat) (sid : nat) : M Client unit :=
  let! sslSessionCache := getCacheFromContext ctx in
  let! identity := getSessionServiceIdentity (Some sid) in
  if decide (default EmptyString identity = EmptyString) then
    let! x := session sid in
    match hostname (content x) with
    | Some name => let! cid := callee sslSessionCache in do! removeSSLSession cid name in ret tt
    | None => ret tt
    end
  else
    let! cid := callee sslSessionCache in
    do! removeSSLSession cid (default EmptyString identity) in ret tt.
End client.
Arguments SSLSessionCacheData : clear implicits.
Arguments SSL_SESSION : clear implicits.
Arguments Client : clear implicits.
