(* ===== verification/ClientSslProps.v ===== *)
(** * TLS sessions of clients: the properties

    What OpenSSL offers is what a later connection gets, until it expires or is
    removed; no session is freed too early or leaked, however offers, lookups
    and removals are ordered; and the sessions survive a restart of the
    program. *)
From Stdlib Require Import ZArith Lia.
From stdpp Require Import base numbers list gmap strings.
From S2P Require Import Prelude Persist PersistProps FilePersist FilePersistProps ClientSsl.
Open Scope cpp_scope.

Set Default Goal Selector "!".

Section client.
Context {Content C : Type} `{!PersistentCache C string (SSLSessionCacheData Content)} `{!PersistentCacheLaws C string (SSLSessionCacheData Content)}.
Context (i2d : Content -> string) (d2i : string -> option Content)
  (has_ticket : Content -> bool) (ticket_lifetime_hint : Content -> Z) (hostname : Content -> option string) (dup : bool).
(** A session that can be serialized is read back. *)
Context (Hd2i : forall c, i2d c <> EmptyString -> d2i (i2d c) = Some c).
Implicit Types (s : Client Content C) (d : SSLSessionCacheData Content).
#[local] Abbreviation getSSLSession := (getSSLSession (C:=C) d2i has_ticket ticket_lifetime_hint dup).
#[local] Abbreviation setSSLSession := (setSSLSession (C:=C) i2d dup).
#[local] Abbreviation newSessionCallback := (newSessionCallback (C:=C) i2d dup).
#[local] Abbreviation removeSessionCallback := (removeSessionCallback (C:=C) hostname).
#[local] Abbreviation cloneSSLSession := (cloneSSLSession (C:=C) i2d d2i dup).

(** ** Operations on what is there *)

Lemma bind_cacheAt {B} cid c (k : C -> M _ B) s : caches s !! cid = Some c -> bind (cacheAt cid) k s = k c s.
Proof. intros E. unfold cacheAt, bind, get, of_option. cbn. by rewrite E. Qed.
Lemma bind_session {B} sid x (k : SSL_SESSION Content -> M _ B) s : sessions s !! sid = Some x -> bind (session sid) k s = k x s.
Proof. intros E. unfold session, bind, get, of_option. cbn. by rewrite E. Qed.
Lemma bind_callee {B} cid (k : nat -> M (Client Content C) B) s : bind (callee (Some cid)) k s = k cid s.
Proof. done. Qed.
Lemma free_ok sid x s : sessions s !! sid = Some x ->
  SSL_SESSION_free sid s = (Ok tt, setSessions (if refs x <=? 1 then delete sid (sessions s)
    else <[sid := mkSession (content x) (ex_identity x) (refs x - 1)]> (sessions s)) s).
Proof. intros E. unfold SSL_SESSION_free. by rewrite (bind_session _ _ _ _ E). Qed.

(** ** What is kept of a session *)

Record Kept : Type := mkKept {
  k_content : Content;
  k_identity : option string;
  k_time : Z
}.
Definition sane (t : Z) : Prop := (0 <= t < 2 ^ 62)%Z.
Definition represents d (x : Kept) : Prop :=
  i2d (k_content x) <> EmptyString /\ sessionData d = i2d (k_content x) /\ addedTime d = k_time x /\ sane (k_time x) /\
  serviceIdentity d = default EmptyString (k_identity x) /\ k_identity x <> Some EmptyString /\
  (sessionDuplicateTemplate d = None \/ sessionDuplicateTemplate d = Some (k_content x, k_identity x)).
Definition expired (now : Z) (x : Kept) : bool :=
  has_ticket (k_content x) && (0 <? ticket_lifetime_hint (k_content x))%Z &&
  (ticket_lifetime_hint (k_content x) <=? (now - k_time x) ÷ nsPerSecond)%Z.

(** The state with one more session. *)
Definition withSession (x : SSL_SESSION Content) s : Client Content C :=
  mkClient (<[nextSession s := x]> (sessions s)) (S (nextSession s)) (lost s) (caches s) (ctxs s).

Lemma getSessionFromCacheData_ok d x s : represents d x ->
  getSessionFromCacheData d2i dup d s = (Ok (Some (nextSession s)), withSession (mkSession (k_content x) (k_identity x) 1) s).
Proof.
  intros (Hne & Hd & _ & _ & Hid & Hempty & Ht). unfold getSessionFromCacheData, fbStringToSession. rewrite Hd, (Hd2i _ Hne).
  assert (Hnodup : (let! result := (let! sid := newSession (C:=C) (k_content x) None in ret (Some sid)) in
      match result with
      | None => ret None
      | Some sid => do! setSessionServiceIdentity (Some sid) (serviceIdentity d) in ret (Some sid)
      end) s = (Ok (Some (nextSession s)), withSession (mkSession (k_content x) (k_identity x) 1) s)).
  { unfold setSessionServiceIdentity, newSession, SSL_SESSION_set_ex_data, session, bind, of_option, modify, get, ret. simpl. rewrite Hid.
    destruct (k_identity x) as [str|]; simpl; [|done]. rewrite decide_False by congruence. simpl. rewrite lookup_insert_eq. simpl.
    rewrite insert_insert_eq, app_nil_r. done. }
  destruct dup; [|exact Hnodup]. by destruct Ht as [->| ->].
Qed.

(** ** A lookup *)

Definition afterGet (cid : nat) (identity : string) (c : C) s : Client Content C :=
  setCaches (<[cid := (pc_get (getKey identity) c).2]> (caches s)) s.

Lemma getSSLSession_miss now cid identity c s : caches s !! cid = Some c -> peek identity c = None ->
  getSSLSession now cid identity s = (Ok None, afterGet cid identity c s).
Proof.
  intros Ec Hp. destruct (pc_get_peek identity c) as [Hg _]. unfold ClientSsl.getSSLSession. rewrite (bind_cacheAt _ _ _ _ Ec).
  unfold getKey. rewrite Hp in Hg. destruct (pc_get identity c) as [hit c'] eqn:E. simpl in Hg. subst hit. unfold putCache. rewrite bind_modify.
  unfold afterGet, getKey. by rewrite E.
Qed.

Lemma secsBetween_sane now t : sane now -> sane t -> secsBetween now t = Ok ((now - t) ÷ nsPerSecond)%Z.
Proof. unfold sane, secsBetween. intros. rewrite (proj2 (Z.leb_le _ _)), (proj2 (Z.ltb_lt _ _)) by lia. done. Qed.

Lemma getSSLSession_hit now cid identity c d x s : caches s !! cid = Some c -> peek identity c = Some d -> represents d x -> sane now ->
  getSSLSession now cid identity s =
  if expired now x then (Ok None, setSessions (delete (nextSession s) (sessions s)) (withSession (mkSession (k_content x) (k_identity x) 1) (afterGet cid identity c s)))
  else (Ok (Some (nextSession s)), withSession (mkSession (k_content x) (k_identity x) 1) (afterGet cid identity c s)).
Proof.
  intros Ec Hp Hr Hnow. destruct (pc_get_peek identity c) as [Hg _]. unfold ClientSsl.getSSLSession. rewrite (bind_cacheAt _ _ _ _ Ec).
  unfold afterGet, getKey. rewrite Hp in Hg. destruct (pc_get identity c) as [hit c'] eqn:E. simpl in Hg. subst hit. unfold putCache.
  rewrite bind_modify. rewrite (bind_Ok _ _ _ _ _ (getSessionFromCacheData_ok d x _ Hr)). set (s1 := withSession _ _).
  assert (Es : sessions s1 !! nextSession s = Some (mkSession (k_content x) (k_identity x) 1)) by apply lookup_insert_eq.
  simpl. rewrite (bind_session _ _ _ _ Es). simpl. unfold expired. destruct (_ && _); simpl; [|done].
  destruct Hr as (_ & _ & -> & Hs & _). rewrite (secsBetween_sane now (k_time x) Hnow Hs). destruct (_ <=? _)%Z; [|done].
  rewrite (bind_Ok _ _ _ _ _ (free_ok _ _ _ Es)). simpl. by rewrite delete_insert_eq.
Qed.

(** ** An offer *)

Lemma getCacheData_ok sid x s : sessions s !! sid = Some x ->
  getCacheDataForSession i2d dup (Some sid) s =
  (Ok (if decide (i2d (content x) = EmptyString) then None
       else Some (mkData (i2d (content x)) 0 (default EmptyString (ex_identity x)) (if dup then Some (content x, ex_identity x) else None))), s).
Proof.
  intros E. unfold getCacheDataForSession, sessionToFbString, getSessionServiceIdentity. rewrite bind_assoc, (bind_session _ _ _ _ E), bind_ret.
  case_decide as Hd; [by rewrite Hd|].
  assert (Hl : (0 <? String.length (i2d (content x))) = true) by (apply Nat.ltb_lt; destruct (i2d (content x)); [done|simpl; lia]).
  rewrite Hl. rewrite bind_assoc, (bind_session _ _ _ _ E), bind_ret. destruct dup; [|done].
  by rewrite bind_assoc, (bind_session _ _ _ _ E), bind_ret.
Qed.

Definition stored_as now (x : SSL_SESSION Content) : SSLSessionCacheData Content :=
  mkData (i2d (content x)) now (default EmptyString (ex_identity x)) (if dup then Some (content x, ex_identity x) else None).
Definition released sid (x : SSL_SESSION Content) (l : gmap nat (SSL_SESSION Content)) : gmap nat (SSL_SESSION Content) :=
  if refs x <=? 1 then delete sid l else <[sid := mkSession (content x) (ex_identity x) (refs x - 1)]> l.

Lemma setSSLSession_ok now cid identity sid x c s : sessions s !! sid = Some x -> caches s !! cid = Some c ->
  setSSLSession now cid identity (Some sid) s =
  (Ok tt, setSessions (released sid x (sessions s))
    (if decide (i2d (content x) = EmptyString) then s else setCaches (<[cid := pc_put identity (stored_as now x) c]> (caches s)) s)).
Proof.
  intros Es Ec. unfold ClientSsl.setSSLSession. rewrite (bind_Ok _ _ _ _ _ (getCacheData_ok _ _ _ Es)). case_decide.
  - rewrite bind_ret. by apply free_ok.
  - rewrite bind_assoc, (bind_cacheAt _ _ _ _ Ec). unfold putCache. rewrite bind_modify. by rewrite (free_ok sid x).
Qed.

Definition keyOf (sessionKey serverName : option string) : string :=
  if decide (default EmptyString sessionKey = EmptyString) then default EmptyString serverName else default EmptyString sessionKey.
Definition named (key : string) (x : SSL_SESSION Content) : SSL_SESSION Content := mkSession (content x) (Some key) (refs x).
(** What becomes of the string that the session had. *)
Definition loses (x : SSL_SESSION Content) : list string := if ex_identity x is Some old then [old] else [].

Definition ctxOf s ctx : SSL_CTX := default plainCtx (ctxs s !! ctx).

Lemma newSessionCallback_ok now ctx sessionKey serverName sid x cid c s :
  ex_cache (ctxOf s ctx) = Some cid -> caches s !! cid = Some c -> sessions s !! sid = Some x ->
  newSessionCallback now ctx sessionKey serverName sid s =
  let key := keyOf sessionKey serverName in
  if decide (key = EmptyString) then (Ok (-1)%Z, setSessions (released sid x (sessions s)) s)
  else (Ok 1%Z, mkClient (released sid (named key x) (<[sid := named key x]> (sessions s))) (nextSession s) (lost s ++ loses x)
    (if decide (i2d (content x) = EmptyString) then caches s else <[cid := pc_put key (stored_as now (named key x)) c]> (caches s)) (ctxs s)).
Proof.
  intros Ex Ec Es. unfold ClientSsl.newSessionCallback, getCacheFromContext, ctxAt. fold (keyOf sessionKey serverName).
  rewrite bind_assoc, bind_gets, bind_ret. fold (ctxOf s ctx). rewrite Ex. cbv zeta. case_decide as Hk.
  - by rewrite (bind_Ok _ _ _ _ _ (free_ok _ _ _ Es)).
  - unfold setSessionServiceIdentity. rewrite decide_False by done. unfold SSL_SESSION_set_ex_data.
    rewrite !bind_assoc, (bind_session _ _ _ _ Es), bind_modify, bind_ret, bind_callee. set (s1 := mkClient _ _ _ _ _).
    assert (E1 : sessions s1 !! sid = Some (named (keyOf sessionKey serverName) x)) by apply lookup_insert_eq.
    assert (Ec1 : caches s1 !! cid = Some c) by done.
    rewrite (bind_Ok _ _ _ _ _ (setSSLSession_ok now cid (keyOf sessionKey serverName) sid _ c s1 E1 Ec1)). simpl. unfold s1.
    by case_decide.
Qed.

Definition dropped (x : SSL_SESSION Content) : option string :=
  if decide (default EmptyString (ex_identity x) = EmptyString) then hostname (content x) else ex_identity x.
Lemma removeSSLSession_ok cid identity c s : caches s !! cid = Some c ->
  removeSSLSession cid identity s = (Ok (pc_remove identity c).1, setCaches (<[cid := (pc_remove identity c).2]> (caches s)) s).
Proof.
  intros E. unfold removeSSLSession. rewrite (bind_cacheAt _ _ _ _ E). unfold getKey, putCache. destruct (pc_remove identity c). by rewrite bind_modify.
Qed.
Lemma removeSessionCallback_ok ctx sid x cid c s :
  ex_cache (ctxOf s ctx) = Some cid -> caches s !! cid = Some c -> sessions s !! sid = Some x ->
  removeSessionCallback ctx sid s =
  (Ok tt, if dropped x is Some name then setCaches (<[cid := (pc_remove name c).2]> (caches s)) s else s).
Proof.
  intros Ex Ec Es. unfold ClientSsl.removeSessionCallback, getCacheFromContext, ctxAt, getSessionServiceIdentity.
  rewrite bind_assoc, bind_gets, bind_ret. fold (ctxOf s ctx). rewrite Ex. rewrite bind_assoc, (bind_session _ _ _ _ Es), bind_ret.
  unfold dropped. case_decide as Hd.
  - rewrite (bind_session _ _ _ _ Es). destruct (hostname (content x)) as [name|]; [|done].
    rewrite bind_callee. by rewrite (bind_Ok _ _ _ _ _ (removeSSLSession_ok _ _ _ _ Ec)).
  - rewrite bind_callee. destruct (ex_identity x) as [name|]; [|done].
    by rewrite (bind_Ok _ _ _ _ _ (removeSSLSession_ok _ _ _ _ Ec)).
Qed.

Lemma cloneSSLSession_ok sid x s : sessions s !! sid = Some x -> ex_identity x <> Some EmptyString -> sessions s !! nextSession s = None ->
  cloneSSLSession (Some sid) s =
  if dup || bool_decide (i2d (content x) <> EmptyString)
  then (Ok (Some (nextSession s)), withSession (mkSession (content x) (ex_identity x) 1) s) else (Ok None, s).
Proof.
  intros Es Hid Hfresh. unfold ClientSsl.cloneSSLSession. destruct dup; simpl.
  - unfold SSL_SESSION_dup. by rewrite bind_assoc, (bind_session _ _ _ _ Es).
  - unfold sessionToFbString. rewrite bind_assoc, (bind_session _ _ _ _ Es), bind_ret. case_bool_decide as Hd.
    + assert (Hl : (0 <? String.length (i2d (content x))) = true) by (apply Nat.ltb_lt; destruct (i2d (content x)); [done|simpl; lia]).
      rewrite Hl. unfold fbStringToSession. rewrite (Hd2i _ Hd). set (s1 := withSession (mkSession (content x) None 1) s).
      rewrite (bind_Ok _ _ _ (Some (nextSession s)) s1) by done. unfold getSessionServiceIdentity.
      assert (E1 : sessions s1 !! sid = Some x) by (simpl; rewrite lookup_insert_ne; congruence).
      rewrite bind_assoc, (bind_session _ _ _ _ E1), bind_ret. destruct (ex_identity x) as [str|]; [|done].
      unfold setSessionServiceIdentity. rewrite decide_False by congruence. unfold SSL_SESSION_set_ex_data.
      assert (E2 : sessions s1 !! nextSession s = Some (mkSession (content x) None 1)) by apply lookup_insert_eq.
      rewrite !bind_assoc, (bind_session _ _ _ _ E2), bind_modify, !bind_ret. unfold ret, withSession. simpl.
      by rewrite insert_insert_eq, app_nil_r.
    + by rewrite Hd.
Qed.

(** ** Histories *)

(** The client, how many references its users hold to each session, and what
    was stored last under the keys of each cache. *)
Record Ghost : Type := mkGhost {
  client : Client Content C;
  held : nat -> nat;
  kept : gmap (nat * string) Kept
}.
Inductive ClientEvent : Type :=
| Attach (ctx cid : nat)
| Detach (ctx cid : nat)
| Make (c : Content)                         (* OpenSSL makes a session *)
| Offer (now : Z) (ctx : nat) (sessionKey serverName : option string) (sid : nat)
| Lookup (now : Z) (cid : nat) (identity : string)
| Drop (ctx sid : nat)                       (* OpenSSL drops a session *)
| RemoveKey (cid : nat) (identity : string)
| Clone (sid : nat)
| Release (sid : nat).

(** OpenSSL hands the callback a reference of its own, and takes it back if
    the callback returns 0. *)
Definition offer now ctx sessionKey serverName sid : M (Client Content C) unit :=
  do! SSL_SESSION_up_ref sid in
  let! r := newSessionCallback now ctx sessionKey serverName sid in
  if (r =? 0)%Z then SSL_SESSION_free sid else ret tt.

Definition hold (o : option nat) (h : nat -> nat) : nat -> nat :=
  if o is Some sid then fun i => if decide (i = sid) then S (h i) else h i else h.
Definition unhold (sid : nat) (h : nat -> nat) : nat -> nat := fun i => if decide (i = sid) then pred (h i) else h i.

Definition cidOf (g : Ghost) ctx : nat := default 0 (ex_cache (ctxOf (client g) ctx)).
(** What the users hold, and what is kept, after an event that gave them [r]. *)
Definition heldAfter (ev : ClientEvent) (r : option nat) (h : nat -> nat) : nat -> nat :=
  match ev with Release sid => unhold sid h | _ => hold r h end.
Definition keptAfter (ev : ClientEvent) (g : Ghost) : gmap (nat * string) Kept :=
  match ev with
  | Offer now ctx sessionKey serverName sid =>
      match sessions (client g) !! sid with
      | Some x =>
          let key := keyOf sessionKey serverName in
          if decide (key = EmptyString \/ i2d (content x) = EmptyString) then kept g
          else <[(cidOf g ctx, key) := mkKept (content x) (Some key) now]> (kept g)
      | None => kept g
      end
  | Drop ctx sid =>
      match sessions (client g) !! sid ≫= dropped with
      | Some name => delete (cidOf g ctx, name) (kept g)
      | None => kept g
      end
  | RemoveKey cid identity => delete (cid, identity) (kept g)
  | _ => kept g
  end.

Definition perform (ev : ClientEvent) : M (Client Content C) (option nat) :=
  match ev with
  | Attach ctx cid => do! attachCallbacksToContext ctx cid in ret None
  | Detach ctx cid => do! detachCallbacksFromContext ctx cid in ret None
  | Make c => let! sid := newSession c None in ret (Some sid)
  | Offer now ctx sessionKey serverName sid => do! offer now ctx sessionKey serverName sid in ret None
  | Lookup now cid identity => getSSLSession now cid identity
  | Drop ctx sid => do! removeSessionCallback ctx sid in ret None
  | RemoveKey cid identity => do! removeSSLSession cid identity in ret None
  | Clone sid => cloneSSLSession (Some sid)
  | Release sid => do! SSL_SESSION_free sid in ret None
  end.
Definition clientEvent (ev : ClientEvent) (g : Ghost) : res (option nat) * Ghost :=
  match perform ev (client g) with
  | (Ok r, s) => (Ok r, mkGhost s (heldAfter ev r (held g)) (keptAfter ev g))
  | (Err f, s) => (Err f, mkGhost s (held g) (kept g))
  end.

(** OpenSSL calls the callbacks that are set; sessions are used by those who
    hold them. *)
Definition clientLegal (ev : ClientEvent) (g : Ghost) : Prop :=
  match ev with
  | Attach _ cid | RemoveKey cid _ => is_Some (caches (client g) !! cid)
  | Detach _ _ | Make _ => True
  | Offer now ctx _ _ sid => sane now /\ new_cb (ctxOf (client g) ctx) = true /\ 0 < held g sid
  | Lookup now cid _ => sane now /\ is_Some (caches (client g) !! cid)
  | Drop ctx sid => remove_cb (ctxOf (client g) ctx) = true /\ 0 < held g sid
  | Clone sid | Release sid => 0 < held g sid
  end.

(** ** The invariant *)

Definition counted (l : gmap nat (SSL_SESSION Content)) (next : nat) (h : nat -> nat) : Prop :=
  (forall sid, match l !! sid with
               | Some x => refs x = h sid /\ 0 < h sid /\ ex_identity x <> Some EmptyString
               | None => h sid = 0
               end) /\ forall sid, next <= sid -> l !! sid = None.
Definition wiredCtx (cs : gmap nat C) (x : SSL_CTX) : Prop :=
  (new_cb x = true \/ remove_cb x = true -> is_Some (ex_cache x)) /\ forall cid, ex_cache x = Some cid -> is_Some (cs !! cid).
Definition keepsCache (m : gmap (nat * string) Kept) (cid : nat) (c : C) : Prop :=
  (forall k d, peek k c = Some d -> exists x, m !! (cid, k) = Some x /\ represents d x) /\
  (forall k x, capacity c = 0 -> m !! (cid, k) = Some x -> is_Some (peek k c)).
Record clientInv (g : Ghost) : Prop := {
  ci_counted : counted (sessions (client g)) (nextSession (client g)) (held g);
  ci_ctx ctx : wiredCtx (caches (client g)) (ctxOf (client g) ctx);
  ci_keeps cid c : caches (client g) !! cid = Some c -> keepsCache (kept g) cid c
}.

(** Counting. *)
Lemma counted_fresh l next h : counted l next h -> l !! next = None /\ h next = 0.
Proof. intros [H Hn]. pose proof (Hn next ltac:(lia)) as E. specialize (H next). by rewrite E in H. Qed.
Lemma counted_new l next h c identity : counted l next h -> identity <> Some EmptyString ->
  counted (<[next := mkSession c identity 1]> l) (S next) (hold (Some next) h).
Proof.
  intros H Hid. destruct (counted_fresh _ _ _ H) as [Hf Hh]. destruct H as [H Hn]. split.
  - intros sid. unfold hold. destruct (decide (sid = next)) as [->|Hne].
    + rewrite lookup_insert_eq, Hh. simpl. split_and!; [done|lia|done].
    + rewrite lookup_insert_ne by done. apply H.
  - intros sid Hs. rewrite lookup_insert_ne by lia. apply Hn. lia.
Qed.
Lemma counted_set l next h h' sid x x' : counted l next h -> l !! sid = Some x -> refs x' = h' sid -> 0 < h' sid ->
  ex_identity x' <> Some EmptyString -> (forall i, i <> sid -> h' i = h i) -> counted (<[sid := x']> l) next h'.
Proof.
  intros [H Hn] E Hr Hp Hid Hh. split.
  - intros i. destruct (decide (i = sid)) as [->|Hne]; [by rewrite lookup_insert_eq|]. rewrite lookup_insert_ne, Hh by done. apply H.
  - intros i Hi. destruct (decide (i = sid)) as [->|Hne]; [|by rewrite lookup_insert_ne; auto]. by rewrite Hn in E.
Qed.
Lemma counted_released l next h sid x : counted l next h -> l !! sid = Some x -> counted (released sid x l) next (unhold sid h).
Proof.
  intros H E. pose proof (proj1 H sid) as Hx. rewrite E in Hx. destruct Hx as (Hr & Hp & Hid). unfold released. destruct (Nat.leb_spec (refs x) 1).
  - destruct H as [H Hn]. split.
    + intros i. unfold unhold. destruct (decide (i = sid)) as [->|Hne]; [rewrite lookup_delete_eq; lia|].
      rewrite lookup_delete_ne by done. apply H.
    + intros i Hi. rewrite lookup_delete_None. right. by apply Hn.
  - eapply counted_set; [exact H|exact E|..|]; unfold unhold; simpl; try (rewrite decide_True by done); [lia|lia|done|].
    intros i Hi. by rewrite decide_False.
Qed.
Lemma counted_eq l next h h' : (forall i, h i = h' i) -> counted l next h -> counted l next h'.
Proof. intros E [H Hn]. split; [|done]. intros sid. specialize (H sid). by rewrite <- E. Qed.
Lemma counted_live l next h sid : counted l next h -> 0 < h sid -> exists x, l !! sid = Some x /\ refs x = h sid /\ ex_identity x <> Some EmptyString.
Proof. intros [H _] Hp. specialize (H sid). destruct (l !! sid) as [x|]; [|lia]. exists x. naive_solver. Qed.

(** Caches. *)
Lemma keeps_get m cid c k : keepsCache m cid c -> keepsCache m cid (pc_get k c).2.
Proof.
  intros [H1 H2]. destruct (pc_get_peek k c) as [_ Hp]. split; intros j; rewrite Hp; [apply H1|].
  intros x. rewrite (proj1 (pc_laws_capacity k (mkData EmptyString 0 EmptyString None) c)). apply H2.
Qed.
Lemma keeps_put m cid c k d x : keepsCache m cid c -> represents d x -> keepsCache (<[(cid, k) := x]> m) cid (pc_put k d c).
Proof.
  intros [H1 H2] Hr. split; intros j.
  - intros d'. destruct (decide (j = k)) as [->|Hne].
    + rewrite pc_put_peek. intros [= <-]. exists x. by rewrite lookup_insert_eq.
    + rewrite lookup_insert_ne by congruence. destruct (pc_put_others k d c j Hne) as [->|[-> _]]; [apply H1|done].
  - intros x' Hc. rewrite (proj1 (proj2 (pc_laws_capacity k d c))) in Hc. destruct (decide (j = k)) as [->|Hne].
    + rewrite pc_put_peek. by eexists.
    + rewrite lookup_insert_ne by congruence. destruct (pc_put_others k d c j Hne) as [->|(_ & Hn & _)]; [by apply H2|done].
Qed.
Lemma keeps_remove m cid c k : keepsCache m cid c -> keepsCache (delete (cid, k) m) cid (pc_remove k c).2.
Proof.
  intros [H1 H2]. destruct (pc_remove_peek k c) as (_ & Hk & Ho). split; intros j.
  - intros d. destruct (decide (j = k)) as [->|Hne]; [by rewrite Hk|]. rewrite Ho by done. rewrite lookup_delete_ne by congruence. apply H1.
  - intros x. rewrite (proj2 (proj2 (pc_laws_capacity k (mkData EmptyString 0 EmptyString None) c))). intros Hc.
    destruct (decide (j = k)) as [->|Hne]; [by rewrite lookup_delete_eq|]. rewrite lookup_delete_ne by congruence. rewrite Ho by done. by apply H2.
Qed.
Lemma keeps_other m cid c p o : p.1 <> cid -> keepsCache m cid c -> keepsCache (partial_alter (fun _ => o) p m) cid c.
Proof.
  intros Hp [H1 H2]. split; intros j; [intros d Hd|intros x Hc]; rewrite lookup_partial_alter_ne by (by intros ->); [by apply H1|by apply H2].
Qed.

(** ** The events *)

Definition answers (g : Ghost) now cid identity (r : option nat) (s' : Client Content C) : Prop :=
  match r with
  | Some sid => sessions (client g) !! sid = None /\ exists x, kept g !! (cid, identity) = Some x /\ expired now x = false /\
      sessions s' !! sid = Some (mkSession (k_content x) (k_identity x) 1)
  | None => (exists c, caches (client g) !! cid = Some c /\ peek identity c = None) \/
      exists x, kept g !! (cid, identity) = Some x /\ expired now x = true
  end.
(** The event [ev] has succeeded with [r] in the state [s']. *)
Definition succeeds (g : Ghost) (ev : ClientEvent) (r : option nat) (s' : Client Content C) : Prop :=
  perform ev (client g) = (Ok r, s') /\ clientInv (mkGhost s' (heldAfter ev r (held g)) (keptAfter ev g)).

Lemma keeps_caches (m m' : gmap (nat * string) Kept) (cs : gmap nat C) cid c' :
  (forall i c, cs !! i = Some c -> keepsCache m i c) -> keepsCache m' cid c' ->
  (forall i c, i <> cid -> keepsCache m i c -> keepsCache m' i c) ->
  forall i c, <[cid := c']> cs !! i = Some c -> keepsCache m' i c.
Proof.
  intros H Hc Ho i c. destruct (decide (i = cid)) as [->|Hne]; [rewrite lookup_insert_eq; by intros [= <-]|].
  rewrite lookup_insert_ne by done. intros E. by apply Ho; [|apply H].
Qed.
Lemma wired_insert (cs : gmap nat C) cid c x : wiredCtx cs x -> wiredCtx (<[cid := c]> cs) x.
Proof.
  intros [H1 H2]. split; [exact H1|]. intros i Hi. destruct (decide (i = cid)) as [->|Hne]; [rewrite lookup_insert_eq; by eexists|].
  rewrite lookup_insert_ne by done. by apply H2.
Qed.

Lemma lookup_done g now cid identity : clientInv g -> clientLegal (Lookup now cid identity) g ->
  exists r s', succeeds g (Lookup now cid identity) r s' /\ answers g now cid identity r s'.
Proof.
  intros [Hc Hw Hk] [Hnow [c Ec]]. pose proof (Hk cid c Ec) as Hkc. pose proof (counted_fresh _ _ _ Hc) as [Hf Hh].
  assert (Hkeeps : forall i c0, <[cid := (pc_get (getKey identity) c).2]> (caches (client g)) !! i = Some c0 -> keepsCache (kept g) i c0).
  { apply (keeps_caches (kept g)); [exact Hk|by apply keeps_get|done]. }
  assert (Hwired : forall ctx, wiredCtx (<[cid := (pc_get (getKey identity) c).2]> (caches (client g))) (ctxOf (client g) ctx)).
  { intros ctx. apply wired_insert, Hw. }
  destruct (peek identity c) as [d|] eqn:Ep.
  - destruct (proj1 Hkc _ _ Ep) as (x & Ex & Hr). pose proof (getSSLSession_hit now cid identity c d x (client g) Ec Ep Hr Hnow) as E.
    assert (Hid : k_identity x <> Some EmptyString) by apply Hr.
    destruct (expired now x) eqn:Ee.
    + eexists _, _. split; [split; [exact E|]|right; by exists x]. split; simpl; [|exact Hwired|exact Hkeeps].
      destruct Hc as [Hc Hn]. split.
      * intros i. destruct (decide (i = nextSession (client g))) as [->|Hne]; [by rewrite lookup_delete_eq|]. rewrite lookup_delete_ne by done. apply Hc.
      * intros i Hi. rewrite lookup_delete_None. right. apply Hn. lia.
    + eexists _, _. split; [split; [exact E|]|].
      * split; simpl; [|exact Hwired|exact Hkeeps]. by apply counted_new.
      * split; [exact Hf|]. exists x. split_and!; [done..|]. apply lookup_insert_eq.
  - pose proof (getSSLSession_miss now cid identity c (client g) Ec Ep) as E.
    eexists _, _. split; [split; [exact E|]|left; by exists c]. split; simpl; [exact Hc|exact Hwired|exact Hkeeps].
Qed.

Lemma up_ref_ok sid x s : sessions s !! sid = Some x ->
  SSL_SESSION_up_ref sid s = (Ok tt, setSessions (<[sid := mkSession (content x) (ex_identity x) (S (refs x))]> (sessions s)) s).
Proof. intros E. unfold SSL_SESSION_up_ref. by rewrite (bind_session _ _ _ _ E). Qed.

Lemma offer_done g now ctx sessionKey serverName sid : clientInv g -> clientLegal (Offer now ctx sessionKey serverName sid) g ->
  exists s', succeeds g (Offer now ctx sessionKey serverName sid) None s'.
Proof.
  intros [Hc Hw Hk] (Hnow & Hcb & Hp). destruct (counted_live _ _ _ _ Hc Hp) as (x & Ex & Hr & Hid).
  destruct (Hw ctx) as [Hset Hcaches]. destruct (Hset (or_introl Hcb)) as [cid Ecid]. destruct (Hcaches cid Ecid) as [c Ec].
  set (x1 := mkSession (content x) (ex_identity x) (S (refs x))). set (s1 := setSessions (<[sid := x1]> (sessions (client g))) (client g)).
  assert (E1 : sessions s1 !! sid = Some x1) by apply lookup_insert_eq.
  pose proof (newSessionCallback_ok now ctx sessionKey serverName sid x1 cid c s1 Ecid Ec E1) as E. cbv zeta in E.
  unfold succeeds, perform, offer. rewrite !bind_assoc, (bind_Ok _ _ _ _ _ (up_ref_ok _ _ _ Ex)). fold x1. fold s1.
  cbn [heldAfter hold keptAfter]. rewrite Ex. unfold cidOf. rewrite Ecid. cbn [default]. set (key := keyOf sessionKey serverName) in *.
  assert (Hc1 : counted (<[sid := x1]> (sessions (client g))) (nextSession (client g)) (hold (Some sid) (held g))).
  { eapply counted_set; [exact Hc|exact Ex|..]; simpl; try (rewrite decide_True by done); [lia|lia|done|]. intros i Hi. by rewrite decide_False. }
  assert (Hback : forall i, unhold sid (hold (Some sid) (held g)) i = held g i).
  { intros i. unfold unhold, hold. by repeat case_decide. }
  destruct (decide (key = EmptyString)) as [Hkey|Hkey].
  - rewrite !bind_assoc, (bind_Ok _ _ _ _ _ E). eexists. split; [reflexivity|]. rewrite decide_True by by left.
    split; simpl; [|done..]. eapply counted_eq; [exact Hback|]. by apply counted_released.
  - rewrite !bind_assoc, (bind_Ok _ _ _ _ _ E). eexists. split; [reflexivity|].
    assert (Hc2 : counted (released sid (named key x1) (<[sid := named key x1]> (<[sid := x1]> (sessions (client g))))) (nextSession (client g)) (held g)).
    { eapply counted_eq; [exact Hback|]. apply counted_released; [|by rewrite lookup_insert_eq].
      eapply counted_set; [exact Hc1|exact E1|..]; simpl; try (rewrite decide_True by done); [lia|lia|congruence|done]. }
    simpl content. destruct (decide (i2d (content x) = EmptyString)) as [Hi|Hi].
    + rewrite decide_True by by right. split; simpl; [exact Hc2|exact Hw|exact Hk].
    + rewrite decide_False by tauto. split; simpl; [exact Hc2|intros; apply wired_insert, Hw|].
      apply (keeps_caches (kept g)); [exact Hk| |].
      * apply keeps_put; [by apply Hk|]. unfold represents, stored_as. simpl. split_and!; try done; [congruence|]. destruct dup; [by right|by left].
      * intros i c' Hne. by apply keeps_other.
Qed.

Lemma remove_inv g s' m cid c name : clientInv g -> caches (client g) !! cid = Some c ->
  s' = setCaches (<[cid := (pc_remove name c).2]> (caches (client g))) (client g) -> m = delete (cid, name) (kept g) ->
  clientInv (mkGhost s' (held g) m).
Proof.
  intros [Hc Hw Hk] Ec -> ->. split; simpl; [exact Hc|intros; apply wired_insert, Hw|].
  apply (keeps_caches (kept g)); [exact Hk|by apply keeps_remove, Hk|]. intros i c' Hne. by apply keeps_other.
Qed.

Lemma drop_done g ctx sid : clientInv g -> clientLegal (Drop ctx sid) g -> exists s', succeeds g (Drop ctx sid) None s'.
Proof.
  intros Hinv (Hcb & Hp). pose proof Hinv as [Hc Hw Hk]. destruct (counted_live _ _ _ _ Hc Hp) as (x & Ex & _).
  destruct (Hw ctx) as [Hset Hcaches]. destruct (Hset (or_intror Hcb)) as [cid Ecid]. destruct (Hcaches cid Ecid) as [c Ec].
  eexists. split; [unfold perform; by rewrite (bind_Ok _ _ _ _ _ (removeSessionCallback_ok ctx sid x cid c _ Ecid Ec Ex))|].
  cbn [heldAfter hold keptAfter]. rewrite Ex. unfold cidOf. rewrite Ecid. simpl. destruct (dropped x) as [name|]; [|by destruct g].
  by eapply remove_inv.
Qed.

Lemma setCtx_inv g ctx x : clientInv g -> wiredCtx (caches (client g)) x -> clientInv (mkGhost (setCtx ctx x (client g)) (held g) (kept g)).
Proof.
  intros [Hc Hw Hk] Hx. split; simpl; [exact Hc| |exact Hk]. intros i. unfold ctxOf. simpl. destruct (decide (i = ctx)) as [->|Hne].
  - by rewrite lookup_insert_eq.
  - rewrite lookup_insert_ne by done. apply Hw.
Qed.

Lemma detach_ok ctx cid s : exists s', detachCallbacksFromContext ctx cid s = (Ok tt, s') /\
  (s' = setCtx ctx (mkCtx None false false (session_cache_mode (ctxOf s ctx))) s \/ s' = s).
Proof.
  unfold detachCallbacksFromContext, getCacheFromContext, ctxAt. rewrite bind_assoc, bind_gets, bind_ret.
  case_decide; [rewrite bind_gets|]; (eexists; split; [reflexivity|]); [by left|by right].
Qed.
Lemma clientEvent_done ev g : clientInv g -> clientLegal ev g -> exists r s', succeeds g ev r s'.
Proof.
  intros Hinv Hl. pose proof Hinv as [Hc Hw Hk].
  destruct ev as [ctx cid|ctx cid|c|now ctx key name sid|now cid identity|ctx sid|cid identity|sid|sid]; simpl in Hl.
  - eexists _, _. split; [reflexivity|]. apply setCtx_inv; [done|]. split; [by eexists|]. by intros i [= <-].
  - destruct (detach_ok ctx cid (client g)) as (s' & E & Hs'). eexists _, _. split; [unfold perform; by rewrite (bind_Ok _ _ _ _ _ E)|].
    destruct Hs' as [->| ->]; [|by destruct g]. apply setCtx_inv; [done|]. split; simpl; [by intros []|done].
  - eexists _, _. split; [reflexivity|]. split; simpl; [|exact Hw|exact Hk]. by apply counted_new.
  - destruct (offer_done g now ctx key name sid Hinv Hl) as [s' H]. by exists None, s'.
  - destruct (lookup_done g now cid identity Hinv Hl) as (r & s' & H & _). by exists r, s'.
  - destruct (drop_done g ctx sid Hinv Hl) as [s' H]. by exists None, s'.
  - destruct Hl as [c Ec]. eexists _, _. split; [unfold perform; by rewrite (bind_Ok _ _ _ _ _ (removeSSLSession_ok _ _ _ _ Ec))|].
    by eapply remove_inv.
  - destruct (counted_live _ _ _ _ Hc Hl) as (x & Ex & _ & Hid). pose proof (counted_fresh _ _ _ Hc) as [Hf _].
    pose proof (cloneSSLSession_ok _ _ _ Ex Hid Hf) as E. destruct (dup || _); (eexists _, _; split; [exact E|]); [|by destruct g].
    split; simpl; [|exact Hw|exact Hk]. by apply counted_new.
  - destruct (counted_live _ _ _ _ Hc Hl) as (x & Ex & _). eexists _, _. split; [unfold perform; by rewrite (bind_Ok _ _ _ _ _ (free_ok _ _ _ Ex))|].
    split; simpl; [|exact Hw|exact Hk]. by apply counted_released.
Qed.

(** A client whose caches hold what was kept in an earlier life, without
    sessions and contexts. *)
Definition startsFrom (g : Ghost) : Prop :=
  sessions (client g) = ∅ /\ ctxs (client g) = ∅ /\ (forall sid, held g sid = 0) /\
  forall cid c, caches (client g) !! cid = Some c -> keepsCache (kept g) cid c.
Inductive clientHistory : Ghost -> Prop :=
| clientHistory_start g : startsFrom g -> clientHistory g
| clientHistory_event ev g : clientHistory g -> clientLegal ev g -> clientHistory (clientEvent ev g).2.

Lemma clientHistory_inv g : clientHistory g -> clientInv g.
Proof.
  induction 1 as [g (Hs & Hx & Hh & Hk)|ev g _ Hinv Hl].
  - split; [|intros ctx; unfold ctxOf; rewrite Hx, lookup_empty; by split; [intros [[=]|[=]]|]|exact Hk].
    rewrite Hs. split; intros; rewrite lookup_empty; auto.
  - destruct (clientEvent_done ev g Hinv Hl) as (r & s' & E & Hinv'). unfold clientEvent. by rewrite E.
Qed.

(** C16. However OpenSSL's offers and removals, lookups, clones, releases and
    the attaching and detaching of contexts follow one another, each of them
    succeeds: no null cache is called and no freed session is used.  Each
    session has as many references as its users hold, so that the cache keeps
    none and none is leaked: when the users hold none, there are no sessions. *)
Theorem client_sessions_counted g ev : clientHistory g -> clientLegal ev g ->
  (exists r, (clientEvent ev g).1 = Ok r) /\
  (forall sid, held g sid = if sessions (client g) !! sid is Some x then refs x else 0) /\
  ((forall sid, held g sid = 0) -> sessions (client g) = ∅).
Proof.
  intros H%clientHistory_inv Hl. pose proof H as [[Hc _] _ _]. split_and!.
  - destruct (clientEvent_done ev g H Hl) as (r & s' & E & _). exists r. unfold clientEvent. by rewrite E.
  - intros sid. specialize (Hc sid). destruct (sessions (client g) !! sid); [symmetry; apply Hc|exact Hc].
  - intros Hz. apply map_eq. intros sid. rewrite lookup_empty. specialize (Hc sid). destruct (sessions (client g) !! sid); [|done].
    specialize (Hz sid). destruct Hc as (_ & Hp & _). lia.
Qed.

(** C17. The cache implements a map from keys to the session stored last: for
    every such sequence a lookup gives either a new session, held once, with
    the content and the service identity of the session that OpenSSL offered
    last under that key and that was not removed since, before its ticket's
    lifetime hint has passed; or none, if there is none, if it has expired, or
    if a cache of limited capacity has dropped it. *)
Theorem client_cache_refines g now cid identity : clientHistory g -> clientLegal (Lookup now cid identity) g ->
  exists r s', perform (Lookup now cid identity) (client g) = (Ok r, s') /\
    match r with
    | Some sid => sessions (client g) !! sid = None /\ exists x, kept g !! (cid, identity) = Some x /\ expired now x = false /\
        sessions s' !! sid = Some (mkSession (k_content x) (k_identity x) 1)
    | None => kept g !! (cid, identity) = None \/ (exists x, kept g !! (cid, identity) = Some x /\ expired now x = true) \/
        (exists c, caches (client g) !! cid = Some c /\ peek identity c = None /\ capacity c <> 0)
    end.
Proof.
  intros H%clientHistory_inv Hl. destruct (lookup_done g now cid identity H Hl) as (r & s' & [E _] & Ha). exists r, s'. split; [exact E|].
  destruct r as [sid|]; [exact Ha|]. destruct Ha as [(c & Ec & Ep)|Hx]; [|by right; left].
  destruct (kept g !! (cid, identity)) as [x|] eqn:Ek; [|by left]. right. right. exists c. split_and!; [done..|]. intros Hz.
  destruct (ci_keeps _ H cid c Ec) as [_ Hall]. destruct (Hall identity x Hz Ek). congruence.
Qed.
End client.

(** ** Restarts *)

Section restart.
Context {Content D Mp : Type} `{!FollyDynamic D} `{!FollyDynamicLaws D}
  `{!EvictingMap Mp string (SSLSessionCacheData Content)} `{!EvictingMapLaws Mp string (SSLSessionCacheData Content)}.
Context (serialize : D -> option string) (parseJson : string -> option D) (elements : D -> list D).
Context (Hjson : forall l data, serialize (dArray l) = Some data -> exists d, parseJson data = Some d /\ elements d = l).

(** What comes back from a file: no template, and a time of 64 bits. *)
Definition forget (p : string * SSLSessionCacheData Content) : string * SSLSessionCacheData Content :=
  (p.1, mkData (sessionData p.2) (i64 (u64 (addedTime p.2))) (serviceIdentity p.2) None).

Lemma i64_range z : (- 2 ^ 63 <= i64 z < 2 ^ 63)%Z.
Proof. unfold i64. pose proof (wrap_bounds 64 (z + 2 ^ 63) ltac:(lia)). unfold u64. lia. Qed.
Lemma i64_u64 z : (- 2 ^ 63 <= z < 2 ^ 63)%Z -> i64 (u64 z) = z.
Proof.
  intros Hz. unfold i64, u64, wrap. rewrite Zplus_mod_idemp_l, Z.mod_small by lia. lia.
Qed.

Lemma convertTo_toDynamic (d : SSLSessionCacheData Content) :
  convertTo (Content:=Content) (toDynamic d : D) = Some (forget (EmptyString, d)).2.
Proof.
  unfold convertTo, toDynamic. rewrite !dField_object, dIsObject_object. simpl. rewrite !asString_string, asInt_int by apply i64_range. done.
Qed.
Lemma pair_roundtrip p (d : D) : pairToDynamic p = Some d -> pairConvertTo d = Some (forget p).
Proof.
  intros [= <-]. unfold pairConvertTo. rewrite !dAt_array. simpl. rewrite asString_string. simpl. by rewrite convertTo_toDynamic.
Qed.
Lemma pair_forget (d : D) p : pairConvertTo (Content:=Content) d = Some p -> forget p = p.
Proof.
  unfold pairConvertTo. intros H. apply bind_Some in H as (k & _ & H). apply bind_Some in H as (v & Ev & [= <-]).
  apply bind_Some in Ev as (d' & _ & Ev). unfold convertTo in Ev. apply bind_Some in Ev as (data & _ & Ev).
  apply bind_Some in Ev as (time & Et & Ev). apply bind_Some in Ev as (identity & _ & [= <-]).
  apply bind_Some in Et as (di & _ & Et). unfold forget. simpl. rewrite i64_u64; [done|]. by apply (asInt_range di).
Qed.

Context (i2d : Content -> string) (d2i : string -> option Content)
  (has_ticket : Content -> bool) (ticket_lifetime_hint : Content -> Z) (dup : bool).
Context (Hd2i : forall c, i2d c <> EmptyString -> d2i (i2d c) = Some c).
#[local] Abbreviation File := (FilePersistentCache D Mp).
#[local] Abbreviation fileRun := (fileRun serialize parseJson dArray elements pairToDynamic pairConvertTo).
#[local] Abbreviation newFileCache := (newFileCache parseJson elements pairConvertTo).
#[local] Abbreviation getSSLSession := (getSSLSession d2i has_ticket ticket_lifetime_hint dup).

Lemma represents_forget k d (x : Kept) : represents i2d d x -> represents i2d (forget (k, d)).2 x.
Proof.
  intros (Hne & Hd & Ht & Hs & Hid & He & _). unfold represents. simpl. split_and!; [done|done| |done|done|done|by left].
  rewrite Ht. apply i64_u64. unfold sane in Hs. lia.
Qed.

(** C18. Sessions survive a restart.  Take a client's cache made on a file that
    is missing, unreadable or holds distinct keys within the capacity
    ([loadable]), after fewer than 2^64 - 3 events in which the syncer never
    gave the file up ([neverGivesUp]: after [nSyncRetries] failures in a row
    it takes the updates for written although the file lacks them), and let it
    have no pending updates and, under the identity looked up, nothing or what
    a client stored ([represents]).  Started again on its file with the same
    capacity, a lookup behaves as before, with the session of the same content
    and identity made, or found expired; what was not cached is not there. *)
Theorem sessions_survive_restart file n retries fs0 (events : list (FileEvent string (SSLSessionCacheData Content))) retries' (s : Client Content File) cid now identity :
  loadable (pairConvertTo (Content:=Content)) n (Some (loads parseJson elements file fs0)) -> (Z.of_nat (length events) < 2 ^ 64 - 3)%Z ->
  let c0 := newFileCache file n retries fs0 : File in
  neverGivesUp serialize parseJson dArray elements pairToDynamic pairConvertTo c0 events ->
  let c := fileRun c0 events in
  hasPendingUpdates (lru c) = false -> sane now ->
  (forall d, peek identity c = Some d -> exists x : Kept, represents i2d d x) ->
  caches s !! cid = Some c ->
  let s' := setCaches (<[cid := newFileCache file n retries' (fs c)]> (caches s)) s in
  (getSSLSession now cid identity s').1 = (getSSLSession now cid identity s).1 /\
  sessions (getSSLSession now cid identity s').2 = sessions (getSSLSession now cid identity s).2.
Proof.
  intros Hload Hlen c0 Hg c Hno Hnow Hrep Ec s'.
  pose proof (restarted_peek serialize parseJson dArray elements Hjson pairToDynamic pairConvertTo forget pair_forget (fun _ => eq_refl) pair_roundtrip
    file n retries fs0 events retries' identity Hload Hlen Hg Hno) as Hp. fold c0 in Hp. fold c in Hp.
  assert (Ec' : caches s' !! cid = Some (newFileCache file n retries' (fs c))) by apply lookup_insert_eq.
  destruct (peek identity c) as [d|] eqn:Ep.
  - destruct (Hrep d eq_refl) as [x Hr]. change (peek identity (newFileCache file n retries' (fs c)) = Some (forget (identity, d)).2) in Hp.
    rewrite (getSSLSession_hit i2d d2i has_ticket ticket_lifetime_hint dup Hd2i now cid identity c d x s Ec Ep Hr Hnow).
    rewrite (getSSLSession_hit i2d d2i has_ticket ticket_lifetime_hint dup Hd2i now cid identity _ _ x s' Ec' Hp (represents_forget identity _ _ Hr) Hnow).
    by destruct (expired _ _ _ _).
  - change (peek identity (newFileCache file n retries' (fs c)) = None) in Hp.
    rewrite (getSSLSession_miss d2i has_ticket ticket_lifetime_hint dup now cid identity c s Ec Ep).
    by rewrite (getSSLSession_miss d2i has_ticket ticket_lifetime_hint dup now cid identity _ s' Ec' Hp).
Qed.
End restart.

(** ** At concrete inputs *)

(** Sessions are strings, each with a ticket for ten seconds. *)
Definition readSession (s : string) : option string := if decide (s = EmptyString) then None else Some s.
Lemma readSession_ok (c : string) : c <> EmptyString -> readSession c = Some c.
Proof. intros H. unfold readSession. by rewrite decide_False. Qed.

#[local] Abbreviation ExampleCache := (LRUPersistentCache (LRUList string (SSLSessionCacheData string)) unit).
#[local] Abbreviation exampleEvent := (clientEvent (C:=ExampleCache) id readSession (fun _ => true) (fun _ => 10%Z) (fun _ => None) true).
#[local] Abbreviation exampleHistory := (clientHistory (C:=ExampleCache) id readSession (fun _ => true) (fun _ => 10%Z) (fun _ => None) true).

Definition startGhost : Ghost (Content:=string) (C:=ExampleCache) :=
  mkGhost (mkClient ∅ 0 [] {[0 := newCache (fun _ => None) 0 3 None]} ∅) (fun _ => 0) ∅.
Lemma startGhost_starts : startsFrom id startGhost.
Proof.
  split_and!; [done..|]. intros cid c. simpl. intros [<- <-]%lookup_singleton_Some. split; [done|]. intros k x _. by rewrite lookup_empty.
Qed.
Definition exampleEvents' : list (ClientEvent (Content:=string)) :=
  [Attach 1 0; Make "abc"; Offer 1000000000 1 None (Some "host") 0; Release 0; Lookup 2000000000 0 "host"; Offer 3000000000 1 (Some "other") None 1].
Definition runClient (evs : list (ClientEvent (Content:=string))) : Ghost (Content:=string) (C:=ExampleCache) :=
  fold_left (fun g ev => (exampleEvent ev g).2) evs startGhost.

(** Legality is decided by evaluation. *)
Definition legalb (ev : ClientEvent (Content:=string)) (g : Ghost (Content:=string) (C:=ExampleCache)) : bool :=
  let saneb t := bool_decide (0 <= t < 2 ^ 62)%Z in
  match ev with
  | Attach _ cid | RemoveKey cid _ => bool_decide (is_Some (caches (client g) !! cid))
  | Detach _ _ | Make _ => true
  | Offer now ctx _ _ sid => saneb now && new_cb (ctxOf (client g) ctx) && (0 <? held g sid)
  | Lookup now cid _ => saneb now && bool_decide (is_Some (caches (client g) !! cid))
  | Drop ctx sid => remove_cb (ctxOf (client g) ctx) && (0 <? held g sid)
  | Clone sid | Release sid => 0 <? held g sid
  end.
Lemma legalb_legal ev g : legalb ev g = true -> clientLegal ev g.
Proof.
  destruct ev; simpl; try done; rewrite ?andb_true_iff, ?bool_decide_eq_true, ?Nat.ltb_lt; unfold sane; naive_solver.
Qed.
Fixpoint allLegal (evs : list (ClientEvent (Content:=string))) (g : Ghost (Content:=string) (C:=ExampleCache)) : bool :=
  match evs with
  | [] => true
  | ev :: evs => legalb ev g && allLegal evs (exampleEvent ev g).2
  end.
Lemma runClient_history evs : forall g, exampleHistory g -> allLegal evs g = true -> exampleHistory (fold_left (fun g ev => (exampleEvent ev g).2) evs g).
Proof.
  induction evs as [|ev evs IH]; intros g Hg; [done|]. simpl. intros [Hl Ha]%andb_true_iff. apply IH; [|done].
  apply clientHistory_event; [done|by apply legalb_legal].
Qed.
Lemma runClient_ok evs : allLegal evs startGhost = true -> exampleHistory (runClient evs).
Proof. intros H. apply runClient_history; [|done]. apply clientHistory_start, startGhost_starts. Qed.

Lemma client_sessions_counted_witness :
  (exists r, (exampleEvent (Release 1) (runClient exampleEvents')).1 = Ok r) /\ held (runClient exampleEvents') 1 = 1.
Proof.
  destruct (client_sessions_counted id readSession (fun _ => true) (fun _ => 10%Z) (fun _ => None) true readSession_ok
    (runClient exampleEvents') (Release 1)) as (Hr & Hh & _).
  - apply runClient_ok. vm_compute. reflexivity.
  - apply legalb_legal. vm_compute. reflexivity.
  - split; [exact Hr|]. rewrite Hh. vm_compute. reflexivity.
Defined.

(** The lookup before the ticket's lifetime has passed, and after. *)
Lemma client_cache_refines_witness :
  exists r s', perform id readSession (fun _ => true) (fun _ => 10%Z) (fun _ => None) true (Lookup 13500000000 0 "host") (client (runClient exampleEvents')) = (Ok r, s') /\
    r = None /\ (perform id readSession (fun _ => true) (fun _ => 10%Z) (fun _ => None) true (Lookup 9000000000 0 "host") (client (runClient exampleEvents'))).1 = Ok (Some 2).
Proof.
  destruct (client_cache_refines id readSession (fun _ => true) (fun _ => 10%Z) (fun _ => None) true readSession_ok
    (runClient exampleEvents') 13500000000 0 "host") as (r & s' & E & _).
  - apply runClient_ok. vm_compute. reflexivity.
  - apply (legalb_legal (Lookup 13500000000 0 "host")). vm_compute. reflexivity.
  - exists r, s'. split; [exact E|]. split; [|vm_compute; reflexivity].
    assert (Hr : (perform id readSession (fun _ => true) (fun _ => 10%Z) (fun _ => None) true (Lookup 13500000000 0 "host") (client (runClient exampleEvents'))).1 = Ok None)
      by (vm_compute; reflexivity). rewrite E in Hr. simpl in Hr. congruence.
Defined.

(** Trees as dynamic values. *)
#[local] Abbreviation Tree := (gen_tree (string + Z)).
Definition entryTree (p : string * Tree) : Tree := GenNode 3 [GenLeaf (inl p.1); p.2].
Definition treeEntry (t : Tree) : option (string * Tree) := match t with GenNode 3 [GenLeaf (inl k); v] => Some (k, v) | _ => None end.
Definition in64 (z : Z) : bool := (- 2 ^ 63 <=? z)%Z && (z <? 2 ^ 63)%Z.
#[export] Instance treeDynamic : FollyDynamic Tree := {|
  dString s := GenLeaf (inl s);
  dInt z := GenLeaf (inr z);
  dObject l := GenNode 2 (entryTree <$> l);
  dArray l := GenNode 0 l;
  dAt t i := match t with GenNode 0 l => l !! i | _ => None end;
  dField t k := match t with GenNode 2 l => assoc k (omap treeEntry l) | _ => None end;
  dIsObject t := match t with GenNode 2 _ => true | _ => false end;
  asString t := match t with GenLeaf (inl s) => Some s | _ => None end;
  asInt t := match t with GenLeaf (inr z) => if in64 z then Some z else None | _ => None end
|}.
#[export] Instance treeDynamicLaws : FollyDynamicLaws Tree.
Proof.
  split; try done.
  - intros l k. simpl. f_equal. induction l as [|[k' v] l IH]; [done|]. simpl. by f_equal.
  - intros z [H1 H2]. simpl. unfold in64. by rewrite (proj2 (Z.leb_le _ _) H1), (proj2 (Z.ltb_lt _ _) H2).
  - intros [[s|z]|n l] z'; simpl; try done. unfold in64. destruct (Z.leb_spec (- 2 ^ 63) z), (Z.ltb_spec z (2 ^ 63)); try done. intros [= <-]. done.
Qed.

Lemma dynamic_json l data : treeSerialize (dArray l : Tree) = Some data -> exists d : Tree, treeParse data = Some d /\ treeElements d = l.
Proof. apply tree_json. Qed.

#[local] Abbreviation ExampleFile := (FilePersistentCache Tree (LRUList string (SSLSessionCacheData string))).
Definition storedSession : SSLSessionCacheData string := mkData "abc" 1000 "host" (Some ("abc", Some "host")).
Definition exampleFileEvents : list (FileEvent string (SSLSessionCacheData string)) := FilePut "host" storedSession :: repeat (FileSync allWell) 6.
#[local] Abbreviation restartedFrom := (newFileCache (Mp:=LRUList string (SSLSessionCacheData string)) treeParse treeElements (pairConvertTo (Content:=string))).
Definition fileCache0 : ExampleFile := restartedFrom "f" 5 3 ∅.
Definition exampleFileCache : ExampleFile := fileRun treeSerialize treeParse dArray treeElements pairToDynamic pairConvertTo fileCache0 exampleFileEvents.
Definition exampleFileClient : Client string ExampleFile := mkClient ∅ 0 [] {[0 := exampleFileCache]} ∅.

Lemma sessions_survive_restart_witness :
  let s' := setCaches (<[0 := restartedFrom "f" 5 3 (fs exampleFileCache)]> (caches exampleFileClient)) exampleFileClient in
  (getSSLSession readSession (fun _ => true) (fun _ => 10%Z) true 2000 0 "host" s').1 = Ok (Some 0) /\
  sessions (getSSLSession readSession (fun _ => true) (fun _ => 10%Z) true 2000 0 "host" s').2 = {[0 := mkSession "abc" (Some "host") 1]}.
Proof.
  destruct (sessions_survive_restart (D:=Tree) treeSerialize treeParse treeElements dynamic_json id readSession (fun _ => true) (fun _ => 10%Z) true readSession_ok
    "f" 5 3 ∅ exampleFileEvents 3 exampleFileClient 0 2000 "host") as [H1 H2].
  - exact I.
  - vm_compute. reflexivity.
  - intros i o Hi. pose proof (lookup_lt_Some _ _ _ Hi) as Hlt. clear Hi.
    do 7 (destruct i as [|i]; [vm_compute; reflexivity|]). exfalso. change (length exampleFileEvents) with 7 in Hlt. lia.
  - vm_compute. reflexivity.
  - unfold sane. lia.
  - intros d Hd. exists (mkKept "abc" (Some "host") 1000). assert (Hs : Some d = Some storedSession) by (rewrite <- Hd; vm_compute; reflexivity).
    injection Hs as ->. unfold represents, sane. simpl. split_and!; try done. by right.
  - reflexivity.
  - intros s'. split; [refine (eq_trans H1 _); vm_compute; reflexivity|]. refine (eq_trans H2 _). vm_compute. reflexivity.
Defined.

(** ** Where it goes wrong *)

(** Offering a session again, as OpenSSL does with the duplicates it makes for
    new tickets, sets its identity again: the old string is lost. *)
Lemma identity_string_lost :
  lost (client (runClient exampleEvents')) = ["host"].
Proof. vm_compute. reflexivity. Qed.

(** When OpenSSL drops a session, the cache removes what is stored under its
    identity, also if that is a newer session. *)
Lemma dropping_old_removes_new :
  let evs := [Attach 1 0; Make "old"; Offer 1000 1 (Some "host") None 0; Make "new"; Offer 2000 1 (Some "host") None 1] in
  (perform id readSession (fun _ => true) (fun _ => 10%Z) (fun _ => None) true (Lookup 3000 0 "host") (client (runClient evs))).1 = Ok (Some 2) /\
  (perform id readSession (fun _ => true) (fun _ => 10%Z) (fun _ => None) true (Lookup 3000 0 "host") (client (runClient (evs ++ [Drop 1 0])))).1 = Ok None.
Proof. split; vm_compute; reflexivity. Qed.

(** A time that was read from the file is not checked: the difference to the
    current time may overflow. *)
Lemma loaded_time_overflows :
  let c := pc_put "host" (mkData "abc" (- 2 ^ 63) "host" None) (newCache (fun _ => None) 0 3 None : ExampleCache) in
  (getSSLSession readSession (fun _ => true) (fun _ => 10%Z) true 1000 0 "host" (mkClient ∅ 0 [] {[0 := c]} ∅)).1 =
  Err (Undefined "overflow of now - addedTime").
Proof. vm_compute. reflexivity. Qed.
