(* ===== verification/SessionCache.v ===== *)
(** * Server-side TLS session cache (src/wangle/ssl/SSLSessionCacheManager)

    [ShardedLocalSSLSessionCache] and [SSLSessionCacheManager]: sessions are
    shared, reference-counted OpenSSL objects, held by the local cache, by
    OpenSSL and, while an external lookup is answered, by the manager.

    [folly::EvictingCacheMap] with its prune hook is an interface,
    [CullingMap], with laws; OpenSSL's objects are a heap of reference counts,
    and using or freeing one that is gone is undefined.  The external cache
    answers each lookup once, after [getAsync] has returned. *)
From Stdlib Require Import ZArith Lia NArith Strings.Byte.
From stdpp Require Import base numbers list gmap strings.
From S2P Require Import Prelude Buffers.
Open Scope cpp_scope.

Set Default Goal Selector "!".

(** ** EvictingCacheMap with a prune hook *)

Class CullingMap (Mp K V : Type) : Type := {
  newCulling : Z -> Z -> Mp;                     (* maxSize, clearSize *)
  findC : K -> Mp -> option V * Mp;
  setC : K -> V -> Mp -> Mp * list V;            (* and the values pruned *)
  eraseC : K -> Mp -> Mp;                        (* the prune hook is not called *)
  entriesC : Mp -> list (K * V)
}.

Class CullingMapLaws (Mp K V : Type) `{!EqDecision K} `{!CullingMap Mp K V} : Prop := {
  entriesC_new a b : entriesC (newCulling a b) = [];
  entriesC_NoDup m : NoDup (entriesC m).*1;
  findC_entries k m : (findC k m).1 = assoc k (entriesC m) /\ entriesC (findC k m).2 ≡ₚ entriesC m;
  setC_entries k v m : exists pruned, (setC k v m).2 = pruned.*2 /\
    entriesC (setC k v m).1 ++ pruned ≡ₚ (k, v) :: without k (entriesC m);
  eraseC_entries k m : entriesC (eraseC k m) = without k (entriesC m)
}.

Section manager.
Context {Mp : Type} `{!CullingMap Mp (list byte) (option nat)}.
(** [folly::Hash] of a session id, and whether [d2i_SSL_SESSION] accepts the
    bytes of a record. *)
Context (hash : list byte -> nat) (d2i : list byte -> bool).

Definition NUM_CACHE_BUCKETS : nat := 16.
Definition MIN_SESSION_ID_LENGTH : nat := 16.

(** An [SSL_SESSION*] of the cache may be null. *)
Record LocalSSLSessionCache : Type := mkLocal {
  sessionCache : Mp;
  removedSessions_ : Z
}.

Record CacheContext : Type := mkContext {
  ctx_sessionId : list byte;
  ctx_session : option nat;
  ctx_sslSocket : nat
}.

Record PendingLookup : Type := mkPending {
  request_in_progress : bool;
  pending_session : option nat;
  waiters : list nat
}.

(** How [getSession] ends for a socket. *)
Inductive Answer : Type :=
| WouldBlock
| Hit (session : nat)
| Miss.

Inductive CacheStat : Type :=
| RecordSSLSession (ssl_new hit foreign : bool)
| RecordSSLSessionRemove
| RecordSSLSessionFree (freed : Z).

(** The manager and what it works with: the reference counts of the live
    sessions, the references OpenSSL holds, the external lookups under way,
    and what was answered, stored outside and counted. *)
Record SSLSessionCacheManager : Type := mkSessions {
  caches_ : list LocalSSLSessionCache;
  pendingLookups_ : gmap (list byte) PendingLookup;
  externalCache_ : bool;
  sessions : gmap nat nat;
  nextSession : nat;
  openssl : list nat;
  lookups : list CacheContext;
  answers : list (nat * Answer);
  externalStores : list (list byte * nat);
  cacheStats : list CacheStat
}.
Local Notation S := SSLSessionCacheManager.

Definition setCaches x (s : S) : S :=
  mkSessions x (pendingLookups_ s) (externalCache_ s) (sessions s) (nextSession s) (openssl s)
    (lookups s) (answers s) (externalStores s) (cacheStats s).
Definition setPending x (s : S) : S :=
  mkSessions (caches_ s) x (externalCache_ s) (sessions s) (nextSession s) (openssl s)
    (lookups s) (answers s) (externalStores s) (cacheStats s).
Definition setSessions x n (s : S) : S :=
  mkSessions (caches_ s) (pendingLookups_ s) (externalCache_ s) x n (openssl s)
    (lookups s) (answers s) (externalStores s) (cacheStats s).
Definition setOpenssl x (s : S) : S :=
  mkSessions (caches_ s) (pendingLookups_ s) (externalCache_ s) (sessions s) (nextSession s) x
    (lookups s) (answers s) (externalStores s) (cacheStats s).
Definition setLookups x (s : S) : S :=
  mkSessions (caches_ s) (pendingLookups_ s) (externalCache_ s) (sessions s) (nextSession s)
    (openssl s) x (answers s) (externalStores s) (cacheStats s).
Definition answer (sock : nat) (a : Answer) (s : S) : S :=
  mkSessions (caches_ s) (pendingLookups_ s) (externalCache_ s) (sessions s) (nextSession s)
    (openssl s) (lookups s) (answers s ++ [(sock, a)]) (externalStores s) (cacheStats s).
Definition storeOutside (id : list byte) (session : nat) (s : S) : S :=
  mkSessions (caches_ s) (pendingLookups_ s) (externalCache_ s) (sessions s) (nextSession s)
    (openssl s) (lookups s) (answers s) (externalStores s ++ [(id, session)]) (cacheStats s).
Definition stat (x : CacheStat) (s : S) : S :=
  mkSessions (caches_ s) (pendingLookups_ s) (externalCache_ s) (sessions s) (nextSession s)
    (openssl s) (lookups s) (answers s) (externalStores s) (cacheStats s ++ [x]).

(** ** OpenSSL sessions *)

Definition allocSession : M S nat :=
  let! s := get in
  do! modify (setSessions (<[nextSession s := 1]> (sessions s)) (nextSession s + 1)) in
  ret (nextSession s).

Definition SSL_SESSION_up_ref (x : nat) : M S unit :=
  let! s := get in
  match sessions s !! x with
  | Some n => modify (setSessions (<[x := n + 1]> (sessions s)) (nextSession s))
  | None => raise (Undefined "SSL_SESSION used after it was freed")
  end.

Definition SSL_SESSION_free (x : option nat) : M S unit :=
  match x with
  | None => ret tt
  | Some x =>
      let! s := get in
      match sessions s !! x with
      | Some n =>
          modify (setSessions (if n =? 1 then delete x (sessions s) else <[x := n - 1]> (sessions s))
                    (nextSession s))
      | None => raise (Undefined "SSL_SESSION freed twice")
      end
  end.

(** ** ShardedLocalSSLSessionCache *)

(** The sizes of a shard: at least 1. *)
Definition shardSize (n_buckets total : Z) : Z :=
  let n := (total / n_buckets)%Z in if (n =? 0)%Z then 1%Z else n.
Definition newSharded (n_buckets maxCacheSize cacheCullSize : Z) : res (list LocalSSLSessionCache) :=
  if (0 <? n_buckets)%Z
  then Ok (replicate (Z.to_nat n_buckets)
             (mkLocal (newCulling (shardSize n_buckets maxCacheSize) (shardSize n_buckets cacheCullSize)) 0))
  else Err (CheckFailed "n_buckets > 0").

Definition bucket (id : list byte) (s : S) : nat := hash id mod length (caches_ s).
Definition getShard (id : list byte) : M S LocalSSLSessionCache :=
  let! s := get in
  of_option (Undefined "caches_[bucket]") (caches_ s !! bucket id s).
Definition setShard (id : list byte) (c : LocalSSLSessionCache) : M S unit :=
  let! s := get in
  modify (setCaches (<[bucket id s := c]> (caches_ s))).

Definition lookupSession (id : list byte) : M S (option nat) :=
  let! c := getShard id in
  let (found, m) := findC id (sessionCache c) in
  do! setShard id (mkLocal m (removedSessions_ c)) in
  match found with
  | Some (Some x) => do! SSL_SESSION_up_ref x in ret (Some x)
  | _ => ret None
  end.

(** The prune hook, [pruneSessionCallback]. *)
Definition pruneSessionCallback (id : list byte) (x : option nat) : M S unit :=
  do! SSL_SESSION_free x in
  let! c := getShard id in
  setShard id (mkLocal (sessionCache c) (u32 (removedSessions_ c + 1))).

Definition storeSession (id : list byte) (session : option nat) : M S unit :=
  let! c := getShard id in
  let (oldSession, m) := findC id (sessionCache c) in
  do! SSL_SESSION_free (default None oldSession) in
  let (m, pruned) := setC id session m in
  do! setShard id (mkLocal m 0) in
  do! for_each pruned (pruneSessionCallback id) in
  let! c := getShard id in
  modify (stat (RecordSSLSessionFree (removedSessions_ c))).

Definition removeSession (id : list byte) : M S unit :=
  let! c := getShard id in
  do! setShard id (mkLocal (eraseC id (sessionCache c)) (removedSessions_ c)) in
  modify (stat RecordSSLSessionRemove).

(** ** SSLSessionCacheManager *)

Definition newManagerSessions (maxCacheSize cacheCullSize : Z) (external : bool) : res S :=
  try! caches := newSharded (Z.of_nat NUM_CACHE_BUCKETS) maxCacheSize cacheCullSize in
  Ok (mkSessions caches ∅ external ∅ 0 [] [] [] [] []).

Definition newSession (id : list byte) (x : nat) : M S Z :=
  do! modify (stat (RecordSSLSession true false false)) in
  do! storeSession id (Some x) in
  let! s := get in
  do! when (externalCache_ s) (modify (storeOutside id x)) in
  ret 1%Z.

(** [lookupCacheRecord]: [sent] is what [getAsync] answers. *)
Definition lookupCacheRecord (id : list byte) (sock : nat) (sent : bool) : M S bool :=
  do! when sent (modify (fun s => setLookups (lookups s ++ [mkContext id None sock]) s)) in
  ret sent.

(** The end of [getSession]: a hit is a reference for OpenSSL. *)
Definition finishGet (sock : nat) (session : option nat) (foreign : bool) : M S Answer :=
  do! modify (stat (RecordSSLSession false (if session is Some _ then true else false) foreign)) in
  match session with
  | Some x =>
      do! modify (fun s => setOpenssl (x :: openssl s) s) in
      ret (Hit x)
  | None => ret Miss
  end.

(** [getSession]; [wantLookup] is [SSL_want_sess_cache_lookup(ssl)]. *)
Definition getSession (sock : nat) (id : list byte) (wantLookup sent : bool) : M S Answer :=
  if length id <? MIN_SESSION_ID_LENGTH then ret Miss
  else
    let! session := lookupSession id in
    let! s := get in
    match session, externalCache_ s with
    | None, true =>
        if negb wantLookup then finishGet sock None true
        else
          match pendingLookups_ s !! id with
          | None =>
              do! modify (setPending (<[id := mkPending true None []]> (pendingLookups_ s))) in
              let! ok := lookupCacheRecord id sock sent in
              if ok then ret WouldBlock
              else
                do! modify (fun s => setPending (delete id (pendingLookups_ s)) s) in
                finishGet sock None true
          | Some p =>
              if request_in_progress p then
                do! modify (setPending (<[id := mkPending true (pending_session p) (waiters p ++ [sock])]>
                              (pendingLookups_ s))) in
                ret WouldBlock
              else
                match pending_session p with
                | Some x => do! SSL_SESSION_up_ref x in finishGet sock (Some x) true
                | None => finishGet sock None true
                end
          end
    | _, _ => finishGet sock session false
    end.

(** OpenSSL calls the callback for a socket, and notes what it gets. *)
Definition accept (sock : nat) (id : list byte) (wantLookup sent : bool) : M S unit :=
  let! a := getSession sock id wantLookup sent in
  modify (answer sock a).

(** [restartSSLAccept]: a restarted socket looks its session up again. *)
Definition restartSSLAccept (ctx : CacheContext) : M S unit :=
  let id := ctx_sessionId ctx in
  let! s := get in
  match pendingLookups_ s !! id with
  | None => raise (CheckFailed "pit != pendingLookups_.end()")
  | Some p =>
      do! modify (setPending (<[id := mkPending false (ctx_session ctx) (waiters p)]> (pendingLookups_ s))) in
      do! accept (ctx_sslSocket ctx) id true false in
      do! for_each (waiters p) (fun sock => accept sock id true false) in
      modify (fun s => setPending (delete id (pendingLookups_ s)) s)
  end.

Definition restoreSession (ctx : CacheContext) (data : list byte) : M S unit :=
  let! session := (if d2i data then let! x := allocSession in ret (Some x) else ret None) in
  do! restartSSLAccept (mkContext (ctx_sessionId ctx) session (ctx_sslSocket ctx)) in
  storeSession (ctx_sessionId ctx) session.

Definition onGetSuccess (ctx : CacheContext) (value : list byte) : M S unit := restoreSession ctx value.
Definition onGetFailure (ctx : CacheContext) : M S unit := restartSSLAccept ctx.

(** ** What happens to a manager *)

Inductive SessionEvent : Type :=
| New (id : list byte)                          (* a full handshake made a session *)
| Resume (sock : nat) (id : list byte) (wantLookup sent : bool)
| Answered (i : nat) (value : option (list byte))  (* the i-th lookup under way *)
| Release (x : nat).                            (* OpenSSL drops a reference *)

Definition sessionStep (e : SessionEvent) : M S unit :=
  match e with
  | New id =>
      let! x := allocSession in
      do! modify (fun s => setOpenssl (x :: openssl s) s) in
      do! SSL_SESSION_up_ref x in
      let! kept := newSession id x in
      ret tt
  | Resume sock id wantLookup sent => accept sock id wantLookup sent
  | Answered i value =>
      let! s := get in
      match lookups s !! i with
      | None => ret tt
      | Some ctx =>
          do! modify (setLookups (delete i (lookups s))) in
          match value with
          | Some data => onGetSuccess ctx data
          | None => onGetFailure ctx
          end
      end
  | Release x =>
      let! s := get in
      match eraseFirst x (openssl s) with
      | Some l =>
          do! modify (setOpenssl l) in
          SSL_SESSION_free (Some x)
      | None => ret tt
      end
  end.
Definition sessionRun (events : list SessionEvent) : M S unit := for_each events sessionStep.
End manager.
Arguments LocalSSLSessionCache : clear implicits.
Arguments SSLSessionCacheManager : clear implicits.

(** ** Lists are culling maps *)

Section instance.
Context {K V : Type} `{!EqDecision K}.

Record CullingList : Type := mkCulling {
  culling_max : Z;
  culling_clear : Z;
  culling_list : list (K * V);
  culling_wf : NoDup culling_list.*1
}.

(** The oldest [culling_clear] entries go when there are too many. *)
Definition culledLength (max clear : Z) (l : list (K * V)) : nat :=
  if (0 <? max)%Z && (max <? Z.of_nat (length l))%Z then length l - Z.to_nat clear else length l.

Definition promoteC (k : K) (l : list (K * V)) : list (K * V) :=
  match assoc k l with
  | Some v => (k, v) :: without k l
  | None => l
  end.

Lemma wf_cons k (v : V) (l : list (K * V)) : NoDup l.*1 -> NoDup ((k, v) :: without k l).*1.
Proof. intros H. simpl. constructor; [apply without_notin|by apply without_NoDup]. Qed.

Lemma wf_promoteC k (l : list (K * V)) : NoDup l.*1 -> NoDup (promoteC k l).*1.
Proof. intros H. unfold promoteC. destruct (assoc k l); [by apply wf_cons|done]. Qed.

Lemma wf_take n (l : list (K * V)) : NoDup l.*1 -> NoDup (take n l).*1.
Proof. intros H. rewrite fmap_take. eapply sublist_NoDup; [exact H|apply sublist_take]. Qed.

#[export] Instance list_CullingMap : CullingMap CullingList K V := {|
  newCulling a b := mkCulling a b [] (NoDup_nil_2 (A:=K));
  findC k m := (assoc k (culling_list m),
    mkCulling (culling_max m) (culling_clear m) (promoteC k (culling_list m)) (wf_promoteC k _ (culling_wf m)));
  setC k v m :=
    let l := (k, v) :: without k (culling_list m) in
    let n := culledLength (culling_max m) (culling_clear m) l in
    (mkCulling (culling_max m) (culling_clear m) (take n l) (wf_take n l (wf_cons k v _ (culling_wf m))),
     (drop n l).*2);
  eraseC k m := mkCulling (culling_max m) (culling_clear m) (without k (culling_list m))
    (without_NoDup k _ (culling_wf m));
  entriesC := culling_list
|}.

#[export] Instance list_CullingMapLaws : CullingMapLaws CullingList K V.
Proof.
  split; try done.
  - intros m. apply (culling_wf m).
  - intros k m. split; [done|]. simpl. unfold promoteC.
    destruct (assoc k (culling_list m)) as [v|] eqn:E; [|done].
    apply without_perm; [apply (culling_wf m)|done].
  - intros k v m. exists (drop (culledLength (culling_max m) (culling_clear m)
      ((k, v) :: without k (culling_list m))) ((k, v) :: without k (culling_list m))).
    split; [done|]. cbn [setC list_CullingMap fst entriesC culling_list]. by rewrite take_drop.
Qed.
End instance.
Arguments CullingList : clear implicits.
