(* ===== verification/SessionCacheProps.v ===== *)
(** * Server-side TLS session cache: the properties

    The reference counts of the sessions are exactly the references that the
    local cache and OpenSSL hold, whatever happens; and the clients that a history
    of requests left waiting for one external lookup are all answered by it. *)
From Stdlib Require Import ZArith Lia NArith Strings.Byte.
From stdpp Require Import base numbers list gmap strings.
From S2P Require Import Prelude Buffers SessionCache.
Open Scope cpp_scope.

Set Default Goal Selector "!".

(** ** Counting references *)

Definition occ (x : nat) (l : list nat) : nat := length (filter (x =.) l).
Definition tally (x : nat) (l : list nat) : option nat :=
  if occ x l =? 0 then None else Some (occ x l).

#[export] Instance occ_Proper x : Proper ((≡ₚ) ==> (=)) (occ x).
Proof. intros l k E. unfold occ. by rewrite E. Qed.

#[export] Instance tally_Proper x : Proper ((≡ₚ) ==> (=)) (tally x).
Proof. intros l k E. unfold tally. by rewrite (occ_Proper x l k E). Qed.

Lemma occ_cons x y l : occ x (y :: l) = (if decide (x = y) then 1 else 0) + occ x l.
Proof. unfold occ. rewrite filter_cons. by case_decide. Qed.

Lemma occ_app x l k : occ x (l ++ k) = occ x l + occ x k.
Proof. unfold occ. by rewrite filter_app, length_app. Qed.

Lemma occ_elem x l : x ∈ l <-> occ x l <> 0.
Proof.
  induction l as [|y l IH]; [split; [by intros ?%elem_of_nil|done]|].
  rewrite occ_cons, elem_of_cons, IH. case_decide; lia.
Qed.

(** The sessions among the values of a map. *)
Definition valueRefs (l : list (list byte * option nat)) : list nat := concat (option_list <$> l.*2).

#[export] Instance valueRefs_Proper : Proper ((≡ₚ) ==> (≡ₚ)) valueRefs.
Proof.
  intros l k E. induction E as [|[i v] l k _ IH|[i v] [j w] l|l k m _ IH1 _ IH2]; unfold valueRefs in *; simpl.
  - done.
  - by rewrite IH.
  - rewrite !app_assoc. apply Permutation_app_tail, Permutation_app_comm.
  - by rewrite IH1.
Qed.

Lemma valueRefs_app l k : valueRefs (l ++ k) = valueRefs l ++ valueRefs k.
Proof. unfold valueRefs. by rewrite !fmap_app, concat_app. Qed.

Lemma valueRefs_elem id x l : (id, Some x) ∈ l -> x ∈ valueRefs l.
Proof.
  induction l as [|[i v] l IH]; [by intros ?%elem_of_nil|].
  change (valueRefs ((i, v) :: l)) with (option_list v ++ valueRefs l).
  intros [[= <- <-]|H]%elem_of_cons; apply elem_of_app; [left; by left|right; by apply IH].
Qed.

Section manager.
Context {Mp : Type} `{!CullingMap Mp (list byte) (option nat)} `{!CullingMapLaws Mp (list byte) (option nat)}.
Context (hash : list byte -> nat) (d2i : list byte -> bool).
Implicit Types (s : SSLSessionCacheManager Mp) (c : LocalSSLSessionCache Mp) (E : list nat).

Notation opt := (option_list (A:=nat)).

(** Every session alive has as many references as it occurs in [L]. *)
Definition counted (L : list nat) s : Prop :=
  (forall x, sessions s !! x = tally x L) /\ (forall x, x ∈ L -> x < nextSession s).

Lemma counted_ext L L' s : (forall x, occ x L = occ x L') -> counted L s -> counted L' s.
Proof.
  intros HL [H1 H2]. split.
  - intros x. rewrite H1. unfold tally. by rewrite HL.
  - intros x Hx%occ_elem. apply H2, occ_elem. by rewrite HL.
Qed.

Lemma counted_perm L L' s : L ≡ₚ L' -> counted L s -> counted L' s.
Proof. intros HL. apply counted_ext. intros x. by rewrite (occ_Proper x _ _ HL). Qed.

(** Everything but the heap of sessions. *)
Definition heapless s : SSLSessionCacheManager Mp := setSessions ∅ 0 s.

Lemma run_up_ref x L s :
  counted L s -> x ∈ L ->
  exists s', SSL_SESSION_up_ref x s = (Ok tt, s') /\ counted (x :: L) s' /\ heapless s' = heapless s.
Proof.
  intros [H1 H2] Hx. unfold SSL_SESSION_up_ref. rewrite bind_get, H1. unfold tally.
  pose proof (proj1 (occ_elem x L) Hx) as Hn. destruct (Nat.eqb_spec (occ x L) 0); [done|].
  eexists. split; [reflexivity|]. split; [|done]. split; simpl.
  - intros y. unfold tally. rewrite occ_cons. destruct (decide (y = x)) as [->|Hne].
    + rewrite lookup_insert_eq. destruct (Nat.eqb_spec (1 + occ x L) 0); [lia|]. f_equal. lia.
    + rewrite lookup_insert_ne by done. apply H1.
  - intros y [->|Hy]%elem_of_cons; by apply H2.
Qed.

Lemma run_free (x : option nat) L s :
  counted (opt x ++ L) s ->
  exists s', SSL_SESSION_free x s = (Ok tt, s') /\ counted L s' /\ heapless s' = heapless s.
Proof.
  destruct x as [x|]; simpl; [|intros H; by exists s]. intros [H1 H2].
  unfold SSL_SESSION_free. rewrite bind_get, H1. unfold tally. rewrite occ_cons, decide_True by done. simpl.
  eexists. split; [reflexivity|]. split; [|done]. split; simpl.
  - intros y. specialize (H1 y). unfold tally in *. rewrite occ_cons in H1.
    destruct (Nat.eqb_spec (occ x L) 0) as [E0|E0].
    + destruct (decide (y = x)) as [->|Hne].
      * rewrite E0. simpl. by rewrite lookup_delete_eq.
      * rewrite lookup_delete_ne by done. done.
    + destruct (decide (y = x)) as [->|Hne].
      * rewrite lookup_insert_eq. destruct (Nat.eqb_spec (occ x L) 0); [done|]. f_equal. lia.
      * rewrite lookup_insert_ne by done. done.
  - intros y Hy. apply H2. by right.
Qed.

Lemma run_alloc L s :
  counted L s ->
  exists s', allocSession s = (Ok (nextSession s), s') /\ counted (nextSession s :: L) s' /\
    heapless s' = heapless s.
Proof.
  intros [H1 H2]. unfold allocSession. rewrite bind_get, bind_modify.
  eexists. split; [reflexivity|]. split; [|done].
  assert (Hno : occ (nextSession s) L = 0).
  { destruct (occ (nextSession s) L) eqn:E0; [done|]. exfalso.
    assert (Hin : nextSession s ∈ L); [|specialize (H2 _ Hin); lia].
    unfold occ in E0. destruct (filter _ L) as [|y l] eqn:Ef; [done|].
    assert (Hy : y ∈ filter (nextSession s =.) L) by (rewrite Ef; by left).
    by apply list_elem_of_filter in Hy as [-> ?]. }
  split; simpl.
  - intros y. unfold tally. rewrite occ_cons. destruct (decide (y = nextSession s)) as [->|Hne].
    + by rewrite lookup_insert_eq, Hno.
    + rewrite lookup_insert_ne by done. apply H1.
  - intros y [->|Hy]%elem_of_cons; [lia|]. specialize (H2 y Hy). lia.
Qed.

(** ** The local cache *)

Definition localRefs c : list nat := valueRefs (entriesC (sessionCache c)).
Definition allRefs (l : list (LocalSSLSessionCache Mp)) : list nat := concat (localRefs <$> l).

Lemma allRefs_split l i c : l !! i = Some c -> allRefs l ≡ₚ localRefs c ++ allRefs (delete i l).
Proof.
  intros H. unfold allRefs. rewrite <- (take_drop_middle l i c H) at 1.
  rewrite delete_take_drop, !fmap_app, fmap_cons, !concat_app. simpl.
  rewrite !app_assoc. apply Permutation_app_tail, Permutation_app_comm.
Qed.

Lemma delete_insert_shard (l : list (LocalSSLSessionCache Mp)) i c : delete i (<[i:=c]> l) = delete i l.
Proof.
  by rewrite !delete_take_drop, take_insert_ge, drop_insert_lt by lia.
Qed.

(** What the local cache holds for an id. *)
Definition localEntry (id : list byte) s : option nat :=
  caches_ s !! bucket hash id s ≫= (fun c => mjoin (assoc id (entriesC (sessionCache c)))).

(** The references of the caches, of OpenSSL and [E] are those counted. *)
Definition balanced E s : Prop :=
  counted (allRefs (caches_ s) ++ openssl s ++ E) s /\ caches_ s <> [].

(** The part of the state the local cache has nothing to do with. *)
Definition outside s :=
  (pendingLookups_ s, externalCache_ s, openssl s, lookups s, answers s).

Lemma heapless_outside s s' : heapless s' = heapless s -> outside s' = outside s /\ caches_ s' = caches_ s.
Proof. destruct s, s'. unfold heapless, setSessions. simpl. intros [= -> -> -> -> -> -> ->]. done. Qed.

Lemma shard_exists id s : caches_ s <> [] -> exists c, caches_ s !! bucket hash id s = Some c.
Proof.
  intros H. apply lookup_lt_is_Some_2. unfold bucket. apply Nat.mod_upper_bound.
  by destruct (caches_ s).
Qed.

Lemma run_getShard id s : caches_ s <> [] ->
  exists c, getShard hash id s = (Ok c, s) /\ caches_ s !! bucket hash id s = Some c.
Proof.
  intros H. destruct (shard_exists id s H) as [c Hc]. exists c. split; [|done].
  unfold getShard. rewrite bind_get. unfold of_option. by rewrite Hc.
Qed.

(** Another shard in the place of [c]. *)
Lemma counted_setShard id c c' L s :
  caches_ s !! bucket hash id s = Some c ->
  counted (localRefs c' ++ L) s ->
  (setShard hash id c' s).1 = Ok tt /\
  counted (localRefs c' ++ L) (setShard hash id c' s).2 /\
  allRefs (caches_ (setShard hash id c' s).2) ≡ₚ localRefs c' ++ allRefs (delete (bucket hash id s) (caches_ s)) /\
  caches_ (setShard hash id c' s).2 = <[bucket hash id s := c']> (caches_ s) /\
  outside (setShard hash id c' s).2 = outside s.
Proof.
  intros Hc HL. unfold setShard. rewrite bind_get. simpl. split; [done|]. split; [exact HL|].
  split; [|done]. rewrite (allRefs_split _ (bucket hash id s) c').
  - by rewrite delete_insert_shard.
  - rewrite list_lookup_insert_eq; [done|]. by eapply lookup_lt_Some.
Qed.

Lemma localRefs_perm m n c :
  entriesC m ≡ₚ entriesC (sessionCache c) -> localRefs (mkLocal m n) ≡ₚ localRefs c.
Proof. intros H. unfold localRefs. simpl. by rewrite H. Qed.

Lemma run_lookupSession id E s :
  balanced E s ->
  exists s', lookupSession hash id s = (Ok (localEntry id s), s') /\
    balanced (opt (localEntry id s) ++ E) s' /\ outside s' = outside s /\
    (forall id', localEntry id' s' = localEntry id' s).
Proof.
  intros [Hc Hne]. unfold lookupSession.
  destruct (run_getShard id s Hne) as (c & Eg & Hsh). rewrite (bind_Ok _ _ _ _ _ Eg).
  destruct (findC_entries id (sessionCache c)) as [Hfound Hperm].
  destruct (findC id (sessionCache c)) as [found m]. simpl in Hfound, Hperm.
  pose proof (localRefs_perm m (removedSessions_ c) c Hperm) as Hrefs.
  set (c' := mkLocal m (removedSessions_ c)) in *.
  destruct (counted_setShard id c c' (allRefs (delete (bucket hash id s) (caches_ s)) ++ openssl s ++ E) s Hsh)
    as (E1 & Hc1 & Hall & Hcaches & Hout).
  { eapply counted_perm; [|exact Hc]. by rewrite (allRefs_split _ _ _ Hsh), Hrefs, <- app_assoc. }
  destruct (setShard hash id c' s) as [r s1] eqn:Eset. simpl in *. subst r.
  assert (Hop : openssl s1 = openssl s) by by injection Hout.
  assert (Hloc : forall id', localEntry id' s1 = localEntry id' s).
  { intros id'. unfold localEntry, bucket. rewrite Hcaches, length_insert. fold (bucket hash id' s).
    destruct (decide (bucket hash id s = bucket hash id' s)) as [Eb|Nb].
    - rewrite <- Eb, Hsh, list_lookup_insert_eq by by eapply lookup_lt_Some. simpl.
      rewrite (assoc_perm id' (entriesC m) (entriesC (sessionCache c))); [done|apply entriesC_NoDup|done].
    - by rewrite list_lookup_insert_ne. }
  assert (Hb1 : balanced E s1).
  { split; [|rewrite Hcaches; by destruct (caches_ s), (bucket hash id s)].
    rewrite Hop. eapply counted_perm; [|exact Hc1]. by rewrite Hall, <- app_assoc. }
  assert (Hentry : localEntry id s = mjoin found) by (unfold localEntry; by rewrite Hsh, Hfound).
  rewrite Hentry, (bind_Ok _ _ _ _ _ Eset).
  destruct found as [[x|]|]; simpl.
  - destruct Hb1 as [Hc2 Hne2].
    destruct (run_up_ref x _ s1 Hc2) as (s2 & E2 & Hc3 & Hh).
    { rewrite Hall, Hrefs. apply elem_of_app. left. apply elem_of_app. left.
      apply (valueRefs_elem id). by apply assoc_elem. }
    apply heapless_outside in Hh as [Ho2 Hca2]. rewrite (bind_Ok _ _ _ _ _ E2).
    exists s2. split; [done|]. assert (Hop2 : openssl s2 = openssl s1) by by injection Ho2.
    split; [split; [|by rewrite Hca2]|].
    + rewrite Hca2, Hop2. eapply counted_perm; [|exact Hc3]. simpl. rewrite !app_assoc. apply Permutation_middle.
    + split; [by rewrite Ho2|]. intros id'. rewrite <- Hloc. unfold localEntry, bucket. by rewrite Hca2.
  - by exists s1.
  - by exists s1.
Qed.

(** The counter of a shard does not matter. *)
Lemma run_setCounter id E s n c :
  balanced E s -> caches_ s !! bucket hash id s = Some c ->
  exists s', setShard hash id (mkLocal (sessionCache c) n) s = (Ok tt, s') /\ balanced E s' /\
    outside s' = outside s.
Proof.
  intros [Hc Hne] Hsh. set (c' := mkLocal (sessionCache c) n).
  destruct (counted_setShard id c c' (allRefs (delete (bucket hash id s) (caches_ s)) ++ openssl s ++ E) s Hsh)
    as (E1 & Hc1 & Hall & Hcaches & Hout).
  { eapply counted_perm; [|exact Hc]. by rewrite (allRefs_split _ _ _ Hsh), <- app_assoc. }
  destruct (setShard hash id c' s) as [r s1]. simpl in *. subst r. exists s1. split; [done|].
  assert (Hop : openssl s1 = openssl s) by by injection Hout. split; [|done].
  split; [|rewrite Hcaches; by destruct (caches_ s), (bucket hash id s)].
  rewrite Hop. eapply counted_perm; [|exact Hc1]. by rewrite Hall, <- app_assoc.
Qed.

Lemma run_prune id pruned E : forall s,
  balanced (concat (option_list <$> pruned) ++ E) s ->
  exists s', for_each pruned (pruneSessionCallback hash id) s = (Ok tt, s') /\ balanced E s' /\
    outside s' = outside s.
Proof.
  induction pruned as [|x pruned IH]; intros s Hb; [by exists s|].
  cbn [for_each]. unfold pruneSessionCallback at 1. rewrite bind_assoc.
  destruct Hb as [Hc Hne]. rewrite fmap_cons in Hc. cbn [concat] in Hc.
  destruct (run_free x (allRefs (caches_ s) ++ openssl s ++ concat (option_list <$> pruned) ++ E) s)
    as (s1 & E1 & Hc1 & Hh).
  { eapply counted_ext; [|exact Hc]. intros y. rewrite !occ_app. lia. }
  apply heapless_outside in Hh as [Ho1 Hca1]. rewrite (bind_Ok _ _ _ _ _ E1), bind_assoc.
  assert (Hop1 : openssl s1 = openssl s) by by injection Ho1.
  assert (Hb1 : balanced (concat (option_list <$> pruned) ++ E) s1).
  { split; [by rewrite Hca1, Hop1|by rewrite Hca1]. }
  destruct (run_getShard id s1 (proj2 Hb1)) as (c & Eg & Hsh). rewrite (bind_Ok _ _ _ _ _ Eg).
  destruct (run_setCounter id _ s1 (u32 (removedSessions_ c + 1)) c Hb1 Hsh) as (s2 & E2 & Hb2 & Ho2).
  rewrite (bind_Ok _ _ _ _ _ E2). destruct (IH s2 Hb2) as (s3 & E3 & Hb3 & Ho3).
  exists s3. split; [done|]. split; [done|]. by rewrite Ho3, Ho2, Ho1.
Qed.

Lemma valueRefs_without id (l : list (list byte * option nat)) :
  NoDup l.*1 -> valueRefs l ≡ₚ opt (mjoin (assoc id l)) ++ valueRefs (without id l).
Proof.
  intros Hnd. destruct (assoc id l) as [v|] eqn:E.
  - rewrite <- (without_perm id v l Hnd E) at 1. by destruct v.
  - by rewrite without_assoc_None.
Qed.

Lemma balanced_stat E s x : balanced E s -> balanced E (stat x s).
Proof. done. Qed.

(** The cache takes over the reference that it is given, and gives up those of
    the sessions it overwrites or prunes. *)
Lemma run_storeSession id x E s :
  balanced (opt x ++ E) s ->
  exists s', storeSession hash id x s = (Ok tt, s') /\ balanced E s' /\ outside s' = outside s.
Proof.
  intros [Hc Hne]. unfold storeSession.
  destruct (run_getShard id s Hne) as (c & Eg & Hsh). rewrite (bind_Ok _ _ _ _ _ Eg).
  destruct (findC_entries id (sessionCache c)) as [Hfound Hperm].
  destruct (findC id (sessionCache c)) as [old m]. simpl in Hfound, Hperm.
  pose proof (entriesC_NoDup m) as Hnd.
  set (others := allRefs (delete (bucket hash id s) (caches_ s)) ++ openssl s ++ E).
  assert (Hold : default None old = mjoin (assoc id (entriesC m))).
  { rewrite Hfound, (assoc_perm id (entriesC m) (entriesC (sessionCache c))) by done.
    by destruct (assoc id _) as [[]|]. }
  rewrite Hold.
  destruct (run_free (mjoin (assoc id (entriesC m))) (opt x ++ valueRefs (without id (entriesC m)) ++ others) s)
    as (s1 & E1 & Hc1 & Hh).
  { eapply counted_ext; [|exact Hc]. intros y. rewrite !occ_app.
    rewrite (occ_Proper y _ _ (allRefs_split _ _ _ Hsh)), occ_app.
    rewrite (occ_Proper y (localRefs c) (valueRefs (entriesC m))) by (by apply valueRefs_Proper).
    rewrite (occ_Proper y _ _ (valueRefs_without id (entriesC m) Hnd)), occ_app.
    unfold others. rewrite !occ_app. lia. }
  apply heapless_outside in Hh as [Ho1 Hca1]. rewrite (bind_Ok _ _ _ _ _ E1).
  assert (Hop1 : openssl s1 = openssl s) by by injection Ho1.
  destruct (setC_entries id x m) as (pruned & Hpr & Hset).
  destruct (setC id x m) as [m' prunedV]. simpl in Hpr, Hset. subst prunedV.
  assert (Hsh1 : caches_ s1 !! bucket hash id s1 = Some c) by (unfold bucket; by rewrite Hca1).
  destruct (counted_setShard id c (mkLocal m' 0) (valueRefs pruned ++ others) s1 Hsh1)
    as (E2 & Hc2 & Hall & Hcaches & Ho2).
  { eapply counted_ext; [|exact Hc1]. intros y.
    assert (Hy : occ y (valueRefs (entriesC m' ++ pruned)) = occ y (opt x ++ valueRefs (without id (entriesC m)))).
    { apply occ_Proper. rewrite Hset. done. }
    rewrite valueRefs_app, !occ_app in Hy. unfold localRefs. simpl sessionCache. rewrite !occ_app. lia. }
  destruct (setShard hash id (mkLocal m' 0) s1) as [r s2] eqn:Eset. cbn [fst snd] in E2, Hc2, Hall, Hcaches, Ho2.
  subst r. rewrite (bind_Ok _ _ _ _ _ Eset).
  assert (Hop2 : openssl s2 = openssl s1) by by injection Ho2.
  assert (Hb2 : balanced (valueRefs pruned ++ E) s2).
  { split; [|rewrite Hcaches, Hca1; by destruct (caches_ s), (bucket hash id s1)].
    rewrite Hop2, Hop1. eapply counted_ext; [|exact Hc2]. intros y.
    rewrite (occ_app y (allRefs (caches_ s2))), (occ_Proper y _ _ Hall).
    unfold bucket. rewrite Hca1. fold (bucket hash id s). unfold others. rewrite !occ_app. lia. }
  destruct (run_prune id pruned.*2 E s2 Hb2) as (s3 & E3 & Hb3 & Ho3). rewrite (bind_Ok _ _ _ _ _ E3).
  destruct (run_getShard id s3 (proj2 Hb3)) as (c3 & Eg3 & _). rewrite (bind_Ok _ _ _ _ _ Eg3).
  eexists. split; [reflexivity|]. split; [by apply balanced_stat|].
  change (outside (stat (RecordSSLSessionFree (removedSessions_ c3)) s3)) with (outside s3).
  by rewrite Ho3, Ho2, Ho1.
Qed.

(** ** The manager *)

Record managed s : Prop := {
  m_balanced : balanced [] s;
  m_nodup : NoDup (ctx_sessionId <$> lookups s);
  m_pending : forall id p, pendingLookups_ s !! id = Some p ->
    request_in_progress p = true /\ pending_session p = None /\
    MIN_SESSION_ID_LENGTH <= length id /\ externalCache_ s = true;
  m_dom : forall id, is_Some (pendingLookups_ s !! id) <-> id ∈ ctx_sessionId <$> lookups s;
  m_null : Forall (fun ctx => ctx_session ctx = None) (lookups s)
}.

(** [managed] but for the references. *)
Definition linked (pending : gmap (list byte) PendingLookup) (external : bool) (l : list CacheContext) : Prop :=
  NoDup (ctx_sessionId <$> l) /\
  (forall id p, pending !! id = Some p ->
     request_in_progress p = true /\ pending_session p = None /\
     MIN_SESSION_ID_LENGTH <= length id /\ external = true) /\
  (forall id, is_Some (pending !! id) <-> id ∈ ctx_sessionId <$> l) /\
  Forall (fun ctx => ctx_session ctx = None) l.

Lemma managed_linked s :
  managed s <-> balanced [] s /\ linked (pendingLookups_ s) (externalCache_ s) (lookups s).
Proof. split; [intros [H1 H2 H3 H4 H5]; by split_and!|intros (H1 & H2 & H3 & H4 & H5); by split]. Qed.

Lemma run_finishGet sock x foreign E s :
  balanced (opt x ++ E) s ->
  exists s', finishGet sock x foreign s = (Ok (if x is Some y then Hit y else Miss), s') /\
    balanced E s' /\ pendingLookups_ s' = pendingLookups_ s /\ externalCache_ s' = externalCache_ s /\
    lookups s' = lookups s /\ answers s' = answers s /\ (forall id, localEntry id s' = localEntry id s).
Proof.
  intros [Hc Hne]. unfold finishGet. rewrite bind_modify. destruct x as [x|].
  - rewrite bind_modify. eexists. split; [reflexivity|]. split; [|done]. split; [|done]. simpl in *.
    eapply (counted_ext _ _ s); [|exact Hc]. intros y. rewrite !occ_app, !occ_cons, !occ_app. simpl. lia.
  - eexists. by split.
Qed.

(** A socket looks up a session whose lookup has been answered. *)
Definition answerOf (local found : option nat) : Answer :=
  match local, found with
  | Some x, _ => Hit x
  | None, Some x => Hit x
  | None, None => Miss
  end.

Lemma run_accept_answered sock id found ws E s :
  balanced E s -> (forall x, found = Some x -> x ∈ E) ->
  pendingLookups_ s !! id = Some (mkPending false found ws) -> externalCache_ s = true ->
  MIN_SESSION_ID_LENGTH <= length id ->
  exists s', accept hash sock id true false s = (Ok tt, s') /\ balanced E s' /\
    pendingLookups_ s' = pendingLookups_ s /\ externalCache_ s' = externalCache_ s /\
    lookups s' = lookups s /\ answers s' = answers s ++ [(sock, answerOf (localEntry id s) found)] /\
    (forall id', localEntry id' s' = localEntry id' s).
Proof.
  intros Hb HE Hp Hext Hlen. unfold accept, getSession.
  destruct (Nat.ltb_spec (length id) MIN_SESSION_ID_LENGTH); [lia|].
  destruct (run_lookupSession id E s Hb) as (s1 & E1 & Hb1 & Ho1 & Hl1).
  rewrite bind_assoc, (bind_Ok _ _ _ _ _ E1), bind_assoc, bind_get.
  assert (Hrest : pendingLookups_ s1 = pendingLookups_ s /\ externalCache_ s1 = externalCache_ s /\
    lookups s1 = lookups s /\ answers s1 = answers s) by by injection Ho1 as -> -> _ -> ->.
  destruct Hrest as (Rp & Re & Rl & Ra). rewrite Re, Hext.
  assert (Hend : forall y foreign s2, balanced (opt y ++ E) s2 -> outside s2 = outside s1 ->
    (forall id', localEntry id' s2 = localEntry id' s1) ->
    exists s', bind (finishGet sock y foreign) (fun a => modify (answer sock a)) s2 = (Ok tt, s') /\ balanced E s' /\
    pendingLookups_ s' = pendingLookups_ s /\ externalCache_ s' = externalCache_ s /\
    lookups s' = lookups s /\ answers s' = answers s ++ [(sock, if y is Some x then Hit x else Miss)] /\
    (forall id', localEntry id' s' = localEntry id' s)).
  { intros y foreign s2 Hb2 Ho2 Hl2. destruct (run_finishGet sock y foreign E s2 Hb2) as (s3 & E3 & Hb3 & P3 & X3 & L3 & A3 & C3).
    rewrite (bind_Ok _ _ _ _ _ E3). eexists. split; [reflexivity|]. split; [done|]. simpl.
    injection Ho2 as O1 O2 O3 O4 O5. rewrite P3, X3, L3, A3, O1, O2, O4, O5, Rp, Re, Rl, Ra, Hext.
    split_and!; [done..|]. intros id'. rewrite <- Hl1, <- Hl2, <- C3. done. }
  rewrite Hext in Hend. destruct (localEntry id s) as [x|] eqn:El.
  - simpl. destruct (Hend (Some x) false s1) as (s' & H'); try done. by exists s'.
  - simpl negb. cbv iota. rewrite Rp, Hp. simpl request_in_progress. cbv iota. simpl pending_session.
    destruct found as [x|]; simpl.
    + destruct Hb1 as [Hc1 Hne1]. destruct (run_up_ref x _ s1 Hc1) as (s2 & E2 & Hc2 & Hh2).
      { apply elem_of_app. right. apply elem_of_app. right. by apply HE. }
      apply heapless_outside in Hh2 as [Ho2 Hca2]. rewrite bind_assoc, (bind_Ok _ _ _ _ _ E2).
      destruct (Hend (Some x) true s2) as (s' & H').
      * split; [|by rewrite Hca2]. assert (Hop : openssl s2 = openssl s1) by by injection Ho2.
        rewrite Hca2, Hop. eapply counted_ext; [|exact Hc2]. intros y.
        rewrite occ_cons, !occ_app. change (opt (Some x)) with [x]. rewrite occ_cons.
        change (occ y []) with 0. change (occ y (opt None)) with 0. lia.
      * done.
      * intros id'. unfold localEntry, bucket. by rewrite Hca2.
      * by exists s'.
    + destruct (Hend None true s1) as (s' & H'); try done. by exists s'.
Qed.

Lemma run_accept_all id found ws E socks : forall s,
  balanced E s -> (forall x, found = Some x -> x ∈ E) ->
  pendingLookups_ s !! id = Some (mkPending false found ws) -> externalCache_ s = true ->
  MIN_SESSION_ID_LENGTH <= length id ->
  exists s', for_each socks (fun sock => accept hash sock id true false) s = (Ok tt, s') /\ balanced E s' /\
    pendingLookups_ s' = pendingLookups_ s /\ externalCache_ s' = externalCache_ s /\
    lookups s' = lookups s /\
    answers s' = answers s ++ ((fun sock => (sock, answerOf (localEntry id s) found)) <$> socks).
Proof.
  induction socks as [|sock socks IH]; intros s Hb HE Hp Hext Hlen.
  - exists s. simpl. by rewrite app_nil_r.
  - cbn [for_each]. destruct (run_accept_answered sock id found ws E s Hb HE Hp Hext Hlen)
      as (s1 & E1 & Hb1 & P1 & X1 & L1 & A1 & C1).
    rewrite (bind_Ok _ _ _ _ _ E1).
    destruct (IH s1 Hb1 HE) as (s2 & E2 & Hb2 & P2 & X2 & L2 & A2); [by rewrite P1|by rewrite X1|done|].
    exists s2. split; [done|]. split; [done|].
    rewrite P2, X2, L2, A2, P1, X1, L1, A1, C1. split_and!; try done. by rewrite <- app_assoc.
Qed.

(** The answer to a lookup: every socket that waits for it is answered. *)
Lemma run_restart id sock found E p s :
  balanced E s -> (forall x, found = Some x -> x ∈ E) ->
  pendingLookups_ s !! id = Some p -> externalCache_ s = true -> MIN_SESSION_ID_LENGTH <= length id ->
  exists s', restartSSLAccept hash (mkContext id found sock) s = (Ok tt, s') /\ balanced E s' /\
    pendingLookups_ s' = delete id (pendingLookups_ s) /\ externalCache_ s' = externalCache_ s /\
    lookups s' = lookups s /\
    answers s' = answers s ++ ((fun k => (k, answerOf (localEntry id s) found)) <$> (sock :: waiters p)).
Proof.
  intros Hb HE Hp Hext Hlen. unfold restartSSLAccept. simpl ctx_sessionId. rewrite bind_get, Hp, bind_modify.
  simpl ctx_session. simpl ctx_sslSocket.
  set (s1 := setPending _ s).
  assert (Hp1 : pendingLookups_ s1 !! id = Some (mkPending false found (waiters p))) by (simpl; apply lookup_insert_eq).
  assert (Hb1 : balanced E s1) by done.
  destruct (run_accept_all id found (waiters p) E (sock :: waiters p) s1 Hb1 HE Hp1 Hext Hlen)
    as (s2 & E2 & Hb2 & P2 & X2 & L2 & A2).
  cbn [for_each] in E2. rewrite <- bind_assoc, (bind_Ok _ _ _ _ _ E2).
  eexists. split; [reflexivity|]. split; [done|]. simpl. rewrite P2, X2, L2, A2. split_and!; try done.
  apply delete_insert_eq.
Qed.

Lemma linked_same s s' :
  outside s' = outside s -> linked (pendingLookups_ s) (externalCache_ s) (lookups s) ->
  linked (pendingLookups_ s') (externalCache_ s') (lookups s').
Proof. by intros [= -> -> _ -> _]. Qed.

(** A full handshake: the new session has a reference of OpenSSL's and one
    that the local cache keeps. *)
Definition sameLookups s s' : Prop := pendingLookups_ s' = pendingLookups_ s /\ lookups s' = lookups s.

Lemma managed_new id s :
  managed s -> exists s', sessionStep hash d2i (New id) s = (Ok tt, s') /\ managed s' /\ sameLookups s s'.
Proof.
  rewrite managed_linked. intros [[Hc Hne] Hl]. cbn [sessionStep].
  destruct (run_alloc _ s Hc) as (s1 & E1 & Hc1 & Hh1). apply heapless_outside in Hh1 as [Ho1 Hca1].
  rewrite (bind_Ok _ _ _ _ _ E1), bind_modify. set (x := nextSession s) in *.
  set (s2 := setOpenssl (x :: openssl s1) s1).
  assert (Hop1 : openssl s1 = openssl s) by by injection Ho1.
  assert (Hc2 : counted (allRefs (caches_ s2) ++ openssl s2) s2).
  { unfold s2. simpl. rewrite Hca1, Hop1. eapply (counted_ext _ _ s1); [|exact Hc1].
    intros y. rewrite occ_cons, !occ_app, occ_cons. change (occ y []) with 0. lia. }
  destruct (run_up_ref x _ s2 Hc2) as (s3 & E3 & Hc3 & Hh3).
  { apply elem_of_app. right. simpl. by left. }
  apply heapless_outside in Hh3 as [Ho3 Hca3]. rewrite (bind_Ok _ _ _ _ _ E3).
  assert (Hop3 : openssl s3 = openssl s2) by by injection Ho3.
  unfold newSession. rewrite bind_assoc, bind_modify, bind_assoc.
  set (s4 := stat (RecordSSLSession true false false) s3).
  destruct (run_storeSession id (Some x) [] s4) as (s5 & E5 & Hb5 & Ho5).
  { split; [|unfold s4; simpl; rewrite Hca3; unfold s2; simpl; by rewrite Hca1].
    unfold s4. simpl. rewrite Hca3, Hop3. eapply (counted_ext _ _ s3); [|exact Hc3].
    intros y. rewrite occ_cons, !occ_app, occ_cons. change (occ y []) with 0. lia. }
  rewrite (bind_Ok _ _ _ _ _ E5), bind_assoc, bind_get.
  assert (Hl5 : linked (pendingLookups_ s5) (externalCache_ s5) (lookups s5)).
  { apply (linked_same s4); [done|]. change (linked (pendingLookups_ s3) (externalCache_ s3) (lookups s3)).
    apply (linked_same s2); [done|]. change (linked (pendingLookups_ s1) (externalCache_ s1) (lookups s1)).
    by apply (linked_same s). }
  assert (Hsame : sameLookups s s5).
  { injection Ho1 as A1 _ _ A4 _. injection Ho3 as B1 _ _ B4 _. injection Ho5 as C1 _ _ C4 _.
    split; [by rewrite C1, B1, A1|by rewrite C4, B4, A4]. }
  destruct (externalCache_ s5) eqn:Ex; simpl.
  - rewrite bind_assoc, bind_modify. eexists. split; [reflexivity|]. rewrite managed_linked. simpl. by rewrite Ex.
  - rewrite bind_assoc, bind_ret. eexists. split; [reflexivity|]. rewrite managed_linked. by rewrite Ex.
Qed.

Lemma linked_wait pending external l id p sock :
  linked pending external l -> pending !! id = Some p ->
  linked (<[id := mkPending true None (waiters p ++ [sock])]> pending) external l.
Proof.
  intros (H1 & H2 & H3 & H4) Hp. split; [done|]. split; [|split; [|done]].
  - intros i q. rewrite lookup_insert_Some. intros [[<- <-]|[_ Hq]]; [|by apply (H2 i)].
    destruct (H2 id p Hp) as (_ & _ & ? & ?). done.
  - intros i. rewrite <- H3, lookup_insert_is_Some'. split; [intros [<-|]; [by exists p|done]|by right].
Qed.

Lemma linked_send pending external l id sock :
  linked pending external l -> pending !! id = None -> external = true ->
  MIN_SESSION_ID_LENGTH <= length id ->
  linked (<[id := mkPending true None []]> pending) external (l ++ [mkContext id None sock]).
Proof.
  intros (H1 & H2 & H3 & H4) Hp He Hlen. unfold linked. rewrite fmap_app. simpl. split; [|split; [|split]].
  - apply NoDup_app. split; [done|]. split; [|apply NoDup_singleton].
    intros i Hi ->%list_elem_of_singleton. apply H3 in Hi as [q Hq]. by rewrite Hp in Hq.
  - intros i q. rewrite lookup_insert_Some. intros [[<- <-]|[_ Hq]]; [done|by apply (H2 i)].
  - intros i. rewrite lookup_insert_is_Some', elem_of_app, H3, list_elem_of_singleton. naive_solver.
  - apply Forall_app. by split; [|apply Forall_singleton].
Qed.

(** A socket whose lookup goes to the external cache. *)
Definition asks (id : list byte) (wantLookup : bool) s : bool :=
  (MIN_SESSION_ID_LENGTH <=? length id) && wantLookup && externalCache_ s &&
  bool_decide (localEntry id s = None).

(** What a socket is told, and what becomes of the lookups. *)
Definition told (id : list byte) s : Answer :=
  if length id <? MIN_SESSION_ID_LENGTH then Miss else answerOf (localEntry id s) None.
Definition resumed (sock : nat) (id : list byte) (wantLookup sent : bool) s
    : Answer * gmap (list byte) PendingLookup * list CacheContext :=
  let quiet := (told id s, pendingLookups_ s, lookups s) in
  if asks id wantLookup s then
    match pendingLookups_ s !! id with
    | Some p => (WouldBlock, <[id := mkPending true None (waiters p ++ [sock])]> (pendingLookups_ s), lookups s)
    | None =>
        if sent then
          (WouldBlock, <[id := mkPending true None []]> (pendingLookups_ s), lookups s ++ [mkContext id None sock])
        else quiet
    end
  else quiet.

Lemma managed_finish sock x foreign s :
  balanced (opt x ++ []) s -> linked (pendingLookups_ s) (externalCache_ s) (lookups s) ->
  exists s', bind (finishGet sock x foreign) (fun a => modify (answer sock a)) s = (Ok tt, s') /\ managed s' /\
    answers s' = answers s ++ [(sock, answerOf x None)] /\
    pendingLookups_ s' = pendingLookups_ s /\ lookups s' = lookups s.
Proof.
  intros Hb Hl. destruct (run_finishGet sock x foreign [] s Hb) as (s' & E & Hb' & P & X & L & A & _).
  rewrite (bind_Ok _ _ _ _ _ E). eexists. split; [reflexivity|]. rewrite managed_linked.
  split; [split; [done|simpl; by rewrite P, X, L]|]. simpl. rewrite A. by destruct x.
Qed.

Lemma run_resume sock id wantLookup sent s :
  managed s -> exists s', sessionStep hash d2i (Resume sock id wantLookup sent) s = (Ok tt, s') /\ managed s' /\
    let '(a, pending, l) := resumed sock id wantLookup sent s in
    answers s' = answers s ++ [(sock, a)] /\ pendingLookups_ s' = pending /\ lookups s' = l.
Proof.
  intros Hm. pose proof Hm as [Hb Hl]%managed_linked. cbn [sessionStep]. unfold accept, getSession, resumed, asks, told.
  destruct (Nat.ltb_spec (length id) MIN_SESSION_ID_LENGTH) as [Hs|Hlen].
  { destruct (Nat.leb_spec MIN_SESSION_ID_LENGTH (length id)); [lia|]. simpl.
    rewrite bind_ret. eexists. split; [reflexivity|]. by rewrite managed_linked. }
  destruct (Nat.leb_spec MIN_SESSION_ID_LENGTH (length id)) as [_|?]; [|lia].
  destruct (run_lookupSession id [] s Hb) as (s1 & E1 & Hb1 & Ho1 & _).
  rewrite bind_assoc, (bind_Ok _ _ _ _ _ E1), bind_assoc, bind_get.
  assert (Hl1 : linked (pendingLookups_ s1) (externalCache_ s1) (lookups s1)) by by apply (linked_same s).
  injection Ho1 as O1 O2 O3 O4 O5. rewrite <- O1, <- O2, <- O4, <- O5.
  destruct (localEntry id s) as [x|] eqn:El.
  { rewrite bool_decide_false, andb_false_r by done. by apply (managed_finish sock (Some x)). }
  rewrite bool_decide_true, andb_true_r by done.
  destruct (externalCache_ s1) eqn:Ex; [|rewrite andb_false_r; apply (managed_finish sock None); [done|by rewrite Ex]].
  rewrite <- Ex in Hl1.
  destruct wantLookup; simpl negb; simpl andb; cbv iota; [|by apply (managed_finish sock None)].
  destruct (pendingLookups_ s1 !! id) as [p|] eqn:Ep.
  - pose proof Hl1 as (_ & H2 & _). destruct (H2 id p Ep) as (Hprog & Hnone & _ & _). rewrite Hprog, Hnone.
    rewrite bind_assoc, bind_modify, bind_ret. eexists. split; [reflexivity|]. rewrite managed_linked.
    split; [|done]. split; [done|]. by apply linked_wait.
  - rewrite bind_assoc, bind_modify. unfold lookupCacheRecord. rewrite !bind_assoc. destruct sent; cbv [when]; cbv iota.
    + rewrite bind_modify, !bind_ret. eexists. split; [reflexivity|]. rewrite managed_linked. split; [|done]. split; [done|].
      by apply linked_send.
    + rewrite !bind_ret, bind_assoc, bind_modify.
      match goal with |- context [bind (finishGet _ _ _) _ ?s0] => set (s2 := s0) end.
      assert (Ep2 : pendingLookups_ s2 = pendingLookups_ s1) by (simpl; by apply delete_insert_id).
      destruct (managed_finish sock None true s2) as (s3 & E3 & M3 & A3 & P3 & L3); [done|by rewrite Ep2|].
      exists s3. by rewrite P3, Ep2.
Qed.

(** A lookup under way is that of an entry of [pendingLookups_]. *)
Lemma linked_answered pending external l i ctx :
  linked pending external l -> l !! i = Some ctx ->
  exists p, pending !! ctx_sessionId ctx = Some p /\ external = true /\ ctx_session ctx = None /\
    MIN_SESSION_ID_LENGTH <= length (ctx_sessionId ctx) /\
    linked (delete (ctx_sessionId ctx) pending) external (delete i l).
Proof.
  intros (H1 & H2 & H3 & H4) Hi.
  assert (Hin : ctx_sessionId ctx ∈ ctx_sessionId <$> l).
  { apply list_elem_of_fmap. exists ctx. split; [done|]. by eapply list_elem_of_lookup_2. }
  apply H3 in Hin as [p Hp]. destruct (H2 _ _ Hp) as (_ & _ & Hlen & He).
  exists p. split; [done|]. split; [done|]. split; [by eapply Forall_lookup_1 in H4|]. split; [done|].
  assert (Hperm : ctx_sessionId <$> l ≡ₚ ctx_sessionId ctx :: (ctx_sessionId <$> delete i l)).
  { rewrite <- fmap_cons. by rewrite <- (delete_Permutation l i ctx Hi). }
  rewrite Hperm in H1. apply NoDup_cons in H1 as [Hno Hnd]. split; [done|]. split; [|split; [|by apply Forall_delete]].
  - intros k q [_ Hq]%lookup_delete_Some. by apply (H2 k).
  - intros k. rewrite lookup_delete_is_Some, H3, Hperm, elem_of_cons. naive_solver.
Qed.

(** The session of an answer, if its record decodes. *)
Definition restored (value : option (list byte)) s : option nat :=
  match value with
  | Some data => if d2i data then Some (nextSession s) else None
  | None => None
  end.

Lemma run_answered i value ctx s :
  managed s -> lookups s !! i = Some ctx ->
  exists p s', pendingLookups_ s !! ctx_sessionId ctx = Some p /\
    sessionStep hash d2i (Answered i value) s = (Ok tt, s') /\ managed s' /\
    lookups s' = delete i (lookups s) /\
    pendingLookups_ s' = delete (ctx_sessionId ctx) (pendingLookups_ s) /\
    answers s' = answers s ++
      ((fun k => (k, answerOf (localEntry (ctx_sessionId ctx) s) (restored value s))) <$>
        (ctx_sslSocket ctx :: waiters p)).
Proof.
  intros Hm Hi. pose proof Hm as [Hb Hl]%managed_linked.
  destruct (linked_answered _ _ _ i ctx Hl Hi) as (p & Hp & He & Hnull & Hlen & Hl').
  cbn [sessionStep]. rewrite bind_get, Hi, bind_modify. set (s1 := setLookups _ s).
  exists p.
  assert (Hfin : forall found E s2,
    balanced (opt found ++ E) s2 -> outside s2 = outside s1 -> (forall id, localEntry id s2 = localEntry id s) ->
    exists s', restartSSLAccept hash (mkContext (ctx_sessionId ctx) found (ctx_sslSocket ctx)) s2 = (Ok tt, s') /\
      balanced (opt found ++ E) s' /\ linked (pendingLookups_ s') (externalCache_ s') (lookups s') /\
      lookups s' = delete i (lookups s) /\
      pendingLookups_ s' = delete (ctx_sessionId ctx) (pendingLookups_ s) /\
      answers s' = answers s ++ ((fun k => (k, answerOf (localEntry (ctx_sessionId ctx) s) found)) <$>
        (ctx_sslSocket ctx :: waiters p))).
  { intros found E s2 Hb2 Ho2 Hloc. injection Ho2 as O1 O2 O3 O4 O5.
    destruct (run_restart (ctx_sessionId ctx) (ctx_sslSocket ctx) found (opt found ++ E) p s2 Hb2)
      as (s3 & E3 & Hb3 & P3 & X3 & L3 & A3).
    - intros x ->. simpl. by left.
    - by rewrite O1.
    - by rewrite O2.
    - done.
    - exists s3. rewrite P3, X3, L3, A3, O1, O2, O4, O5, Hloc. by split_and!. }
  destruct value as [data|]; simpl restored.
  - unfold onGetSuccess, restoreSession. destruct (d2i data).
    + destruct Hb as [Hc Hne]. assert (Hc1 : counted (allRefs (caches_ s1) ++ openssl s1 ++ []) s1) by done.
      destruct (run_alloc _ s1 Hc1) as (s2 & E2 & Hc2 & Hh2). apply heapless_outside in Hh2 as [Ho2 Hca2].
      rewrite bind_assoc, (bind_Ok _ _ _ _ _ E2), bind_ret.
      change (nextSession s1) with (nextSession s) in *.
      destruct (Hfin (Some (nextSession s)) [] s2) as (s3 & E3 & Hb3 & Hl3 & D3 & P3 & A3).
      * split; [|by rewrite Hca2]. assert (Hop : openssl s2 = openssl s1) by by injection Ho2.
        rewrite Hca2, Hop. eapply counted_ext; [|exact Hc2]. intros y.
        change (opt (Some (nextSession s))) with [nextSession s].
        rewrite occ_cons, !occ_app, occ_cons. change (occ y []) with 0. lia.
      * done.
      * intros id. unfold localEntry, bucket. by rewrite Hca2.
      * rewrite (bind_Ok _ _ _ _ _ E3).
        destruct (run_storeSession (ctx_sessionId ctx) (Some (nextSession s)) [] s3 Hb3) as (s4 & E4 & Hb4 & Ho4).
        exists s4. split; [done|]. split; [done|]. pose proof Ho4 as [= Q1 Q2 Q3 Q4 Q5].
        rewrite managed_linked, Q1, Q4, Q5. split; [|done]. split; [done|]. by rewrite Q2.
    + rewrite bind_ret. destruct (Hfin None [] s1) as (s3 & E3 & Hb3 & Hl3 & D3 & P3 & A3); [done..|].
      rewrite (bind_Ok _ _ _ _ _ E3).
      destruct (run_storeSession (ctx_sessionId ctx) None [] s3 Hb3) as (s4 & E4 & Hb4 & Ho4).
      exists s4. split; [done|]. split; [done|]. pose proof Ho4 as [= Q1 Q2 Q3 Q4 Q5].
      rewrite managed_linked, Q1, Q4, Q5. split; [|done]. split; [done|]. by rewrite Q2.
  - destruct ctx as [id sess sock]. unfold onGetFailure. simpl in Hnull. subst sess.
    destruct (Hfin None [] s1) as (s3 & E3 & Hb3 & Hl3 & D3 & P3 & A3); [done..|].
    exists s3. split; [done|]. split; [done|]. by rewrite managed_linked.
Qed.

Lemma eraseFirst_Some_perm (x : nat) l l' : eraseFirst x l = Some l' -> l ≡ₚ x :: l'.
Proof.
  revert l'. induction l as [|y l IH]; intros l'; simpl; [done|]. case_decide as E.
  - subst. by intros [= <-].
  - destruct (eraseFirst x l) as [k|]; simpl; [|done]. intros [= <-]. rewrite (IH k eq_refl). apply perm_swap.
Qed.

Lemma managed_release x s :
  managed s -> exists s', sessionStep hash d2i (Release x) s = (Ok tt, s') /\ managed s' /\ sameLookups s s'.
Proof.
  intros Hm. pose proof Hm as [[Hc Hne] Hl]%managed_linked. cbn [sessionStep]. rewrite bind_get.
  destruct (eraseFirst x (openssl s)) as [l|] eqn:Ee; [|by exists s].
  apply eraseFirst_Some_perm in Ee. rewrite bind_modify.
  destruct (run_free (Some x) (allRefs (caches_ s) ++ l) (setOpenssl l s)) as (s' & E & Hc' & Hh).
  { eapply (counted_ext _ _ s); [|exact Hc]. intros y.
    rewrite !occ_app, (occ_Proper y _ _ Ee), occ_cons. change (opt (Some x)) with [x]. rewrite occ_cons.
    change (occ y []) with 0. lia. }
  exists s'. split; [done|]. apply heapless_outside in Hh as [Ho Hca]. pose proof Ho as [= Q1 Q2 Q3 Q4 Q5].
  rewrite managed_linked. unfold sameLookups. rewrite Q1, Q2, Q4. split; [|done]. split; [|done].
  split; [|by rewrite Hca]. rewrite Hca, Q3. simpl. by rewrite app_nil_r.
Qed.

(** The sockets that wait for a session, by its id: those whose lookup went to
    the external cache since that was last asked for the id. *)
Definition blocks (id : list byte) (wantLookup sent : bool) s (b : gmap (list byte) (list nat)) : bool :=
  asks id wantLookup s && (sent || bool_decide (is_Some (b !! id))).
Definition blockedStep (e : SessionEvent) s (b : gmap (list byte) (list nat)) : gmap (list byte) (list nat) :=
  match e with
  | Resume sock id wantLookup sent =>
      if blocks id wantLookup sent s b then <[id := default [] (b !! id) ++ [sock]]> b else b
  | Answered i _ =>
      match lookups s !! i with
      | Some ctx => delete (ctx_sessionId ctx) b
      | None => b
      end
  | _ => b
  end.
Fixpoint blockedAfter (events : list SessionEvent) s (b : gmap (list byte) (list nat)) : gmap (list byte) (list nat) :=
  match events with
  | [] => b
  | e :: events => blockedAfter events (sessionStep hash d2i e s).2 (blockedStep e s b)
  end.

(** The manager knows them: the socket of the lookup, then its waiters. *)
Definition knownBlocked (b : gmap (list byte) (list nat)) s : Prop :=
  (forall id, is_Some (b !! id) <-> is_Some (pendingLookups_ s !! id)) /\
  (forall ctx p, ctx ∈ lookups s -> pendingLookups_ s !! ctx_sessionId ctx = Some p ->
     b !! ctx_sessionId ctx = Some (ctx_sslSocket ctx :: waiters p)).

Lemma knownBlocked_same b s s' : sameLookups s s' -> knownBlocked b s -> knownBlocked b s'.
Proof. intros [H1 H2]. unfold knownBlocked. by rewrite H1, H2. Qed.

Lemma knownBlocked_resume b sock id want sent s s' pending l a :
  managed s -> knownBlocked b s -> resumed sock id want sent s = (a, pending, l) ->
  pendingLookups_ s' = pending -> lookups s' = l ->
  knownBlocked (blockedStep (Resume sock id want sent) s b) s' /\
  a = (if blocks id want sent s b then WouldBlock else told id s) /\
  l = lookups s ++ (if blocks id want sent s b && bool_decide (b !! id = None) then [mkContext id None sock] else []).
Proof.
  intros Hm [Hdom Hk] Hr <- <-. cbn [blockedStep]. unfold resumed, blocks in *.
  destruct (asks id want s); simpl in *.
  2: { injection Hr as <- Ep El. rewrite app_nil_r. split_and!; try done. by apply (knownBlocked_same b s). }
  destruct (pendingLookups_ s !! id) as [p|] eqn:Epend.
  - injection Hr as <- Ep El. destruct (b !! id) as [socks|] eqn:Eb.
    2: { destruct (Hdom id) as [_ H]. rewrite Eb, Epend in H. destruct H; [by exists p|done]. }
    rewrite bool_decide_true, orb_true_r by (by exists socks). rewrite bool_decide_false by done.
    simpl. rewrite app_nil_r. split_and!; try done. split.
    + intros id'. rewrite <- Ep, !lookup_insert_is_Some', Hdom. tauto.
    + intros ctx q Hin. rewrite <- Ep. rewrite <- El in Hin.
      destruct (decide (ctx_sessionId ctx = id)) as [<-|Hne].
      * rewrite !lookup_insert_eq. intros [= <-]. simpl.
        pose proof (Hk ctx p Hin Epend) as Hc. rewrite Eb in Hc. by injection Hc as ->.
      * rewrite !lookup_insert_ne by done. by apply Hk.
  - assert (Eb : b !! id = None).
    { apply eq_None_not_Some. intros [q Hq]%Hdom. by rewrite Epend in Hq. }
    rewrite Eb, (bool_decide_false (is_Some None)) by (by intros []). rewrite orb_false_r.
    destruct sent; injection Hr as <- Ep El; simpl.
    + split_and!; [|done|by rewrite El]. split.
      * intros id'. rewrite <- Ep, !lookup_insert_is_Some', Hdom. tauto.
      * intros ctx q Hin. rewrite <- Ep. rewrite <- El in Hin.
        destruct (decide (ctx_sessionId ctx = id)) as [<-|Hne].
        -- rewrite !lookup_insert_eq. intros [= <-]. simpl. apply elem_of_app in Hin as [Hin|Hin%list_elem_of_singleton].
           ++ exfalso. assert (Hd : is_Some (pendingLookups_ s !! ctx_sessionId ctx)).
              { apply (m_dom _ Hm). apply list_elem_of_fmap. by exists ctx. }
              rewrite Epend in Hd. by destruct Hd.
           ++ by rewrite Hin.
        -- rewrite !lookup_insert_ne by done. apply elem_of_app in Hin as [Hin|Hin%list_elem_of_singleton]; [by apply Hk|].
           by subst ctx.
    + rewrite El, app_nil_r. split_and!; try done. by apply (knownBlocked_same b s).
Qed.

Lemma knownBlocked_answered b i ctx s s' :
  managed s -> knownBlocked b s -> lookups s !! i = Some ctx ->
  lookups s' = delete i (lookups s) -> pendingLookups_ s' = delete (ctx_sessionId ctx) (pendingLookups_ s) ->
  knownBlocked (delete (ctx_sessionId ctx) b) s'.
Proof.
  intros Hm [Hdom Hk] Hi El Ep. split.
  - intros id. rewrite Ep, !lookup_delete_is_Some, Hdom. tauto.
  - intros c p Hin. rewrite Ep, El in *. intros [Hne Hp]%lookup_delete_Some.
    rewrite lookup_delete_ne by done. apply Hk; [|done].
    eapply elem_of_submseteq; [exact Hin|]. apply sublist_submseteq, sublist_delete.
Qed.

Lemma managed_step e b s : managed s -> knownBlocked b s ->
  exists s', sessionStep hash d2i e s = (Ok tt, s') /\ managed s' /\ knownBlocked (blockedStep e s b) s'.
Proof.
  intros Hm Hk. destruct e as [id|sock id want sent|i value|x].
  - destruct (managed_new id s Hm) as (s' & E & Hm' & Hs). exists s'. split_and!; [done..|]. by apply (knownBlocked_same b s).
  - destruct (run_resume sock id want sent s Hm) as (s' & E & Hm' & H').
    destruct (resumed sock id want sent s) as [[a pending] l] eqn:Hr. destruct H' as (_ & Ep & El).
    exists s'. split_and!; [done..|]. by eapply knownBlocked_resume.
  - cbn [blockedStep]. destruct (lookups s !! i) as [ctx|] eqn:Ei.
    + destruct (run_answered i value ctx s Hm Ei) as (p & s' & _ & E & Hm' & El & Ep & _). exists s'.
      split_and!; [done..|]. by apply (knownBlocked_answered b i ctx s).
    + exists s. split; [|done]. cbn [sessionStep]. by rewrite bind_get, Ei.
  - destruct (managed_release x s Hm) as (s' & E & Hm' & Hs). exists s'. split_and!; [done..|]. by apply (knownBlocked_same b s).
Qed.

Lemma managed_run events : forall b s, managed s -> knownBlocked b s ->
  exists s', sessionRun hash d2i events s = (Ok tt, s') /\ managed s' /\ knownBlocked (blockedAfter events s b) s'.
Proof.
  induction events as [|e events IH]; intros b s Hm Hk; [by exists s|].
  unfold sessionRun. cbn [for_each blockedAfter]. destruct (managed_step e b s Hm Hk) as (s1 & E1 & Hm1 & Hk1).
  rewrite (bind_Ok _ _ _ _ _ E1), E1. by apply IH.
Qed.

Lemma managed_start maxCacheSize cacheCullSize external s :
  newManagerSessions maxCacheSize cacheCullSize external = Ok s -> managed s /\ knownBlocked ∅ s.
Proof.
  unfold newManagerSessions, newSharded. intros [= <-].
  set (c := mkLocal _ _ : LocalSSLSessionCache Mp).
  assert (Hc : localRefs c = []) by (unfold localRefs; simpl; by rewrite entriesC_new).
  assert (Hall : forall n, allRefs (replicate n c) = []).
  { induction n as [|n IH]; [done|]. unfold allRefs in *. cbn [replicate]. by rewrite fmap_cons, Hc. }
  split; [split|].
  - split; [|done]. cbn [caches_ openssl]. pose proof (Hall 16) as H16. cbn [replicate] in H16.
    rewrite H16. split; [|by intros x ?%elem_of_nil].
    intros x. simpl. by rewrite lookup_empty.
  - constructor.
  - intros id p. simpl. by rewrite lookup_empty.
  - intros id. simpl. rewrite lookup_empty. split; [by intros []|by intros ?%elem_of_nil].
  - constructor.
  - split; [|by intros ctx p ?%elem_of_nil]. intros id. simpl. by rewrite !lookup_empty.
Qed.

Lemma managed_reached maxCacheSize cacheCullSize external events s0 :
  newManagerSessions maxCacheSize cacheCullSize external = Ok s0 ->
  exists s, sessionRun hash d2i events s0 = (Ok tt, s) /\ managed s /\ knownBlocked (blockedAfter events s0 ∅) s.
Proof. intros [Hm Hk]%managed_start. by apply managed_run. Qed.

(** C19. Sessions are neither leaked nor used after they are freed: for every
    sequence of full handshakes, resumptions, answers of the external cache
    (records that do not decode among them) and references dropped by OpenSSL,
    no call faults, and a session is alive exactly as long as the local cache
    or OpenSSL refers to it, with a reference count equal to the number of
    these references. *)
Theorem session_refs (maxCacheSize cacheCullSize : Z) (external : bool) (events : list SessionEvent)
    (s0 : SSLSessionCacheManager Mp) :
  newManagerSessions maxCacheSize cacheCullSize external = Ok s0 ->
  exists s, sessionRun hash d2i events s0 = (Ok tt, s) /\
    forall x, sessions s !! x = tally x (allRefs (caches_ s) ++ openssl s).
Proof.
  intros Hs0. destruct (managed_reached _ _ _ events s0 Hs0) as (s & E & Hm & _).
  exists s. split; [done|]. intros x. destruct Hm as [[[Hc _] _] _ _ _ _]. by rewrite Hc, app_nil_r.
Qed.

(** C20. Lookups of one session are coalesced, and no client is forgotten.
    After any history of the manager, with [b] the sockets that were blocked on
    each id and not answered since, as that history tells: a socket that
    resumes with a valid id is blocked when the external cache is there, may be
    asked and the local cache has no session, and the lookup is sent or one is
    under way, which is then not repeated; otherwise it is told the local
    session or a miss at once.  Sockets are blocked only on an id whose lookup
    is under way.  And when a lookup is answered, exactly the sockets blocked
    on its id are each answered once, in the order in which they came: with the
    session that the local cache has by now, else the restored one, if the
    record decodes, else a miss; and the id is free for a new lookup. *)
Theorem coalesced_answer (maxCacheSize cacheCullSize : Z) (external : bool) (events : list SessionEvent)
    (s0 : SSLSessionCacheManager Mp) :
  newManagerSessions maxCacheSize cacheCullSize external = Ok s0 ->
  let b := blockedAfter events s0 ∅ in
  exists s, sessionRun hash d2i events s0 = (Ok tt, s) /\
  (forall sock id want sent, exists s', sessionStep hash d2i (Resume sock id want sent) s = (Ok tt, s') /\
     answers s' = answers s ++ [(sock, if blocks id want sent s b then WouldBlock else told id s)] /\
     lookups s' = lookups s ++
       (if blocks id want sent s b && bool_decide (b !! id = None) then [mkContext id None sock] else [])) /\
  (forall id, is_Some (b !! id) <-> id ∈ ctx_sessionId <$> lookups s) /\
  (forall i ctx value, lookups s !! i = Some ctx ->
     exists socks s', b !! ctx_sessionId ctx = Some socks /\
       sessionStep hash d2i (Answered i value) s = (Ok tt, s') /\
       answers s' = answers s ++
         ((fun sock => (sock, answerOf (localEntry (ctx_sessionId ctx) s) (restored value s))) <$> socks) /\
       ctx_sessionId ctx ∉ ctx_sessionId <$> lookups s').
Proof.
  intros Hs0 b. destruct (managed_reached _ _ _ events s0 Hs0) as (s & E & Hm & Hk). exists s. split_and!; [done|..].
  - intros sock id want sent. destruct (run_resume sock id want sent s Hm) as (s' & Es & _ & H').
    destruct (resumed sock id want sent s) as [[a pending] l] eqn:Hr. destruct H' as (Ha & Ep & El).
    destruct (knownBlocked_resume b sock id want sent s s' pending l a Hm Hk Hr Ep El) as (_ & Ea & Ell).
    exists s'. by rewrite Ha, Ea, El, Ell.
  - intros id. rewrite <- (m_dom _ Hm). apply Hk.
  - intros i ctx value Hi.
    destruct (run_answered i value ctx s Hm Hi) as (p & s' & Hp & Es & Hm' & _ & Hpend & Hans).
    exists (ctx_sslSocket ctx :: waiters p), s'. split_and!; try done.
    + apply Hk; [by eapply list_elem_of_lookup_2|done].
    + rewrite <- (m_dom _ Hm'), Hpend, lookup_delete_eq. by intros [].
Qed.
End manager.

(** ** Witnesses *)

Definition someId : list byte := repeat x41 16.
Definition otherId : list byte := repeat x42 16.
Definition shardOf (l : list byte) : nat := length l.
Definition accepts (l : list byte) : bool := bool_decide (l <> []).
Definition someEvents : list SessionEvent :=
  [New otherId; Resume 1 someId true true; Resume 2 someId true true; Resume 3 otherId true true].
Definition startSessions : SSLSessionCacheManager (CullingList (list byte) (option nat)) :=
  match newManagerSessions 32 16 true with
  | Ok s => s
  | Err _ => mkSessions [] ∅ true ∅ 0 [] [] [] [] []
  end.

Lemma session_refs_witness :
  exists s, sessionRun shardOf accepts (someEvents ++ [Answered 0 (Some [x01]); Release 1; New someId; Release 0])
      startSessions = (Ok tt, s) /\
    forall x, sessions s !! x = tally x (allRefs (caches_ s) ++ openssl s).
Proof.
  apply (session_refs shardOf accepts 32 16 true _ startSessions). reflexivity.
Defined.

Lemma coalesced_answer_witness :
  exists s s', sessionRun shardOf accepts someEvents startSessions = (Ok tt, s) /\
    sessionStep shardOf accepts (Answered 0 (Some [x01])) s = (Ok tt, s') /\
    answers s' = answers s ++ [(1, Hit 1); (2, Hit 1)].
Proof.
  destruct (coalesced_answer shardOf accepts 32 16 true someEvents startSessions eq_refl)
    as (s & E & _ & _ & H).
  assert (Es : s = (sessionRun shardOf accepts someEvents startSessions).2) by by rewrite E.
  destruct (H 0 (mkContext someId None 1) (Some [x01])) as (socks & s' & Hb & Ha & Hs & _).
  { rewrite Es. vm_compute. reflexivity. }
  assert (Hsocks : Some socks = Some [1; 2]) by (rewrite <- Hb; vm_compute; reflexivity).
  exists s, s'. split; [exact E|]. split; [exact Ha|]. rewrite Hs. injection Hsocks as ->.
  f_equal. rewrite Es. vm_compute. reflexivity.
Defined.
