(* ===== verification/Sni.v ===== *)
(** * Choice of the certificate of a connection (src/wangle/ssl/SSLContextManager)

    [SSLContextManager]: the contexts made from a configuration, the map from
    domain names to contexts, and the callback that chooses the context of a
    connection by the server name of its ClientHello; [SSLUtil]'s reading of
    the names of a certificate, [ServerSSLContext]'s ticket manager and
    session cache, and the case-insensitive strings of
    acceptor/SSLContextSelectionMisc.h.

    Contexts are shared objects, behind pointers into a heap.  Loading files
    and the settings of OpenSSL that may be refused are a parameter. *)
From Stdlib Require Import ZArith Lia NArith Strings.Byte.
From stdpp Require Import base numbers list gmap strings sorting.
From S2P Require Import Prelude Buffers Tickets.
Open Scope cpp_scope.

Set Default Goal Selector "!".

(** ** DNString: strings compared without regard to case *)

(** [tolower] in the "C" locale; a [char] is signed. *)
Definition tolower (c : byte) : byte :=
  let n := Byte.to_N c in
  if (65 <=? n)%N && (n <=? 90)%N then default c (Byte.of_N (n + 32)) else c.
Definition charZ (c : byte) : Z :=
  let n := byteZ c in if (n <? 128)%Z then n else (n - 256)%Z.

(** [dn_char_traits::compare], of [n] characters, and [operator==] of
    [std::basic_string], which compares the lengths first. *)
Fixpoint traitsCompare (s1 s2 : list byte) (n : nat) : Z :=
  match n, s1, s2 with
  | S n, c1 :: s1, c2 :: s2 =>
      if (charZ (tolower c1) <? charZ (tolower c2))%Z then (-1)%Z
      else if (charZ (tolower c2) <? charZ (tolower c1))%Z then 1%Z
      else traitsCompare s1 s2 n
  | _, _, _ => 0%Z
  end.
Definition DNString_eq (s1 s2 : list byte) : bool :=
  (length s1 =? length s2) && (traitsCompare s1 s2 (length s1) =? 0)%Z.

(** [find_first_of(".")], by [dn_char_traits::find]. *)
Fixpoint find_first_of_dot (s : list byte) : option nat :=
  match s with
  | [] => None
  | c :: s => if bool_decide (tolower c = tolower x2e) then Some 0 else S <$> find_first_of_dot s
  end.

Inductive CertCrypto : Type := BEST_AVAILABLE | SHA1_SIGNATURE.
#[export] Instance CertCrypto_eq_dec : EqDecision CertCrypto.
Proof. solve_decision. Defined.

Record SSLContextKey : Type := mkContextKey {
  dnString : list byte;
  certCrypto : CertCrypto
}.
#[export] Instance SSLContextKey_eq_dec : EqDecision SSLContextKey.
Proof. solve_decision. Defined.
#[export] Instance SSLContextKey_countable : Countable SSLContextKey.
Proof.
  exact (inj_countable' (fun k => (dnString k, bool_decide (certCrypto k = BEST_AVAILABLE)))
    (fun '(s, b) => mkContextKey s (if b : bool then BEST_AVAILABLE else SHA1_SIGNATURE))
    (fun k => match k with mkContextKey s BEST_AVAILABLE | mkContextKey s SHA1_SIGNATURE => eq_refl end)).
Defined.

Definition SSLContextKey_eqb (k1 k2 : SSLContextKey) : bool :=
  DNString_eq (dnString k1) (dnString k2) && bool_decide (certCrypto k1 = certCrypto k2).

(** [SSLContextKeyHash]; [combine] is [hash_combine]. *)
Definition SSLContextKeyHash (combine : list byte -> Z -> Z) (k : SSLContextKey) : Z :=
  combine (map tolower (dnString k)) (match certCrypto k with BEST_AVAILABLE => 0 | SHA1_SIGNATURE => 1 end)%Z.

(** The representative of a key: [SSLContextKey_eqb] and the hash see no
    more, so an [unordered_map] of keys is a finite map of representatives. *)
Definition canonicalKey (k : SSLContextKey) : SSLContextKey :=
  mkContextKey (map tolower (dnString k)) (certCrypto k).

(** ** SSLUtil: the names of a certificate *)

Inductive GeneralName : Type :=
| GEN_DNS (name : list byte)
| GEN_OTHER.

Inductive SignatureNid : Type :=
| NID_sha1WithRSAEncryption
| NID_ecdsa_with_SHA1
| NID_other.
#[export] Instance SignatureNid_eq_dec : EqDecision SignatureNid.
Proof. solve_decision. Defined.

(** What the code reads of an [X509]: the text of the common name, if the
    subject has one, the subject alternative names, the signature. *)
Record X509 : Type := mkX509 {
  x509_commonName : option (list byte);
  x509_altNames : list GeneralName;
  x509_signature : SignatureNid
}.

Definition ub_common_name : nat := 64.

(** The bytes before the terminator. *)
Fixpoint cstring (s : list byte) : list byte :=
  match s with
  | [] => []
  | c :: s => if bool_decide (c = x00) then [] else c :: cstring s
  end.

(** [X509_NAME_get_text_by_NID] writes at most [ub_common_name] bytes with
    the terminator, and returns how many there are before it. *)
Definition getCommonName (cert : X509) : option (list byte) :=
  match x509_commonName cert with
  | None => None
  | Some text =>
      let cn := take (ub_common_name - 1) text in
      if length cn <=? 0 then None else Some (cstring cn)
  end.

Fixpoint dnsNames (names : list GeneralName) : option (list (list byte)) :=
  match names with
  | [] => Some []
  | GEN_OTHER :: names => dnsNames names
  | GEN_DNS name :: names =>
      if negb (length name =? length (cstring name)) then None
      else (name ::.) <$> dnsNames names
  end.
Definition getSubjectAltName (cert : X509) : option (list (list byte)) := dnsNames (x509_altNames cert).

(** ** Configurations and contexts *)

Record CertificateInfo : Type := mkCertInfo {
  certPath : list byte;
  keyPath : list byte;
  passwordPath : list byte
}.

Record SSLContextConfig : Type := mkConfig {
  certificates : list CertificateInfo;
  sessionCacheEnabled : bool;
  sessionTicketEnabled : bool;
  sslCiphers : list byte;
  eccCurveName : list byte;
  isLocalPrivateKey : bool;
  offloadType : list (list byte);
  isDefault : bool;
  sniNoMatchFn : option nat;
  clientCAFile : list byte;
  sessionContext : option (list byte)
}.

Record SSLCacheOptions : Type := mkCacheOptions {
  maxSSLCacheSize : Z;
  sslCacheFlushSize : Z
}.

(** What is asked of OpenSSL and the file system: the certificate that a
    context has once a key pair (or a certificate alone) is loaded, unless
    loading throws; the ciphers, curves and CA files it accepts. *)
Record OpenSSL : Type := mkOpenSSL {
  loadCertKeyPairFromFiles : CertificateInfo -> option (option X509);
  loadCertificate : list byte -> option (option X509);
  ciphersAccepted : list byte -> bool;
  curveKnown : list byte -> bool;
  loadTrustedCertificates : list byte -> bool
}.

(** A [ServerSSLContext]: the certificate [SSL_get_certificate] gives, the
    session id context, whether sessions are cached, the ticket manager,
    whether the server name callback is set. *)
Record ServerSSLContext : Type := mkServerCtx {
  ctx_x509 : option X509;
  ctx_sessionIdContext : list byte;
  sessionCacheManager_ : bool;
  ticketManager_ : option TLSTicketKeyManager;
  ctx_serverNameCallback : bool
}.

(** Pointers to contexts are indices of the heap. *)
Record SslContexts : Type := mkSslContexts {
  ctxs : list nat;
  defaultCtx : option nat;
  defaultCtxDomainName : list byte;
  dnMap : gmap SSLContextKey nat
}.
Definition noContexts : SslContexts := mkSslContexts [] None [] ∅.

(** What is recorded in [ClientHelloExtStats]. *)
Inductive HelloStat : Type :=
| RecordAbsentHostname
| RecordMatch
| RecordNotMatch
| RecordCertCrypto (requested served : CertCrypto).

Record SSLContextManager : Type := mkContextManager {
  contexts_ : SslContexts;
  noMatchFn_ : option nat;
  strict_ : bool;
  clientHelloTLSExtStats_ : option (list HelloStat);
  heap : list ServerSSLContext
}.

Definition setContexts c (s : SSLContextManager) : SSLContextManager :=
  mkContextManager c (noMatchFn_ s) (strict_ s) (clientHelloTLSExtStats_ s) (heap s).
Definition setNoMatchFn f (s : SSLContextManager) : SSLContextManager :=
  mkContextManager (contexts_ s) f (strict_ s) (clientHelloTLSExtStats_ s) (heap s).
Definition setHeap h (s : SSLContextManager) : SSLContextManager :=
  mkContextManager (contexts_ s) (noMatchFn_ s) (strict_ s) (clientHelloTLSExtStats_ s) h.
Definition helloStat (x : HelloStat) (s : SSLContextManager) : SSLContextManager :=
  mkContextManager (contexts_ s) (noMatchFn_ s) (strict_ s)
    ((fun l => l ++ [x]) <$> clientHelloTLSExtStats_ s) (heap s).

(** ** Filling an SslContexts

    The methods that fill an [SslContexts] get it as an argument besides the
    manager: their state is the pair. *)

Definition B : Type := SSLContextManager * SslContexts.
Definition onContexts (f : SslContexts -> SslContexts) : M B unit := modify (fun b => (b.1, f b.2)).
Definition onManager (f : SSLContextManager -> SSLContextManager) : M B unit :=
  modify (fun b => (f b.1, b.2)).
Definition of_res {S A} (r : res A) : M S A := fun s => (r, s).

Definition setDnMap m (c : SslContexts) : SslContexts :=
  mkSslContexts (ctxs c) (defaultCtx c) (defaultCtxDomainName c) m.

Definition insertIntoDnMap (key : SSLContextKey) (sslCtx : nat) (overwrite : bool) (c : SslContexts) :
    SslContexts :=
  match dnMap c !! canonicalKey key with
  | None => setDnMap (<[canonicalKey key := sslCtx]> (dnMap c)) c
  | Some v =>
      if v =? sslCtx then c
      else if overwrite then setDnMap (<[canonicalKey key := sslCtx]> (dnMap c)) c
      else c
  end.

(** The name a certificate's name is indexed by: a leading "*" of "*." goes,
    no other star may be. *)
Definition indexName (dn : list byte) : res (list byte) :=
  try! dn :=
    match dn with
    | c0 :: c1 :: _ :: _ =>
        if bool_decide (c0 = x2a) then
          if bool_decide (c1 = x2e) then Ok (tail dn)
          else Err (RuntimeError "Invalid wildcard CN/subject-alternative-name")
        else Ok dn
    | _ => Ok dn
    end in
  if bool_decide (dn = [x2e]) then Err (RuntimeError "X509 has only '.' in the CN or subject alternative name")
  else if bool_decide (x2a ∈ cstring dn) then
    Err (RuntimeError "X509 has '*' in the CN or subject alternative name")
  else Ok dn.

Definition insertSSLCtxByDomainNameImpl (dn : list byte) (sslCtx : nat) (crypto : CertCrypto) : M B unit :=
  let! name := of_res (indexName dn) in
  do! onContexts (insertIntoDnMap (mkContextKey name crypto) sslCtx true) in
  when (negb (bool_decide (crypto = BEST_AVAILABLE)))
    (onContexts (insertIntoDnMap (mkContextKey name BEST_AVAILABLE) sslCtx false)).

Definition insertSSLCtxByDomainName (dn : list byte) (sslCtx : nat) (crypto : CertCrypto) : M B unit :=
  fun b =>
    match insertSSLCtxByDomainNameImpl dn sslCtx crypto b with
    | (Err (RuntimeError what), b') => if strict_ b'.1 then (Err (RuntimeError what), b') else (Ok tt, b')
    | r => r
    end.

Definition signatureCrypto (x : X509) : CertCrypto :=
  if bool_decide (x509_signature x = NID_sha1WithRSAEncryption) ||
     bool_decide (x509_signature x = NID_ecdsa_with_SHA1)
  then SHA1_SIGNATURE else BEST_AVAILABLE.

Definition addCtx (sslCtx : nat) (c : SslContexts) : SslContexts :=
  mkSslContexts (ctxs c ++ [sslCtx]) (defaultCtx c) (defaultCtxDomainName c) (dnMap c).
Definition setDefaultName (name : list byte) (c : SslContexts) : SslContexts :=
  mkSslContexts (ctxs c) (defaultCtx c) name (dnMap c).

Definition insert (sslCtx : nat) (defaultFallback : bool) : M B unit :=
  let! b := get in
  let! x := of_option (RuntimeError "SSLCtx is invalid") (heap b.1 !! sslCtx ≫= ctx_x509) in
  let! cn := of_option (RuntimeError "Cannot get CN") (getCommonName x) in
  if bool_decide (cn = [x2a]) then
    if negb defaultFallback then raise (RuntimeError "STAR X509 is not the default")
    else onContexts (addCtx sslCtx)
  else
    do! insertSSLCtxByDomainName cn sslCtx (signatureCrypto x) in
    do! for_each (default [] (getSubjectAltName x))
          (fun name => insertSSLCtxByDomainName name sslCtx (signatureCrypto x)) in
    do! when defaultFallback (onContexts (setDefaultName cn)) in
    onContexts (addCtx sslCtx).

(** The SNI part of [ctxSetupByOpensslFeature]. *)
Definition setDefaultCtx (sslCtx : nat) (c : SslContexts) : SslContexts :=
  mkSslContexts (ctxs c) (Some sslCtx) (defaultCtxDomainName c) (dnMap c).
Definition setServerNameCallback (sslCtx : nat) (s : SSLContextManager) : SSLContextManager :=
  setHeap (alter (fun x => mkServerCtx (ctx_x509 x) (ctx_sessionIdContext x) (sessionCacheManager_ x)
                             (ticketManager_ x) true) sslCtx (heap s)) s.
Definition ctxSetupByOpensslFeature (sslCtx : nat) (config : SSLContextConfig) : M B unit :=
  do! onManager (setNoMatchFn (sniNoMatchFn config)) in
  when (isDefault config)
    (let! b := get in
     match defaultCtx b.2 with
     | Some _ => raise (RuntimeError ">1 X509 is set as default")
     | None =>
         do! onContexts (setDefaultCtx sslCtx) in
         onManager (setServerNameCallback sslCtx)
     end).

(** ** addSSLContextConfig *)

(** [std::string]'s order, on unsigned characters. *)
Fixpoint string_le (s1 s2 : list byte) : bool :=
  match s1, s2 with
  | [], _ => true
  | _ :: _, [] => false
  | c1 :: s1, c2 :: s2 =>
      if (byteZ c1 <? byteZ c2)%Z then true
      else if (byteZ c2 <? byteZ c1)%Z then false else string_le s1 s2
  end.
Definition sortNames (l : list (list byte)) : list (list byte) := merge_sort (fun a b => string_le a b) l.

(** What the loop over the certificates keeps. *)
Record CertState : Type := mkCertState {
  numCerts : nat;
  commonName : list byte;
  subjectAltName : option (list (list byte));
  currentX509 : option X509
}.

Section openssl.
Context (ossl : OpenSSL).

(** [enableAsyncCrypto] of the base class ends the process. *)
Definition loadOne (config : SSLContextConfig) (cert : CertificateInfo) : res (option X509) :=
  if isLocalPrivateKey config || bool_decide (offloadType config = [])
  then
    match loadCertKeyPairFromFiles ossl cert with
    | Some x => Ok x
    | None => Err (RuntimeError "error loading SSL certificate")
    end
  else
    match loadCertificate ossl (certPath cert) with
    | Some _ => Err (CheckFailed "Unsupported in base SSLContextManager")
    | None => Err (RuntimeError "error loading SSL certificate")
    end.

Definition checkNames (st : CertState) (cn : list byte) (altName : option (list (list byte))) (x : X509) :
    res CertState :=
  if numCerts st =? 0 then Ok (mkCertState 1 cn altName (Some x))
  else if negb (bool_decide (commonName st = cn)) then Err (RuntimeError "X509 does not have same CN")
  else
    match altName, subjectAltName st with
    | None, Some _ => Err (RuntimeError "X509 does not have same SAN")
    | Some _, None => Err (RuntimeError "X509 does not have same SAN")
    | Some a, Some b =>
        if bool_decide (a = b) then Ok (mkCertState (numCerts st + 1) (commonName st) (subjectAltName st) (Some x))
        else Err (RuntimeError "X509 does not have same SAN")
    | None, None => Ok (mkCertState (numCerts st + 1) (commonName st) (subjectAltName st) (Some x))
    end.

Fixpoint loadCertificates (config : SSLContextConfig) (certs : list CertificateInfo) (st : CertState) :
    res CertState :=
  match certs with
  | [] => Ok st
  | cert :: certs =>
      try! x := loadOne config cert in
      match x with
      | None => Err (RuntimeError "Certificate is invalid")
      | Some x =>
          match getCommonName x with
          | None => Err (RuntimeError "Cannot get CN for X509")
          | Some cn =>
              try! st := checkNames st cn (sortNames <$> getSubjectAltName x) x in
              loadCertificates config certs st
          end
      end
  end.

Section tickets.
Context (SHA256 : list byte -> list byte) (unhexlify hexlify : list byte -> option (list byte))
  (indeterminate : list byte).
(** Whether the manager has an [SSLStats]. *)
Context (stats : bool).

Definition setupTicketManager (ticketSeeds : option TLSTicketKeySeeds) (config : SSLContextConfig) :
    option TLSTicketKeyManager :=
  match ticketSeeds with
  | Some seeds =>
      if sessionTicketEnabled config
      then Some (setTLSTicketKeySeeds SHA256 unhexlify hexlify indeterminate seeds (newManager stats)).2
      else None
  | None => None
  end.

Definition setupSessionCache (config : SSLContextConfig) (cache : SSLCacheOptions) : bool :=
  sessionCacheEnabled config && (0 <? maxSSLCacheSize cache)%Z && (0 <? sslCacheFlushSize cache)%Z.

Definition allocContext (x : ServerSSLContext) : M B nat :=
  let! b := get in
  do! onManager (fun s => setHeap (heap s ++ [x]) s) in
  ret (length (heap b.1)).

Definition rethrow (c : M B unit) : M B unit := fun b =>
  match c b with
  | (Err f, b') => (Err (if is_exception f then RuntimeError "Error adding certificate" else f), b')
  | r => r
  end.

Definition sessionIdContext (config : SSLContextConfig) (cn : list byte) : list byte :=
  match sessionContext config with
  | Some c => if bool_decide (c = []) then cn else c
  | None => cn
  end.

Definition addSSLContextConfig (cache : SSLCacheOptions) (ticketSeeds : option TLSTicketKeySeeds)
    (config : SSLContextConfig) : M B unit :=
  let! st := of_res (loadCertificates config (certificates config) (mkCertState 0 [] None None)) in
  if negb (ciphersAccepted ossl (sslCiphers config)) then raise (RuntimeError "SSL_CTX_set_cipher_list")
  else if negb (bool_decide (eccCurveName config = [])) && negb (curveKnown ossl (eccCurveName config))
  then raise (CheckFailed "Unknown curve name")
  else if negb (bool_decide (clientCAFile config = [])) && negb (loadTrustedCertificates ossl (clientCAFile config))
  then raise (RuntimeError "error loading client CA")
  else
    let! sslCtx := allocContext (mkServerCtx (currentX509 st) (sessionIdContext config (commonName st))
                     (setupSessionCache config cache) (setupTicketManager ticketSeeds config) false) in
    do! ctxSetupByOpensslFeature sslCtx config in
    rethrow (insert sslCtx (isDefault config)).

(** A call of [addSSLContextConfig] without contexts fills the manager's. *)
Definition addToManager (cache : SSLCacheOptions) (ticketSeeds : option TLSTicketKeySeeds)
    (config : SSLContextConfig) : M SSLContextManager unit := fun s =>
  let '(r, b) := addSSLContextConfig cache ticketSeeds config (s, contexts_ s) in
  (r, setContexts b.2 b.1).

(** The seeds of the first context that has a ticket manager. *)
Definition currentTicketSeeds (s : SSLContextManager) : TLSTicketKeySeeds :=
  match omap (fun p => heap s !! p ≫= ticketManager_) (ctxs (contexts_ s)) with
  | m :: _ => (getTLSTicketKeySeeds hexlify m).2
  | [] => mkSeeds [] [] []
  end.

Definition resetSSLContextConfigs (configs : list SSLContextConfig) (cache : SSLCacheOptions)
    (ticketSeeds : option TLSTicketKeySeeds) : M SSLContextManager unit := fun s =>
  let seeds := default (currentTicketSeeds s) ticketSeeds in
  match for_each configs (addSSLContextConfig cache (Some seeds)) (s, noContexts) with
  | (Ok _, b) => (Ok tt, setContexts b.2 b.1)
  | (Err f, b) => (Err f, b.1)
  end.

Definition reloadTLSTicketKeys (seeds : TLSTicketKeySeeds) : M SSLContextManager unit :=
  let! s := get in
  for_each (ctxs (contexts_ s)) (fun p =>
    modify (fun s => setHeap (alter (fun x => mkServerCtx (ctx_x509 x) (ctx_sessionIdContext x)
      (sessionCacheManager_ x)
      ((fun m => (setTLSTicketKeySeeds SHA256 unhexlify hexlify indeterminate seeds m).2) <$> ticketManager_ x)
      (ctx_serverNameCallback x)) p (heap s)) s)).
End tickets.
End openssl.

Definition clear : M SSLContextManager unit := modify (setContexts noContexts).

(** ** Choosing a context *)

Definition getSSLCtxByExactDomain (key : SSLContextKey) (s : SSLContextManager) : option nat :=
  dnMap (contexts_ s) !! canonicalKey key.

Definition getSSLCtxBySuffix (key : SSLContextKey) (s : SSLContextManager) : option nat :=
  match find_first_of_dot (dnString key) with
  | Some dot => dnMap (contexts_ s) !! canonicalKey (mkContextKey (drop dot (dnString key)) (certCrypto key))
  | None => None
  end.

Definition getSSLCtx (key : SSLContextKey) (s : SSLContextManager) : option nat :=
  match getSSLCtxByExactDomain key s with
  | Some ctx => Some ctx
  | None => getSSLCtxBySuffix key s
  end.

(** folly's [ClientHelloInfo]: the hash algorithms of the signature
    algorithms, and the extensions. *)
Record ClientHelloInfo : Type := mkHello {
  clientHelloSigAlgs_ : list nat;
  clientHelloExtensions_ : list nat
}.
Definition HashAlgorithm_SHA256 : nat := 4.
Definition TLSExtension_SERVER_NAME : nat := 0.

Definition requestedCrypto (info : option ClientHelloInfo) : CertCrypto :=
  match info with
  | None => BEST_AVAILABLE
  | Some info =>
      if bool_decide (HashAlgorithm_SHA256 ∈ clientHelloSigAlgs_ info) then BEST_AVAILABLE
      else if bool_decide (TLSExtension_SERVER_NAME ∈ clientHelloExtensions_ info) then BEST_AVAILABLE
      else SHA1_SIGNATURE
  end.

Section callback.
(** The configuration's functions for names without a context: they may do
    anything with the manager, and say whether to look again. *)
Context (noMatch : nat -> list byte -> SSLContextManager -> bool * SSLContextManager).

(** One round of the loop: the context to switch to. *)
Definition lookupRound (dn : list byte) (req : CertCrypto) (reqHasServerName : bool) :
    M SSLContextManager (option nat) :=
  let! s := get in
  match getSSLCtx (mkContextKey dn req) s with
  | Some ctx =>
      do! when reqHasServerName (modify (helloStat RecordMatch)) in
      do! modify (helloStat (RecordCertCrypto req req)) in
      ret (Some ctx)
  | None =>
      if bool_decide (req <> BEST_AVAILABLE) then
        match getSSLCtx (mkContextKey dn BEST_AVAILABLE) s with
        | Some ctx =>
            do! when reqHasServerName (modify (helloStat RecordMatch)) in
            do! modify (helloStat (RecordCertCrypto req BEST_AVAILABLE)) in
            ret (Some ctx)
        | None => ret None
        end
      else ret None
  end.

Definition askNoMatchFn (sn : list byte) : M SSLContextManager bool :=
  let! s := get in
  match noMatchFn_ s with
  | None => ret false
  | Some f => fun s => let '(again, s') := noMatch f sn s in (Ok again, s')
  end.

(** [serverNameCallback]: the context the socket switches to, or none
    ([SERVER_NAME_NOT_FOUND]). *)
Definition serverNameCallback (servername : option (list byte)) (info : option ClientHelloInfo) :
    M SSLContextManager (option nat) :=
  let! s := get in
  let reqHasServerName := if servername is Some _ then true else false in
  let sn := cstring (default (defaultCtxDomainName (contexts_ s)) servername) in
  do! when (negb reqHasServerName) (modify (helloStat RecordAbsentHostname)) in
  let req := requestedCrypto info in
  let! first := lookupRound sn req reqHasServerName in
  match first with
  | Some ctx => ret (Some ctx)
  | None =>
      let! again := askNoMatchFn sn in
      let! second := (if again : bool then lookupRound sn req reqHasServerName else ret None) in
      match second with
      | Some ctx => ret (Some ctx)
      | None =>
          do! when reqHasServerName (modify (helloStat RecordNotMatch)) in
          ret None
      end
  end.
End callback.
