(* ===== verification/SniProps.v ===== *)
(** * Choice of the certificate: correctness

    Keys modulo case, the specification of the map from names to contexts
    (which of the contexts that list a name is chosen), what
    [serverNameCallback] answers, and what [resetSSLContextConfigs] leaves. *)
From Stdlib Require Import ZArith Lia NArith Strings.Byte.
From stdpp Require Import base numbers list gmap strings sorting.
From S2P Require Import Prelude Buffers Tickets TicketProps Sni.
Open Scope cpp_scope.

Set Default Goal Selector "!".

(** ** Keys *)

Lemma charZ_inj c1 c2 : charZ c1 = charZ c2 -> c1 = c2.
Proof.
  unfold charZ. intros H. pose proof (byteZ_bounds c1). pose proof (byteZ_bounds c2).
  assert (E : Byte.to_N c1 = Byte.to_N c2).
  { apply N2Z.inj. unfold byteZ in *.
    destruct (Z.ltb_spec (Z.of_N (Byte.to_N c1)) 128), (Z.ltb_spec (Z.of_N (Byte.to_N c2)) 128); lia. }
  pose proof (Byte.of_to_N c1) as Hc. rewrite E, Byte.of_to_N in Hc. by injection Hc.
Qed.

Lemma tolower_idem c : tolower (tolower c) = tolower c.
Proof. by destruct c. Qed.

Lemma map_tolower_idem s : map tolower (map tolower s) = map tolower s.
Proof. induction s as [|c s IH]; [done|]. simpl. by rewrite tolower_idem, IH. Qed.

Lemma traitsCompare_eq s1 : forall s2, length s1 = length s2 ->
  (traitsCompare s1 s2 (length s1) = 0%Z <-> map tolower s1 = map tolower s2).
Proof.
  induction s1 as [|c1 s1 IH]; intros [|c2 s2]; try done. intros [= Hl]. simpl.
  case_ltb; [split; [done|intros [= E _]; rewrite E in *; lia]|].
  case_ltb; [split; [done|intros [= E _]; rewrite E in *; lia]|].
  rewrite (IH s2 Hl). assert (E : tolower c1 = tolower c2) by (apply charZ_inj; lia).
  rewrite E. split; [by intros ->|by intros [= ->]].
Qed.

(** Keys are compared by their representatives. *)
Lemma SSLContextKey_eqb_canonical k1 k2 :
  SSLContextKey_eqb k1 k2 = true <-> canonicalKey k1 = canonicalKey k2.
Proof.
  unfold SSLContextKey_eqb, DNString_eq, canonicalKey. rewrite !andb_true_iff, Nat.eqb_eq, Z.eqb_eq,
    bool_decide_eq_true. destruct k1 as [s1 c1], k2 as [s2 c2]. simpl. split.
  - intros [[Hl Ht] ->]. by rewrite (proj1 (traitsCompare_eq _ _ Hl) Ht).
  - intros [= Hs ->]. assert (Hl : length s1 = length s2).
    { rewrite <- (length_map tolower s1), <- (length_map tolower s2). by rewrite Hs. }
    by split_and!; [|apply traitsCompare_eq|].
Qed.

#[export] Instance key_equiv : Equiv SSLContextKey := fun k1 k2 => SSLContextKey_eqb k1 k2 = true.

#[export] Instance key_equivalence : Equivalence (≡@{SSLContextKey}).
Proof.
  unfold equiv, key_equiv. split; intros x.
  - by apply SSLContextKey_eqb_canonical.
  - intros y. rewrite !SSLContextKey_eqb_canonical. done.
  - intros y z. rewrite !SSLContextKey_eqb_canonical. congruence.
Qed.

#[export] Instance canonicalKey_proper : Proper ((≡@{SSLContextKey}) ==> (=)) canonicalKey.
Proof. intros k1 k2 H. by apply SSLContextKey_eqb_canonical. Qed.

(** Equal keys have equal hashes, as [unordered_map] requires. *)
#[export] Instance SSLContextKeyHash_proper combine :
  Proper ((≡@{SSLContextKey}) ==> (=)) (SSLContextKeyHash combine).
Proof.
  intros k1 k2 H%SSLContextKey_eqb_canonical. unfold SSLContextKeyHash. unfold canonicalKey in H.
  injection H as -> ->. done.
Qed.

Lemma tolower_dot c : tolower c = tolower x2e <-> c = x2e.
Proof. by destruct c. Qed.

(** ** The specification *)

(** From the first dot on. *)
Fixpoint parentDomain (s : list byte) : option (list byte) :=
  match s with
  | [] => None
  | c :: s' => if decide (c = x2e) then Some s else parentDomain s'
  end.

Lemma parentDomain_find s :
  parentDomain (map tolower s) =
    match find_first_of_dot s with Some dot => Some (map tolower (drop dot s)) | None => None end.
Proof.
  induction s as [|c s IH]; [done|]. simpl. case_decide as E.
  - rewrite bool_decide_true; [done|]. rewrite E. by vm_compute.
  - rewrite bool_decide_false; [by rewrite IH; destruct (find_first_of_dot s)|].
    intros Hc. apply E. rewrite Hc. by vm_compute.
Qed.

(** The names a certificate is indexed by, in lower case. *)
Definition certNames (x : X509) : list (list byte) :=
  match getCommonName x with
  | None => []
  | Some cn =>
      if decide (cn = [x2a]) then []
      else omap (fun dn => match indexName dn with Ok name => Some (map tolower name) | Err _ => None end)
             (cn :: default [] (getSubjectAltName x))
  end.

(** A context with the names of its certificate and the kind of its
    signature. *)
Definition Entry : Type := nat * list (list byte) * CertCrypto.

Definition entryOf (h : list ServerSSLContext) (p : nat) : Entry :=
  match h !! p ≫= ctx_x509 with
  | Some x => (p, certNames x, signatureCrypto x)
  | None => (p, [], BEST_AVAILABLE)
  end.

(** The entries of a kind that list a name, in order. *)
Definition listing (name : list byte) (crypto : CertCrypto) (es : list Entry) : list Entry :=
  filter (fun e => name ∈ e.1.2 /\ e.2 = crypto) es.

(** Who serves a name: the last context added with a strong signature, else
    the first with a weak one; when a weak one is asked for, the last. *)
Definition pick (es : list Entry) (name : list byte) (crypto : CertCrypto) : option Entry :=
  match crypto with
  | SHA1_SIGNATURE => last (listing name SHA1_SIGNATURE es)
  | BEST_AVAILABLE =>
      match last (listing name BEST_AVAILABLE es) with
      | Some e => Some e
      | None => head (listing name SHA1_SIGNATURE es)
      end
  end.

Arguments pick : simpl never.

Definition bestMatch (es : list Entry) (name : list byte) (crypto : CertCrypto) : option Entry :=
  match pick es name crypto with
  | Some e => Some e
  | None => parentDomain name ≫= fun parent => pick es parent crypto
  end.

(** The context and the kind of signature served for a request. *)
Definition choice (es : list Entry) (name : list byte) (req : CertCrypto) : option (Entry * CertCrypto) :=
  match bestMatch es name req with
  | Some e => Some (e, req)
  | None => if decide (req = BEST_AVAILABLE) then None
            else (fun e => (e, BEST_AVAILABLE)) <$> bestMatch es name BEST_AVAILABLE
  end.

Definition entries (s : SSLContextManager) : list Entry := entryOf (heap s) <$> ctxs (contexts_ s).

Definition indexedBy (es : list Entry) (c : SslContexts) : Prop :=
  forall name crypto, dnMap c !! mkContextKey (map tolower name) crypto =
    (fun e => e.1.1) <$> pick es (map tolower name) crypto.

Lemma listing_app name crypto es1 es2 :
  listing name crypto (es1 ++ es2) = listing name crypto es1 ++ listing name crypto es2.
Proof. apply filter_app. Qed.

Lemma listing_one name crypto p names k :
  listing name crypto [(p, names, k)] =
    if decide (name ∈ names /\ k = crypto) then [(p, names, k)] else [].
Proof. unfold listing. rewrite filter_cons, filter_nil. done. Qed.

(** ** Filling the map *)

Lemma insertIntoDnMap_lookup key p overwrite c k :
  dnMap (insertIntoDnMap key p overwrite c) !! k =
    if decide (k = canonicalKey key)
    then Some (if overwrite then p else default p (dnMap c !! k)) else dnMap c !! k.
Proof.
  unfold insertIntoDnMap. destruct (dnMap c !! canonicalKey key) as [v|] eqn:E.
  - destruct (Nat.eqb_spec v p) as [->|Hv]; [|destruct overwrite; simpl].
    + case_decide as Hk; [subst k; rewrite E; by destruct overwrite|done].
    + case_decide as Hk; [subst k; by rewrite lookup_insert_eq|by rewrite lookup_insert_ne].
    + case_decide as Hk; [subst k; by rewrite E|done].
  - simpl. case_decide as Hk; [|by rewrite lookup_insert_ne].
    subst k. rewrite lookup_insert_eq, E. by destruct overwrite.
Qed.

Lemma insertIntoDnMap_rest key p overwrite c :
  ctxs (insertIntoDnMap key p overwrite c) = ctxs c /\
  defaultCtx (insertIntoDnMap key p overwrite c) = defaultCtx c /\
  defaultCtxDomainName (insertIntoDnMap key p overwrite c) = defaultCtxDomainName c.
Proof. unfold insertIntoDnMap. repeat case_goal; done. Qed.

(** What a context's name does to the map. *)
Definition addName (p : nat) (crypto : CertCrypto) (c : SslContexts) (name : list byte) : SslContexts :=
  let c := insertIntoDnMap (mkContextKey name crypto) p true c in
  if decide (crypto = BEST_AVAILABLE) then c
  else insertIntoDnMap (mkContextKey name BEST_AVAILABLE) p false c.

Lemma addName_rest p crypto c name :
  ctxs (addName p crypto c name) = ctxs c /\ defaultCtx (addName p crypto c name) = defaultCtx c /\
  defaultCtxDomainName (addName p crypto c name) = defaultCtxDomainName c.
Proof.
  unfold addName. case_decide; [apply insertIntoDnMap_rest|].
  pose proof (insertIntoDnMap_rest (mkContextKey name crypto) p true c) as (<- & <- & <-).
  apply insertIntoDnMap_rest.
Qed.

Lemma pick_snoc es p names crypto name k :
  pick (es ++ [(p, names, crypto)]) name k =
    if decide (name ∈ names) then
      match crypto, k with
      | BEST_AVAILABLE, BEST_AVAILABLE => Some (p, names, crypto)
      | SHA1_SIGNATURE, SHA1_SIGNATURE => Some (p, names, crypto)
      | SHA1_SIGNATURE, BEST_AVAILABLE =>
          match pick es name k with Some e => Some e | None => Some (p, names, crypto) end
      | BEST_AVAILABLE, SHA1_SIGNATURE => pick es name k
      end
    else pick es name k.
Proof.
  unfold pick. rewrite !listing_app, !listing_one.
  destruct (decide (name ∈ names)) as [Hin|Hin].
  - destruct crypto, k.
    + rewrite decide_True, last_snoc by done. done.
    + rewrite decide_False by naive_solver. by rewrite app_nil_r.
    + rewrite decide_False by naive_solver. rewrite app_nil_r, decide_True by done.
      destruct (last (listing name BEST_AVAILABLE es)); [done|].
      by destruct (listing name SHA1_SIGNATURE es).
    + rewrite decide_True, last_snoc by done. done.
  - rewrite !decide_False by naive_solver. by rewrite !app_nil_r.
Qed.

Lemma addName_lookup p crypto c name n k :
  dnMap (addName p crypto c name) !! mkContextKey n k =
    if decide (n = map tolower name) then
      match crypto, k with
      | BEST_AVAILABLE, BEST_AVAILABLE => Some p
      | SHA1_SIGNATURE, SHA1_SIGNATURE => Some p
      | SHA1_SIGNATURE, BEST_AVAILABLE => Some (default p (dnMap c !! mkContextKey n k))
      | BEST_AVAILABLE, SHA1_SIGNATURE => dnMap c !! mkContextKey n k
      end
    else dnMap c !! mkContextKey n k.
Proof.
  unfold addName, canonicalKey. destruct (decide (crypto = BEST_AVAILABLE)) as [->|Hc].
  - rewrite insertIntoDnMap_lookup. unfold canonicalKey. simpl. repeat case_decide; destruct k; naive_solver.
  - rewrite !insertIntoDnMap_lookup. unfold canonicalKey. simpl.
    destruct crypto; [done|]. repeat case_decide; destruct k; naive_solver.
Qed.

Lemma addName_indexed es p names crypto c name :
  indexedBy (es ++ [(p, names, crypto)]) c ->
  indexedBy (es ++ [(p, names ++ [map tolower name], crypto)]) (addName p crypto c name).
Proof.
  intros Hc n k. specialize (Hc n k). rewrite pick_snoc in Hc |- *. rewrite addName_lookup.
  destruct (decide (map tolower n = map tolower name)) as [E|E].
  - rewrite (decide_True (P := map tolower n ∈ names ++ [_])) by set_solver.
    case_decide; destruct crypto, k; try done; rewrite Hc;
      by destruct (pick es (map tolower n) BEST_AVAILABLE).
  - rewrite Hc. destruct (decide (map tolower n ∈ names)) as [Hi|Hi].
    + rewrite (decide_True (P := map tolower n ∈ names ++ [_])) by set_solver.
      destruct crypto, k; try done. by destruct (pick es (map tolower n) BEST_AVAILABLE).
    + by rewrite (decide_False (P := map tolower n ∈ names ++ [_])) by set_solver.
Qed.

(** ** Adding a certificate's names *)

Definition okName (dn : list byte) : option (list byte) :=
  match indexName dn with Ok name => Some name | Err _ => None end.

Lemma indexName_error dn f : indexName dn = Err f -> exists what, f = RuntimeError what.
Proof.
  unfold indexName, res_bind. intros H. repeat (case_match; simplify_eq); eauto.
Qed.

Lemma byName_run dn p crypto b :
  insertSSLCtxByDomainName dn p crypto b =
    match indexName dn with
    | Ok name => (Ok tt, (b.1, addName p crypto b.2 name))
    | Err f => (if strict_ b.1 then Err f else Ok tt, b)
    end.
Proof.
  unfold insertSSLCtxByDomainName, insertSSLCtxByDomainNameImpl, of_res.
  destruct (indexName dn) as [name|f] eqn:E.
  - unfold bind at 1. unfold onContexts. rewrite bind_modify. unfold addName, when.
    destruct crypto; simpl; done.
  - apply indexName_error in E as [what ->]. unfold bind. by destruct (strict_ b.1).
Qed.

Lemma byNames_run p crypto names : forall b r b',
  for_each names (fun name => insertSSLCtxByDomainName name p crypto) b = (r, b') ->
  exists l, b' = (b.1, foldl (addName p crypto) b.2 l) /\ (r = Ok tt -> l = omap okName names).
Proof.
  induction names as [|dn names IH]; intros b r b'.
  - intros [= <- <-]. exists []. by destruct b.
  - cbn [for_each omap list_omap]. unfold okName at 1. pose proof (byName_run dn p crypto b) as E.
    destruct (indexName dn) as [name|f].
    + rewrite (bind_Ok _ _ _ _ _ E). intros (l & -> & Hl)%IH. exists (name :: l). split; [done|].
      intros Hr. by rewrite Hl.
    + destruct (strict_ b.1).
      * rewrite (bind_Err _ _ _ _ _ E). intros [= <- <-]. exists []. by destruct b.
      * rewrite (bind_Ok _ _ _ _ _ E). apply IH.
Qed.

Lemma addNames_rest p crypto l : forall c,
  ctxs (foldl (addName p crypto) c l) = ctxs c /\ defaultCtx (foldl (addName p crypto) c l) = defaultCtx c.
Proof.
  induction l as [|n l IH]; intros c; [done|]. simpl. destruct (IH (addName p crypto c n)) as [-> ->].
  by pose proof (addName_rest p crypto c n) as (-> & -> & _).
Qed.

Lemma addNames_indexed es p crypto l : forall names c,
  indexedBy (es ++ [(p, names, crypto)]) c ->
  indexedBy (es ++ [(p, names ++ (map tolower <$> l), crypto)]) (foldl (addName p crypto) c l).
Proof.
  induction l as [|n l IH]; intros names c Hc; simpl; [by rewrite app_nil_r|].
  apply addName_indexed with (name := n), IH in Hc. by rewrite <- app_assoc in Hc.
Qed.

Lemma indexedBy_nameless es p crypto c : indexedBy es c -> indexedBy (es ++ [(p, [], crypto)]) c.
Proof. intros Hc n k. rewrite pick_snoc, decide_False by (apply not_elem_of_nil). apply Hc. Qed.

Lemma certNames_okName x cn :
  getCommonName x = Some cn -> cn <> [x2a] ->
  certNames x = map tolower <$> omap okName (cn :: default [] (getSubjectAltName x)).
Proof.
  intros E Hcn. unfold certNames. rewrite E, decide_False by done.
  generalize (cn :: default [] (getSubjectAltName x)). intros l. induction l as [|dn l IH]; [done|].
  cbn [omap list_omap]. unfold okName at 1. destruct (indexName dn); [rewrite fmap_cons; by f_equal|done].
Qed.

Lemma insert_run p dflt b r b' :
  insert p dflt b = (r, b') ->
  b'.1 = b.1 /\ defaultCtx b'.2 = defaultCtx b.2 /\
  (r = Ok tt -> ctxs b'.2 = ctxs b.2 ++ [p] /\
     exists x, heap b.1 !! p ≫= ctx_x509 = Some x /\
       forall es, indexedBy es b.2 -> indexedBy (es ++ [(p, certNames x, signatureCrypto x)]) b'.2).
Proof.
  unfold insert. rewrite bind_get. destruct (heap b.1 !! p ≫= ctx_x509) as [x|]; [|by intros [= <- <-]].
  unfold of_option at 1. unfold bind at 1. unfold of_option, bind at 1.
  destruct (getCommonName x) as [cn|] eqn:Ecn; [|by intros [= <- <-]].
  case_bool_decide as Hstar.
  - destruct dflt; simpl; intros [= <- <-]; simpl; [|done]. split_and!; [done..|]. intros _. split; [done|].
    exists x. split; [done|]. intros es Hes. unfold certNames. rewrite Ecn, decide_True by done.
    by apply indexedBy_nameless.
  - pose proof (byNames_run p (signatureCrypto x) (cn :: default [] (getSubjectAltName x)) b) as Hrun.
    cbn [for_each] in Hrun. rewrite <- bind_assoc.
    destruct (bind (insertSSLCtxByDomainName cn p (signatureCrypto x)) _ b) as [r1 b1] eqn:E1.
    destruct (Hrun _ _ eq_refl) as (l & -> & Hl). destruct r1 as [[]|f].
    + rewrite (bind_Ok _ _ _ _ _ E1). specialize (Hl eq_refl). subst l.
      set (l := omap okName _) in *.
      pose proof (addNames_rest p (signatureCrypto x) l b.2) as (Hc & Hd).
      pose proof (fun es Hes => addNames_indexed es p (signatureCrypto x) l [] b.2
        (indexedBy_nameless es p _ _ Hes)) as Hi. cbn [app] in Hi.
      unfold l in Hi at 1. rewrite <- (certNames_okName x cn Ecn Hstar) in Hi. fold l in Hi.
      destruct dflt; intros [= <- <-]; simpl; rewrite Hc, Hd; (split_and!; [done..|]); intros _;
        (split; [done|]); exists x; (split; [done|]); exact Hi.
    + rewrite (bind_Err _ _ _ _ _ E1). intros [= <- <-]. simpl.
      pose proof (addNames_rest p (signatureCrypto x) l b.2) as (Hc & Hd). by split_and!.
Qed.

(** ** addSSLContextConfig *)

Section manager.
Context (ossl : OpenSSL) (SHA256 : list byte -> list byte)
  (unhexlify hexlify : list byte -> option (list byte)) (indeterminate : list byte) (stats : bool).
#[local] Abbreviation addConfig := (addSSLContextConfig ossl SHA256 unhexlify hexlify indeterminate stats).
#[local] Abbreviation setSeeds := (setTLSTicketKeySeeds SHA256 unhexlify hexlify indeterminate).
#[local] Abbreviation ticketsOf := (setupTicketManager SHA256 unhexlify hexlify indeterminate stats).
#[local] Abbreviation resetConfigs := (resetSSLContextConfigs ossl SHA256 unhexlify hexlify indeterminate stats).
#[local] Abbreviation addMore := (addToManager ossl SHA256 unhexlify hexlify indeterminate stats).

(** A configuration was added: a context for it at the end of the heap and of
    the contexts, with its certificate's names. *)
Definition added (seeds : option TLSTicketKeySeeds) (config : SSLContextConfig) (b b' : B) : Prop :=
  let p := length (heap b.1) in
  exists x, heap b'.1 = heap b.1 ++ [x] /\ ctxs b'.2 = ctxs b.2 ++ [p] /\
    ticketManager_ x = ticketsOf seeds config /\ ctx_serverNameCallback x = isDefault config /\
    defaultCtx b'.2 = (if isDefault config then Some p else defaultCtx b.2) /\
    (isDefault config = true -> defaultCtx b.2 = None) /\
    (forall es, indexedBy es b.2 -> indexedBy (es ++ [entryOf (heap b'.1) p]) b'.2).

Lemma entryOf_added h y x :
  (h ++ [y]) !! length h ≫= ctx_x509 = Some x ->
  entryOf (h ++ [y]) (length h) = (length h, certNames x, signatureCrypto x).
Proof. unfold entryOf. by intros ->. Qed.

Lemma ctxSetup_run p config b r b' :
  ctxSetupByOpensslFeature p config b = (r, b') ->
  exists h c, b' = (setHeap h (setNoMatchFn (sniNoMatchFn config) b.1), c) /\
    (h = heap b.1 \/ h = heap (setServerNameCallback p b.1)) /\
    (r = Ok tt ->
      h = (if isDefault config then heap (setServerNameCallback p b.1) else heap b.1) /\
      c = (if isDefault config then setDefaultCtx p b.2 else b.2) /\
      (isDefault config = true -> defaultCtx b.2 = None)).
Proof.
  unfold ctxSetupByOpensslFeature, onManager, onContexts. rewrite bind_modify. destruct b as [s c]. simpl.
  destruct (isDefault config) eqn:Ed; simpl.
  - rewrite bind_get. simpl. destruct (defaultCtx c) eqn:Ec.
    + intros [= <- <-]. exists (heap s), c. split_and!; [by destruct s|by left|done].
    + rewrite !bind_modify. intros [= <- <-]. eexists _, _. split; [done|]. split; [by right|]. done.
  - intros [= <- <-]. exists (heap s), c. split_and!; [by destruct s|by left|done].
Qed.

Lemma setServerNameCallback_last h x s :
  heap (setServerNameCallback (length h) (setHeap (h ++ [x]) s)) =
    h ++ [mkServerCtx (ctx_x509 x) (ctx_sessionIdContext x) (sessionCacheManager_ x) (ticketManager_ x) true].
Proof. simpl. by rewrite alter_app_r_alt, Nat.sub_diag by lia. Qed.

Lemma add_run cache seeds config b r b' :
  addConfig cache seeds config b = (r, b') ->
  heap b.1 `prefix_of` heap b'.1 /\ contexts_ b'.1 = contexts_ b.1 /\ (r = Ok tt -> added seeds config b b').
Proof.
  unfold addSSLContextConfig.
  destruct (loadCertificates ossl config (certificates config) (mkCertState 0 [] None None)) as [st|f].
  2: { by intros [= <- <-]. }
  unfold of_res at 1, bind at 1. repeat (case_goal; [by intros [= <- <-]|]).
  set (x := mkServerCtx _ _ _ _ _). set (p := length (heap b.1)).
  assert (Ea : allocContext x b = (Ok p, (setHeap (heap b.1 ++ [x]) b.1, b.2))) by done.
  rewrite (bind_Ok _ _ _ _ _ Ea). set (b1 := (setHeap (heap b.1 ++ [x]) b.1, b.2)).
  destruct (ctxSetupByOpensslFeature p config b1) as [r2 b2] eqn:E2.
  apply ctxSetup_run in E2 as E2'. destruct E2' as (h & c & -> & Hh & Hok).
  pose proof (setServerNameCallback_last (heap b.1) x b.1 : heap (setServerNameCallback p b1.1) = _) as Hlast.
  rewrite Hlast in Hh, Hok.
  assert (Hpre : heap b.1 `prefix_of` h) by (destruct Hh as [-> | ->]; by apply prefix_app_r).
  destruct r2 as [[]|f]; [rewrite (bind_Ok _ _ _ _ _ E2)|rewrite (bind_Err _ _ _ _ _ E2); by intros [= <- <-]].
  destruct (Hok eq_refl) as (-> & -> & Hd). unfold rethrow.
  destruct (insert p (isDefault config) _) as [r3 b3] eqn:E3.
  apply insert_run in E3 as (H1 & H2 & H3). simpl in H1.
  destruct r3 as [[]|f]; intros [= <- <-]; rewrite H1; simpl; (split_and!; [done..|]); [|done].
  intros _. destruct (H3 eq_refl) as (Hc & x' & Hx & Hi). unfold added. rewrite H1, H2, Hc. simpl in *.
  exists (if isDefault config then mkServerCtx (ctx_x509 x) (ctx_sessionIdContext x) (sessionCacheManager_ x)
                               (ticketManager_ x) true else x).
  destruct (isDefault config); simpl in *; (split_and!; [done..|]); intros es Hes;
    (replace (entryOf _ p) with (p, certNames x', signatureCrypto x'); [by apply Hi|]);
    symmetry; exact (entryOf_added _ _ _ Hx).
Qed.

(** ** Sequences of configurations *)

Lemma entryOf_prefix h h' p : h `prefix_of` h' -> p < length h -> entryOf h' p = entryOf h p.
Proof.
  intros [l ->] Hp. unfold entryOf. by rewrite lookup_app_l.
Qed.

Lemma entries_prefix h h' ps :
  h `prefix_of` h' -> Forall (fun p => p < length h) ps -> entryOf h' <$> ps = entryOf h <$> ps.
Proof.
  intros Hh Hps. apply list_fmap_ext. intros i p Hi. apply entryOf_prefix; [done|].
  rewrite Forall_lookup in Hps. by apply (Hps i).
Qed.

Definition filled (b : B) : Prop :=
  Forall (fun p => p < length (heap b.1)) (ctxs b.2) /\
  indexedBy (entryOf (heap b.1) <$> ctxs b.2) b.2.

Lemma added_filled seeds config b b' : added seeds config b b' -> filled b -> filled b'.
Proof.
  intros (x & Hh & Hc & _ & _ & _ & _ & Hi) [Hp Hx]. unfold filled. rewrite Hc, Forall_app, fmap_app, Hh.
  split; [split|].
  - eapply Forall_impl; [exact Hp|]. intros p. simpl. rewrite length_app. lia.
  - repeat constructor. rewrite length_app. simpl. lia.
  - rewrite (entries_prefix (heap b.1)) by (by try apply prefix_app_r). rewrite <- Hh. by apply Hi.
Qed.

Definition firstDefault (configs : list SSLContextConfig) : option nat :=
  fst <$> list_find (fun config => isDefault config = true) configs.

(** What [configs], added in order, make of the pair. *)
Definition addedAll (seeds : option TLSTicketKeySeeds) (configs : list SSLContextConfig) (b b' : B) : Prop :=
  exists xs, heap b'.1 = heap b.1 ++ xs /\
    ctxs b'.2 = ctxs b.2 ++ seq (length (heap b.1)) (length configs) /\
    Forall2 (fun config x => ticketManager_ x = ticketsOf seeds config /\
                             ctx_serverNameCallback x = isDefault config) configs xs /\
    defaultCtx b'.2 = match defaultCtx b.2 with
                      | Some d => Some d
                      | None => Nat.add (length (heap b.1)) <$> firstDefault configs
                      end /\
    length (filter (fun config => isDefault config = true) configs) <=
      (if defaultCtx b.2 then 0 else 1).

Lemma addedAll_cons seeds config configs b b1 b2 :
  added seeds config b b1 -> addedAll seeds configs b1 b2 -> addedAll seeds (config :: configs) b b2.
Proof.
  intros (x & Hh & Hc & Ht & Hn & Hd & Hd0 & _) (xs & Hh' & Hc' & Hxs & Hd' & Hl).
  rewrite Hh, length_app, Nat.add_1_r in Hc', Hd'.
  exists (x :: xs). rewrite Hh', Hh, Hc', Hc, Hd', Hd. rewrite Hd in Hl.
  unfold firstDefault. cbn [list_find]. rewrite filter_cons. destruct (isDefault config) eqn:E.
  - rewrite Hd0 by done. rewrite !decide_True by done. simpl. split_and!.
    + by rewrite <- app_assoc.
    + by rewrite <- app_assoc.
    + constructor; [split; [done|congruence]|done].
    + by rewrite Nat.add_0_r.
    + lia.
  - rewrite !decide_False by done. simpl. split_and!.
    + by rewrite <- app_assoc.
    + by rewrite <- app_assoc.
    + constructor; [split; [done|congruence]|done].
    + destruct (defaultCtx b.2); [done|]. unfold firstDefault.
      destruct (list_find _ configs) as [[i c]|]; simpl; [f_equal; lia|done].
    + done.
Qed.

Lemma adds_run cache seeds configs : forall b r b',
  for_each configs (addConfig cache seeds) b = (r, b') ->
  heap b.1 `prefix_of` heap b'.1 /\ contexts_ b'.1 = contexts_ b.1 /\
  (r = Ok tt -> addedAll seeds configs b b' /\ (filled b -> filled b')).
Proof.
  induction configs as [|config configs IH]; intros b r b'.
  - intros [= <- <-]. split_and!; [done..|]. intros _. split; [|done]. exists [].
    rewrite !app_nil_r. split_and!; [done..|by constructor| |simpl; lia]. by destruct (defaultCtx b.2).
  - cbn [for_each]. destruct (addConfig cache seeds config b) as [r1 b1] eqn:E.
    apply add_run in E as E'. destruct E' as (Hp & Hc & Ha). destruct r1 as [[]|f].
    + rewrite (bind_Ok _ _ _ _ _ E). intros (Hp' & Hc' & Ha')%IH. specialize (Ha eq_refl).
      split; [by etrans|]. split; [by rewrite Hc'|]. intros Hr. destruct (Ha' Hr) as [Hall Hf].
      split; [by eapply addedAll_cons|]. intros Hb. by eapply Hf, added_filled.
    + rewrite (bind_Err _ _ _ _ _ E). intros [= <- <-]. by split_and!.
Qed.

Lemma filled_none s : filled (s, noContexts).
Proof.
  split; [constructor|]. intros name crypto. simpl. rewrite lookup_empty. by destruct crypto.
Qed.

(** ** Looking names up *)

Lemma getSSLCtx_best s name crypto :
  indexedBy (entries s) (contexts_ s) ->
  getSSLCtx (mkContextKey name crypto) s =
    (fun e => e.1.1) <$> bestMatch (entries s) (map tolower name) crypto.
Proof.
  intros Hs. unfold getSSLCtx, getSSLCtxByExactDomain, getSSLCtxBySuffix, bestMatch, canonicalKey. simpl.
  rewrite (Hs name crypto). destruct (pick (entries s) (map tolower name) crypto); [done|]. simpl.
  rewrite parentDomain_find. destruct (find_first_of_dot name) as [dot|]; [|done]. apply Hs.
Qed.

Lemma entries_stat x s : entries (helloStat x s) = entries s.
Proof. done. Qed.

(** A counter of the server names sent by clients. *)
Definition counted (servername : option (list byte)) (x : HelloStat) (s : SSLContextManager) :
    SSLContextManager :=
  if servername is Some _ then helloStat x s else s.
Definition asked (servername : option (list byte)) (s : SSLContextManager) : SSLContextManager :=
  if servername is Some _ then s else helloStat RecordAbsentHostname s.

Lemma lookupRound_run servername sn req s :
  indexedBy (entries s) (contexts_ s) ->
  lookupRound sn req (if servername is Some _ then true else false) s =
    match choice (entries s) (map tolower sn) req with
    | Some (e, served) =>
        (Ok (Some e.1.1), helloStat (RecordCertCrypto req served) (counted servername RecordMatch s))
    | None => (Ok None, s)
    end.
Proof.
  intros Hs. unfold lookupRound, choice. rewrite bind_get, !getSSLCtx_best by done.
  destruct (bestMatch (entries s) (map tolower sn) req) as [e|]; simpl; [by destruct servername|].
  case_decide as Hr; [by rewrite bool_decide_false by naive_solver|].
  rewrite bool_decide_true by done.
  destruct (bestMatch (entries s) (map tolower sn) BEST_AVAILABLE) as [e|]; simpl; [|done].
  by destruct servername.
Qed.

Lemma pick_None es name : pick es name BEST_AVAILABLE = None <-> (forall e, e ∈ es -> name ∉ e.1.2).
Proof.
  unfold pick. split.
  - intros H e He Hin. destruct (last (listing name BEST_AVAILABLE es)) eqn:E1; [done|].
    apply last_None in E1.
    assert (E2 : listing name SHA1_SIGNATURE es = []) by (by destruct (listing name SHA1_SIGNATURE es)).
    assert (H1 : e ∈ listing name e.2 es) by (by apply list_elem_of_filter).
    destruct e.2; [rewrite E1 in H1|rewrite E2 in H1]; by apply elem_of_nil in H1.
  - intros H. assert (E : forall k, listing name k es = []).
    { intros k. destruct (listing name k es) as [|e l] eqn:E; [done|].
      assert (He : e ∈ listing name k es) by (rewrite E; by left).
      apply list_elem_of_filter in He as [[Hin _] He]. by apply H in Hin. }
    by rewrite !E.
Qed.

Lemma pick_weaker es name : pick es name BEST_AVAILABLE = None -> pick es name SHA1_SIGNATURE = None.
Proof.
  unfold pick. destruct (last (listing name BEST_AVAILABLE es)); [done|].
  destruct (listing name SHA1_SIGNATURE es); done.
Qed.

Lemma bestMatch_None es name :
  bestMatch es name BEST_AVAILABLE = None <->
    (forall e, e ∈ es -> name ∉ e.1.2 /\ forall parent, parentDomain name = Some parent -> parent ∉ e.1.2).
Proof.
  unfold bestMatch. destruct (pick es name BEST_AVAILABLE) as [e|] eqn:E.
  - split; [done|]. intros H. assert (Hn : pick es name BEST_AVAILABLE = None); [|by rewrite E in Hn].
    apply pick_None. intros e' He'. exact (proj1 (H e' He')).
  - destruct (parentDomain name) as [parent|]; simpl.
    + rewrite pick_None. pose proof (proj1 (pick_None es name) E). naive_solver.
    + pose proof (proj1 (pick_None es name) E). naive_solver.
Qed.

Lemma choice_None es name req : choice es name req = None <-> bestMatch es name BEST_AVAILABLE = None.
Proof.
  unfold choice. destruct req.
  - destruct (bestMatch es name BEST_AVAILABLE); [done|]. by rewrite decide_True.
  - rewrite decide_False by done. split.
    + destruct (bestMatch es name SHA1_SIGNATURE); [done|]. by destruct (bestMatch es name BEST_AVAILABLE).
    + intros H. rewrite H. unfold bestMatch in H |- *.
      destruct (pick es name BEST_AVAILABLE) eqn:E; [done|]. rewrite (pick_weaker _ _ E).
      destruct (parentDomain name) as [parent|]; [|done]. simpl in *. by rewrite (pick_weaker _ _ H).
Qed.

Definition ready (s : SSLContextManager) : Prop := filled (s, contexts_ s).

Lemma reset_ready configs cache seeds s s' : resetConfigs configs cache seeds s = (Ok tt, s') -> ready s'.
Proof.
  unfold resetSSLContextConfigs.
  destruct (for_each configs _ _) as [r b] eqn:E. apply adds_run in E as (_ & _ & H).
  destruct r as [[]|f]; [|done]. intros [= <-]. apply (H eq_refl), filled_none.
Qed.

Lemma addMore_ready cache seeds configs : forall s s',
  for_each configs (addMore cache seeds) s = (Ok tt, s') -> ready s -> ready s'.
Proof.
  induction configs as [|config configs IH]; intros s s'; [by intros [= <-]|]. cbn [for_each].
  destruct (addMore cache seeds config s) as [r s1] eqn:E. pose proof E as E'. unfold addToManager in E'.
  destruct (addConfig cache seeds config (s, contexts_ s)) as [r' b] eqn:Ea. injection E' as -> <-.
  apply add_run in Ea as (_ & _ & Ha). destruct r as [[]|f].
  - rewrite (bind_Ok _ _ _ _ _ E). intros H Hs. apply (IH _ _ H).
    exact (added_filled _ _ _ _ (Ha eq_refl) Hs).
  - by rewrite (bind_Err _ _ _ _ _ E).
Qed.

(** ** The theorems *)

(** C21. The certificate of a connection.  After a reset and any number of
    additions that succeed, the callback serves the server name of a client
    (the default's, when it sends none) by the certificates of the contexts:
    the exact name before the one-level wildcard, without regard to case, the
    last strong certificate before the first weak one, and for a client that
    wants SHA-1 a weak one first.  Every name that a certificate lists, as it
    is or by a wildcard, finds a context; other names find none, unless the
    configuration's function for unknown names provides one. *)
Theorem sni_selects noMatch s0 s1 s configs more cache cache' seeds seeds' servername info :
  resetConfigs configs cache seeds s0 = (Ok tt, s1) ->
  for_each more (addMore cache' seeds') s1 = (Ok tt, s) ->
  let sn := map tolower (cstring (default (defaultCtxDomainName (contexts_ s)) servername)) in
  let req := requestedCrypto info in
  match choice (entries s) sn req with
  | Some (e, served) =>
      serverNameCallback noMatch servername info s =
        (Ok (Some e.1.1),
         helloStat (RecordCertCrypto req served) (counted servername RecordMatch (asked servername s)))
  | None =>
      noMatchFn_ s = None ->
      serverNameCallback noMatch servername info s = (Ok None, counted servername RecordNotMatch (asked servername s))
  end /\
  (choice (entries s) sn req = None <->
     forall e, e ∈ entries s ->
       sn ∉ e.1.2 /\ forall parent, parentDomain sn = Some parent -> parent ∉ e.1.2).
Proof.
  intros E1 E2 sn req. pose proof (addMore_ready _ _ _ _ _ E2 (reset_ready _ _ _ _ _ E1)) as [_ Hi].
  split; [|by rewrite choice_None, bestMatch_None].
  unfold serverNameCallback. rewrite bind_get.
  assert (Hask : when (negb (if servername is Some _ then true else false))
                    (modify (helloStat RecordAbsentHostname)) s = (Ok tt, asked servername s))
    by (by destruct servername).
  rewrite (bind_Ok _ _ _ _ _ Hask). clear Hask.
  set (s' := asked servername s).
  assert (Hs' : entries s' = entries s /\ contexts_ s' = contexts_ s /\ noMatchFn_ s' = noMatchFn_ s)
    by (by destruct servername).
  destruct Hs' as (He & Hc & Hn).
  pose proof (lookupRound_run servername (cstring (default (defaultCtxDomainName (contexts_ s)) servername))
    req s' ltac:(by rewrite He, Hc)) as Hrun. fold sn in Hrun. rewrite He in Hrun.
  destruct (choice (entries s) sn req) as [[e served]|]; rewrite (bind_Ok _ _ _ _ _ Hrun); [done|].
  intros Hno. rewrite <- Hn in Hno. unfold askNoMatchFn. unfold bind at 1. rewrite bind_get, Hno. simpl.
  by destruct servername.
Qed.

(** C22. A reset is all or nothing.  Contexts that were made are not changed
    by it; a reset that fails leaves the contexts of the manager, and so the
    context of every name, as they were; one that succeeds replaces them by
    one new context per configuration, in order, each with the tickets its
    configuration asks for, the only default among them the default. *)
Theorem reset_all_or_nothing configs cache seeds s r s' :
  resetConfigs configs cache seeds s = (r, s') ->
  exists news, heap s' = heap s ++ news /\
  match r with
  | Err _ => contexts_ s' = contexts_ s /\ forall key, getSSLCtx key s' = getSSLCtx key s
  | Ok _ =>
      ctxs (contexts_ s') = seq (length (heap s)) (length configs) /\
      Forall2 (fun config x =>
        ticketManager_ x = ticketsOf (Some (default (currentTicketSeeds hexlify s) seeds)) config /\
        ctx_serverNameCallback x = isDefault config) configs news /\
      defaultCtx (contexts_ s') = Nat.add (length (heap s)) <$> firstDefault configs /\
      length (filter (fun config => isDefault config = true) configs) <= 1
  end.
Proof.
  unfold resetSSLContextConfigs. destruct (for_each configs _ _) as [r1 b] eqn:E.
  apply adds_run in E as ([news Hh] & Hc & H). simpl in Hh, Hc. destruct r1 as [[]|f]; intros [= <- <-].
  - destruct (H eq_refl) as [(xs & Hxs & Hctxs & Ht & Hd & Hl) _]. exists xs. simpl in *. by split_and!.
  - exists news. split; [done|]. split; [done|]. intros key.
    unfold getSSLCtx, getSSLCtxByExactDomain, getSSLCtxBySuffix. by rewrite Hc.
Qed.

(** Tickets survive a reset that gives no seeds.  When the first ticket
    manager among the contexts holds seeds printed the way [hexlify] prints
    them, the ticket manager of every new context encrypts and decrypts
    every ticket as that manager does. *)
Lemma reset_keeps_tickets configs cache s s' m0 m rest seeds p x m' :
  Forall (canonical unhexlify hexlify) (oldSeeds seeds ++ currentSeeds seeds ++ newSeeds seeds) ->
  omap (fun p => heap s !! p ≫= ticketManager_) (ctxs (contexts_ s)) = m :: rest ->
  m = (setSeeds seeds m0).2 ->
  resetConfigs configs cache None s = (Ok tt, s') ->
  p ∈ ctxs (contexts_ s') -> heap s' !! p = Some x -> ticketManager_ x = Some m' ->
  forall rand32 salt freshIv keyName iv encrypt,
    (processTicket SHA256 rand32 salt freshIv keyName iv encrypt m').1 =
    (processTicket SHA256 rand32 salt freshIv keyName iv encrypt m).1.
Proof.
  intros Hseeds Hfirst Hm. unfold resetSSLContextConfigs. destruct (for_each configs _ _) as [r1 b] eqn:E.
  apply adds_run in E as (_ & _ & H). destruct r1 as [[]|f]; [|done]. intros [= <-].
  destruct (H eq_refl) as [(xs & Hxs & Hctxs & Ht & _) _]. cbn [fst snd setContexts contexts_ heap] in *.
  rewrite Hctxs, Hxs.
  cbn [fst]. intros Hp%elem_of_seq Hx Hm' rand32 salt freshIv keyName iv encrypt.
  rewrite lookup_app_r in Hx by lia.
  destruct (Forall2_lookup_r _ _ _ _ _ Ht Hx) as (config & _ & Htx & _).
  rewrite Htx in Hm'. unfold setupTicketManager in Hm'. destruct (sessionTicketEnabled config); [|done].
  injection Hm' as <-. unfold currentTicketSeeds in *. rewrite Hfirst, Hm, getSeeds_set by done. cbn [snd default].
  destruct (setSeeds_same SHA256 unhexlify hexlify indeterminate seeds (newManager stats) m0) as [Hk Ha].
  by apply processTicket_keys.
Qed.
End manager.

(** ** Witnesses: three certificates *)

Definition dn (s : string) : list byte := String.list_byte_of_string s.

Definition someCert (path : list byte) : option X509 :=
  if bool_decide (path = dn "wild") then
    Some (mkX509 (Some (dn "*.Example.com")) [GEN_DNS (dn "example.com"); GEN_OTHER] NID_other)
  else if bool_decide (path = dn "weak") then
    Some (mkX509 (Some (dn "old.example.com")) [] NID_sha1WithRSAEncryption)
  else if bool_decide (path = dn "bad") then Some (mkX509 (Some (dn "a.*.com")) [] NID_other)
  else None.
Definition someOpenSSL : OpenSSL :=
  mkOpenSSL (fun c => Some <$> someCert (certPath c)) (fun p => Some <$> someCert p)
    (fun _ => true) (fun _ => true) (fun _ => true).
Definition someConfig (cert : string) (default : bool) (noMatch : option nat) : SSLContextConfig :=
  mkConfig [mkCertInfo (dn cert) [] []] true true [] (dn "prime256v1") true [] default noMatch [] None.
Definition someCache : SSLCacheOptions := mkCacheOptions 100 10.
Definition emptyManager : SSLContextManager := mkContextManager noContexts None true (Some []) [].

Definition someReset := resetSSLContextConfigs someOpenSSL padHash Some Some [] true.
Definition someAdd := addToManager someOpenSSL padHash Some Some [] true.
Definition noOther (_ : nat) (_ : list byte) (s : SSLContextManager) : bool * SSLContextManager := (false, s).

Definition afterReset : SSLContextManager :=
  (someReset [someConfig "wild" true None] someCache (Some seedsBefore) emptyManager).2.
Definition afterAdd : SSLContextManager :=
  (for_each [someConfig "weak" false None] (someAdd someCache (Some seedsBefore)) afterReset).2.

Lemma sni_selects_witness :
  (serverNameCallback noOther (Some (dn "OLD.example.COM")) None afterAdd).1 = Ok (Some 1) /\
  (serverNameCallback noOther (Some (dn "www.example.com")) None afterAdd).1 = Ok (Some 0) /\
  (serverNameCallback noOther (Some (dn "www.sub.example.com")) None afterAdd).1 = Ok None /\
  (serverNameCallback noOther None (Some (mkHello [2] [])) afterAdd).1 = Ok (Some 0).
Proof.
  assert (E1 : someReset [someConfig "wild" true None] someCache (Some seedsBefore) emptyManager =
               (Ok tt, afterReset)) by vm_cast_no_check (eq_refl (Ok tt, afterReset)).
  assert (E2 : for_each [someConfig "weak" false None] (someAdd someCache (Some seedsBefore)) afterReset =
               (Ok tt, afterAdd)) by vm_cast_no_check (eq_refl (Ok tt, afterAdd)).
  pose proof (fun sn info => proj1 (sni_selects _ _ _ _ _ _ noOther _ _ _ _ _ _ _ _ _ sn info E1 E2)) as H.
  assert (Hserved : forall servername info i,
    (fun ek : Entry * CertCrypto => ek.1.1.1) <$>
      choice (entries afterAdd) (map tolower (cstring (default (defaultCtxDomainName (contexts_ afterAdd)) servername)))
        (requestedCrypto info) = i ->
    (serverNameCallback noOther servername info afterAdd).1 = Ok i).
  { intros servername info i. specialize (H servername info). cbv zeta in H.
    destruct (choice _ _ _) as [[e k]|]; intros <-; [by rewrite H|by rewrite H by (vm_compute; reflexivity)]. }
  split_and!; apply Hserved; vm_compute; reflexivity.
Defined.

Definition afterFailure : SSLContextManager :=
  (someReset [someConfig "weak" true None; someConfig "bad" false (Some 7)] someCache None afterReset).2.

Lemma reset_all_or_nothing_witness : contexts_ afterFailure = contexts_ afterReset /\ length (heap afterFailure) = 3.
Proof.
  assert (E : someReset [someConfig "weak" true None; someConfig "bad" false (Some 7)] someCache None afterReset =
    (Err (RuntimeError "Error adding certificate"), afterFailure))
    by vm_cast_no_check (eq_refl (Err (A:=unit) (RuntimeError "Error adding certificate"), afterFailure)).
  destruct (reset_all_or_nothing _ _ _ _ _ _ _ _ _ _ _ _ E) as (news & Hh & Hc & _).
  split; [exact Hc|vm_compute; reflexivity].
Defined.

Lemma reset_keeps_tickets_witness :
  let s' := (someReset [someConfig "weak" true None] someCache None afterReset).2 in
  exists m', (heap s' !! 1) ≫= ticketManager_ = Some m' /\
    (processTicket padHash (fun _ => 0) someSalt [] (tc_keyName issued.1.2) [x01] false m').1 =
    (1%Z, issued.1.2).
Proof.
  cbv zeta. eexists. split; [vm_compute; reflexivity|].
  erewrite (reset_keeps_tickets someOpenSSL padHash Some Some [] true
    [someConfig "weak" true None] someCache afterReset
    (someReset [someConfig "weak" true None] someCache None afterReset).2 (newManager true)
    (setTLSTicketKeySeeds padHash Some Some [] seedsBefore (newManager true)).2 [] seedsBefore 1).
  - vm_compute. reflexivity.
  - repeat (constructor; [by eexists|]). constructor.
  - vm_compute. reflexivity.
  - reflexivity.
  - vm_compute. reflexivity.
  - vm_compute. by left.
  - vm_compute. reflexivity.
  - reflexivity.
Defined.

(** ** Where a configuration leaves more than it should *)

(** The function for unknown names is not part of the contexts that a reset
    swaps: a reset that fails has installed its own. *)
Lemma failed_reset_changes_noMatchFn :
  let run := someReset [someConfig "bad" false (Some 7)] someCache None afterReset in
  run.1 = Err (RuntimeError "Error adding certificate") /\ noMatchFn_ afterReset = None /\ noMatchFn_ run.2 = Some 7.
Proof. vm_compute. done. Qed.

(** A default configuration whose certificate is refused stays the default,
    without being among the contexts, and the next default is refused. *)
Lemma failed_add_stays_default :
  let run := someAdd someCache None (someConfig "bad" true None) emptyManager in
  run.1 = Err (RuntimeError "Error adding certificate") /\
  defaultCtx (contexts_ run.2) = Some 0 /\ ctxs (contexts_ run.2) = [] /\
  (someAdd someCache None (someConfig "wild" true None) run.2).1 = Err (RuntimeError ">1 X509 is set as default").
Proof. vm_compute. done. Qed.

(** A common name of the 64 bytes that X.509 allows loses the last. *)
Lemma commonName_truncated :
  let name := repeat x61 60 ++ dn ".com" in
  length name = ub_common_name /\
  getCommonName (mkX509 (Some name) [] NID_other) = Some (repeat x61 60 ++ dn ".co").
Proof. vm_compute. done. Qed.
