(* ===== verification/Handshake.v ===== *)
(** * Handshakes of accepted connections (src/wangle/acceptor)

    [AcceptorHandshakeHelper] and its implementations: a helper is started
    with a socket and calls back once, with the socket ([connectionReady]) or
    with an error.  [SSLAcceptorHandshakeHelper] negotiates TLS,
    [UnencryptedAcceptorHandshakeHelper] gives the socket back at once,
    [PeekingAcceptorHandshakeHelper] reads the first bytes ([SocketPeeker])
    and chooses another helper by them, and [EvbHandshakeHelper] runs a helper
    on another thread.

    The arguments that are only passed along (transport information, next
    protocol, error details) are left out; what a socket does is an input of
    the operation that makes it act. *)
From Stdlib Require Import ZArith Lia NArith Strings.Byte.
From stdpp Require Import base numbers list strings.
From S2P Require Import Prelude Buffers.
Open Scope cpp_scope.

Set Default Goal Selector "!".

(** ** Helpers *)

Inductive Callback : Type := ConnectionReady | ConnectionError.
#[export] Instance Callback_eq_dec : EqDecision Callback.
Proof. solve_decision. Defined.

(** Where a helper is: not started, negotiating, or done, with the socket
    still its own or given away. *)
Inductive Phase : Type :=
| Fresh
| Running
| Finished (ownsSocket : bool).
#[export] Instance Phase_eq_dec : EqDecision Phase.
Proof. solve_decision. Defined.

(** The methods, with the call of the callback they end with, if any; [E] is
    what the socket does meanwhile. *)
Class HandshakeHelper (H E : Type) : Type := {
  hStart : E -> H -> res (H * option Callback);
  hEvent : E -> H -> res (H * option Callback);
  hDrop : E -> H -> res (H * option Callback);
  hPhase : H -> Phase
}.

Definition phaseAfter (cb : option Callback) : Phase :=
  match cb with
  | None => Running
  | Some ConnectionReady => Finished false
  | Some ConnectionError => Finished true
  end.

(** What the users of a helper rely on. *)
Class HandshakeHelperLaws (H E : Type) `{!HandshakeHelper H E} : Type := {
  hWf : H -> Prop;
  hStart_law e h : hWf h -> hPhase h = Fresh ->
    exists h' cb, hStart e h = Ok (h', cb) /\ hWf h' /\ hPhase h' = phaseAfter cb;
  hEvent_law e h : hWf h -> hPhase h = Running ->
    exists h' cb, hEvent e h = Ok (h', cb) /\ hWf h' /\ hPhase h' = phaseAfter cb;
  hDrop_running e h : hWf h -> hPhase h = Running ->
    exists h', hDrop e h = Ok (h', Some ConnectionError) /\ hWf h' /\ hPhase h' = Finished true;
  hDrop_finished e h owns : hWf h -> hPhase h = Finished owns ->
    exists h', hDrop e h = Ok (h', None) /\ hWf h' /\ hPhase h' = Finished owns
}.

(** ** SSLAcceptorHandshakeHelper *)

(** What the [AsyncSSLSocket] does: the handshake goes on, succeeds or
    fails. *)
Inductive SSLEvent : Type := HandshakePending | HandshakeSuc | HandshakeErr.

(** [ssl_handshaking] is whether the socket will call the helper. *)
Record SSLAcceptorHandshakeHelper : Type := mkSSLHelper {
  ssl_socket_ : bool;
  ssl_callback_ : bool;
  ssl_handshaking : bool
}.
Definition newSSLHelper : SSLAcceptorHandshakeHelper := mkSSLHelper false false false.

Definition handshakeSuc (h : SSLAcceptorHandshakeHelper) : res (SSLAcceptorHandshakeHelper * option Callback) :=
  if ssl_callback_ h then Ok (mkSSLHelper false true false, Some ConnectionReady)
  else Err (Undefined "callback_").
Definition handshakeErr (h : SSLAcceptorHandshakeHelper) : res (SSLAcceptorHandshakeHelper * option Callback) :=
  if ssl_callback_ h then Ok (mkSSLHelper (ssl_socket_ h) true false, Some ConnectionError)
  else Err (Undefined "callback_").

Definition sslEvent (e : SSLEvent) (h : SSLAcceptorHandshakeHelper) :
    res (SSLAcceptorHandshakeHelper * option Callback) :=
  match e with
  | HandshakePending => Ok (h, None)
  | HandshakeSuc => handshakeSuc h
  | HandshakeErr => handshakeErr h
  end.
Definition sslStart (e : SSLEvent) (h : SSLAcceptorHandshakeHelper) :
    res (SSLAcceptorHandshakeHelper * option Callback) :=
  sslEvent e (mkSSLHelper true true true).
(** [closeNow] fails a handshake under way, at once. *)
Definition sslDrop (h : SSLAcceptorHandshakeHelper) : res (SSLAcceptorHandshakeHelper * option Callback) :=
  if ssl_socket_ h && ssl_handshaking h then handshakeErr h else Ok (h, None).
Definition sslPhase (h : SSLAcceptorHandshakeHelper) : Phase :=
  if negb (ssl_callback_ h) then Fresh
  else if ssl_handshaking h then Running else Finished (ssl_socket_ h).

#[export] Instance SSL_HandshakeHelper : HandshakeHelper SSLAcceptorHandshakeHelper SSLEvent := {|
  hStart := sslStart;
  hEvent := sslEvent;
  hDrop _ := sslDrop;
  hPhase := sslPhase
|}.

(** ** UnencryptedAcceptorHandshakeHelper *)

Inductive UnencryptedAcceptorHandshakeHelper : Type := Unencrypted (started : bool).
Definition unencryptedDrop : res (UnencryptedAcceptorHandshakeHelper * option Callback) :=
  Err (CheckFailed "Nothing to drop").

#[export] Instance Unencrypted_HandshakeHelper : HandshakeHelper UnencryptedAcceptorHandshakeHelper unit := {|
  hStart _ _ := Ok (Unencrypted true, Some ConnectionReady);
  hEvent _ h := Ok (h, None);
  hDrop _ _ := unencryptedDrop;
  hPhase '(Unencrypted started) := if started then Finished false else Fresh
|}.

(** A helper that is one of two. *)
#[export] Instance sum_HandshakeHelper {H1 E1 H2 E2} `{!HandshakeHelper H1 E1} `{!HandshakeHelper H2 E2} :
    HandshakeHelper (H1 + H2) (E1 * E2) :=
  let both (f1 : H1 -> res (H1 * option Callback)) (f2 : H2 -> res (H2 * option Callback)) h :=
    match h with
    | inl h => try! (h, cb) := f1 h in Ok (inl h, cb)
    | inr h => try! (h, cb) := f2 h in Ok (inr h, cb)
    end in {|
  hStart e := both (hStart e.1) (hStart e.2);
  hEvent e := both (hEvent e.1) (hEvent e.2);
  hDrop e := both (hDrop e.1) (hDrop e.2);
  hPhase h := match h with inl h => hPhase h | inr h => hPhase h end
|}.

(** ** TLSPlaintextPeekingCallback *)

Definition kPeekCount : nat := 9.

Definition looksLikeTLS (bytes : list byte) : res bool :=
  if length bytes <? kPeekCount then Err (CheckFailed "bytes.size() >= kPeekCount")
  else Ok (bool_decide (bytes !! 0 = Some x16) && bool_decide (bytes !! 1 = Some x03) &&
           bool_decide (bytes !! 5 = Some x01)).

(** The helpers chosen among by [Acceptor]: the plaintext callback when
    insecure connections are allowed, then [DefaultToSSLPeekingCallback]. *)
Definition AcceptedHelper : Type := SSLAcceptorHandshakeHelper + UnencryptedAcceptorHandshakeHelper.

Definition plaintextGetHelper (bytes : list byte) : res (option AcceptedHelper) :=
  try! tls := looksLikeTLS bytes in
  Ok (if tls then None else Some (inr (Unencrypted false))).
Definition defaultGetHelper (_ : list byte) : res (option AcceptedHelper) := Ok (Some (inl newSSLHelper)).

(** ** SocketPeeker and PeekingAcceptorHandshakeHelper *)

Section peeking.
Context {H E : Type} `{!HandshakeHelper H E}.
(** The [getHelper] of the peek callbacks, in order, and [numBytes_]. *)
Context (peekCallbacks : list (list byte -> res (option H))) (numBytes : nat).

(** [pk_peeker_] holds the bytes read while the peeker has its callback. *)
Record PeekingAcceptorHandshakeHelper : Type := mkPeeking {
  pk_socket_ : bool;
  pk_helper_ : option H;
  pk_peeker_ : option (list byte);
  pk_callback_ : bool
}.
Definition newPeeking : PeekingAcceptorHandshakeHelper := mkPeeking false None None false.

(** What the socket has for the peeker (nothing: it was closed), and what it
    does to the chosen helper. *)
Record PeekEvent : Type := mkPeekEvent {
  pe_data : option (list byte);
  pe_helper : E
}.

Definition peekError (p : PeekingAcceptorHandshakeHelper) :
    res (PeekingAcceptorHandshakeHelper * option Callback) :=
  if pk_callback_ p then Ok (mkPeeking (pk_socket_ p) (pk_helper_ p) None false, Some ConnectionError)
  else Err (Undefined "callback").

Fixpoint chooseHelper (callbacks : list (list byte -> res (option H))) (bytes : list byte) : res (option H) :=
  match callbacks with
  | [] => Ok None
  | getHelper :: callbacks =>
      try! helper := getHelper bytes in
      match helper with
      | Some h => Ok (Some h)
      | None => chooseHelper callbacks bytes
      end
  end.

Definition peekSuccess (bytes : list byte) (e : E) (p : PeekingAcceptorHandshakeHelper) :
    res (PeekingAcceptorHandshakeHelper * option Callback) :=
  try! helper := chooseHelper peekCallbacks bytes in
  match helper with
  | None => peekError (mkPeeking (pk_socket_ p) None None (pk_callback_ p))
  | Some h =>
      try! (h, cb) := hStart e h in
      Ok (mkPeeking false (Some h) None false, cb)
  end.

(** [SocketPeeker::start], once the helper has its peeker. *)
Definition peekerStart (e : E) (p : PeekingAcceptorHandshakeHelper) :
    res (PeekingAcceptorHandshakeHelper * option Callback) :=
  if numBytes =? 0 then peekSuccess [] e p
  else Ok (mkPeeking (pk_socket_ p) (pk_helper_ p) (Some []) (pk_callback_ p), None).

(** [readDataAvailable]: the socket gives at most the bytes that are asked
    for. *)
Definition readDataAvailable (read chunk : list byte) (e : E) (p : PeekingAcceptorHandshakeHelper) :
    res (PeekingAcceptorHandshakeHelper * option Callback) :=
  let read := read ++ take (numBytes - length read) chunk in
  if numBytes <? length read then Err (CheckFailed "read_ <= peekBytes_.size()")
  else if length read =? numBytes
  then peekSuccess read e (mkPeeking (pk_socket_ p) (pk_helper_ p) None (pk_callback_ p))
  else Ok (mkPeeking (pk_socket_ p) (pk_helper_ p) (Some read) (pk_callback_ p), None).

Definition peekingStart (ev : PeekEvent) (p : PeekingAcceptorHandshakeHelper) :
    res (PeekingAcceptorHandshakeHelper * option Callback) :=
  peekerStart (pe_helper ev) (mkPeeking true (pk_helper_ p) None true).

Definition peekingEvent (ev : PeekEvent) (p : PeekingAcceptorHandshakeHelper) :
    res (PeekingAcceptorHandshakeHelper * option Callback) :=
  match pk_peeker_ p, pk_helper_ p with
  | Some read, _ =>
      match pe_data ev with
      | Some chunk => readDataAvailable read chunk (pe_helper ev) p
      | None => peekError p
      end
  | None, Some h =>
      try! (h, cb) := hEvent (pe_helper ev) h in
      Ok (mkPeeking (pk_socket_ p) (Some h) None (pk_callback_ p), cb)
  | None, None => Ok (p, None)
  end.

Definition peekingDrop (ev : PeekEvent) (p : PeekingAcceptorHandshakeHelper) :
    res (PeekingAcceptorHandshakeHelper * option Callback) :=
  match pk_socket_ p, pk_helper_ p with
  | true, None =>
      match pk_peeker_ p with
      | Some _ => peekError p       (* closeNow ends the reading *)
      | None => Ok (p, None)
      end
  | false, Some h =>
      try! (h, cb) := hDrop (pe_helper ev) h in
      Ok (mkPeeking false (Some h) (pk_peeker_ p) (pk_callback_ p), cb)
  | _, _ => Err (CheckFailed "(socket_ == nullptr) != (helper_ == nullptr)")
  end.

Definition peekingPhase (p : PeekingAcceptorHandshakeHelper) : Phase :=
  match pk_socket_ p, pk_helper_ p with
  | false, None => Fresh
  | _, Some h => hPhase h
  | true, None => if pk_peeker_ p is Some _ then Running else Finished true
  end.

#[export] Instance Peeking_HandshakeHelper : HandshakeHelper PeekingAcceptorHandshakeHelper PeekEvent := {|
  hStart := peekingStart;
  hEvent := peekingEvent;
  hDrop := peekingDrop;
  hPhase := peekingPhase
|}.
End peeking.
Arguments PeekingAcceptorHandshakeHelper : clear implicits.
Arguments PeekEvent : clear implicits.

(** ** EvbHandshakeHelper

    Two threads with an event loop each: the acceptor's ([originalEvb_]) and
    the one that negotiates ([handshakeEvb_]).  A thread runs its functions in
    the order they were posted; the actions of a function, each atomic, may
    interleave with those of the other thread. *)

Inductive Thread : Type := Original | HandshakeThread.
#[export] Instance Thread_eq_dec : EqDecision Thread.
Proof. solve_decision. Defined.

Inductive HandshakeState : Type := Invalid | Started | Dropped | CallbackState.
#[export] Instance HandshakeState_eq_dec : EqDecision HandshakeState.
Proof. solve_decision. Defined.

(** Who owns the socket: a function that was posted, the helper, a call of
    [connectionReady], the user of the callback, or no one: it was
    destroyed. *)
Inductive Owner : Type := OwnFunction | OwnHelper | OwnCall | OwnClient | OwnNone.
#[export] Instance Owner_eq_dec : EqDecision Owner.
Proof. solve_decision. Defined.

Inductive Action : Type :=
| TryStart | PostStart
| AttachSocket | DetachSocket
| StartHelper
| TryCallback (cb : Callback) | PostCallback (cb : Callback) | RunCallback (cb : Callback)
| TryDrop | EmplaceGuard | CallDropped | PostDrop
| DropHelper | ResetHelper | PostClearGuard | ClearGuard
| DestroyMe.
#[export] Instance Action_eq_dec : EqDecision Action.
Proof. solve_decision. Defined.

(** What the user's callback saw. *)
Inductive Seen : Type := SeenCallback (cb : Callback) | SeenDropped.
#[export] Instance Seen_eq_dec : EqDecision Seen.
Proof. solve_decision. Defined.

Section evb.
Context {H E : Type} `{!HandshakeHelper H E}.

(** The helper's members, [hs_alive] until it is deleted, [hs_destroyed] once
    its owner has called [destroy()] (a guard delays the deletion); the
    socket; the threads, with the rest of the function that runs and those
    that wait; and what the callback of the owner saw. *)
Record EvbHandshakeHelper : Type := mkEvb {
  hs_state : HandshakeState;
  hs_guard : bool;                (* dropConnectionGuard_ *)
  hs_helper : option H;
  hs_alive : bool;
  hs_destroyed : bool;
  hs_owner : Owner;
  hs_evb : option Thread;         (* the event base of the socket *)
  now_original : list Action;
  now_handshake : list Action;
  queue_original : list (list Action);
  queue_handshake : list (list Action);
  hs_seen : list Seen
}.

Definition setState x (s : EvbHandshakeHelper) : EvbHandshakeHelper :=
  mkEvb x (hs_guard s) (hs_helper s) (hs_alive s) (hs_destroyed s) (hs_owner s) (hs_evb s) (now_original s) (now_handshake s) (queue_original s) (queue_handshake s) (hs_seen s).
Definition setGuard x (s : EvbHandshakeHelper) : EvbHandshakeHelper :=
  mkEvb (hs_state s) x (hs_helper s) (hs_alive s) (hs_destroyed s) (hs_owner s) (hs_evb s) (now_original s) (now_handshake s) (queue_original s) (queue_handshake s) (hs_seen s).
Definition setHelper x (s : EvbHandshakeHelper) : EvbHandshakeHelper :=
  mkEvb (hs_state s) (hs_guard s) x (hs_alive s) (hs_destroyed s) (hs_owner s) (hs_evb s) (now_original s) (now_handshake s) (queue_original s) (queue_handshake s) (hs_seen s).
Definition setAlive x (s : EvbHandshakeHelper) : EvbHandshakeHelper :=
  mkEvb (hs_state s) (hs_guard s) (hs_helper s) x (hs_destroyed s) (hs_owner s) (hs_evb s) (now_original s) (now_handshake s) (queue_original s) (queue_handshake s) (hs_seen s).
Definition setDestroyed x (s : EvbHandshakeHelper) : EvbHandshakeHelper :=
  mkEvb (hs_state s) (hs_guard s) (hs_helper s) (hs_alive s) x (hs_owner s) (hs_evb s) (now_original s) (now_handshake s) (queue_original s) (queue_handshake s) (hs_seen s).
Definition setSocket owner evb (s : EvbHandshakeHelper) : EvbHandshakeHelper :=
  mkEvb (hs_state s) (hs_guard s) (hs_helper s) (hs_alive s) (hs_destroyed s) owner evb (now_original s) (now_handshake s) (queue_original s) (queue_handshake s) (hs_seen s).
Definition setNow (t : Thread) x (s : EvbHandshakeHelper) : EvbHandshakeHelper :=
  mkEvb (hs_state s) (hs_guard s) (hs_helper s) (hs_alive s) (hs_destroyed s) (hs_owner s) (hs_evb s)
    (if t is Original then x else now_original s) (if t is Original then now_handshake s else x)
    (queue_original s) (queue_handshake s) (hs_seen s).
Definition setQueue (t : Thread) x (s : EvbHandshakeHelper) : EvbHandshakeHelper :=
  mkEvb (hs_state s) (hs_guard s) (hs_helper s) (hs_alive s) (hs_destroyed s) (hs_owner s) (hs_evb s)
    (now_original s) (now_handshake s)
    (if t is Original then x else queue_original s) (if t is Original then queue_handshake s else x) (hs_seen s).
Definition see x (s : EvbHandshakeHelper) : EvbHandshakeHelper :=
  mkEvb (hs_state s) (hs_guard s) (hs_helper s) (hs_alive s) (hs_destroyed s) (hs_owner s) (hs_evb s) (now_original s) (now_handshake s) (queue_original s) (queue_handshake s) (hs_seen s ++ [x]).
Definition now (t : Thread) (s : EvbHandshakeHelper) : list Action :=
  if t is Original then now_original s else now_handshake s.
Definition queue (t : Thread) (s : EvbHandshakeHelper) : list (list Action) :=
  if t is Original then queue_original s else queue_handshake s.
Local Notation S := EvbHandshakeHelper.

(** [runInEventBaseThread]. *)
Definition runInEventBaseThread (t : Thread) (f : list Action) : M S unit :=
  modify (fun s => setQueue t (queue t s ++ [f]) s).

Definition useThis : M S unit :=
  let! s := get in
  if hs_alive s then ret tt else raise (Undefined "EvbHandshakeHelper used after it was deleted").

(** A socket is destroyed on the thread of its event base. *)
Definition destroySocket (t : Thread) : M S unit :=
  let! s := get in
  if bool_decide (hs_owner s = OwnNone) then raise (Undefined "AsyncSocket used after it was deleted")
  else if bool_decide (hs_evb s = None) || bool_decide (hs_evb s = Some t)
  then modify (setSocket OwnNone None)
  else raise (Undefined "AsyncSocket destroyed outside its thread").

Definition resetHelper (t : Thread) : M S unit :=
  let! s := get in
  do! modify (setHelper None) in
  when (bool_decide (hs_owner s = OwnHelper)) (destroySocket t).

Definition deleteThis (t : Thread) : M S unit :=
  do! modify (setAlive false) in
  resetHelper t.

Definition clearGuard (t : Thread) : M S unit :=
  let! s := get in
  do! modify (setGuard false) in
  when (hs_guard s && hs_destroyed s) (deleteThis t).

(** [destroy()], by the owner. *)
Definition destroy (t : Thread) : M S unit :=
  do! useThis in
  do! modify (setDestroyed true) in
  let! s := get in
  when (negb (hs_guard s)) (deleteThis t).

Definition tryTransition (expected next : HandshakeState) : M S bool :=
  do! useThis in
  let! s := get in
  if bool_decide (hs_state s = expected)
  then do! modify (setState next) in ret true
  else ret false.

(** What a helper did: its new state, and the call of the callback that
    follows, with the socket when it is ready. *)
Definition helperDid (h : H) (cb : option Callback) : M S (list Action) :=
  do! modify (setHelper (Some h)) in
  match cb with
  | None => ret []
  | Some ConnectionReady =>
      let! s := get in
      do! modify (setSocket OwnCall (hs_evb s)) in
      ret [TryCallback ConnectionReady]
  | Some ConnectionError => ret [TryCallback ConnectionError]
  end.

(** The action of a thread, and those that follow it before the rest of the
    function; [e] is what the socket does, [lazily] whether the owner
    destroys the helper later than in its callback. *)
Definition exec (t : Thread) (e : E) (lazily : bool) (a : Action) : M S (list Action) :=
  match a with
  (* start *)
  | TryStart => let! ok := tryTransition Invalid Started in ret []
  | PostStart =>
      let! s := get in
      do! modify (setSocket OwnFunction (hs_evb s)) in
      do! runInEventBaseThread HandshakeThread [AttachSocket; StartHelper] in
      ret []
  | AttachSocket =>
      do! useThis in
      let! s := get in
      if bool_decide (hs_owner s = OwnNone) then raise (Undefined "AsyncSocket used after it was deleted")
      else if bool_decide (hs_evb s = None)
      then do! modify (setSocket (hs_owner s) (Some t)) in ret []
      else raise (CheckFailed "eventBase_ == nullptr")
  | DetachSocket =>
      let! s := get in
      if bool_decide (hs_owner s = OwnNone) then raise (Undefined "AsyncSocket used after it was deleted")
      else if bool_decide (hs_evb s = Some t)
      then do! modify (setSocket (hs_owner s) None) in ret []
      else raise (CheckFailed "eventBase_->isInEventBaseThread()")
  | StartHelper =>
      do! useThis in
      let! s := get in
      let! h := of_option (Undefined "helper_") (hs_helper s) in
      do! modify (setSocket OwnHelper (hs_evb s)) in
      let! (h, cb) := (fun s => (hStart e h, s)) in
      helperDid h cb
  (* connectionReady and connectionError *)
  | TryCallback cb =>
      let! won := tryTransition Started CallbackState in
      if won : bool then ret [DetachSocket; PostCallback cb]
      else
        do! when (bool_decide (cb = ConnectionReady)) (destroySocket t) in
        ret []
  | PostCallback cb =>
      let! s := get in
      do! when (bool_decide (cb = ConnectionReady)) (modify (setSocket OwnFunction (hs_evb s))) in
      do! useThis in
      do! runInEventBaseThread Original [AttachSocket; RunCallback cb] in
      ret []
  | RunCallback cb =>
      do! useThis in
      let! s := get in
      if hs_guard s then
        do! clearGuard t in
        do! when (bool_decide (cb = ConnectionReady)) (destroySocket t) in
        ret []
      else
        do! modify (see (SeenCallback cb)) in
        do! when (bool_decide (cb = ConnectionReady)) (modify (setSocket OwnClient (hs_evb s))) in
        ret (if lazily then [] else [DestroyMe])
  (* dropConnection *)
  | TryDrop =>
      let! s := get in
      if bool_decide (hs_state s = Invalid) then raise (CheckFailed "originalEvb_")
      else
        let! won := tryTransition Started Dropped in
        ret ([EmplaceGuard; CallDropped] ++ (if won : bool then [PostDrop] else []))
  | EmplaceGuard =>
      do! useThis in
      do! modify (setGuard true) in
      ret []
  | CallDropped =>
      do! useThis in
      do! modify (see SeenDropped) in
      ret (if lazily then [] else [DestroyMe])
  | PostDrop =>
      do! useThis in
      do! runInEventBaseThread HandshakeThread [DropHelper; ResetHelper; PostClearGuard] in
      ret []
  | DropHelper =>
      do! useThis in
      let! s := get in
      let! h := of_option (Undefined "helper_") (hs_helper s) in
      if bool_decide (hs_owner s = OwnHelper) && negb (bool_decide (hs_evb s = Some t))
      then raise (CheckFailed "eventBase_->isInEventBaseThread()")
      else
        let! (h, cb) := (fun s => (hDrop e h, s)) in
        helperDid h cb
  | ResetHelper =>
      do! useThis in
      do! resetHelper t in
      ret []
  | PostClearGuard =>
      do! useThis in
      do! runInEventBaseThread Original [ClearGuard] in
      ret []
  | ClearGuard =>
      do! useThis in
      do! clearGuard t in
      ret []
  | DestroyMe =>
      do! destroy t in
      ret []
  end.

(** ** What happens *)

Inductive Move : Type :=
| Run (t : Thread) (e : E) (lazily : bool)   (* the next action of a thread *)
| SocketEvent (e : E)                        (* the helper's socket, on its thread *)
| Drop                                       (* the owner, in the acceptor's thread *)
| Destroy.                                   (* the owner, later than in its callback *)

Definition runAction (t : Thread) (e : E) (lazily : bool) : M S unit :=
  let! s := get in
  match now t s, queue t s with
  | a :: rest, _ =>
      do! modify (setNow t rest) in
      let! next := exec t e lazily a in
      modify (fun s => setNow t (next ++ now t s) s)
  | [], f :: queue =>
      do! modify (setNow t f) in
      modify (setQueue t queue)
  | [], [] => ret tt
  end.

(** The owner drops the connection when its thread is idle, [start] has
    returned, and it has not heard of the connection; its callback lets it
    destroy the helper once. *)
Definition move (m : Move) : M S unit :=
  match m with
  | Run t e lazily => runAction t e lazily
  | SocketEvent e =>
      let! s := get in
      match hs_helper s, now_handshake s with
      | Some h, [] =>
          when (bool_decide (hPhase h = Running))
            (let! (h, cb) := (fun s => (hEvent e h, s)) in
             let! next := helperDid h cb in
             modify (setNow HandshakeThread next))
      | _, _ => ret tt
      end
  | Drop =>
      let! s := get in
      when (bool_decide (now_original s = []) && bool_decide (hs_seen s = []))
        (modify (setNow Original [TryDrop]))
  | Destroy =>
      let! s := get in
      when (bool_decide (now_original s = []) && negb (bool_decide (hs_seen s = [])) && negb (hs_destroyed s))
        (modify (setNow Original [DestroyMe]))
  end.
Definition moves (ms : list Move) : M S unit := for_each ms move.

(** [start] is called, with the socket of the acceptor's thread. *)
Definition started (h : H) : EvbHandshakeHelper :=
  mkEvb Invalid false (Some h) true false OwnCall (Some Original)
    [TryStart; DetachSocket; PostStart] [] [] [] [].
End evb.
Arguments EvbHandshakeHelper : clear implicits.
Arguments Move : clear implicits.
