(* ===== verification/HandshakeProps.v ===== *)
(** * Handshakes: correctness

    The laws of the helpers; and [EvbHandshakeHelper], for every helper with
    the laws and every interleaving of its two threads.  The helper is
    replaced by its phase, which leaves finitely many states; these are
    explored, and the exploration is carried back by a simulation. *)
From Stdlib Require Import ZArith Lia NArith Strings.Byte.
From stdpp Require Import base numbers list strings.
From S2P Require Import Prelude Buffers Handshake.
Open Scope cpp_scope.

Set Default Goal Selector "!".

(** ** The phase as a helper *)

#[export] Instance Phase_HandshakeHelper : HandshakeHelper Phase (option Callback) := {|
  hStart e p := if p is Fresh then Ok (phaseAfter e, e) else Err (Undefined "started twice");
  hEvent e p := if p is Running then Ok (phaseAfter e, e) else Err (Undefined "not running");
  hDrop e p :=
    match p with
    | Fresh => Err (Undefined "not started")
    | Running => Ok (Finished true, Some ConnectionError)
    | Finished owns => Ok (Finished owns, None)
    end;
  hPhase p := p
|}.

#[export] Instance Evb_eq_dec `{!EqDecision H} : EqDecision (EvbHandshakeHelper H).
Proof. solve_decision. Defined.

Definition allEvents : list (option Callback) := [None; Some ConnectionReady; Some ConnectionError].
Definition allMoves : list (Move (option Callback)) :=
  (t ← [Original; HandshakeThread]; e ← allEvents; l ← [true; false]; [Run t e l]) ++
  (SocketEvent <$> allEvents) ++ [Drop; Destroy].

Definition successors (s : EvbHandshakeHelper Phase) : list (EvbHandshakeHelper Phase) :=
  (fun m => (move m s).2) <$> allMoves.

Fixpoint explore {A} `{!EqDecision A} (succ : A -> list A) (fuel : nat) (todo seen : list A) : list A :=
  match fuel, todo with
  | O, _ | _, [] => seen
  | S fuel, s :: todo =>
      if bool_decide (s ∈ seen) then explore succ fuel todo seen
      else explore succ fuel (succ s ++ todo) (s :: seen)
  end.
Definition reachable : list (EvbHandshakeHelper Phase) := explore successors 5000 [started Fresh] [].

(** What is left to do of a function, of those that it posts too. *)
Definition weight (a : Action) : nat :=
  match a with
  | TryStart | AttachSocket | DetachSocket | DestroyMe | EmplaceGuard | ResetHelper | ClearGuard => 1
  | CallDropped | RunCallback _ => 2
  | PostClearGuard => 3
  | PostCallback _ => 5
  | TryCallback _ => 7
  | StartHelper | DropHelper => 8
  | PostDrop => 15
  | TryDrop => 20
  | PostStart => 11
  end.
Definition functionWork (f : list Action) : nat := sum_list (weight <$> f).
Definition work {H} (s : EvbHandshakeHelper H) : nat :=
  functionWork (now_original s) + functionWork (now_handshake s) +
  sum_list ((fun f => S (functionWork f)) <$> queue_original s) +
  sum_list ((fun f => S (functionWork f)) <$> queue_handshake s).

Definition busy {H} (t : Thread) (s : EvbHandshakeHelper H) : bool :=
  negb (bool_decide (now t s = []) && bool_decide (queue t s = [])).

(** When nothing is left to do: the handshake goes on, or the owner was
    called once; once it has destroyed the helper, the helper is gone, and
    the socket is the owner's if it was given to it, or destroyed. *)
Definition settled {H} `{!HandshakeHelper H E} (s : EvbHandshakeHelper H) : Prop :=
  (hs_seen s = [] /\ (hPhase <$> hs_helper s) = Some Running /\ hs_owner s = OwnHelper /\
     hs_evb s = Some HandshakeThread /\ hs_alive s = true) \/
  (exists seen, hs_seen s = [seen] /\ (hs_destroyed s = true -> hs_alive s = false /\ hs_helper s = None /\
     hs_owner s = if decide (seen = SeenCallback ConnectionReady) then OwnClient else OwnNone)).

(** The checks of a state: no move faults or leaves the reachable states,
    every action makes the work less, the owner is called at most once. *)
Definition checkSafe (s : EvbHandshakeHelper Phase) : bool :=
  forallb (fun m =>
    match move m s with
    | (Ok _, s') =>
        bool_decide (s' ∈ reachable) &&
        (if m is Run t _ _ then negb (busy t s) || (work s' <? work s) else true)
    | (Err _, _) => false
    end) allMoves.
Definition checkSeen (s : EvbHandshakeHelper Phase) : bool :=
  (length (hs_seen s) <=? 1) &&
  bool_decide (hs_owner s = OwnClient <-> hs_seen s = [SeenCallback ConnectionReady]) &&
  (negb (bool_decide (hs_owner s = OwnClient)) || bool_decide (hs_evb s = Some Original)).
Definition checkSettled (s : EvbHandshakeHelper Phase) : bool :=
  busy Original s || busy HandshakeThread s ||
  (bool_decide (hs_seen s = []) && bool_decide (hs_helper s = Some Running) &&
   bool_decide (hs_owner s = OwnHelper) && bool_decide (hs_evb s = Some HandshakeThread) && hs_alive s) ||
  (match hs_seen s with
   | [seen] => negb (hs_destroyed s) ||
       (negb (hs_alive s) && bool_decide (hs_helper s = None) &&
        bool_decide (hs_owner s = if decide (seen = SeenCallback ConnectionReady) then OwnClient else OwnNone))
   | _ => false
   end).

Lemma reachable_checked :
  forallb (fun s => checkSafe s && checkSeen s && checkSettled s) reachable = true.
Proof. vm_compute. reflexivity. Qed.

Lemma reachable_start : started Fresh ∈ reachable.
Proof. apply (bool_decide_eq_true_1 (started Fresh ∈ reachable)). vm_compute. reflexivity. Qed.

Lemma allMoves_complete m : m ∈ allMoves.
Proof.
  apply list_elem_of_In. destruct m as [[] [[]|] []|[[]|]| |]; vm_compute; tauto.
Qed.

#[local] Opaque reachable.

Lemma reachable_check s : s ∈ reachable -> checkSafe s = true /\ checkSeen s = true /\ checkSettled s = true.
Proof.
  intros Hs%list_elem_of_In. pose proof reachable_checked as H. rewrite forallb_forall in H.
  specialize (H s Hs). apply andb_true_iff in H as [[H1 H2]%andb_true_iff H3]. exact (conj H1 (conj H2 H3)).
Qed.

Lemma reachable_move m s :
  s ∈ reachable -> exists s', move m s = (Ok tt, s') /\ s' ∈ reachable /\
    (forall t e lazily, m = Run t e lazily -> busy t s = true -> work s' < work s).
Proof.
  intros Hs%reachable_check. destruct Hs as [H _]. unfold checkSafe in H. rewrite forallb_forall in H.
  specialize (H m (proj1 (list_elem_of_In _ _) (allMoves_complete m))).
  destruct (move m s) as [[[]|f] s'] eqn:E; [|done]. apply andb_true_iff in H as [Hr Hw].
  exists s'. split; [done|]. split; [by apply bool_decide_eq_true in Hr|].
  intros t e l -> Hb. rewrite Hb in Hw. by apply Nat.ltb_lt.
Qed.

(** ** From the phase to a helper *)

Section evb.
Context {H E : Type} `{!HandshakeHelper H E} `{!HandshakeHelperLaws H E}.
Implicit Types (s : EvbHandshakeHelper H).

Definition absEvb s : EvbHandshakeHelper Phase :=
  mkEvb (hs_state s) (hs_guard s) (hPhase <$> hs_helper s) (hs_alive s) (hs_destroyed s) (hs_owner s)
    (hs_evb s) (now_original s) (now_handshake s) (queue_original s) (queue_handshake s) (hs_seen s).
Definition wfEvb s : Prop := forall h, hs_helper s = Some h -> hWf h.

(** From [s], [c] does what [c'] does from its phase, unless [c'] faults. *)
Definition sim {A} s (c : M (EvbHandshakeHelper H) A) (c' : M (EvbHandshakeHelper Phase) A) : Prop :=
  wfEvb s -> forall x sp, c' (absEvb s) = (Ok x, sp) ->
  exists s1, c s = (Ok x, s1) /\ absEvb s1 = sp /\ wfEvb s1.

Lemma sim_ret {A} s (x : A) : sim s (ret x) (ret x).
Proof. intros Hw y sp [= <- <-]. by exists s. Qed.

Lemma sim_raise {A} s (c : M _ A) f : sim s c (raise f).
Proof. intros Hw y sp [=]. Qed.

Lemma sim_bind {A B} s (c : M _ A) c' (k : A -> M _ B) k' :
  sim s c c' -> (forall a s1, sim s1 (k a) (k' a)) -> sim s (bind c k) (bind c' k').
Proof.
  intros Hc Hk Hw y sp2. unfold bind. destruct (c' (absEvb s)) as [[a|f] sp] eqn:E'; [|done].
  destruct (Hc Hw a sp E') as (s1 & -> & <- & Hw1). by apply Hk.
Qed.

Lemma sim_get {B} s (k : _ -> M _ B) k' :
  sim s (k s) (k' (absEvb s)) -> sim s (bind get k) (bind get k').
Proof. done. Qed.

Lemma sim_modify s g g' :
  absEvb (g s) = g' (absEvb s) -> hs_helper (g s) = hs_helper s -> sim s (modify g) (modify g').
Proof.
  intros Hg Hh Hw y sp [= <- <-]. exists (g s). split_and!; [done..|]. intros h. rewrite Hh. apply Hw.
Qed.

Lemma sim_if {A} s (b : bool) (c1 c2 : M _ A) c1' c2' :
  sim s c1 c1' -> sim s c2 c2' -> sim s (if b then c1 else c2) (if b then c1' else c2').
Proof. by destruct b. Qed.

Lemma sim_when s b c c' : sim s c c' -> sim s (when b c) (when b c').
Proof. intros Hc. destruct b; [done|apply sim_ret]. Qed.

Lemma sim_wf {A} s (c : M _ A) c' : (wfEvb s -> sim s c c') -> sim s c c'.
Proof. intros Hs Hw. by apply Hs. Qed.

Lemma sim_helper_gone s : sim s (modify (setHelper None)) (modify (setHelper None)).
Proof. intros Hw y sp [= <- <-]. by exists (setHelper None s). Qed.

Ltac sim_steps :=
  repeat lazymatch goal with
    | |- sim _ (ret _) _ => apply sim_ret
    | |- sim _ _ (raise _) => apply sim_raise
    | |- sim _ (if _ then _ else _) _ => apply sim_if
    | |- sim _ (when _ _) _ => apply sim_when
    | |- sim _ (bind get _) _ =>
        apply sim_get; cbn [absEvb hs_state hs_guard hs_alive hs_destroyed hs_owner hs_evb hs_seen]
    | |- sim _ (bind _ _) _ => apply sim_bind; [|intros ? ?]
    | |- sim _ (modify (setHelper None)) _ => apply sim_helper_gone
    | |- sim _ (modify _) _ => apply sim_modify; [done|done]
    end.

Lemma sim_useThis s : sim s useThis useThis.
Proof. unfold useThis. sim_steps. Qed.

Lemma sim_destroySocket t s : sim s (destroySocket t) (destroySocket t).
Proof. unfold destroySocket. sim_steps. Qed.

Lemma sim_resetHelper t s : sim s (resetHelper t) (resetHelper t).
Proof. unfold resetHelper. sim_steps. apply sim_destroySocket. Qed.

Lemma sim_clearGuard t s : sim s (clearGuard t) (clearGuard t).
Proof. unfold clearGuard, deleteThis. sim_steps. apply sim_resetHelper. Qed.

Lemma sim_destroy t s : sim s (destroy t) (destroy t).
Proof. unfold destroy, deleteThis. sim_steps; [apply sim_useThis|apply sim_resetHelper]. Qed.

Lemma sim_tryTransition a b s : sim s (tryTransition a b) (tryTransition a b).
Proof. unfold tryTransition. sim_steps. apply sim_useThis. Qed.

Lemma sim_post t f s : sim s (runInEventBaseThread t f) (runInEventBaseThread t f).
Proof. unfold runInEventBaseThread. apply sim_modify; by destruct t. Qed.

Lemma sim_helperDid s h cb :
  hWf h -> sim s (helperDid h cb) (helperDid (hPhase h) cb).
Proof.
  intros Hh. unfold helperDid. apply sim_bind.
  - intros Hw y sp [= <- <-]. exists (setHelper (Some h) s). split_and!; [done..|]. by intros h' [= <-].
  - intros [] s1. destruct cb as [[]|]; sim_steps.
Qed.

Create HintDb sim discriminated.
Hint Resolve sim_useThis sim_destroySocket sim_resetHelper sim_clearGuard sim_destroy
  sim_tryTransition sim_post : sim.

(** The helper's part in an action. *)
Lemma sim_helper_call {A} s (call : H -> res (H * option Callback)) call' (k : H * option Callback -> M _ A) k' h :
  hWf h ->
  (forall p cb, call' (hPhase h) = Ok (p, cb) ->
     exists h', call h = Ok (h', cb) /\ hWf h' /\ hPhase h' = p) ->
  (forall h' cb, hWf h' -> sim s (k (h', cb)) (k' (hPhase h', cb))) ->
  sim s (bind (fun s => (call h, s)) k) (bind (fun sp => (call' (hPhase h), sp)) k').
Proof.
  intros Hh Hcall Hk Hw x sp. unfold bind. destruct (call' (hPhase h)) as [[p cb]|f]; [|done].
  destruct (Hcall p cb eq_refl) as (h' & -> & Hh' & <-). by apply Hk.
Qed.

Lemma sim_useThis_bind {A} s (k : unit -> M _ A) k' :
  sim s (k tt) (k' tt) -> sim s (bind useThis k) (bind useThis k').
Proof.
  intros Hk. unfold useThis. unfold sim, bind, get. simpl.
  destruct (hs_alive s); [done|]. done.
Qed.

Lemma sim_of_helper {A} s f (k : H -> M _ A) k' :
  (forall h, hs_helper s = Some h -> hWf h -> sim s (k h) (k' (hPhase h))) ->
  sim s (bind (of_option f (hs_helper s)) k) (bind (of_option f (hs_helper (absEvb s))) k').
Proof.
  intros Hk Hw. unfold of_option, bind. simpl. destruct (hs_helper s) as [h|] eqn:E0; [|done].
  simpl. by apply Hk; [|apply Hw|].
Qed.

(** The callback that a call of the helper ends with. *)
Definition callbackOf (r : res (H * option Callback)) : option Callback :=
  if r is Ok (_, cb) then cb else None.

Lemma start_call e h : hWf h -> forall p cb,
  hStart (callbackOf (hStart e h)) (hPhase h) = Ok (p, cb) ->
  exists h', hStart e h = Ok (h', cb) /\ hWf h' /\ hPhase h' = p.
Proof.
  intros Hh p cb. simpl. destruct (hPhase h) eqn:Ep; [|done..].
  destruct (hStart_law e h Hh Ep) as (h' & cb' & Eh & Hh' & Ep'). rewrite Eh. simpl.
  intros [= <- <-]. by exists h'.
Qed.

Lemma event_call e h : hWf h -> forall p cb,
  hEvent (callbackOf (hEvent e h)) (hPhase h) = Ok (p, cb) ->
  exists h', hEvent e h = Ok (h', cb) /\ hWf h' /\ hPhase h' = p.
Proof.
  intros Hh p cb. simpl. destruct (hPhase h) eqn:Ep; [done| |done].
  destruct (hEvent_law e h Hh Ep) as (h' & cb' & Eh & Hh' & Ep'). rewrite Eh. simpl.
  intros [= <- <-]. by exists h'.
Qed.

Lemma drop_call e h : hWf h -> forall p cb,
  hDrop (callbackOf (hDrop e h)) (hPhase h) = Ok (p, cb) ->
  exists h', hDrop e h = Ok (h', cb) /\ hWf h' /\ hPhase h' = p.
Proof.
  intros Hh p cb. simpl. destruct (hPhase h) as [| |owns] eqn:Ep; [done| |].
  - destruct (hDrop_running e h Hh Ep) as (h' & Eh & Hh' & Ep'). intros [= <- <-]. by exists h'.
  - destruct (hDrop_finished e h owns Hh Ep) as (h' & Eh & Hh' & Ep').
    intros [= <- <-]. by exists h'.
Qed.

Lemma exec_sim t e lazily a s : exists e', sim s (exec t e lazily a) (exec t e' lazily a).
Proof.
  destruct a; try (exists None; simpl; sim_steps; auto with sim; fail).
  - exists (default None ((fun h => callbackOf (hStart e h)) <$> hs_helper s)). unfold exec.
    apply sim_useThis_bind, sim_get, sim_of_helper. intros h Eh Hh. rewrite Eh. sim_steps.
    eapply sim_helper_call; [done|by apply start_call|]. intros h' cb Hh'. by apply sim_helperDid.
  - exists (default None ((fun h => callbackOf (hDrop e h)) <$> hs_helper s)). unfold exec.
    apply sim_useThis_bind, sim_get, sim_of_helper. intros h Eh Hh. rewrite Eh. sim_steps.
    eapply sim_helper_call; [done|by apply drop_call|]. intros h' cb Hh'. by apply sim_helperDid.
Qed.

Lemma sim_modify_bind {A} s g g' (k : unit -> M _ A) k' :
  absEvb (g s) = g' (absEvb s) -> hs_helper (g s) = hs_helper s ->
  sim (g s) (k tt) (k' tt) -> sim s (bind (modify g) k) (bind (modify g') k').
Proof.
  intros Hg Hh Hk Hw x sp. rewrite !bind_modify, <- Hg. apply Hk. intros h. rewrite Hh. apply Hw.
Qed.

Lemma move_sim m s : exists m', sim s (move m) (move m') /\
  (forall t e lazily, m = Run t e lazily -> exists e', m' = Run t e' lazily).
Proof.
  destruct m as [t e lazily|e| |].
  - assert (Hq : now t (absEvb s) = now t s /\ queue t (absEvb s) = queue t s) by (by destruct t).
    destruct (now t s) as [|a rest] eqn:En.
    + exists (Run t None lazily). split; [|intros ? ? ? [= <- <- <-]; eauto]. unfold move, runAction. apply sim_get. destruct Hq as [Hn Hq]. rewrite Hn, ?Hq, En.
      destruct (queue t s); sim_steps; by destruct t.
    + destruct (exec_sim t e lazily a (setNow t rest s)) as [e' He]. exists (Run t e' lazily).
      split; [|intros ? ? ? [= <- <- <-]; eauto].
      unfold move, runAction. apply sim_get. destruct Hq as [Hn Hq]. rewrite Hn, ?Hq, En.
      apply sim_modify_bind; [by destruct t..|]. apply sim_bind; [exact He|].
      intros next s1. apply sim_modify; by destruct t.
  - exists (SocketEvent (default None ((fun h => callbackOf (hEvent e h)) <$> hs_helper s))).
    split; [|done]. unfold move. apply sim_get, sim_wf. intros Hw. cbn [absEvb hs_helper now_handshake].
    destruct (hs_helper s) as [h|] eqn:Eh; [|apply sim_ret]. cbn [fmap option_fmap option_map default].
    destruct (now_handshake s); [|apply sim_ret]. apply sim_when.
    assert (Hh : hWf h) by (by apply Hw).
    eapply sim_helper_call; [done|by apply event_call|].
    intros h' cb Hh'. apply sim_bind; [by apply sim_helperDid|]. intros next s1. by apply sim_modify.
  - exists Drop. split; [|done]. unfold move. sim_steps.
  - exists Destroy. split; [|done]. unfold move. sim_steps.
Qed.

(** The states of every run. *)
Definition fine s : Prop := wfEvb s /\ absEvb s ∈ reachable.

Lemma fine_start h : hWf h -> hPhase h = Fresh -> fine (started h).
Proof.
  intros Hh Ep. split; [by intros h' [= <-]|]. unfold absEvb, started. simpl. rewrite Ep. exact reachable_start.
Qed.

Lemma work_abs s : work (absEvb s) = work s.
Proof. done. Qed.

Lemma busy_abs t s : busy t (absEvb s) = busy t s.
Proof. by destruct t. Qed.

Lemma fine_move m s : fine s ->
  exists s', move m s = (Ok tt, s') /\ fine s' /\
    (forall t e lazily, m = Run t e lazily -> busy t s = true -> work s' < work s).
Proof.
  intros [Hw Hr]. destruct (move_sim m s) as (m' & Hsim & Hrun).
  destruct (reachable_move m' _ Hr) as (sp & Em & Hr' & Hwork).
  destruct (Hsim Hw tt sp Em) as (s' & E' & <- & Hw'). exists s'. split; [done|]. split; [done|].
  intros t e lazily -> Hb. destruct (Hrun _ _ _ eq_refl) as [e' ->].
  rewrite <- !work_abs. eapply Hwork; [done|by rewrite busy_abs].
Qed.
Lemma fine_moves ms : forall s, fine s -> exists s', moves ms s = (Ok tt, s') /\ fine s'.
Proof.
  induction ms as [|m ms IH]; intros s Hs; [by exists s|].
  destruct (fine_move m s Hs) as (s1 & Em & Hs1 & _). destruct (IH s1 Hs1) as (s2 & Ems & Hs2).
  exists s2. split; [|done]. unfold moves. cbn [for_each]. by rewrite (bind_Ok _ _ _ _ _ Em).
Qed.

Lemma fine_seen s : fine s ->
  length (hs_seen s) <= 1 /\
  (hs_owner s = OwnClient <-> hs_seen s = [SeenCallback ConnectionReady]) /\
  (hs_owner s = OwnClient -> hs_evb s = Some Original).
Proof.
  intros [_ (_ & H1 & _)%reachable_check]. unfold checkSeen in H1. cbn [absEvb hs_seen hs_owner hs_evb] in H1.
  apply andb_true_iff in H1 as [[Hl Hc]%andb_true_iff Ht]. split; [by apply Nat.leb_le|].
  split; [by apply bool_decide_eq_true in Hc|].
  intros Ho. rewrite bool_decide_true in Ht by done. by apply bool_decide_eq_true in Ht.
Qed.

Lemma fine_settled s : fine s -> busy Original s = false -> busy HandshakeThread s = false -> settled s.
Proof.
  intros [_ (_ & _ & Hc)%reachable_check] H1 H2. unfold checkSettled in Hc. rewrite !busy_abs, H1, H2 in Hc.
  cbn [orb absEvb hs_seen hs_owner hs_evb hs_alive hs_helper hs_destroyed] in Hc.
  apply orb_true_iff in Hc as [Hc|Hc]; [left|right].
  - rewrite !andb_true_iff, !bool_decide_eq_true in Hc. by destruct Hc as [[[[? ?] ?] ?] ?].
  - destruct (hs_seen s) as [|seen [|? ?]]; [done| |done]. exists seen. split; [done|]. intros Hd. rewrite Hd in Hc.
    cbn [negb orb] in Hc. rewrite !andb_true_iff, !bool_decide_eq_true, negb_true_iff in Hc.
    destruct Hc as [[? Hh] ?]. split_and!; [done| |done]. by destruct (hs_helper s).
Qed.

(** C24. [EvbHandshakeHelper], around any helper with the laws: whatever the
    order in which the acceptor's thread, the handshake thread, the socket and
    the owner's [dropConnection] act, nothing is used after it was deleted, no
    socket changes its thread or is destroyed in a wrong one, no [CHECK]
    fails; the owner is called at most once, has the socket exactly when it was
    told that it is ready, and gets it attached to its own thread. *)
Theorem evb_handshake_safe (h : H) (ms : list (Move E)) :
  hWf h -> hPhase h = Fresh ->
  exists s, moves ms (started h) = (Ok tt, s) /\ length (hs_seen s) <= 1 /\
    (hs_owner s = OwnClient <-> hs_seen s = [SeenCallback ConnectionReady]) /\
    (hs_owner s = OwnClient -> hs_evb s = Some Original).
Proof.
  intros Hh Ep. destruct (fine_moves ms _ (fine_start h Hh Ep)) as (s & Ems & Hs).
  exists s. split; [done|]. by apply fine_seen.
Qed.

(** C25. [EvbHandshakeHelper] finishes: every action of a thread leaves less
    work, and when both threads are idle either the handshake goes on, on its
    thread, or the owner was called exactly once and, once it has destroyed
    the helper, the helper is gone and the socket is the owner's, if it was
    told that it is ready, or destroyed. *)
Theorem evb_handshake_completes (h : H) (ms : list (Move E)) s :
  hWf h -> hPhase h = Fresh -> moves ms (started h) = (Ok tt, s) ->
  (forall t e lazily, busy t s = true ->
     exists s', move (Run t e lazily) s = (Ok tt, s') /\ work s' < work s) /\
  (busy Original s = false -> busy HandshakeThread s = false -> settled s).
Proof.
  intros Hh Ep Ems. destruct (fine_moves ms _ (fine_start h Hh Ep)) as (s' & Ems' & Hs).
  rewrite Ems in Ems'. injection Ems' as <-. split; [|by apply fine_settled].
  intros t e lazily Hb. destruct (fine_move (Run t e lazily) s Hs) as (s' & Em & _ & Hw). eauto.
Qed.
End evb.

(** ** The helpers have the laws *)

#[export] Instance SSL_laws : HandshakeHelperLaws SSLAcceptorHandshakeHelper SSLEvent.
Proof.
  refine {| hWf h := ssl_handshaking h = true -> ssl_socket_ h = true /\ ssl_callback_ h = true |};
    unfold hStart, hEvent, hDrop, hPhase, SSL_HandshakeHelper, sslPhase.
  - intros e h _ _. destruct e; eexists _, _; split; done.
  - intros e [[] [] []] Hw; simpl in *; try (by destruct Hw); try done.
    intros _. destruct e; eexists _, _; split; done.
  - intros e [[] [] []] Hw; simpl in *; try (by destruct Hw); try done.
    intros _. eexists. done.
  - intros e [[] [] []] owns Hw; simpl in *; try done; intros [= <-]; eexists; done.
Defined.

Section peeking.
Context {H E : Type} `{!HandshakeHelper H E} `{!HandshakeHelperLaws H E}.
Context (peekCallbacks : list (list byte -> res (option H))) (numBytes : nat).
(** On the bytes that were asked for, the peek callbacks return, and the
    helper they make is new. *)
Context (getHelper_new : forall getHelper bytes, getHelper ∈ peekCallbacks -> length bytes = numBytes ->
  exists o, getHelper bytes = Ok o /\ forall h, o = Some h -> hWf h /\ hPhase h = Fresh).
#[local] Abbreviation Peeking := (PeekingAcceptorHandshakeHelper H).
#[local] Existing Instance Peeking_HandshakeHelper.

Definition peekingWf (p : Peeking) : Prop :=
  match pk_socket_ p, pk_helper_ p with
  | false, None => True
  | true, None =>
      match pk_peeker_ p with
      | Some read => pk_callback_ p = true /\ length read <= numBytes
      | None => True
      end
  | false, Some h => pk_peeker_ p = None /\ hWf h /\ hPhase h <> Fresh
  | true, Some _ => False
  end.

Lemma chooseHelper_new bytes : length bytes = numBytes ->
  exists o, chooseHelper peekCallbacks bytes = Ok o /\ forall h, o = Some h -> hWf h /\ hPhase h = Fresh.
Proof.
  intros Hb. assert (Hin : forall g, g ∈ peekCallbacks -> g ∈ peekCallbacks) by done. revert Hin.
  generalize peekCallbacks at 1 3. intros l. induction l as [|g l IH]; intros Hin; [by exists None|].
  destruct (getHelper_new g bytes) as (o & Eo & Ho); [apply Hin; by left|done|].
  simpl. rewrite Eo. simpl. destruct o as [h|].
  - by exists (Some h).
  - apply IH. intros g' Hg'. apply Hin. by right.
Qed.

Lemma phaseAfter_started cb : phaseAfter cb <> Fresh.
Proof. by destruct cb as [[]|]. Qed.

Lemma peekSuccess_after bytes e peeker :
  length bytes = numBytes ->
  exists p' cb, peekSuccess peekCallbacks bytes e (mkPeeking true None peeker true) = Ok (p', cb) /\
    peekingWf p' /\ peekingPhase p' = phaseAfter cb.
Proof.
  intros Hb. unfold peekSuccess. destruct (chooseHelper_new bytes Hb) as (o & -> & Ho). simpl.
  destruct o as [h|].
  - destruct (Ho h eq_refl) as [Hw Ep]. destruct (hStart_law e h Hw Ep) as (h' & cb & -> & Hw' & Ep').
    simpl. eexists _, _. split; [done|]. unfold peekingWf, peekingPhase. simpl. split_and!; [done|done| |done].
    rewrite Ep'. apply phaseAfter_started.
  - eexists _, _. split; done.
Qed.

Lemma peekingEvent_after e p :
  peekingWf p -> peekingPhase p = Running ->
  exists p' cb, peekingEvent peekCallbacks numBytes e p = Ok (p', cb) /\ peekingWf p' /\
    peekingPhase p' = phaseAfter cb.
Proof.
  destruct p as [socket [h|] [read|] callback]; unfold peekingWf, peekingPhase; simpl;
    destruct socket; try done; try naive_solver.
  - intros (_ & Hw & _) Ep. unfold peekingEvent. simpl.
    destruct (hEvent_law (pe_helper e) h Hw Ep) as (h' & cb & -> & Hw' & Ep'). simpl.
    eexists _, _. split; [done|]. simpl. split_and!; [done|done| |done]. rewrite Ep'. apply phaseAfter_started.
  - intros [-> Hl] _. unfold peekingEvent. simpl. destruct (pe_data e) as [chunk|].
    + unfold readDataAvailable. set (read' := read ++ _).
      assert (Hr : length read' <= numBytes) by (unfold read'; rewrite length_app, length_take; lia).
      rewrite (proj2 (Nat.ltb_ge numBytes (length read')) Hr). simpl.
      destruct (Nat.eqb_spec (length read') numBytes) as [Hn|Hn]; [by apply peekSuccess_after|].
      eexists _, _. split; [done|]. simpl. done.
    + eexists _, _. split; [done|]. simpl. done.
Qed.

Definition Peeking_laws : @HandshakeHelperLaws Peeking (PeekEvent E) (Peeking_HandshakeHelper peekCallbacks numBytes).
Proof.
  refine {| hWf := peekingWf : Peeking -> Prop |};
    unfold hStart, hEvent, hDrop, hPhase, Peeking_HandshakeHelper.
  - intros e [socket h peeker callback]. unfold peekingWf at 1, peekingPhase at 1. simpl.
    destruct socket, h as [h|]; try done; [by destruct peeker|intros (_ & _ & Hn) Ep; by destruct Hn|].
    intros _ _. unfold peekingStart, peekerStart. simpl. destruct (Nat.eqb_spec numBytes 0) as [Hn|Hn].
    + apply peekSuccess_after. by rewrite Hn.
    + eexists _, _. split; [done|]. unfold peekingWf. simpl. split; [|done]. split; [done|lia].
  - apply peekingEvent_after.
  - intros e [socket h peeker callback]. unfold peekingWf at 1, peekingPhase at 1. simpl.
    destruct socket, h as [h|]; try done; [destruct peeker; [|done]|].
    + intros [-> _] _. eexists. unfold peekingDrop. simpl. done.
    + intros (-> & Hw & _) Ep. unfold peekingDrop. simpl.
      destruct (hDrop_running (pe_helper e) h Hw Ep) as (h' & -> & Hw' & Ep'). simpl.
      eexists. split; [done|]. unfold peekingWf, peekingPhase. simpl. split_and!; [done|done| |done].
      by rewrite Ep'.
  - intros e [socket h peeker callback] owns. unfold peekingWf at 1, peekingPhase at 1. simpl.
    destruct socket, h as [h|]; try done; [destruct peeker; [done|]|].
    + intros _ [= <-]. eexists. unfold peekingDrop. simpl. done.
    + intros (-> & Hw & _) Ep. unfold peekingDrop. simpl.
      destruct (hDrop_finished (pe_helper e) h owns Hw Ep) as (h' & -> & Hw' & Ep'). simpl.
      eexists. split; [done|]. unfold peekingWf, peekingPhase. simpl. split_and!; [done|done| |done].
      by rewrite Ep'.
Defined.
End peeking.

(** ** Peeking *)

Section chunks.
Context {H E : Type} `{!HandshakeHelper H E}.
Context (peekCallbacks : list (list byte -> res (option H))) (numBytes : nat).

(** The socket has the chunks, one after the other. *)
Fixpoint feed (chunks : list (list byte)) (e : E) (p : PeekingAcceptorHandshakeHelper H) :
    res (PeekingAcceptorHandshakeHelper H * option Callback) :=
  match chunks with
  | [] => Ok (p, None)
  | chunk :: chunks =>
      try! (p, cb) := peekingEvent peekCallbacks numBytes (mkPeekEvent (Some chunk) e) p in
      match cb with
      | None => feed chunks e p
      | Some cb => Ok (p, Some cb)
      end
  end.

Lemma feed_reading chunks e : forall read,
  length (read ++ concat chunks) < numBytes ->
  feed chunks e (mkPeeking true None (Some read) true) =
    Ok (mkPeeking true None (Some (read ++ concat chunks)) true, None).
Proof.
  induction chunks as [|chunk chunks IH]; intros read; cbn [concat]; [by rewrite app_nil_r|].
  rewrite app_assoc. intros Hl. cbn [feed]. unfold peekingEvent, readDataAvailable.
  cbn [pk_peeker_ pe_data pk_socket_ pk_helper_ pk_callback_].
  assert (Hr : length (read ++ chunk) < numBytes) by (rewrite length_app in Hl; lia).
  rewrite (take_ge chunk) by (rewrite length_app in Hr; lia).
  rewrite (proj2 (Nat.ltb_ge _ _)) by lia. rewrite (proj2 (Nat.eqb_neq _ _)) by lia. by apply IH.
Qed.

(** The first bytes decide.  However the bytes of a connection arrive,
    the peeking helper calls nobody back before it has as many as it asked
    for, and then chooses the helper by exactly these, the first ones. *)
Lemma peeking_by_first_bytes (chunks : list (list byte)) (chunk : list byte) (e : E) :
  length (concat chunks) < numBytes -> numBytes <= length (concat chunks ++ chunk) ->
  (try! (p, cb) := peekingStart peekCallbacks numBytes (mkPeekEvent None e) (newPeeking (H:=H)) in
   try! (p, cb') := feed chunks e p in
   Ok (p, cb, cb')) = Ok (mkPeeking true None (Some (concat chunks)) true, None, None) /\
  feed (chunks ++ [chunk]) e (mkPeeking true None (Some []) true) =
    peekSuccess peekCallbacks (take numBytes (concat chunks ++ chunk)) e (mkPeeking true None None true).
Proof.
  intros Hl Hg. assert (Hf : feed chunks e (mkPeeking true None (Some []) true) =
    Ok (mkPeeking true None (Some (concat chunks)) true, None)) by (by apply (feed_reading chunks e [])).
  split.
  - unfold peekingStart, peekerStart. cbn [pk_helper_ newPeeking pe_helper pk_socket_ pk_callback_].
    destruct (Nat.eqb_spec numBytes 0); [lia|]. cbn [res_bind]. by rewrite Hf.
  - assert (Happ : forall cs read, length (read ++ concat cs) < numBytes ->
      feed (cs ++ [chunk]) e (mkPeeking true None (Some read) true) =
      feed [chunk] e (mkPeeking true None (Some (read ++ concat cs)) true)).
    { clear. induction cs as [|c cs IH]; intros read; cbn [concat]; [by rewrite app_nil_r|].
      rewrite app_assoc. intros Hl. cbn [app feed]. unfold peekingEvent at 1, readDataAvailable.
      cbn [pk_peeker_ pe_data pk_socket_ pk_helper_ pk_callback_].
      assert (Hr : length (read ++ c) < numBytes) by (rewrite length_app in Hl; lia).
      rewrite (take_ge c) by (rewrite length_app in Hr; lia).
      rewrite (proj2 (Nat.ltb_ge _ _)) by lia. rewrite (proj2 (Nat.eqb_neq _ _)) by lia. by apply IH. }
    rewrite Happ by done. cbn [app feed]. unfold peekingEvent, readDataAvailable.
    cbn [pk_peeker_ pe_data pk_socket_ pk_helper_ pk_callback_ pe_helper].
    rewrite take_app_ge by lia.
    set (read := concat chunks ++ take (numBytes - length (concat chunks)) chunk).
    assert (Hr : length read = numBytes).
    { unfold read. rewrite length_app, length_take. rewrite length_app in Hg. lia. }
    rewrite Hr, Nat.ltb_irrefl, Nat.eqb_refl.
    destruct (peekSuccess peekCallbacks read e _) as [[p' [cb|]]|f]; done.
Qed.
End chunks.

(** ** Witnesses *)

Definition securePeeking : list (list byte -> res (option SSLAcceptorHandshakeHelper)) :=
  [fun _ => Ok (Some newSSLHelper)].
#[local] Instance secure_helper : HandshakeHelper (PeekingAcceptorHandshakeHelper SSLAcceptorHandshakeHelper)
    (PeekEvent SSLEvent) := Peeking_HandshakeHelper securePeeking 3.
#[local] Instance secure_laws : HandshakeHelperLaws (PeekingAcceptorHandshakeHelper SSLAcceptorHandshakeHelper)
    (PeekEvent SSLEvent).
Proof.
  apply Peeking_laws. intros g bytes Hg%list_elem_of_singleton _. subst g. exists (Some newSSLHelper).
  split; [done|]. by intros h [= <-].
Defined.

Definition secureStart : PeekingAcceptorHandshakeHelper SSLAcceptorHandshakeHelper := newPeeking.

Definition quietly (n : nat) (t : Thread) : list (Move (PeekEvent SSLEvent)) :=
  repeat (Run t (mkPeekEvent None HandshakePending) false) n.
(** The handshake ends while the owner drops the connection. *)
Definition raced : list (Move (PeekEvent SSLEvent)) :=
  quietly 3 Original ++ quietly 3 HandshakeThread ++
  [SocketEvent (mkPeekEvent (Some [x16; x03; x01]) HandshakePending);
   SocketEvent (mkPeekEvent None HandshakeSuc); Drop] ++
  quietly 3 HandshakeThread ++ quietly 9 Original.

Lemma evb_handshake_safe_witness :
  exists s, moves raced (started secureStart) = (Ok tt, s) /\ hs_seen s = [SeenDropped] /\ length (hs_seen s) <= 1.
Proof.
  destruct (evb_handshake_safe secureStart raced ltac:(vm_compute; exact I) eq_refl) as (s & E & Hl & _). exists s.
  split; [exact E|]. split; [|exact Hl]. vm_compute in E. injection E as <-. reflexivity.
Defined.

Lemma evb_handshake_completes_witness :
  exists s, moves raced (started secureStart) = (Ok tt, s) /\ settled s.
Proof.
  eexists. split; [vm_compute; reflexivity|].
  apply (evb_handshake_completes secureStart raced _ ltac:(vm_compute; exact I) eq_refl); vm_compute; reflexivity.
Defined.

Lemma peeking_by_first_bytes_witness :
  feed [plaintextGetHelper; defaultGetHelper] kPeekCount ([[x47; x45; x54]; [x20]] ++ [repeat x2f 20])
    (HandshakePending, tt) (mkPeeking true None (Some []) true) =
  Ok (mkPeeking false (Some (inr (Unencrypted true))) None false, Some ConnectionReady).
Proof.
  destruct (peeking_by_first_bytes [plaintextGetHelper; defaultGetHelper] kPeekCount
    [[x47; x45; x54]; [x20]] (repeat x2f 20) (HandshakePending, tt)
    ltac:(vm_compute; lia) ltac:(vm_compute; lia)) as [_ H].
  rewrite H. vm_compute. reflexivity.
Defined.

(** ** A plaintext connection that is dropped *)

(** The plaintext helper has no law of [dropConnection]: it fails a [CHECK].
    Behind an [EvbHandshakeHelper] it is reached when the owner drops the
    connection just before its first bytes are read. *)
#[local] Instance accepted_helper : HandshakeHelper (PeekingAcceptorHandshakeHelper AcceptedHelper)
    (PeekEvent (SSLEvent * unit)) := Peeking_HandshakeHelper [plaintextGetHelper; defaultGetHelper] kPeekCount.

Lemma plaintext_drop_crashes :
  let none := mkPeekEvent None (HandshakePending, tt) in
  (moves (repeat (Run Original none false) 3 ++ repeat (Run HandshakeThread none false) 3 ++
    [Drop; Run Original none false;
     SocketEvent (mkPeekEvent (Some (repeat x47 9)) (HandshakePending, tt))] ++
    repeat (Run HandshakeThread none false) 1 ++ repeat (Run Original none false) 4 ++
    repeat (Run HandshakeThread none false) 2) (started newPeeking)).1 = Err (CheckFailed "Nothing to drop").
Proof. vm_compute. reflexivity. Qed.
