(* ===== verification/Acceptor.v ===== *)
(** * The acceptor (src/wangle/acceptor/Acceptor, AcceptorHandshakeManager,
      LoadShedConfiguration)

    [Acceptor] takes accepted sockets, sheds load, starts handshakes and hands
    ready connections to the application; it is drained or dropped when it
    stops.  [AcceptorHandshakeManager] is the managed connection of a
    handshake, around a helper of the class [HandshakeHelper].

    Of the connection manager only what the acceptor sees is used here: its
    connections, front first, and the call of [onEmpty] when the last one is
    removed; when connections close is up to the environment. *)
From Stdlib Require Import ZArith Lia.
From stdpp Require Import base numbers list strings.
From S2P Require Import Prelude Handshake.
Open Scope cpp_scope.

Set Default Goal Selector "!".

(** ** Load shedding *)

Section shedding.
(** Addresses without ports, and [SocketAddress::prefixMatch]. *)
Context {IP : Type} `{!EqDecision IP} (prefixMatch : IP -> IP -> Z -> bool).

Record NetworkAddress : Type := mkNetwork {
  net_addr_ : IP;
  prefixLen_ : Z
}.
Definition contains (n : NetworkAddress) (addr : IP) : bool := prefixMatch (net_addr_ n) addr (prefixLen_ n).

Record LoadShedConfiguration : Type := mkLoadShed {
  whitelistAddrs_ : list IP;
  whitelistNetworks_ : list NetworkAddress;
  maxConnections_ : Z;
  maxActiveConnections_ : Z
}.

Definition isWhitelisted (config : LoadShedConfiguration) (address : IP) : bool :=
  bool_decide (address ∈ whitelistAddrs_ config) ||
  existsb (fun n => contains n address) (whitelistNetworks_ config).

(** What the counters say: the connections of the worker and their limit, if
    there is a connection counter, and the counts of all acceptors. *)
Record LoadCounts : Type := mkCounts {
  connectionCounter_ : option (Z * Z);
  connectionCount : Z;
  activeConnectionCount : Z
}.

Definition canAccept (config : LoadShedConfiguration) (counts : LoadCounts) (address : IP) : bool :=
  match connectionCounter_ counts with
  | None => true
  | Some (currentConnections, maxConnections) =>
      let totalConnLimit := maxConnections_ config in
      if (totalConnLimit =? 0)%Z then true
      else if (currentConnections <? maxConnections)%Z then true
      else if isWhitelisted config address then true
      else
        let totalConnExceeded := (0 <? totalConnLimit)%Z && (totalConnLimit <=? connectionCount counts)%Z in
        let activeConnLimit := maxActiveConnections_ config in
        let activeConnExceeded :=
          negb totalConnExceeded && (0 <? activeConnLimit)%Z &&
          (activeConnLimit <=? activeConnectionCount counts)%Z in
        negb activeConnExceeded && negb totalConnExceeded
  end.
End shedding.

(** ** The acceptor *)

Inductive State : Type := kInit | kRunning | kDraining | kDone.
#[export] Instance State_eq_dec : EqDecision State.
Proof. solve_decision. Defined.
Definition stateNumber (s : State) : nat :=
  match s with kInit => 0 | kRunning => 1 | kDraining => 2 | kDone => 3 end.

(** What the acceptor does outside. *)
Inductive AcceptorCall : Type :=
| ResetSocket                    (* a connection that is shed *)
| DroppedHandshake               (* SSLErrorEnum::DROPPED *)
| OnNewConnection (c : nat)
| ClosedSocket                   (* a ready connection that comes too late *)
| OnConnectionsDrained.
#[export] Instance AcceptorCall_eq_dec : EqDecision AcceptorCall.
Proof. solve_decision. Defined.

Section acceptor.
Context {H E : Type} `{!HandshakeHelper H E}.
(** [startHelper] makes a new helper. *)
Context (newHelper : H).

(** A managed connection: a handshake under way, or one of the application. *)
Inductive Connection : Type :=
| Handshaking (helper_ : H)
| Application.

Record Acceptor : Type := mkAcceptor {
  state_ : State;
  numPendingSSLConns_ : Z;
  forceShutdownInProgress_ : bool;
  maxConcurrentSSLHandshakes : Z;
  downstreamConnectionManager_ : option (list (nat * Connection));
  nextConnection : nat;
  acceptorCalls : list AcceptorCall
}.
Local Notation S := Acceptor.

Definition newAcceptor (max : Z) : S := mkAcceptor kInit 0 false max None 0 [].

Definition setState x (s : S) : S :=
  mkAcceptor x (numPendingSSLConns_ s) (forceShutdownInProgress_ s) (maxConcurrentSSLHandshakes s)
    (downstreamConnectionManager_ s) (nextConnection s) (acceptorCalls s).
Definition setPendingSSL x (s : S) : S :=
  mkAcceptor (state_ s) x (forceShutdownInProgress_ s) (maxConcurrentSSLHandshakes s)
    (downstreamConnectionManager_ s) (nextConnection s) (acceptorCalls s).
Definition setForce x (s : S) : S :=
  mkAcceptor (state_ s) (numPendingSSLConns_ s) x (maxConcurrentSSLHandshakes s)
    (downstreamConnectionManager_ s) (nextConnection s) (acceptorCalls s).
Definition setManager x (s : S) : S :=
  mkAcceptor (state_ s) (numPendingSSLConns_ s) (forceShutdownInProgress_ s) (maxConcurrentSSLHandshakes s)
    x (nextConnection s) (acceptorCalls s).
Definition setNext x (s : S) : S :=
  mkAcceptor (state_ s) (numPendingSSLConns_ s) (forceShutdownInProgress_ s) (maxConcurrentSSLHandshakes s)
    (downstreamConnectionManager_ s) x (acceptorCalls s).
Definition call (x : AcceptorCall) : M S unit :=
  modify (fun s => mkAcceptor (state_ s) (numPendingSSLConns_ s) (forceShutdownInProgress_ s)
    (maxConcurrentSSLHandshakes s) (downstreamConnectionManager_ s) (nextConnection s)
    (acceptorCalls s ++ [x])).

(** [getConnectionManager()->], which is null until [init] and after the
    acceptor is done. *)
Definition connections : M S (list (nat * Connection)) :=
  let! s := get in
  of_option (Undefined "downstreamConnectionManager_") (downstreamConnectionManager_ s).

(** [initDownstreamConnectionManager]. *)
Definition initDownstreamConnectionManager : M S unit :=
  do! modify (setState kRunning) in
  modify (setManager (Some [])).

Definition checkDrained : M S unit :=
  let! s := get in
  if negb (bool_decide (state_ s = kDraining)) then raise (CheckFailed "state_ == State::kDraining")
  else if forceShutdownInProgress_ s then ret tt
  else
    let! conns := connections in
    if negb (length conns =? 0) || negb (numPendingSSLConns_ s =? 0)%Z then ret tt
    else
      do! modify (setManager None) in
      do! modify (setState kDone) in
      call OnConnectionsDrained.
Definition checkDrainedIfDraining : M S unit :=
  let! s := get in
  when (bool_decide (state_ s = kDraining)) checkDrained.
Definition onEmpty : M S unit := checkDrainedIfDraining.

(** [ConnectionManager::addConnection] and [removeConnection]. *)
Definition addConnection (c : nat) (x : Connection) : M S unit :=
  let! conns := connections in
  modify (setManager (Some ((c, x) :: conns))).
Definition removeConnection (c : nat) : M S unit :=
  let! conns := connections in
  match assoc c conns with
  | None => ret tt
  | Some _ =>
      let rest := without c conns in
      do! modify (setManager (Some rest)) in
      when (length rest =? 0) onEmpty
  end.

Definition freshConnection : M S nat :=
  let! s := get in
  do! modify (setNext (nextConnection s + 1)) in
  ret (nextConnection s).

(** [connectionReady]; the application may manage its connection. *)
Definition connectionReady (managed : bool) : M S unit :=
  let! s := get in
  if stateNumber (state_ s) <? stateNumber kDraining then
    let! c := freshConnection in
    do! call (OnNewConnection c) in
    when managed (addConnection c Application)
  else call ClosedSocket.

Definition decrementPending : M S unit :=
  let! s := get in
  if (0 <? numPendingSSLConns_ s)%Z then modify (setPendingSSL (u64 (numPendingSSLConns_ s - 1)))
  else raise (CheckFailed "numPendingSSLConns_ > 0").
Definition sslConnectionReady (managed : bool) : M S unit :=
  do! decrementPending in
  do! connectionReady managed in
  checkDrainedIfDraining.
Definition sslConnectionError : M S unit :=
  do! decrementPending in
  checkDrainedIfDraining.

(** ** AcceptorHandshakeManager *)

(** Its [connectionReady] and [connectionError], which destroy it. *)
Definition handshakeCallback (c : nat) (managed : bool) (cb : Callback) : M S unit :=
  do! removeConnection c in
  match cb with
  | ConnectionReady => sslConnectionReady managed
  | ConnectionError => sslConnectionError
  end.

(** The helper of a connection did something. *)
Definition setHelperOf (c : nat) (h : H) (conns : list (nat * Connection)) : list (nat * Connection) :=
  (fun p => if bool_decide (p.1 = c) then (c, Handshaking h) else p) <$> conns.
Definition helperCalled (c : nat) (managed : bool) (r : res (H * option Callback)) : M S (option Callback) :=
  let! (h, cb) := (fun s => (r, s)) in
  do! modify (fun s => setManager (setHelperOf c h <$> downstreamConnectionManager_ s) s) in
  do! match cb with
      | Some cb => handshakeCallback c managed cb
      | None => ret tt
      end in
  ret cb.

(** [start]: when the helper calls back at once, the manager is gone before
    [startHandshakeTimeout]. *)
Definition startHandshake (e : E) (managed : bool) : M S unit :=
  let! c := freshConnection in
  do! addConnection c (Handshaking newHelper) in
  let! cb := helperCalled c managed (hStart e newHelper) in
  match cb with
  | Some _ => raise (Undefined "AcceptorHandshakeManager used after it was deleted")
  | None => let! _ := connections in ret tt
  end.

(** ** Accepting *)

(** [processEstablishedConnection]; [ssl] is whether there is a default
    context. *)
Definition processEstablishedConnection (ssl : bool) (e : E) (managed : bool) : M S unit :=
  if ssl then
    do! modify (fun s => setPendingSSL (u64 (numPendingSSLConns_ s + 1)) s) in
    let! s := get in
    if (maxConcurrentSSLHandshakes s <? numPendingSSLConns_ s)%Z then
      do! call DroppedHandshake in
      sslConnectionError
    else startHandshake e managed
  else connectionReady managed.

Definition connectionAccepted (accepted ssl : bool) (e : E) (managed : bool) : M S unit :=
  if negb accepted then call ResetSocket else processEstablishedConnection ssl e managed.

(** ** Stopping *)

(** [acceptStopped]; [closing] are the connections that close while they are
    told to, inside [drainAllConnections]. *)
Definition acceptStopped (closing : list nat) : M S unit :=
  let! s := get in
  do! match downstreamConnectionManager_ s with
      | Some _ => for_each closing removeConnection
      | None => ret tt
      end in
  let! s := get in
  when (negb (bool_decide (state_ s = kDone)))
    (do! modify (setState kDraining) in
     checkDrained).

(** What [dropConnection] of a managed connection does; the connection is no
    longer in the list. *)
Definition dropped (e : E) (x : Connection) : M S unit :=
  match x with
  | Application => ret tt
  | Handshaking h =>
      let! (h, cb) := (fun s => (hDrop e h, s)) in
      match cb with
      | Some ConnectionReady => do! connections in sslConnectionReady false
      | Some ConnectionError => do! connections in sslConnectionError
      | None => ret tt
      end
  end.

(** [ConnectionManager::dropAllConnections] and the acceptor's. *)
Definition dropAllLoop (e : E) (conns : list (nat * Connection)) : M S unit :=
  for_each conns (fun p =>
    do! modify (fun s => setManager (without p.1 <$> downstreamConnectionManager_ s) s) in
    dropped e p.2).
Definition dropAllConnections (e : E) : M S unit :=
  let! s := get in
  do! match downstreamConnectionManager_ s with
      | None => ret tt
      | Some conns =>
          do! modify (setForce true) in
          do! dropAllLoop e conns in
          do! onEmpty in
          let! conns := connections in
          if negb (length conns =? 0) then raise (CheckFailed "getNumConnections() == 0")
          else modify (setManager None)
      end in
  let! s := get in
  if negb (numPendingSSLConns_ s =? 0)%Z then raise (CheckFailed "numPendingSSLConns_ == 0")
  else
    do! modify (setState kDone) in
    call OnConnectionsDrained.

(** [dropConnections], of the [n] connections at the front. *)
Definition dropConnections (e : E) (n : nat) : M S unit :=
  let! s := get in
  match downstreamConnectionManager_ s with
  | None => ret tt
  | Some conns =>
      do! modify (setForce true) in
      for_each (take n conns) (fun p =>
        do! removeConnection p.1 in
        dropped e p.2)
  end.

(** ** What happens to an acceptor *)

Inductive AcceptorEvent : Type :=
| Accepted (accepted ssl : bool) (e : E) (managed : bool)
| HandshakeEvent (c : nat) (e : E) (managed : bool)
| HandshakeTimeout (c : nat) (e : E)
| Closed (c : nat)                       (* an application's connection *)
| AcceptStopped (closing : list nat)
| DropAll (e : E)
| DropSome (e : E) (n : nat).

Definition is_Application (x : option Connection) : bool := if x is Some Application then true else false.
Definition acceptorStep (ev : AcceptorEvent) : M S unit :=
  let! s := get in
  let conn c := downstreamConnectionManager_ s ≫= assoc c in
  match ev with
  | Accepted accepted ssl e managed => connectionAccepted accepted ssl e managed
  | HandshakeEvent c e managed =>
      match conn c with
      | Some (Handshaking h) => do! helperCalled c managed (hEvent e h) in ret tt
      | _ => ret tt
      end
  | HandshakeTimeout c e =>
      match conn c with
      | Some (Handshaking h) => do! helperCalled c false (hDrop e h) in ret tt
      | _ => ret tt
      end
  | Closed c =>
      match conn c with
      | Some Application => removeConnection c
      | _ => ret tt
      end
  | AcceptStopped closing =>
      acceptStopped (filter (fun c => is_Application (conn c)) (remove_dups closing))
  | DropAll e => dropAllConnections e
  | DropSome e n => dropConnections e n
  end.
Definition acceptorRun (events : list AcceptorEvent) : M S unit := for_each events acceptorStep.
End acceptor.
Arguments Acceptor : clear implicits.
Arguments Connection : clear implicits.
Arguments AcceptorEvent : clear implicits.
