(* ===== verification/AcceptorProps.v ===== *)
(** * The acceptor: correctness

    The count of handshakes, the end of draining, the events at which the
    program errs, and load shedding. *)
From Stdlib Require Import ZArith Lia.
From stdpp Require Import base numbers list strings.
From S2P Require Import Prelude Handshake HandshakeProps Acceptor.
Open Scope cpp_scope.

Set Default Goal Selector "!".

Section acceptor.
Context {H E : Type} `{!HandshakeHelper H E} `{!HandshakeHelperLaws H E}.
Context (newHelper : H) (newHelper_wf : hWf newHelper) (newHelper_fresh : hPhase newHelper = Fresh).
Implicit Types (s : Acceptor H).

Definition isHandshake (p : nat * Connection H) : bool := if p.2 is Handshaking _ then true else false.
Definition handshakes (conns : list (nat * Connection H)) : nat := length (filter isHandshake conns).

Lemma handshakes_cons c h conns : handshakes ((c, Handshaking h) :: conns) = S (handshakes conns).
Proof. unfold handshakes. by rewrite filter_cons_True by done. Qed.

(** The connections of the manager: their addresses differ, the handshakes
    among them are under way. *)
Record managed_ok (next : nat) (conns : list (nat * Connection H)) : Prop := {
  mo_nodup : NoDup conns.*1;
  mo_next c : c ∈ conns.*1 -> c < next;
  mo_running c h : (c, Handshaking h) ∈ conns -> hWf h /\ hPhase h = Running
}.

(** The invariant inside an operation: [k] handshakes have left the list and
    are still counted. *)
Record core (k : nat) s : Prop := {
  co_max : (0 <= maxConcurrentSSLHandshakes s < 2 ^ 32)%Z;
  co_pending : (numPendingSSLConns_ s <= maxConcurrentSSLHandshakes s + Z.of_nat k)%Z;
  co_manager :
    match downstreamConnectionManager_ s with
    | Some conns =>
        managed_ok (nextConnection s) conns /\ numPendingSSLConns_ s = Z.of_nat (handshakes conns + k) /\
        (state_ s = kRunning \/ state_ s = kDraining)
    | None => numPendingSSLConns_ s = 0%Z /\ k = 0 /\ state_ s = kDone
    end;
  co_drained : OnConnectionsDrained ∈ acceptorCalls s <-> state_ s = kDone
}.

(** Nothing keeps a draining acceptor from being done. *)
Definition undrained s : Prop :=
  state_ s = kDraining -> forceShutdownInProgress_ s = false ->
  numPendingSSLConns_ s <> 0%Z \/ exists p conns, downstreamConnectionManager_ s = Some (p :: conns).

Lemma core_some k s :
  core k s -> state_ s <> kDone -> exists conns, downstreamConnectionManager_ s = Some conns.
Proof.
  intros [_ _ Hm _] Hs. destruct (downstreamConnectionManager_ s) as [conns|]; [eauto|]. by destruct Hm as (_ & _ & ?).
Qed.

Lemma bind_connections {A} s conns (k : _ -> M (Acceptor H) A) :
  downstreamConnectionManager_ s = Some conns -> bind connections k s = k conns s.
Proof. intros Hm. unfold connections, bind, get, of_option. by rewrite Hm. Qed.

Lemma call_core k x s : x <> OnConnectionsDrained -> core k s -> core k (call x s).2.
Proof.
  intros Hx [Hm Hp Hc Hd]. split; [done..|]. simpl. rewrite elem_of_app, list_elem_of_singleton.
  split; [intros [?|?]; [by apply Hd|by subst]|intros ?; left; by apply Hd].
Qed.

Lemma checkDrained_core k :
  runs (fun s => core k s /\ state_ s = kDraining) checkDrained (fun _ s => core k s /\ undrained s).
Proof.
  intros s [Hc Hs]. unfold checkDrained. rewrite bind_get, bool_decide_true by done. simpl.
  destruct (forceShutdownInProgress_ s) eqn:Hf.
  { exists tt, s. split; [done|]. split; [done|]. intros _. by rewrite Hf. }
  destruct (core_some k s Hc) as [conns Hm]; [by rewrite Hs|].
  rewrite (bind_connections s conns) by done.
  destruct conns as [|p conns]; simpl.
  - destruct (Z.eqb_spec (numPendingSSLConns_ s) 0) as [Hp|Hp]; simpl.
    + eexists tt, _. split; [done|]. split; [|by intros Hs']. destruct Hc as [? ? Hcm Hd]. rewrite Hm in Hcm.
      destruct Hcm as (_ & Hn & _). split; simpl; [done|done| |].
      * split_and!; [done|lia|done].
      * split; [done|]. intros _. apply elem_of_app. right. by left.
    + exists tt, s. split; [done|]. split; [done|]. intros _ _. by left.
  - exists tt, s. split; [done|]. split; [done|]. intros _ _. right. by exists p, conns.
Qed.

Lemma checkDrainedIfDraining_core k :
  runs (core k) checkDrainedIfDraining (fun _ s => core k s /\ undrained s).
Proof.
  intros s Hc. unfold checkDrainedIfDraining. rewrite bind_get. unfold when. case_bool_decide as Hs.
  - by apply checkDrained_core.
  - exists tt, s. split; [done|]. split; [done|]. by intros Hs'.
Qed.

(** ** Removing *)

Lemma elem_of_without c p (conns : list (nat * Connection H)) : p ∈ without c conns -> p ∈ conns.
Proof. unfold without. by intros [_ Hp]%list_elem_of_filter. Qed.

Lemma managed_ok_without next c conns : managed_ok next conns -> managed_ok next (without c conns).
Proof.
  intros [Hn Hx Hr]. split.
  - by apply without_NoDup.
  - intros c' (p & -> & Hp)%list_elem_of_fmap. apply elem_of_without in Hp. apply Hx. by apply list_elem_of_fmap_2.
  - intros c' h Hp. apply elem_of_without in Hp. by apply (Hr c').
Qed.

Lemma handshakes_without next c x conns :
  managed_ok next conns -> assoc c conns = Some x ->
  handshakes conns = handshakes (without c conns) + (if x is Handshaking _ then 1 else 0).
Proof.
  intros [Hn _ _] Hx. unfold handshakes. rewrite <- (without_perm c x conns Hn Hx) at 1.
  destruct x; [rewrite filter_cons_True by done|rewrite filter_cons_False by (by intros [])]; simpl; lia.
Qed.

Lemma setManager_core k k' s conns :
  core k s -> state_ s = kRunning \/ state_ s = kDraining -> managed_ok (nextConnection s) conns ->
  numPendingSSLConns_ s = Z.of_nat (handshakes conns + k') ->
  (numPendingSSLConns_ s <= maxConcurrentSSLHandshakes s + Z.of_nat k')%Z -> core k' (setManager (Some conns) s).
Proof. intros [Hm Hp Hc Hd] Hs Hok Hn Hle. by split. Qed.

(** A handshake leaves the list before it is counted out. *)
Lemma remove_handshake k s c h conns :
  core k s -> downstreamConnectionManager_ s = Some conns -> assoc c conns = Some (Handshaking h) ->
  exists s', removeConnection c s = (Ok tt, s') /\ core (S k) s'.
Proof.
  intros Hc Hm Hx. pose proof Hc as [_ Hp Hcm _]. rewrite Hm in Hcm. destruct Hcm as (Hok & Hn & Hs).
  unfold removeConnection. rewrite (bind_connections s conns) by done. rewrite Hx, bind_modify.
  assert (Hc' : core (S k) (setManager (Some (without c conns)) s)).
  { apply (setManager_core k); [done|done|by apply managed_ok_without| |lia].
    rewrite Hn, (handshakes_without _ _ _ _ Hok Hx). lia. }
  unfold when. destruct (length (without c conns) =? 0); [|by eexists].
  destruct (checkDrainedIfDraining_core (S k) _ Hc') as ([] & s' & E' & Hc'' & _). by exists s'.
Qed.

Lemma remove_application k c :
  runs (fun s => core k s /\ undrained s /\
          exists conns, downstreamConnectionManager_ s = Some conns /\ assoc c conns = Some Application)
    (removeConnection c) (fun _ s => core k s /\ undrained s).
Proof.
  intros s (Hc & Hu & conns & Hm & Hx). pose proof Hc as [_ Hp Hcm _]. rewrite Hm in Hcm.
  destruct Hcm as (Hok & Hn & Hs).
  unfold removeConnection. rewrite (bind_connections s conns) by done. rewrite Hx, bind_modify.
  assert (Hc' : core k (setManager (Some (without c conns)) s)).
  { apply (setManager_core k); [done|done|by apply managed_ok_without| |done].
    rewrite Hn, (handshakes_without _ _ _ _ Hok Hx). lia. }
  unfold when. destruct (without c conns) as [|p rest] eqn:Er; simpl.
  - by apply checkDrainedIfDraining_core.
  - eexists tt, _. split; [done|]. split; [done|]. intros _ _. right. by exists p, rest.
Qed.

(** ** Counting *)

Lemma decrementPending_core : runs (core 1) decrementPending (fun _ => core 0).
Proof.
  intros s Hc. pose proof Hc as [Hm Hp Hcm Hd].
  destruct (downstreamConnectionManager_ s) as [conns|] eqn:Em; [|by destruct Hcm as (_ & ? & _)].
  destruct Hcm as (Hok & Hn & Hs). unfold decrementPending. rewrite bind_get.
  rewrite (proj2 (Z.ltb_lt 0 (numPendingSSLConns_ s))) by lia.
  exists tt, (setPendingSSL (u64 (numPendingSSLConns_ s - 1)) s). split; [done|].
  assert (E1 : u64 (numPendingSSLConns_ s - 1) = (numPendingSSLConns_ s - 1)%Z) by (apply wrap_small; lia).
  rewrite E1. split; simpl; [done|lia| |done]. rewrite Em. split_and!; [done|lia|done].
Qed.

Lemma connectionReady_core st managed :
  runs (fun s => core 0 s /\ state_ s = st) (connectionReady managed) (fun _ s => core 0 s /\ state_ s = st).
Proof.
  intros s [Hc Hst]. unfold connectionReady. rewrite bind_get.
  destruct (stateNumber (state_ s) <? stateNumber kDraining) eqn:Es.
  2: { eexists tt, _. split; [done|]. split; [by apply call_core|done]. }
  destruct (core_some 0 s Hc) as [conns Em]; [intros E0; by rewrite E0 in Es|].
  unfold freshConnection. rewrite bind_assoc, bind_get, bind_assoc, bind_modify, bind_ret.
  set (s1 := setNext (nextConnection s + 1) s).
  pose proof Hc as [Hm Hp Hcm Hd]. rewrite Em in Hcm. destruct Hcm as (Hok & Hn & Hs).
  assert (Hok' : managed_ok (nextConnection s + 1) conns).
  { destruct Hok as [Hnd Hx Hr]. split; [done| |done]. intros c Hc'%Hx. lia. }
  assert (Hc1 : core 0 s1) by (split; simpl; [done|done|by rewrite Em|done]).
  assert (Ec : call (H:=H) (OnNewConnection (nextConnection s)) s1 = (Ok tt, (call (OnNewConnection (nextConnection s)) s1).2)) by done.
  rewrite (bind_Ok _ _ _ _ _ Ec). set (s2 := (call (OnNewConnection (nextConnection s)) s1).2) in *.
  assert (Hc2 : core 0 s2) by (by apply call_core).
  destruct managed; simpl; [|by exists tt, s2].
  unfold addConnection. rewrite (bind_connections s2 conns) by done. eexists tt, _. split; [done|]. split; [|done].
  apply (setManager_core 0); [done|done| | |done].
  - destruct Hok as [Hnd Hx Hr]. split; simpl.
    + constructor; [|done]. intros Hin%Hx. lia.
    + intros c [->|Hc']%elem_of_cons; [lia|]. specialize (Hx c Hc'). lia.
    + intros c h [[=]|Hin]%elem_of_cons. by apply (Hr c).
  - simpl. rewrite Hn. unfold handshakes. by rewrite filter_cons_False by (by intros []).
Qed.

Lemma sslConnectionReady_core managed :
  runs (core 1) (sslConnectionReady managed) (fun _ s => core 0 s /\ undrained s).
Proof.
  unfold sslConnectionReady. eapply runs_bind; [apply decrementPending_core|]. intros [].
  apply (runs_bind _ _ _ (fun _ => core 0)); [|intros []; apply checkDrainedIfDraining_core].
  intros s Hc. destruct (connectionReady_core (state_ s) managed s (conj Hc eq_refl)) as (a & s' & E' & Hc' & _).
  by exists a, s'.
Qed.

Lemma sslConnectionError_core : runs (core 1) sslConnectionError (fun _ s => core 0 s /\ undrained s).
Proof.
  unfold sslConnectionError. eapply runs_bind; [apply decrementPending_core|]. intros [].
  apply checkDrainedIfDraining_core.
Qed.

(** ** Handshakes *)

Lemma setHelperOf_fst c h (conns : list (nat * Connection H)) : (setHelperOf c h conns).*1 = conns.*1.
Proof.
  unfold setHelperOf. rewrite <- list_fmap_compose. apply list_fmap_ext. intros i [c' x] _. simpl.
  by case_bool_decide.
Qed.

Lemma setHelperOf_assoc c h (conns : list (nat * Connection H)) :
  c ∈ conns.*1 -> assoc c (setHelperOf c h conns) = Some (Handshaking h).
Proof.
  induction conns as [|[c' x] conns IH]; simpl; [by intros ?%elem_of_nil|]. case_bool_decide as E0; simpl.
  - intros _. by rewrite decide_True.
  - rewrite decide_False by done. intros [?|Hin]%elem_of_cons; [by subst|by apply IH].
Qed.

Lemma setHelperOf_without c h (conns : list (nat * Connection H)) : without c (setHelperOf c h conns) = without c conns.
Proof.
  unfold without, setHelperOf. induction conns as [|[c' x] conns IH]; [done|].
  rewrite fmap_cons, !filter_cons. cbn [fst]. case_bool_decide as E0; cbn [fst].
  - subst. rewrite !decide_False by (intros Hf; by apply Hf). apply IH.
  - rewrite !decide_True by done. by rewrite IH.
Qed.

Lemma setHelperOf_ok next c h h0 (conns : list (nat * Connection H)) :
  managed_ok next conns -> assoc c conns = Some (Handshaking h0) -> hWf h -> hPhase h = Running ->
  managed_ok next (setHelperOf c h conns) /\ handshakes (setHelperOf c h conns) = handshakes conns.
Proof.
  intros Hok Hx Hh Ep. pose proof Hok as [Hn Hc Hr].
  assert (Hok' : managed_ok next (setHelperOf c h conns)).
  { split; rewrite ?setHelperOf_fst; [done..|].
    intros c' h' (p & Ep' & Hp)%list_elem_of_fmap. case_bool_decide as E0; [by injection Ep' as -> ->|].
    rewrite <- Ep' in Hp. by apply (Hr c'). }
  split; [done|]. rewrite (handshakes_without _ _ _ _ Hok Hx).
  rewrite (handshakes_without next c (Handshaking h) _ Hok'); [by rewrite setHelperOf_without|].
  apply setHelperOf_assoc. apply assoc_elem in Hx. by apply (list_elem_of_fmap_2 fst) in Hx.
Qed.

Lemma setHelperOf_id c h (conns : list (nat * Connection H)) : c ∉ conns.*1 -> setHelperOf c h conns = conns.
Proof.
  unfold setHelperOf. induction conns as [|[c' x] conns IH]; [done|]. rewrite fmap_cons. cbn [fst].
  rewrite fmap_cons, not_elem_of_cons. cbn [fst]. intros [Hne Hn]. rewrite bool_decide_false by congruence. by rewrite IH.
Qed.

(** Removing does not look at the helper. *)
Lemma remove_setHelperOf c h h0 s conns :
  downstreamConnectionManager_ s = Some conns -> assoc c conns = Some (Handshaking h0) ->
  removeConnection c (setManager (setHelperOf c h <$> downstreamConnectionManager_ s) s) = removeConnection c s.
Proof.
  intros Hm Hx. unfold removeConnection. rewrite Hm. cbn [fmap option_fmap option_map].
  rewrite (bind_connections _ (setHelperOf c h conns)) by done. rewrite (bind_connections s conns) by done.
  rewrite setHelperOf_assoc, setHelperOf_without.
  - by rewrite Hx.
  - apply assoc_elem in Hx. by apply (list_elem_of_fmap_2 fst) in Hx.
Qed.

Lemma helperCalled_core s c h0 h cb managed conns :
  core 0 s -> undrained s -> downstreamConnectionManager_ s = Some conns ->
  assoc c conns = Some (Handshaking h0) -> hWf h -> hPhase h = phaseAfter cb ->
  exists s', helperCalled c managed (Ok (h, cb)) s = (Ok cb, s') /\ core 0 s' /\ undrained s'.
Proof.
  intros Hc Hu Hm Hx Hh Ep. unfold helperCalled. unfold bind at 1. rewrite bind_modify.
  pose proof Hc as [Hmax Hp Hcm Hd]. rewrite Hm in Hcm. destruct Hcm as (Hok & Hn & Hs).
  destruct cb as [cb|].
  - assert (Hcb : exists s', handshakeCallback c managed cb
        (setManager (setHelperOf c h <$> downstreamConnectionManager_ s) s) = (Ok tt, s') /\ core 0 s' /\ undrained s').
    { destruct (remove_handshake 0 s c h0 conns Hc Hm Hx) as (s1 & E1 & Hc1).
      rewrite <- (remove_setHelperOf c h h0 s conns Hm Hx) in E1.
      unfold handshakeCallback. rewrite (bind_Ok _ _ _ _ _ E1). destruct cb.
      - destruct (sslConnectionReady_core managed s1 Hc1) as ([] & s2 & E2 & Hs2). by exists s2.
      - destruct (sslConnectionError_core s1 Hc1) as ([] & s2 & E2 & Hs2). by exists s2. }
    destruct Hcb as (s' & E' & Hs'). rewrite (bind_Ok _ _ _ _ _ E'). by exists s'.
  - rewrite bind_ret. eexists. split; [done|]. rewrite Hm. cbn [fmap option_fmap option_map].
    destruct (setHelperOf_ok _ c h h0 conns Hok Hx Hh Ep) as [Hok' Hn']. split.
    + apply (setManager_core 0); [done|done|done|by rewrite Hn'|lia].
    + intros Hs' Hf. destruct (Hu Hs' Hf) as [Hp'|(p & conns' & E')]; [by left|right].
      rewrite Hm in E'. injection E' as ->. simpl. eauto.
Qed.

Lemma startHandshake_core s e managed h :
  core 1 s -> (numPendingSSLConns_ s <= maxConcurrentSSLHandshakes s)%Z ->
  hStart e newHelper = Ok (h, None) ->
  exists s', startHandshake newHelper e managed s = (Ok tt, s') /\ core 0 s' /\ undrained s'.
Proof.
  intros Hc Hle Eh. pose proof Hc as [Hmax Hp Hcm Hd].
  destruct (downstreamConnectionManager_ s) as [conns|] eqn:Hm; [|by destruct Hcm as (_ & ? & _)].
  destruct Hcm as (Hok & Hn & Hs).
  destruct (hStart_law e newHelper newHelper_wf newHelper_fresh) as (h' & cb & Eh' & Hh & Ep).
  rewrite Eh in Eh'. injection Eh' as <- <-.
  unfold startHandshake, freshConnection. rewrite bind_assoc, bind_get, bind_assoc, bind_modify, bind_ret.
  set (c := nextConnection s). set (s1 := setNext (c + 1) s).
  assert (Ea : addConnection c (Handshaking newHelper) s1 =
    (Ok tt, setManager (Some ((c, Handshaking newHelper) :: conns)) s1)).
  { unfold addConnection. by rewrite (bind_connections s1 conns). }
  rewrite (bind_Ok _ _ _ _ _ Ea). set (s2 := setManager (Some ((c, Handshaking newHelper) :: conns)) s1).
  assert (Hfresh : c ∉ conns.*1) by (intros Hin%(mo_next _ _ Hok); unfold c in Hin; lia).
  assert (Es : setHelperOf c h ((c, Handshaking newHelper) :: conns) = (c, Handshaking h) :: conns).
  { unfold setHelperOf. rewrite fmap_cons. cbn [fst]. rewrite bool_decide_true by done. f_equal.
    by apply setHelperOf_id. }
  assert (Ec : helperCalled c managed (hStart e newHelper) s2 =
    (Ok None, setManager (Some ((c, Handshaking h) :: conns)) s1)).
  { rewrite Eh. unfold helperCalled. unfold bind at 1. rewrite bind_modify, bind_ret.
    cbn [downstreamConnectionManager_ s2 setManager fmap option_fmap option_map]. by rewrite Es. }
  rewrite (bind_Ok _ _ _ _ _ Ec). rewrite (bind_connections _ ((c, Handshaking h) :: conns)) by done.
  eexists. split; [done|]. split; [|intros _ _; right; by eexists _, _].
  split; simpl; [done|lia| |done]. split_and!.
  - split; simpl.
    + constructor; [done|by apply Hok].
    + intros c' [->|Hin%(mo_next _ _ Hok)]%elem_of_cons; lia.
    + intros c' h' [[= -> ->]|Hin]%elem_of_cons; [done|by apply (mo_running _ _ Hok c')].
  - rewrite Hn. unfold handshakes. lia.
  - done.
Qed.

(** ** Stopping *)

Definition forced (conns : list (nat * Connection H)) s : Prop :=
  forceShutdownInProgress_ s = true /\ downstreamConnectionManager_ s = Some conns.

(** While the shutdown is forced, the acceptor does not finish by itself. *)
Lemma checkDrained_forced s :
  forceShutdownInProgress_ s = true -> checkDrainedIfDraining s = (Ok tt, s).
Proof.
  intros Hf. unfold checkDrainedIfDraining. rewrite bind_get. unfold when. case_bool_decide as Hs; [|done].
  unfold checkDrained. rewrite bind_get, bool_decide_true by done. simpl. by rewrite Hf.
Qed.

Lemma sslConnectionError_forced conns :
  runs (fun s => core 1 s /\ forced conns s) sslConnectionError (fun _ s => core 0 s /\ forced conns s).
Proof.
  intros s [Hc [Hf Hm]]. unfold sslConnectionError.
  destruct (decrementPending_core s Hc) as ([] & s1 & E1 & Hc1).
  assert (Hs1 : forced conns s1).
  { unfold decrementPending in E1. rewrite bind_get in E1.
    destruct (0 <? numPendingSSLConns_ s)%Z; [|done]. injection E1 as <-. done. }
  rewrite (bind_Ok _ _ _ _ _ E1). exists tt, s1. split; [|done]. apply checkDrained_forced, Hs1.
Qed.

(** The connection at the front leaves the list and is dropped. *)
Lemma drop_front e p conns s :
  core 0 s -> forced (p :: conns) s ->
  runs (fun s' => s' = setManager (Some conns) s) (dropped e p.2) (fun _ s' => core 0 s' /\ forced conns s').
Proof.
  intros Hc [Hf Hm] s' ->. pose proof Hc as [Hmax Hp Hcm Hd]. rewrite Hm in Hcm.
  destruct Hcm as (Hok & Hn & Hs). destruct p as [c x].
  assert (Hok' : managed_ok (nextConnection s) conns).
  { destruct Hok as [Hnd Hx Hr]. apply NoDup_cons in Hnd as [_ Hnd]. split; [done| |].
    - intros c' Hc'. apply Hx. by right.
    - intros c' h Hin. apply (Hr c'). by right. }
  destruct x as [h|]; cbn [dropped snd].
  - destruct (mo_running _ _ Hok c h ltac:(by left)) as [Hh Ep].
    destruct (hDrop_running e h Hh Ep) as (h' & Ed & _). rewrite Ed. unfold bind at 1.
    rewrite (bind_connections _ conns) by done. apply sslConnectionError_forced.
    split; [|done]. apply (setManager_core 0); [done|done|done| |lia].
    rewrite Hn, handshakes_cons. lia.
  - exists tt, (setManager (Some conns) s). split; [done|]. split; [|done].
    apply (setManager_core 0); [done|done|done| |lia].
    rewrite Hn. unfold handshakes. by rewrite filter_cons_False by (by intros []).
Qed.

Lemma dropAllLoop_core e conns :
  runs (fun s => core 0 s /\ forced conns s) (dropAllLoop e conns) (fun _ s => core 0 s /\ forced [] s).
Proof.
  unfold dropAllLoop. apply (runs_for_each (fun l s => core 0 s /\ forced l s)).
  intros p l s [Hc Hf]. rewrite bind_modify. apply (drop_front e p l s Hc Hf).
  destruct Hf as [_ Hm]. rewrite Hm. cbn [fmap option_fmap option_map]. do 2 f_equal.
  destruct Hc as [_ _ Hcm _]. rewrite Hm in Hcm. destruct Hcm as ([Hnd _ _] & _). apply NoDup_cons in Hnd as [Hp _].
  unfold without. rewrite filter_cons_False by (intros Hne; by apply Hne). by apply without_id.
Qed.

Lemma dropSomeLoop_core e rest l :
  runs (fun s => core 0 s /\ forced (l ++ rest) s)
    (for_each l (fun p => do! removeConnection p.1 in dropped e p.2))
    (fun _ s => core 0 s /\ forced rest s).
Proof.
  apply (runs_for_each (fun l s => core 0 s /\ forced (l ++ rest) s)).
  intros p l' s [Hc Hf]. cbn [app] in Hf.
  assert (E1 : removeConnection p.1 s = (Ok tt, setManager (Some (l' ++ rest)) s)).
  { destruct Hf as [Hf Hm]. unfold removeConnection. rewrite (bind_connections _ _ _ Hm).
    destruct p as [c x]. cbn [assoc fst]. rewrite decide_True by done.
    destruct Hc as [_ _ Hcm _]. rewrite Hm in Hcm. destruct Hcm as ([Hnd _ _] & _). apply NoDup_cons in Hnd as [Hp _].
    assert (Ew : without c ((c, x) :: l' ++ rest) = l' ++ rest).
    { unfold without. rewrite filter_cons_False by (intros Hne; by apply Hne). by apply without_id. }
    rewrite Ew, bind_modify. unfold when. destruct (length (l' ++ rest) =? 0); [|done].
    by apply checkDrained_forced. }
  rewrite (bind_Ok _ _ _ _ _ E1). by apply (drop_front e p (l' ++ rest) s Hc Hf).
Qed.

Lemma setForce_core s : core 0 s -> core 0 (setForce true s).
Proof. intros [Hm Hp Hc Hd]. by split. Qed.

Lemma undrained_forced conns s : forced conns s -> undrained s.
Proof. intros [Hf _] _. by rewrite Hf. Qed.

Lemma dropAllConnections_core e :
  runs (core 0) (dropAllConnections e) (fun _ s => core 0 s /\ undrained s).
Proof.
  intros s Hc. unfold dropAllConnections. rewrite bind_get.
  set (first := match downstreamConnectionManager_ s with None => ret tt | Some conns => _ end).
  assert (Hfirst : exists s1, first s = (Ok tt, s1) /\ numPendingSSLConns_ s1 = 0%Z /\
    downstreamConnectionManager_ s1 = None /\ (0 <= maxConcurrentSSLHandshakes s1 < 2 ^ 32)%Z).
  { unfold first. pose proof Hc as [Hmax Hp Hcm Hd].
    destruct (downstreamConnectionManager_ s) as [conns|] eqn:Hm.
    - rewrite bind_modify.
      destruct (dropAllLoop_core e conns (setForce true s)) as ([] & s1 & E1 & Hc1 & Hf1).
      { split; [by apply setForce_core|by split]. }
      rewrite (bind_Ok _ _ _ _ _ E1). unfold onEmpty.
      rewrite (bind_Ok _ _ _ _ _ (checkDrained_forced s1 (proj1 Hf1))).
      rewrite (bind_connections _ [] _ (proj2 Hf1)). simpl.
      eexists. split; [done|]. destruct Hc1 as [Hmax1 _ Hcm1 _]. rewrite (proj2 Hf1) in Hcm1.
      destruct Hcm1 as (_ & Hn1 & _). split; [exact Hn1|by split].
    - exists s. destruct Hcm as (Hn & _). done. }
  destruct Hfirst as (s1 & E1 & Hn & Hm & Hmax). rewrite (bind_Ok _ _ _ _ _ E1), bind_get, Hn. simpl.
  rewrite bind_modify. eexists tt, _. split; [done|]. split; [|by intros Hs].
  split; simpl; [done|lia|by rewrite Hm|]. split; [done|]. intros _. apply elem_of_app. right. by left.
Qed.

(** ** Every event *)

Definition good s : Prop := core 0 s /\ undrained s.

(** A socket for whose handshake there is room comes when the acceptor is done,
    and so has no connection manager, or its helper calls back before it has
    returned from [start]. *)
Definition unsafe (ev : AcceptorEvent E) s : bool :=
  match ev with
  | Accepted true true e _ =>
      (numPendingSSLConns_ s <? maxConcurrentSSLHandshakes s)%Z &&
      (bool_decide (state_ s = kDone) || match hStart e newHelper with Ok (_, None) => false | _ => true end)
  | _ => false
  end.

Lemma connectionReady_good managed s :
  good s -> exists s', connectionReady managed s = (Ok tt, s') /\ good s'.
Proof.
  intros [Hc Hu]. destruct (connectionReady_core (state_ s) managed s (conj Hc eq_refl)) as ([] & s' & E' & Hc' & Hs').
  exists s'. split; [done|]. split; [done|]. intros Hd Hf. rewrite Hs' in Hd.
  unfold connectionReady in E'. rewrite bind_get, Hd in E'. simpl in E'. injection E' as <-. by apply Hu.
Qed.

Lemma pending_bounds s : core 0 s -> (0 <= numPendingSSLConns_ s <= maxConcurrentSSLHandshakes s)%Z.
Proof.
  intros [Hmax Hp Hcm _]. destruct (downstreamConnectionManager_ s); [destruct Hcm as (_ & Hn & _)|destruct Hcm as (Hn & _)]; lia.
Qed.

Lemma accepted_good accepted ssl e managed s :
  good s -> unsafe (Accepted accepted ssl e managed) s = false ->
  exists s', connectionAccepted newHelper accepted ssl e managed s = (Ok tt, s') /\ good s'.
Proof.
  intros Hg Hsafe. pose proof Hg as [Hc Hu]. unfold connectionAccepted. destruct accepted; simpl in *.
  2: { eexists. split; [done|]. split; [by apply call_core|exact Hu]. }
  unfold processEstablishedConnection. destruct ssl; [|by apply connectionReady_good].
  rewrite bind_modify, bind_get. pose proof (pending_bounds s Hc) as Hb. pose proof Hc as [Hmax Hp Hcm Hd].
  assert (E1 : u64 (numPendingSSLConns_ s + 1) = (numPendingSSLConns_ s + 1)%Z) by (apply wrap_small; lia).
  rewrite E1. set (s1 := setPendingSSL (numPendingSSLConns_ s + 1) s).
  assert (Hc1 : state_ s <> kDone -> core 1 s1).
  { intros Hs. destruct (core_some 0 s Hc Hs) as [conns Hm]. rewrite Hm in Hcm. destruct Hcm as (Hok & Hn & Hst).
    split; simpl; [done|lia| |done]. rewrite Hm. split_and!; [done|lia|done]. }
  cbn [maxConcurrentSSLHandshakes numPendingSSLConns_ s1 setPendingSSL].
  destruct (Z.ltb_spec (maxConcurrentSSLHandshakes s) (numPendingSSLConns_ s + 1)) as [Hlt|Hle].
  - assert (Ec : call DroppedHandshake s1 = (Ok tt, (call DroppedHandshake s1).2)) by done.
    rewrite (bind_Ok _ _ _ _ _ Ec). destruct (decide (state_ s = kDone)) as [Hs|Hs].
    + assert (Hn : numPendingSSLConns_ s = 0%Z).
      { destruct (downstreamConnectionManager_ s); [by destruct Hcm as (_ & _ & []); congruence|by destruct Hcm]. }
      unfold sslConnectionError, decrementPending, checkDrainedIfDraining. rewrite bind_assoc, bind_get. simpl.
      rewrite Hn. simpl. rewrite bind_modify, bind_get. simpl. rewrite Hs. simpl.
      eexists. split; [reflexivity|]. split; [|by intros Hs'; simpl in Hs'; congruence].
      rewrite <- Hs. change (core 0 (call DroppedHandshake (setPendingSSL 0 s)).2). apply call_core; [done|].
      split; simpl; [done|lia| |done]. by rewrite Hn in Hcm.
    + destruct (sslConnectionError_core _ (call_core 1 DroppedHandshake s1 ltac:(done) (Hc1 Hs))) as ([] & s' & E' & Hg').
      by exists s'.
  - rewrite (proj2 (Z.ltb_lt (numPendingSSLConns_ s) (maxConcurrentSSLHandshakes s))) in Hsafe by lia. simpl in Hsafe.
    apply orb_false_iff in Hsafe as [Hs%bool_decide_eq_false Hstart].
    destruct (hStart e newHelper) as [[h [cb|]]|f] eqn:Eh; [done| |done].
    destruct (startHandshake_core s1 e managed h (Hc1 Hs) ltac:(simpl; lia) Eh) as (s' & E' & Hg').
    by exists s'.
Qed.

(** Such a socket makes the acceptor use what is gone. *)
Lemma unsafe_fails ev s : good s -> unsafe ev s = true -> exists f, (acceptorStep newHelper ev s).1 = Err f.
Proof.
  intros [Hc _] Hun. destruct ev as [[] [] e managed|c e managed|c e|c|closing|e|e n]; try done.
  unfold unsafe in Hun. apply andb_true_iff in Hun as [Hlt%Z.ltb_lt Hwhy]. pose proof (pending_bounds s Hc) as Hb.
  pose proof Hc as [Hmax _ Hcm _]. unfold acceptorStep. rewrite bind_get.
  unfold connectionAccepted, processEstablishedConnection. simpl. rewrite bind_modify, bind_get.
  assert (E1 : u64 (numPendingSSLConns_ s + 1) = (numPendingSSLConns_ s + 1)%Z) by (apply wrap_small; lia).
  rewrite E1. simpl. rewrite (proj2 (Z.ltb_ge _ _)) by lia.
  unfold startHandshake, freshConnection. rewrite bind_assoc, bind_get, bind_assoc, bind_modify, bind_ret.
  unfold addConnection, connections. rewrite !bind_assoc, bind_get. simpl.
  destruct (downstreamConnectionManager_ s) as [conns|] eqn:Hm; [|by eexists].
  destruct Hcm as (_ & _ & Hst). rewrite bool_decide_false in Hwhy by (destruct Hst; congruence). simpl in Hwhy.
  change (of_option (Undefined "downstreamConnectionManager_") (Some conns)) with (ret (S:=Acceptor H) conns).
  rewrite bind_ret, bind_modify. destruct (hStart e newHelper) as [[h [cb|]]|f]; [|done|by eexists].
  unfold helperCalled. unfold bind at 1. unfold bind at 1. rewrite bind_modify. unfold bind at 1.
  destruct (handshakeCallback _ managed cb _) as [[[]|f] s']; [|by eexists]. by eexists.
Qed.

Lemma helperCalled_good s c h0 r managed conns :
  good s -> downstreamConnectionManager_ s = Some conns -> assoc c conns = Some (Handshaking h0) ->
  (exists h cb, r = Ok (h, cb) /\ hWf h /\ hPhase h = phaseAfter cb) ->
  exists s', (do! helperCalled c managed r in ret tt) s = (Ok tt, s') /\ good s'.
Proof.
  intros [Hc Hu] Hm Hx (h & cb & -> & Hh & Ep).
  destruct (helperCalled_core s c h0 h cb managed conns Hc Hu Hm Hx Hh Ep) as (s' & E' & Hg).
  exists s'. by rewrite (bind_Ok _ _ _ _ _ E').
Qed.

Lemma close_good c l s :
  good s -> NoDup (c :: l) ->
  (forall c', c' ∈ c :: l -> downstreamConnectionManager_ s ≫= assoc c' = Some Application) ->
  exists s', removeConnection c s = (Ok tt, s') /\ good s' /\
    forall c', c' ∈ l -> downstreamConnectionManager_ s' ≫= assoc c' = Some Application.
Proof.
  intros [Hc Hu] [Hcl Hnd]%NoDup_cons Hall. pose proof (Hall c ltac:(by left)) as Hx.
  destruct (downstreamConnectionManager_ s) as [conns|] eqn:Hm; [|done]. simpl in Hx.
  destruct (remove_application 0 c s) as ([] & s' & E' & Hg); [by eauto|]. exists s'. split; [done|]. split; [done|].
  intros c' Hc'. specialize (Hall c' ltac:(by right)). simpl in Hall.
  assert (Hne : c' <> c) by (by intros ->).
  assert (Hw : assoc c' (without c conns) = Some Application).
  { clear -Hall Hne. unfold without. induction conns as [|[d x] conns IH]; [done|]. rewrite filter_cons. simpl in *.
    destruct (decide (d = c')) as [->|Hd].
    - rewrite decide_True by done. simpl. by rewrite decide_True.
    - case_decide; simpl; [rewrite decide_False by done|]; by apply IH. }
  unfold removeConnection in E'. rewrite (bind_connections s conns) in E' by done. rewrite Hx, bind_modify in E'.
  destruct (without c conns) as [|p rest]; [done|]. simpl in E'. injection E' as <-. done.
Qed.

Lemma closeAll_good l : forall s,
  good s -> NoDup l -> (forall c, c ∈ l -> downstreamConnectionManager_ s ≫= assoc c = Some Application) ->
  exists s', for_each l removeConnection s = (Ok tt, s') /\ good s'.
Proof.
  induction l as [|c l IH]; intros s Hg Hnd Hall; [by exists s|]. cbn [for_each].
  destruct (close_good c l s Hg Hnd Hall) as (s1 & E1 & Hg1 & Hall1).
  rewrite (bind_Ok _ _ _ _ _ E1). apply IH; [done|by apply NoDup_cons in Hnd as [_ ?]|done].
Qed.

Lemma acceptStopped_good closing s :
  good s -> NoDup closing ->
  (forall c, c ∈ closing -> downstreamConnectionManager_ s ≫= assoc c = Some Application) ->
  exists s', acceptStopped closing s = (Ok tt, s') /\ good s'.
Proof.
  intros Hg Hnd Hall. unfold acceptStopped. rewrite bind_get.
  assert (H1 : exists s1, match downstreamConnectionManager_ s with
      | Some _ => for_each closing removeConnection | None => ret tt end s = (Ok tt, s1) /\ good s1).
  { destruct (downstreamConnectionManager_ s) eqn:Hm; [|by exists s]. apply closeAll_good; [done|done|].
    intros c Hc. rewrite Hm. by apply Hall. }
  destruct H1 as (s1 & E1 & Hg1). rewrite (bind_Ok _ _ _ _ _ E1), bind_get. unfold when.
  case_bool_decide as Hs; simpl; [by exists s1|]. rewrite bind_modify.
  destruct Hg1 as [[Hmax Hp Hcm Hd] _].
  destruct (checkDrained_core 0 (setState kDraining s1)) as ([] & s2 & E2 & Hg2).
  - split; [|done]. split; simpl; [done|done| |].
    + destruct (downstreamConnectionManager_ s1); [|by destruct Hcm as (_ & _ & ?)].
      destruct Hcm as (Hok & Hn & _). by split_and!; [| |right].
    + split; [intros Hin; by apply Hd in Hin|done].
  - by exists s2.
Qed.

Lemma event_good ev s :
  good s -> unsafe ev s = false -> exists s', acceptorStep newHelper ev s = (Ok tt, s') /\ good s'.
Proof.
  intros Hg Hsafe. pose proof Hg as [Hc Hu].
  unfold acceptorStep. rewrite bind_get. destruct ev as [accepted ssl e managed|c e managed|c e|c|closing|e|e n].
  - by apply accepted_good.
  - destruct (downstreamConnectionManager_ s) as [conns|] eqn:Hm; [|by exists s]. simpl.
    destruct (assoc c conns) as [[h|]|] eqn:Hx; [|by exists s..].
    pose proof Hc as [_ _ Hcm _]. rewrite Hm in Hcm. destruct Hcm as (Hok & _).
    destruct (mo_running _ _ Hok c h (assoc_elem _ _ _ Hx)) as [Hh Er].
    apply (helperCalled_good s c h _ managed conns); [done..|].
    destruct (hEvent_law e h Hh Er) as (h' & cb & Eh & Hh' & Ep'). eauto.
  - destruct (downstreamConnectionManager_ s) as [conns|] eqn:Hm; [|by exists s]. simpl.
    destruct (assoc c conns) as [[h|]|] eqn:Hx; [|by exists s..].
    pose proof Hc as [_ _ Hcm _]. rewrite Hm in Hcm. destruct Hcm as (Hok & _).
    destruct (mo_running _ _ Hok c h (assoc_elem _ _ _ Hx)) as [Hh Er].
    apply (helperCalled_good s c h _ false conns); [done..|].
    destruct (hDrop_running e h Hh Er) as (h' & Eh & Hh' & Ep'). eauto.
  - destruct (downstreamConnectionManager_ s) as [conns|] eqn:Hm; [|by exists s]. simpl.
    destruct (assoc c conns) as [[h|]|] eqn:Hx; [by exists s| |by exists s].
    destruct (close_good c [] s Hg) as (s' & E' & Hg' & _); [apply NoDup_singleton| |by exists s'].
    intros c' ->%list_elem_of_singleton. by rewrite Hm.
  - apply acceptStopped_good; [done|apply NoDup_filter, NoDup_remove_dups|].
    intros c [Happ _]%list_elem_of_filter. unfold is_Application in Happ.
    destruct (downstreamConnectionManager_ s ≫= assoc c) as [[h|]|]; done.
  - destruct (dropAllConnections_core e s Hc) as ([] & s' & E' & Hg'). by exists s'.
  - unfold dropConnections. rewrite bind_get.
    destruct (downstreamConnectionManager_ s) as [conns|] eqn:Hm; [|by exists s]. rewrite bind_modify.
    destruct (dropSomeLoop_core e (drop n conns) (take n conns) (setForce true s)) as ([] & s' & E' & Hc' & Hf').
    { split; [by apply setForce_core|]. split; [done|]. by rewrite take_drop. }
    exists s'. split; [done|]. split; [done|]. by eapply undrained_forced.
Qed.

(** ** The acceptor drains *)

Lemma newAcceptor_good max :
  (0 <= max < 2 ^ 32)%Z -> exists s, initDownstreamConnectionManager (newAcceptor max) = (Ok tt, s) /\ good s.
Proof.
  intros Hmax. eexists. split; [done|]. split; [|by intros Hs].
  split; simpl; [done|lia| |].
  - split_and!; [|done|by left]. split; [constructor|by intros c ?%elem_of_nil|by intros c h ?%elem_of_nil].
  - split; [by intros ?%elem_of_nil|done].
Qed.

(** The events run until the first unsafe one, which fails. *)
Lemma events_good evs : forall s, good s ->
  exists evs1 evs2 s', evs = evs1 ++ evs2 /\ acceptorRun newHelper evs1 s = (Ok tt, s') /\ good s' /\
    (evs2 = [] \/ exists ev evs3 f, evs2 = ev :: evs3 /\ unsafe ev s' = true /\ (acceptorRun newHelper evs s).1 = Err f).
Proof.
  unfold acceptorRun. induction evs as [|ev evs IH]; intros s Hg.
  - exists [], [], s. split_and!; [done..|by left].
  - destruct (unsafe ev s) eqn:Hun.
    + exists [], (ev :: evs), s. split_and!; [done..|]. right. destruct (unsafe_fails ev s Hg Hun) as [f Hf].
      exists ev, evs, f. split_and!; [done..|]. cbn [for_each]. unfold bind.
      destruct (acceptorStep newHelper ev s) as [[] ?]; [done|]. by simpl in *.
    + destruct (event_good ev s Hg Hun) as (s1 & E1 & Hg1).
      destruct (IH s1 Hg1) as (evs1 & evs2 & s2 & -> & E2 & Hg2 & Hend). exists (ev :: evs1), evs2, s2.
      cbn [for_each app]. rewrite !(bind_Ok _ _ _ _ _ E1). by split_and!.
Qed.

(** C26. For every sequence of sockets accepted or shed, handshakes that end,
    connections that close, and stops and forced drops of the acceptor: no
    CHECK fails, [numPendingSSLConns_] counts exactly the handshakes under way
    and never exceeds its limit, [onConnectionsDrained] has been called exactly
    when the acceptor is done, and a draining acceptor that is not forced to
    drop connections is done as soon as the last connection is gone.  This
    holds up to the first [unsafe] socket, where the program fails: one whose
    handshake is started when the acceptor is done, on its null connection
    manager, or whose helper calls back before it returns from [start], after
    which the deleted handshake manager is used. *)
Theorem acceptor_drains max evs :
  (0 <= max < 2 ^ 32)%Z ->
  exists evs1 evs2 s, evs = evs1 ++ evs2 /\
    (do! initDownstreamConnectionManager in acceptorRun newHelper evs1) (newAcceptor max) = (Ok tt, s) /\
    numPendingSSLConns_ s = Z.of_nat (default 0 (handshakes <$> downstreamConnectionManager_ s)) /\
    (numPendingSSLConns_ s <= maxConcurrentSSLHandshakes s)%Z /\
    (OnConnectionsDrained ∈ acceptorCalls s <-> state_ s = kDone) /\
    (state_ s = kDone <-> downstreamConnectionManager_ s = None) /\
    (state_ s = kDraining -> forceShutdownInProgress_ s = false ->
     exists p conns, downstreamConnectionManager_ s = Some (p :: conns)) /\
    (evs2 = [] \/ exists ev evs3 f, evs2 = ev :: evs3 /\ unsafe ev s = true /\
       ((do! initDownstreamConnectionManager in acceptorRun newHelper evs) (newAcceptor max)).1 = Err f).
Proof.
  intros Hmax. destruct (newAcceptor_good max Hmax) as (s0 & E0 & Hg0).
  destruct (events_good evs s0 Hg0) as (evs1 & evs2 & s & Eevs & E1 & [[_ Hp Hcm Hd] Hu] & Hend).
  exists evs1, evs2, s. split; [done|]. rewrite !(bind_Ok _ _ _ _ _ E0). split; [done|].
  destruct (downstreamConnectionManager_ s) as [conns|] eqn:Hm.
  - destruct Hcm as (Hok & Hn & Hs). split_and!; [simpl; lia|lia|done| | |exact Hend].
    + split; [|done]. intros Hdone. destruct Hs; congruence.
    + intros Hs' Hf. destruct (Hu Hs' Hf) as [Hne|(p & rest & E2)]; [|rewrite Hm in E2; by exists p, rest].
      destruct conns as [|p rest]; [|by exists p, rest]. by rewrite Hn in Hne.
  - destruct Hcm as (Hn & _ & Hs). split_and!; [done|lia|done|done| |exact Hend]. by rewrite Hs.
Qed.
End acceptor.

(** Two handshakes at once are too many here; the one under way succeeds while
    the acceptor drains, which closes its socket. *)
Definition drainingEvents : list (AcceptorEvent SSLEvent) :=
  [Accepted true true HandshakePending true; Accepted true true HandshakePending true;
   Accepted true false HandshakePending true; AcceptStopped [1]; Accepted true false HandshakePending true;
   HandshakeEvent 0 HandshakeSuc true].
Lemma acceptor_drains_witness :
  exists s, (do! initDownstreamConnectionManager in acceptorRun newSSLHelper drainingEvents) (newAcceptor 1) = (Ok tt, s) /\
    acceptorCalls s = [DroppedHandshake; OnNewConnection 1; ClosedSocket; ClosedSocket; OnConnectionsDrained] /\
    (OnConnectionsDrained ∈ acceptorCalls s <-> state_ s = kDone).
Proof.
  assert (Hw : hWf newSSLHelper) by (intros Hf; discriminate Hf).
  destruct (acceptor_drains newSSLHelper Hw eq_refl 1 drainingEvents ltac:(lia))
    as (evs1 & evs2 & s & Eevs & E & _ & _ & Hd & _ & _ & Hend).
  destruct Hend as [->|(ev & evs3 & f & _ & _ & Hf)]; [|vm_compute in Hf; discriminate Hf].
  rewrite app_nil_r in Eevs. rewrite <- Eevs in E.
  exists s. split; [exact E|]. split; [|exact Hd]. vm_compute in E. injection E as <-. reflexivity.
Defined.

(** ** What does not drain *)

(** [dropConnections] sets [forceShutdownInProgress_] and nothing resets it:
    after it has dropped half of the connections, stopping the acceptor and
    closing the other half does not make it done. *)
Lemma dropConnections_never_drained :
  exists s, (do! initDownstreamConnectionManager in
    for_each [Accepted true false HandshakePending true; Accepted true false HandshakePending true;
              DropSome HandshakePending 1; AcceptStopped []; Closed 0]
      (acceptorStep newSSLHelper)) (newAcceptor 1) = (Ok tt, s) /\
    state_ s = kDraining /\ downstreamConnectionManager_ s = Some [] /\ numPendingSSLConns_ s = 0%Z /\
    (forall evs : list nat, for_each evs (fun c => acceptorStep newSSLHelper (Closed c)) s = (Ok tt, s)).
Proof.
  eexists. split; [vm_compute; reflexivity|]. split_and!; [done..|]. intros evs. by induction evs.
Qed.

(** A helper that fails at once, as the one for TLS does when a handshake
    error is known at its start, makes [start] use the deleted manager. *)
Lemma start_after_callback :
  ((do! initDownstreamConnectionManager in
    acceptorStep newSSLHelper (Accepted true true HandshakeErr false)) (newAcceptor 1)).1 =
  Err (Undefined "AcceptorHandshakeManager used after it was deleted").
Proof. vm_compute. reflexivity. Qed.
