(* ===== verification/AcceptorTls.v ===== *)
(** * The TLS configuration of an acceptor (src/wangle/acceptor/Acceptor.cpp)

    [init] makes the contexts of the configuration (Sni.v) and the peekers of
    [SecurityProtocolContextManager]; later the contexts are reset, added to,
    and given new ticket keys.  Each accepted connection is a TLS connection
    offered TLS when there is a default context then, and the peekers choose by
    its first bytes (Handshake.v); otherwise it is taken in plain text. *)
From Stdlib Require Import Strings.Byte ZArith Lia.
From stdpp Require Import base numbers list gmap strings.
From S2P Require Import Prelude Handshake Tickets Sni.
Open Scope cpp_scope.

Set Default Goal Selector "!".

(** The members of [ServerSocketConfig] that [init] reads. *)
Record ServerSocketConfig : Type := mkSocketConfig {
  sslContextConfigs : list SSLContextConfig;
  strictSSL : bool;
  allowInsecureConnectionsOnSecureServer : bool;
  sslCacheOptions : SSLCacheOptions;
  initialTicketSeeds : TLSTicketKeySeeds
}.
Definition isSSL (config : ServerSocketConfig) : bool := negb (bool_decide (length (sslContextConfigs config) = 0)).

(** Peekers: the two of the acceptor, and those of an application, each with
    the number of bytes it requires. *)
Inductive Peeker : Type :=
| TLSPlaintextPeeker
| DefaultToSSLPeeker
| ApplicationPeeker (id bytesRequired : nat).
Definition getBytesRequired (p : Peeker) : nat :=
  match p with
  | TLSPlaintextPeeker => 9
  | DefaultToSSLPeeker => 0
  | ApplicationPeeker _ n => n
  end.

Record SecurityProtocolContextManager : Type := mkSecurity {
  peekingCallbacks_ : list Peeker;
  numBytes_ : nat
}.
Definition newSecurity : SecurityProtocolContextManager := mkSecurity [] 0.

(** [SecurityProtocolContextManager::addPeeker] *)
Definition addPeeker (p : Peeker) (x : SecurityProtocolContextManager) : SecurityProtocolContextManager :=
  mkSecurity (peekingCallbacks_ x ++ [p]) (if numBytes_ x <? getBytesRequired p then getBytesRequired p else numBytes_ x).

(** What [init] does after the contexts. *)
Inductive InitCall : Type :=
| InitDownstreamConnectionManager
| AddAcceptCallback
| ApplyOptions (fd : Z).

Record AcceptorTls : Type := mkAcceptorTls {
  sslCtxManager_ : option SSLContextManager;
  securityProtocolCtxManager_ : SecurityProtocolContextManager;
  initCalls : list InitCall
}.
Definition newAcceptorTls : AcceptorTls := mkAcceptorTls None newSecurity [].
Definition setSslCtxManager m (s : AcceptorTls) : AcceptorTls :=
  mkAcceptorTls (Some m) (securityProtocolCtxManager_ s) (initCalls s).
Definition setSecurity x (s : AcceptorTls) : AcceptorTls := mkAcceptorTls (sslCtxManager_ s) x (initCalls s).
Definition logInit x : M AcceptorTls unit :=
  modify (fun s => mkAcceptorTls (sslCtxManager_ s) (securityProtocolCtxManager_ s) (initCalls s ++ [x])).

(** The faults that [catch (const std::runtime_error&)] catches. *)
Definition is_runtime_error (f : fault) : bool :=
  match f with RuntimeError _ | UnderflowError _ => true | _ => false end.

Section tls.
Context (ossl : OpenSSL) (SHA256 : list byte -> list byte) (unhexlify hexlify : list byte -> option (list byte))
  (indeterminate : list byte).
(** Whether [init] is given statistics, and the counters of client hellos then. *)
Context (stats : bool).
Context (config : ServerSocketConfig).

(** The constructor of [SSLContextManager]. *)
Definition newSSLContextManager : SSLContextManager :=
  mkContextManager noContexts None (strictSSL config) (if stats then Some [] else None) [].

(** A method of the context manager, which is null before [init]. *)
Definition onSslCtxManager (c : M SSLContextManager unit) : M AcceptorTls unit := fun s =>
  match sslCtxManager_ s with
  | None => (Err (Undefined "sslCtxManager_"), s)
  | Some m => let '(r, m') := c m in (r, setSslCtxManager m' s)
  end.

(** [try { ... } catch (const std::runtime_error&) { ... }] *)
Definition catching (c : M AcceptorTls unit) (handler : fault -> M AcceptorTls unit) : M AcceptorTls unit := fun s =>
  match c s with
  | (Err f, s') => if is_runtime_error f then handler f s' else (Err f, s')
  | r => r
  end.

(** [CHECK(sslCtxManager_->getDefaultSSLCtx())] *)
Definition checkDefault : M SSLContextManager unit :=
  let! m := get in
  match defaultCtx (contexts_ m) with
  | Some _ => ret tt
  | None => raise (CheckFailed "sslCtxManager_->getDefaultSSLCtx()")
  end.

(** The first part of [Acceptor::init]. *)
Definition initTls : M AcceptorTls unit :=
  do! when (allowInsecureConnectionsOnSecureServer config)
        (modify (fun s => setSecurity (addPeeker TLSPlaintextPeeker (securityProtocolCtxManager_ s)) s)) in
  do! modify (fun s => setSecurity (addPeeker DefaultToSSLPeeker (securityProtocolCtxManager_ s)) s) in
  let! s := get in
  do! match sslCtxManager_ s with
      | None => modify (setSslCtxManager newSSLContextManager)
      | Some _ => ret tt
      end in
  catching
    (onSslCtxManager (
      do! for_each (sslContextConfigs config)
            (addToManager ossl SHA256 unhexlify hexlify indeterminate stats (sslCacheOptions config)
               (Some (initialTicketSeeds config))) in
      checkDefault))
    (fun f => if strictSSL config then raise f else onSslCtxManager clear).

(** [Acceptor::init]; [sockets] are those of the server socket, if there is one. *)
Definition init (sockets : option (list Z)) : M AcceptorTls unit :=
  do! when (isSSL config) initTls in
  do! logInit InitDownstreamConnectionManager in
  match sockets with
  | None => ret tt
  | Some fds =>
      do! logInit AddAcceptCallback in
      for_each fds (fun fd => if (fd <? 0)%Z then ret tt else logInit (ApplyOptions fd))
  end.

(** [Acceptor::resetSSLContextConfigs], [addSSLContextConfig] and
    [setTLSTicketSecrets] *)
Definition acceptorReset : M AcceptorTls unit :=
  catching
    (onSslCtxManager (resetSSLContextConfigs ossl SHA256 unhexlify hexlify indeterminate stats
       (sslContextConfigs config) (sslCacheOptions config) None))
    (fun _ => ret tt).
Definition acceptorAdd (sslCtxConfig : SSLContextConfig) : M AcceptorTls unit :=
  onSslCtxManager (addToManager ossl SHA256 unhexlify hexlify indeterminate stats (sslCacheOptions config)
    (Some (initialTicketSeeds config)) sslCtxConfig).
Definition setTLSTicketSecrets (seeds : TLSTicketKeySeeds) : M AcceptorTls unit :=
  let! s := get in
  match sslCtxManager_ s with
  | None => ret tt
  | Some _ => onSslCtxManager (reloadTLSTicketKeys SHA256 unhexlify hexlify indeterminate seeds)
  end.

(** [shouldDoSSL] of [processEstablishedConnection]. *)
Definition shouldDoSSL (s : AcceptorTls) : res bool :=
  if isSSL config then
    match sslCtxManager_ s with
    | None => Err (CheckFailed "sslCtxManager_")
    | Some m => Ok (if defaultCtx (contexts_ m) is Some _ then true else false)
    end
  else Ok false.

(** The [getHelper] of a peeker; those of an application are given. *)
Definition getHelper (application : nat -> list byte -> res (option AcceptedHelper)) (p : Peeker) :
    list byte -> res (option AcceptedHelper) :=
  match p with
  | TLSPlaintextPeeker => plaintextGetHelper
  | DefaultToSSLPeeker => defaultGetHelper
  | ApplicationPeeker id _ => application id
  end.

(** How a connection is taken: as plain text, with a TLS handshake, not yet,
    or not at all. *)
Inductive Served : Type := Plaintext | Secure | Waiting | Refused.

(** [processEstablishedConnection] for a client that has sent [bytes], when
    there is room for its handshake (Acceptor.v): the handshake manager peeks
    [numBytes_] of them, and the first peeker that gives a helper decides. *)
Definition serve (application : nat -> list byte -> res (option AcceptedHelper)) (bytes : list byte)
    (s : AcceptorTls) : res Served :=
  try! tls := shouldDoSSL s in
  if negb tls then Ok Plaintext
  else
    let x := securityProtocolCtxManager_ s in
    if length bytes <? numBytes_ x then Ok Waiting
    else
      try! h := chooseHelper (getHelper application <$> peekingCallbacks_ x) (take (numBytes_ x) bytes) in
      Ok (match h with
          | Some (inl _) => Secure
          | Some (inr _) => Plaintext
          | None => Refused
          end).

Inductive TlsEvent : Type :=
| ResetContexts
| AddContext (sslCtxConfig : SSLContextConfig)
| TicketSecrets (seeds : TLSTicketKeySeeds).
Definition tlsEvent (ev : TlsEvent) : M AcceptorTls unit :=
  match ev with
  | ResetContexts => acceptorReset
  | AddContext c => acceptorAdd c
  | TicketSecrets seeds => setTLSTicketSecrets seeds
  end.

(** The acceptor after the events; the callers catch what they throw. *)
Fixpoint tlsRun (evs : list TlsEvent) (s : AcceptorTls) : AcceptorTls :=
  match evs with
  | [] => s
  | ev :: evs => tlsRun evs (tlsEvent ev s).2
  end.
End tls.
