(* ===== verification/AcceptorTlsProps.v ===== *)
(** * The TLS configuration of an acceptor: no connection is downgraded

    [tls_never_downgraded]: a server that starts with TLS starts a TLS handshake
    on every connection, whatever fails afterwards - on those that do not look
    like TLS too, unless the configuration allows these; a strict one starts
    with TLS or not at all. *)
From Stdlib Require Import Strings.Byte ZArith Lia.
From stdpp Require Import base numbers list gmap strings.
From S2P Require Import Prelude Buffers Handshake Tickets TicketProps Sni SniProps AcceptorTls.
Open Scope cpp_scope.

Set Default Goal Selector "!".

(** ** A default context stays *)

Lemma ctxSetup_default p config b d :
  defaultCtx b.2 = Some d -> defaultCtx (ctxSetupByOpensslFeature p config b).2.2 = Some d.
Proof.
  intros Hd. unfold ctxSetupByOpensslFeature, onManager. rewrite bind_modify.
  destruct (isDefault config); cbn [when]; [|done]. rewrite bind_get. destruct b as [s c]. simpl in *. by rewrite Hd.
Qed.

Section tls.
Context (ossl : OpenSSL) (SHA256 : list byte -> list byte) (unhexlify hexlify : list byte -> option (list byte))
  (indeterminate : list byte) (stats : bool).
Implicit Types (config : ServerSocketConfig).
#[local] Abbreviation addConfig := (addSSLContextConfig ossl SHA256 unhexlify hexlify indeterminate stats).
#[local] Abbreviation addMore := (addToManager ossl SHA256 unhexlify hexlify indeterminate stats).
#[local] Abbreviation start := (init ossl SHA256 unhexlify hexlify indeterminate stats).
#[local] Abbreviation later := (tlsRun ossl SHA256 unhexlify hexlify indeterminate stats).

Lemma add_default cache seeds c b d :
  defaultCtx b.2 = Some d -> defaultCtx (addConfig cache seeds c b).2.2 = Some d.
Proof.
  intros Hd. unfold addSSLContextConfig.
  destruct (loadCertificates ossl c (certificates c) (mkCertState 0 [] None None)) as [st|f]; [|done].
  unfold of_res at 1, bind at 1. repeat (case_goal; [done|]). set (x := mkServerCtx _ _ _ _ _).
  assert (Ea : allocContext x b = (Ok (length (heap b.1)), (setHeap (heap b.1 ++ [x]) b.1, b.2))) by done.
  rewrite (bind_Ok _ _ _ _ _ Ea). set (b1 := (setHeap _ _, _)).
  pose proof (ctxSetup_default (length (heap b.1)) c b1 d Hd) as H1. unfold bind.
  destruct (ctxSetupByOpensslFeature _ _ b1) as [[[]|f] b2]; [|done]. simpl in H1. unfold rethrow.
  destruct (insert _ _ b2) as [r b3] eqn:E. apply insert_run in E as (_ & E & _).
  rewrite H1 in E. by destruct r.
Qed.

Lemma addMore_default cache seeds c m d :
  defaultCtx (contexts_ m) = Some d -> defaultCtx (contexts_ (addMore cache seeds c m).2) = Some d.
Proof.
  intros Hd. unfold addToManager. pose proof (add_default cache seeds c (m, contexts_ m) d Hd) as H.
  by destruct (addConfig cache seeds c (m, contexts_ m)) as [r b].
Qed.

(** Additions to the manager are those of SniProps.v. *)
Lemma addMore_all cache seeds configs : forall m m',
  for_each configs (addMore cache seeds) m = (Ok tt, m') ->
  addedAll SHA256 unhexlify hexlify indeterminate stats seeds configs (m, contexts_ m) (m', contexts_ m').
Proof.
  induction configs as [|c configs IH]; intros m m'.
  - intros [= <-]. exists []. rewrite !app_nil_r. split_and!; [done..|by constructor| |simpl; lia].
    simpl. by destruct (defaultCtx (contexts_ m)).
  - intros ([] & m1 & E1 & Hr)%bind_returns. unfold addToManager in E1.
    destruct (addConfig cache seeds c (m, contexts_ m)) as [r b] eqn:E. injection E1 as -> <-.
    apply add_run in E as (_ & _ & Ha). eapply addedAll_cons; [|by apply IH]. exact (Ha eq_refl).
Qed.

Lemma reload_contexts seeds m :
  exists m', reloadTLSTicketKeys SHA256 unhexlify hexlify indeterminate seeds m = (Ok tt, m') /\ contexts_ m' = contexts_ m.
Proof.
  unfold reloadTLSTicketKeys. rewrite bind_get. generalize (ctxs (contexts_ m)) as l. intros l. revert m.
  induction l as [|p l IH]; intros m; [by eexists|]. cbn [for_each]. rewrite bind_modify.
  destruct (IH (setHeap (alter (fun x => mkServerCtx (ctx_x509 x) (ctx_sessionIdContext x) (sessionCacheManager_ x)
      ((fun t => (setTLSTicketKeySeeds SHA256 unhexlify hexlify indeterminate seeds t).2) <$> ticketManager_ x)
      (ctx_serverNameCallback x)) p (heap m)) m)) as (m' & E & Hc).
  exists m'. split; [exact E|done].
Qed.

(** ** Starting *)

(** Every configured context is there, in order, and one is the default. *)
Definition configured config (m : SSLContextManager) : Prop :=
  ctxs (contexts_ m) = seq 0 (length (sslContextConfigs config)) /\
  defaultCtx (contexts_ m) = firstDefault (sslContextConfigs config) /\
  is_Some (firstDefault (sslContextConfigs config)).

Definition peekersOf config : SecurityProtocolContextManager :=
  if allowInsecureConnectionsOnSecureServer config then mkSecurity [TLSPlaintextPeeker; DefaultToSSLPeeker] 9
  else mkSecurity [DefaultToSSLPeeker] 0.

(** What is left to do once the peekers are there. *)
Definition fill config : M SSLContextManager unit :=
  do! for_each (sslContextConfigs config) (addMore (sslCacheOptions config) (Some (initialTicketSeeds config))) in
  checkDefault.

Lemma fill_run config m m' :
  fill config m = (Ok tt, m') -> contexts_ m = noContexts -> heap m = [] -> configured config m'.
Proof.
  intros ([] & m1 & E & Hk)%bind_returns Hc Hh.
  apply addMore_all in E as (xs & _ & Hctxs & _ & Hd & _). simpl in Hctxs, Hd. rewrite Hc, Hh in Hctxs, Hd. simpl in Hctxs, Hd.
  unfold checkDefault in Hk. rewrite bind_get in Hk.
  assert (defaultCtx (contexts_ m1) = firstDefault (sslContextConfigs config)) as Hd'.
  { rewrite Hd. by destruct (firstDefault _). }
  destruct (defaultCtx (contexts_ m1)) as [d|] eqn:E; [|done]. injection Hk as <-.
  unfold configured. rewrite <- Hd', E. by eauto.
Qed.

(** The peekers and the new manager. *)
Lemma initTls_peekers config :
  initTls ossl SHA256 unhexlify hexlify indeterminate stats config newAcceptorTls =
  catching (onSslCtxManager (fill config))
    (fun f => if strictSSL config then raise f else onSslCtxManager clear)
    (mkAcceptorTls (Some (newSSLContextManager stats config)) (peekersOf config) []).
Proof. unfold initTls, peekersOf. by destruct (allowInsecureConnectionsOnSecureServer config). Qed.

(** How the first part of [init] ends. *)
Lemma initTls_run config r s' :
  initTls ossl SHA256 unhexlify hexlify indeterminate stats config newAcceptorTls = (r, s') ->
  exists m, sslCtxManager_ s' = Some m /\ securityProtocolCtxManager_ s' = peekersOf config /\
  match r with
  | Ok _ => configured config m \/ (strictSSL config = false /\ contexts_ m = noContexts)
  | Err f => strictSSL config = true \/ is_runtime_error f = false
  end.
Proof.
  rewrite initTls_peekers. set (m0 := newSSLContextManager stats config). set (s0 := mkAcceptorTls (Some m0) (peekersOf config) []).
  unfold catching, onSslCtxManager. simpl. fold (fill config).
  destruct (fill config m0) as [r1 m1] eqn:E.
  destruct r1 as [[]|f]; [apply fill_run in E; [|done..]; intros [= <- <-]; exists m1; split_and!; [done|done|by left]|].
  destruct (is_runtime_error f) eqn:Ef; [|intros [= <- <-]; exists m1; split_and!; [done|done|by right]].
  destruct (strictSSL config) eqn:Es; intros [= <- <-]; eexists; (split_and!; [done|done|]); [by left|by right].
Qed.

(** The rest of [init]: the connection manager, the accept callback, and the
    options of the sockets that are open. *)
Definition restCalls (sockets : option (list Z)) : list InitCall :=
  InitDownstreamConnectionManager ::
  match sockets with
  | None => []
  | Some fds => AddAcceptCallback :: (ApplyOptions <$> filter (fun fd => (0 <= fd)%Z) fds)
  end.

Lemma init_rest sockets s :
  (do! logInit InitDownstreamConnectionManager in
    match sockets with
    | None => ret tt
    | Some fds =>
        do! logInit AddAcceptCallback in
        for_each fds (fun fd => if (fd <? 0)%Z then ret tt else logInit (ApplyOptions fd))
    end) s =
  (Ok tt, mkAcceptorTls (sslCtxManager_ s) (securityProtocolCtxManager_ s) (initCalls s ++ restCalls sockets)).
Proof.
  unfold logInit, restCalls. rewrite bind_modify. destruct sockets as [fds|]; [|done]. rewrite bind_modify. simpl.
  replace (initCalls s ++ InitDownstreamConnectionManager :: AddAcceptCallback :: (ApplyOptions <$> filter (fun fd => (0 <= fd)%Z) fds))
    with (((initCalls s ++ [InitDownstreamConnectionManager]) ++ [AddAcceptCallback]) ++ (ApplyOptions <$> filter (fun fd => (0 <= fd)%Z) fds))
    by by rewrite <- !app_assoc.
  generalize ((initCalls s ++ [InitDownstreamConnectionManager]) ++ [AddAcceptCallback]) as l.
  induction fds as [|fd fds IH]; intros l; [by rewrite app_nil_r|].
  cbn [for_each]. rewrite filter_cons. destruct (Z.ltb_spec fd 0).
  - rewrite bind_ret, decide_False by lia. apply IH.
  - rewrite bind_modify, decide_True by lia. simpl. rewrite IH. by rewrite <- app_assoc.
Qed.

(** What the contexts of the configuration make of [init]. *)
Definition addAll config : M SSLContextManager unit :=
  for_each (sslContextConfigs config) (addMore (sslCacheOptions config) (Some (initialTicketSeeds config))).

Lemma fill_added config m m' :
  addAll config m = (Ok tt, m') -> contexts_ m = noContexts -> heap m = [] ->
  fill config m = (if firstDefault (sslContextConfigs config) is Some _ then Ok tt
                   else Err (CheckFailed "sslCtxManager_->getDefaultSSLCtx()"), m').
Proof.
  intros E Hc Hh. unfold fill. rewrite (bind_Ok _ _ _ _ _ E).
  apply addMore_all in E as (xs & _ & _ & _ & Hd & _). simpl in Hd. rewrite Hc, Hh in Hd. simpl in Hd.
  unfold checkDefault. rewrite bind_get, Hd. by destruct (firstDefault _).
Qed.

(** When no context is refused, [init] ends in the CHECK or starts, as there is
    or is not a default among them. *)
Lemma init_added config sockets :
  isSSL config = true ->
  (addAll config (newSSLContextManager stats config)).1 = Ok tt ->
  exists s', start config sockets newAcceptorTls =
    (if firstDefault (sslContextConfigs config) is Some _ then Ok tt
     else Err (CheckFailed "sslCtxManager_->getDefaultSSLCtx()"), s') /\
    (is_Some (firstDefault (sslContextConfigs config)) -> initCalls s' = restCalls sockets).
Proof.
  intros Hssl Ha. set (m0 := newSSLContextManager stats config) in *.
  destruct (addAll config m0) as [r m1] eqn:E. simpl in Ha. subst r.
  apply fill_added in E; [|done..].
  assert (exists p, initTls ossl SHA256 unhexlify hexlify indeterminate stats config newAcceptorTls =
    (if firstDefault (sslContextConfigs config) is Some _ then Ok tt
     else Err (CheckFailed "sslCtxManager_->getDefaultSSLCtx()"), mkAcceptorTls (Some m1) p [])) as [p Ei].
  { rewrite initTls_peekers. unfold catching, onSslCtxManager. simpl. fold (fill config). fold m0. rewrite E.
    destruct (firstDefault _); by eexists. }
  unfold init. rewrite Hssl. cbn [when]. unfold bind at 1. rewrite Ei. destruct (firstDefault _) as [d|].
  - rewrite init_rest. by eexists.
  - eexists. split; [done|]. by intros [? ?].
Qed.

(** ** Later events *)

Definition tlsOn config (s : AcceptorTls) : Prop :=
  exists m d, sslCtxManager_ s = Some m /\ defaultCtx (contexts_ m) = Some d /\
    is_Some (firstDefault (sslContextConfigs config)).

Lemma catching_state config c (s : AcceptorTls) :
  (catching c (fun _ => ret tt) s).2 = (c s).2.
Proof. unfold catching. destruct (c s) as [[[]|f] s']; [done|]. by destruct (is_runtime_error f). Qed.

Lemma tlsEvent_on config ev s :
  tlsOn config s -> tlsOn config (tlsEvent ossl SHA256 unhexlify hexlify indeterminate stats config ev s).2.
Proof.
  intros (m & d & Hm & Hd & Hdef). destruct ev as [|c|seeds]; cbn [tlsEvent].
  - unfold acceptorReset. rewrite (catching_state config). unfold onSslCtxManager. rewrite Hm.
    unfold resetSSLContextConfigs. destruct (for_each _ _ _) as [r b] eqn:E. apply adds_run in E as (_ & Hc & Ha).
    destruct r as [[]|f]; simpl.
    + destruct (Ha eq_refl) as [(xs & _ & _ & _ & Hd' & _) _]. simpl in Hd'. destruct Hdef as [i Hi]. rewrite Hi in Hd'.
      eexists _, _. split_and!; [done|exact Hd'|by eexists].
    + simpl in Hc. exists b.1, d. rewrite Hc. done.
  - unfold acceptorAdd, onSslCtxManager. rewrite Hm.
    pose proof (addMore_default (sslCacheOptions config) (Some (initialTicketSeeds config)) c m d Hd) as H.
    destruct (addMore _ _ c m) as [r m']. by exists m', d.
  - unfold setTLSTicketSecrets. rewrite bind_get, Hm. unfold onSslCtxManager. rewrite Hm.
    destruct (reload_contexts seeds m) as (m' & -> & Hc). exists m', d. simpl. by rewrite Hc.
Qed.

Lemma tlsRun_on config evs : forall s, tlsOn config s -> tlsOn config (later config evs s).
Proof. induction evs as [|ev evs IH]; intros s Hs; [done|]. simpl. by apply IH, tlsEvent_on. Qed.

Lemma tlsOn_shouldDoSSL config s : tlsOn config s -> shouldDoSSL config s = Ok (isSSL config).
Proof. intros (m & d & Hm & Hd & _). unfold shouldDoSSL. rewrite Hm, Hd. by destruct (isSSL config). Qed.

(** The peekers stay those of [init]. *)
Lemma onSslCtxManager_security c (s : AcceptorTls) :
  securityProtocolCtxManager_ (onSslCtxManager c s).2 = securityProtocolCtxManager_ s.
Proof. unfold onSslCtxManager. destruct (sslCtxManager_ s); [|done]. by destruct (c _). Qed.

Lemma tlsRun_security config evs : forall s,
  securityProtocolCtxManager_ (later config evs s) = securityProtocolCtxManager_ s.
Proof.
  induction evs as [|ev evs IH]; intros s; [done|]. simpl. rewrite IH. destruct ev as [|c|seeds]; cbn [tlsEvent].
  - unfold acceptorReset. rewrite (catching_state config). apply onSslCtxManager_security.
  - apply onSslCtxManager_security.
  - unfold setTLSTicketSecrets. rewrite bind_get. destruct (sslCtxManager_ s); [|done]. apply onSslCtxManager_security.
Qed.

(** How a connection should be taken by a server with TLS: only if insecure
    connections are allowed are the first bytes waited for, and a client whose
    bytes do not look like TLS is taken in plain text. *)
Definition served config (bytes : list byte) : Served :=
  if negb (allowInsecureConnectionsOnSecureServer config) then Secure
  else if length bytes <? kPeekCount then Waiting
  else if bool_decide (bytes !! 0 = Some x16) && bool_decide (bytes !! 1 = Some x03) && bool_decide (bytes !! 5 = Some x01)
  then Secure else Plaintext.

Lemma serve_secure config application bytes s :
  shouldDoSSL config s = Ok true -> securityProtocolCtxManager_ s = peekersOf config ->
  serve config application bytes s = Ok (served config bytes).
Proof.
  intros Hs Hp. unfold serve, served, peekersOf in *. rewrite Hs, Hp.
  destruct (allowInsecureConnectionsOnSecureServer config); simpl; [|done].
  destruct (Nat.ltb_spec (length bytes) 9) as [Hl|Hl].
  { unfold kPeekCount. by rewrite (proj2 (Nat.ltb_lt _ _) Hl). }
  unfold kPeekCount. rewrite (proj2 (Nat.ltb_ge _ _) Hl).
  do 9 (destruct bytes as [|? bytes]; [simpl in Hl; lia|]). simpl.
  unfold plaintextGetHelper, looksLikeTLS. simpl. by repeat case_bool_decide.
Qed.

(** C27.  An acceptor with TLS configured that has started either has a context
    for every configuration, in order, with the one that says so as the
    default; then every connection, from then on and after any sequence of
    resets, additions and changes of the ticket keys, of which any may fail, is
    taken with a TLS handshake, whatever its client sends - except that, if
    [allowInsecureConnectionsOnSecureServer] is set, it waits for nine bytes and
    a client whose bytes do not look like TLS is taken in plain text.  Or its
    configuration is not strict and some of it was refused; then it has no
    context at all, and every connection is taken in plain text.  A strict one
    that starts, starts in the first way. *)
Theorem tls_never_downgraded config sockets evs application bytes s' :
  isSSL config = true ->
  start config sockets newAcceptorTls = (Ok tt, s') ->
  securityProtocolCtxManager_ s' = peekersOf config /\
  exists m, sslCtxManager_ s' = Some m /\
    ((configured config m /\
      serve config application bytes s' = Ok (served config bytes) /\
      serve config application bytes (later config evs s') = Ok (served config bytes)) \/
     (strictSSL config = false /\ contexts_ m = noContexts /\
      serve config application bytes s' = Ok Plaintext)).
Proof.
  intros Hssl. unfold init. rewrite Hssl. cbn [when]. intros ([] & s1 & E & Hr)%bind_returns.
  rewrite init_rest in Hr. injection Hr as <-. simpl.
  apply initTls_run in E as (m & Hm & Hp & Hc). split; [done|]. exists m. split; [done|].
  destruct Hc as [Hc|[Hs Hc]]; [left|right].
  - set (s2 := mkAcceptorTls _ _ _).
    assert (tlsOn config s2) as Hon.
    { destruct Hc as (_ & Hd & [d Hi]). exists m, d. split_and!; [done|by rewrite Hd|by eexists]. }
    split; [done|]. split; apply serve_secure; rewrite ?tlsRun_security; try done;
      rewrite tlsOn_shouldDoSSL by (try apply tlsRun_on; done); by rewrite Hssl.
  - split_and!; [done..|]. unfold serve, shouldDoSSL. simpl. by rewrite Hssl, Hm, Hc.
Qed.

(** A refused configuration of a strict acceptor is the caller's exception. *)
Lemma strict_init_throws config sockets f s' :
  start config sockets newAcceptorTls = (Err f, s') -> strictSSL config = true \/ is_runtime_error f = false.
Proof.
  unfold init. destruct (isSSL config); cbn [when].
  - unfold bind at 1. destruct (initTls _ _ _ _ _ _ config newAcceptorTls) as [[[]|f1] s1] eqn:E.
    + by rewrite init_rest.
    + apply initTls_run in E as (m & _ & _ & Hf). by intros [= <- <-].
  - rewrite bind_ret. by rewrite init_rest.
Qed.
End tls.

(** ** Three configurations *)

Definition someSocketConfig (strict : bool) (contexts : list SSLContextConfig) : ServerSocketConfig :=
  mkSocketConfig contexts strict false someCache seedsBefore.
Definition startWith (config : ServerSocketConfig) (sockets : option (list Z)) : res unit * AcceptorTls :=
  init someOpenSSL padHash Some Some [] true config sockets newAcceptorTls.
Definition goodConfig (strict : bool) : ServerSocketConfig :=
  someSocketConfig strict [someConfig "weak" false None; someConfig "wild" true None].
Definition badConfig (strict : bool) : ServerSocketConfig :=
  someSocketConfig strict [someConfig "wild" true None; someConfig "missing" false None].

(** Not strict, a certificate that is refused takes TLS from the whole server:
    it starts, and answers in plain text. *)
Lemma lenient_serves_plaintext :
  (startWith (badConfig false) None).1 = Ok tt /\
  shouldDoSSL (badConfig false) (startWith (badConfig false) None).2 = Ok false /\
  (startWith (badConfig true) None).1 = Err (RuntimeError "error loading SSL certificate").
Proof. vm_compute. done. Qed.

(** Without a default context, not strict is no help: the CHECK is inside the
    [try], and ends the process. *)
Lemma no_default_ends_process :
  (startWith (someSocketConfig false [someConfig "weak" false None]) None).1 =
    Err (CheckFailed "sslCtxManager_->getDefaultSSLCtx()").
Proof.
  destruct (init_added someOpenSSL padHash Some Some [] true (someSocketConfig false [someConfig "weak" false None]) None)
    as (s' & E & _); [reflexivity|vm_compute; reflexivity|].
  unfold startWith. by rewrite E.
Qed.

(** Also a client that speaks plain text, and has sent ten bytes of it, gets a
    TLS handshake. *)
Lemma tls_never_downgraded_witness :
  let config := goodConfig true in
  exists s, startWith config (Some [3; -1; 4]%Z) = (Ok tt, s) /\
    initCalls s = [InitDownstreamConnectionManager; AddAcceptCallback; ApplyOptions 3; ApplyOptions 4] /\
    serve config (fun _ _ => Ok None) (repeat x41 10) (tlsRun someOpenSSL padHash Some Some [] true config
      [ResetContexts; AddContext (someConfig "bad" true None); TicketSecrets seedsBefore] s) = Ok Secure.
Proof.
  destruct (init_added someOpenSSL padHash Some Some [] true (goodConfig true) (Some [3; -1; 4]%Z))
    as (s & E & Hcalls); [reflexivity|vm_compute; reflexivity|].
  exists s. split; [exact E|]. split; [apply Hcalls; by eexists|].
  destruct (tls_never_downgraded someOpenSSL padHash Some Some [] true (goodConfig true) (Some [3; -1; 4]%Z)
    [ResetContexts; AddContext (someConfig "bad" true None); TicketSecrets seedsBefore] (fun _ _ => Ok None)
    (repeat x41 10) _ eq_refl E) as (_ & m & _ & [(_ & _ & H)|[H _]]); [exact H|discriminate H].
Defined.
