(* ===== verification/Etcd.v ===== *)
(** * The etcd client (src/wangle/v3)

    The actions of the client: each constructor makes a request, each
    [ParseResponse] turns the reply into a [V3Response].  [Transaction] builds
    the requests of the conditional actions; [AsyncWatchAction] is a loop over
    the completion queue of its stream.

    The messages of etcd and its service are not part of the program: a
    message is the record of the fields that are set or read here, and the
    service is an interface. *)
From Stdlib Require Import ZArith NArith Ascii String.
From stdpp Require Import base numbers list gmap strings.
From S2P Require Import Prelude.
Open Scope cpp_scope.

Set Default Goal Selector "!".

(** ** Messages *)

Module mvccpb.
Record KeyValue : Type := mkKeyValue {
  key : string;
  mod_revision : Z;
  version : Z;
  value : string;
  lease : Z
}.
Definition clear_value (kv : KeyValue) : KeyValue :=
  mkKeyValue (key kv) (mod_revision kv) (version kv) "" (lease kv).
Definition empty : KeyValue := mkKeyValue "" 0 0 "" 0.
Inductive EventType : Type := PUT | DELETE.
Record Event : Type := mkEvent {
  type : EventType;
  kv : KeyValue;
  prev_kv : option KeyValue
}.
End mvccpb.

Inductive CompareResult : Type := EQUAL | GREATER.
Inductive CompareTarget : Type := VERSION | VALUE | MOD.
Inductive TargetUnion : Type :=
| TargetVersion (version : Z)
| TargetValue (value : string)
| TargetModRevision (mod_revision : Z).
Record Compare : Type := mkCompare {
  cmp_result : CompareResult;
  cmp_target : CompareTarget;
  cmp_key : string;
  cmp_union : TargetUnion
}.

(** [ascending]: sorted by key. *)
Record RangeRequest : Type := mkRange { range_key : string; range_end : string; ascending : bool }.
Record PutRequest : Type := mkPut { put_key : string; put_value : string; put_prev_kv : bool; put_lease : Z }.
Record DeleteRangeRequest : Type := mkDelete { delete_key : string; delete_end : string; delete_prev_kv : bool }.
Inductive RequestOp : Type :=
| RequestRange (r : RangeRequest)
| RequestPut (r : PutRequest)
| RequestDeleteRange (r : DeleteRangeRequest).
Record TxnRequest : Type := mkTxn { compare : list Compare; success : list RequestOp; failure : list RequestOp }.
Record WatchCreateRequest : Type := mkWatchCreate {
  watch_key : string; watch_end : string; watch_prev_kv : bool; start_revision : Z
}.

Record RangeResponse : Type := mkRangeResponse { range_revision : Z; kvs : list mvccpb.KeyValue }.
Record DeleteRangeResponse : Type := mkDeleteResponse { delete_revision : Z; prev_kvs : list mvccpb.KeyValue }.
Inductive ResponseOp : Type :=
| ResponseRange (r : RangeResponse)
| ResponsePut (prev_kv : option mvccpb.KeyValue)
| ResponseDeleteRange (r : DeleteRangeResponse).
Record TxnResponse : Type := mkTxnResponse { txn_revision : Z; succeeded : bool; responses : list ResponseOp }.
Record LeaseGrantResponse : Type := mkLeaseResponse { lease_revision : Z; lease_id : Z; lease_ttl : Z; lease_error : string }.
Record WatchResponse : Type := mkWatchResponse { watch_revision : Z; events : list mvccpb.Event }.

(** [grpc::Status]: [None] when it is ok, else the code and the message. *)
Definition Status : Type := option (Z * string).

(** ** Responses of the client *)

Definition CREATE_ACTION : string := "create".
Definition COMPARESWAP_ACTION : string := "compareAndSwap".
Definition UPDATE_ACTION : string := "update".
Definition SET_ACTION : string := "set".
Definition GET_ACTION : string := "get".
Definition DELETE_ACTION : string := "delete".
Definition COMPAREDELETE_ACTION : string := "compareAndDelete".

Record KeyValue : Type := mkKV { kv_kvs : mvccpb.KeyValue; kv_ttl : Z }.
Definition newKeyValue : KeyValue := mkKV mvccpb.empty 0.
Definition of_kvs (kv : mvccpb.KeyValue) : KeyValue := mkKV kv 0.

(** Its [prev_values] is never filled. *)
Record V3Response : Type := mkResponse {
  error_code : Z;
  index : Z;
  error_message : string;
  action : string;
  value : KeyValue;
  prev_value : KeyValue;
  values : list KeyValue
}.
Definition newResponse : V3Response := mkResponse 0 0 "" "" newKeyValue newKeyValue [].

Definition set_index x (r : V3Response) : V3Response :=
  mkResponse (error_code r) x (error_message r) (action r) (value r) (prev_value r) (values r).
Definition set_error code msg (r : V3Response) : V3Response :=
  mkResponse code (index r) msg (action r) (value r) (prev_value r) (values r).
Definition set_action x (r : V3Response) : V3Response :=
  mkResponse (error_code r) (index r) (error_message r) x (value r) (prev_value r) (values r).
Definition set_value x (r : V3Response) : V3Response :=
  mkResponse (error_code r) (index r) (error_message r) (action r) x (prev_value r) (values r).
Definition set_prev_value x (r : V3Response) : V3Response :=
  mkResponse (error_code r) (index r) (error_message r) (action r) (value r) x (values r).
Definition set_values x (r : V3Response) : V3Response :=
  mkResponse (error_code r) (index r) (error_message r) (action r) (value r) (prev_value r) x.

(** [AsyncRangeResponse::ParseResponse]. *)
Definition parseRange (resp : RangeResponse) (prefix : bool) (r : V3Response) : V3Response :=
  let r := set_index (i32 (range_revision resp)) (set_action GET_ACTION r) in
  match kvs resp with
  | [] => set_error 100 "Key not found" r
  | kv :: _ =>
      if prefix then set_values (values r ++ (of_kvs <$> kvs resp)) r
      else set_values [] (set_value (default (of_kvs kv) (head (values r))) r)
  end.

(** [AsyncDeleteRangeResponse::ParseResponse]. *)
Definition parseDelete (prefix : bool) (resp : DeleteRangeResponse) (r : V3Response) : V3Response :=
  let r := set_index (i32 (delete_revision resp)) r in
  match prev_kvs resp with
  | [] => set_error 100 "Key not found" r
  | kv :: _ =>
      let r := set_values (values r ++ (of_kvs <$> prev_kvs resp)) (set_action DELETE_ACTION r) in
      if prefix then r
      else
        let first := default (of_kvs kv) (head (values r)) in
        set_values [] (set_value (mkKV (mvccpb.clear_value (kv_kvs first)) (kv_ttl first)) (set_prev_value first r))
  end.

(** [AsyncTxnResponse::ParseResponse]. *)
Definition parseOp (prefix : bool) (r : V3Response) (resp : ResponseOp) : V3Response :=
  match resp with
  | ResponseRange resp =>
      let response := parseRange resp prefix newResponse in
      set_value (value response) (set_values (values response)
        (set_error (error_code response) (error_message response) r))
  | ResponsePut (Some kv) => set_prev_value (mkKV kv (kv_ttl (prev_value r))) r
  | ResponsePut None => r
  | ResponseDeleteRange resp =>
      let response := parseDelete prefix resp newResponse in
      set_value (value response) (set_values (values response)
        (set_prev_value (mkKV (kv_kvs (prev_value response)) (kv_ttl (prev_value r))) r))
  end.
Definition parseTxn (prefix : bool) (reply : TxnResponse) (r : V3Response) : V3Response :=
  fold_left (parseOp prefix) (responses reply) (set_index (i32 (txn_revision reply)) r).

(** [AsyncLeaseGrantResponse::ParseResponse]. *)
Definition parseLease (resp : LeaseGrantResponse) (r : V3Response) : V3Response :=
  let kv := kv_kvs (value r) in
  set_error (error_code r) (lease_error resp)
    (set_value (mkKV (mvccpb.mkKeyValue (mvccpb.key kv) (mvccpb.mod_revision kv) (mvccpb.version kv)
                        (mvccpb.value kv) (lease_id resp)) (i32 (lease_ttl resp)))
      (set_index (i32 (lease_revision resp)) r)).

(** [AsyncWatchResponse::ParseResponse]: the first event. *)
Definition parseWatch (reply : WatchResponse) (r : V3Response) : V3Response :=
  let r := set_index (i32 (watch_revision reply)) r in
  match events reply with
  | [] => r
  | event :: _ =>
      let r :=
        match mvccpb.type event with
        | mvccpb.PUT =>
            set_value (mkKV (mvccpb.kv event) (kv_ttl (value r)))
              (set_action (if (mvccpb.version (mvccpb.kv event) =? 1)%Z then CREATE_ACTION else SET_ACTION) r)
        | mvccpb.DELETE => set_value (mkKV (mvccpb.kv event) (kv_ttl (value r))) (set_action DELETE_ACTION r)
        end in
      match mvccpb.prev_kv event with
      | Some kv => set_prev_value (mkKV kv (kv_ttl (prev_value r))) r
      | None => r
      end
  end.

(** ** Transactions *)

Record Transaction : Type := mkTransaction { tr_key : string; txn_request : TxnRequest; ttl_request : Z }.
Definition newTransaction (key : string) : Transaction := mkTransaction key (mkTxn [] [] []) 0.

Definition add_compare (c : Compare) (t : Transaction) : Transaction :=
  let r := txn_request t in
  mkTransaction (tr_key t) (mkTxn (compare r ++ [c]) (success r) (failure r)) (ttl_request t).
Definition add_success (op : RequestOp) (t : Transaction) : Transaction :=
  let r := txn_request t in
  mkTransaction (tr_key t) (mkTxn (compare r) (success r ++ [op]) (failure r)) (ttl_request t).
Definition add_failure (op : RequestOp) (t : Transaction) : Transaction :=
  let r := txn_request t in
  mkTransaction (tr_key t) (mkTxn (compare r) (success r) (failure r ++ [op])) (ttl_request t).

(** The three [init_compare]. *)
Definition init_compare result target (t : Transaction) : Transaction :=
  add_compare (mkCompare result target (tr_key t) (TargetVersion 0)) t.
Definition init_compare_value (old_value : string) result target (t : Transaction) : Transaction :=
  add_compare (mkCompare result target (tr_key t) (TargetValue old_value)) t.
Definition init_compare_index (old_index : Z) result target (t : Transaction) : Transaction :=
  add_compare (mkCompare result target (tr_key t) (TargetModRevision old_index)) t.

Definition setup_basic_failure_operation key (t : Transaction) : Transaction :=
  add_failure (RequestRange (mkRange key "" false)) t.
Definition setup_set_failure_operation key value leaseid (t : Transaction) : Transaction :=
  add_failure (RequestRange (mkRange key "" false))
    (add_failure (RequestPut (mkPut key value true leaseid)) t).
Definition setup_delete_failure_operation key range_end (recursive : bool) (t : Transaction) : Transaction :=
  let range_end := if recursive then range_end else "" in
  add_failure (RequestDeleteRange (mkDelete key range_end false))
    (add_failure (RequestRange (mkRange key range_end recursive)) t).
Definition setup_basic_create_sequence key value leaseid (t : Transaction) : Transaction :=
  add_success (RequestRange (mkRange key "" false))
    (add_success (RequestPut (mkPut key value true leaseid)) t).
Definition setup_compare_and_swap_sequence value leaseid (t : Transaction) : Transaction :=
  add_success (RequestRange (mkRange (tr_key t) "" false))
    (add_success (RequestPut (mkPut (tr_key t) value true leaseid)) t).
Definition setup_delete_sequence key range_end (recursive : bool) (t : Transaction) : Transaction :=
  add_success (RequestDeleteRange (mkDelete key (if recursive then range_end else "") true)) t.
Definition setup_compare_and_delete_operation key (t : Transaction) : Transaction :=
  add_success (RequestDeleteRange (mkDelete key "" true)) t.
Definition setup_lease_grant_operation ttl (t : Transaction) : Transaction :=
  mkTransaction (tr_key t) (txn_request t) ttl.

(** ** Actions *)

Inductive Atomicity_Type : Type := PREV_INDEX | PREV_VALUE.
Record ActionParameters : Type := mkParameters {
  withPrefix : bool;
  revision : Z;
  old_revision : Z;
  par_lease_id : Z;
  ttl : Z;
  par_key : string;
  par_value : string;
  old_value : string
}.

Definition failed (e : Z * string) : V3Response := set_error e.1 e.2 newResponse.

Definition compareOld (param : ActionParameters) (type : Atomicity_Type) (t : Transaction) : Transaction :=
  match type with
  | PREV_VALUE => init_compare_value (old_value param) EQUAL VALUE t
  | PREV_INDEX => init_compare_index (old_revision param) EQUAL MOD t
  end.

(** [AsyncSetAction]; with [create] it sets only a key that is not there. *)
Definition setRequest (param : ActionParameters) (create : bool) : TxnRequest :=
  let t := newTransaction (par_key param) in
  let t := init_compare EQUAL VERSION t in
  let t := setup_basic_create_sequence (par_key param) (par_value param) (par_lease_id param) t in
  txn_request
    (if create then setup_basic_failure_operation (par_key param) t
     else setup_set_failure_operation (par_key param) (par_value param) (par_lease_id param) t).
Definition setParse (param : ActionParameters) (create : bool) (status : Status) (reply : TxnResponse) : V3Response :=
  match status with
  | Some e => failed e
  | None =>
      let r := parseTxn (withPrefix param) reply newResponse in
      let r := set_action (if create then CREATE_ACTION else SET_ACTION) r in
      if negb (succeeded reply) && create then set_error 105 "Key already exists" r else r
  end.

(** [AsyncUpdateAction]. *)
Definition updateRequest (param : ActionParameters) : TxnRequest :=
  let t := newTransaction (par_key param) in
  let t := init_compare GREATER VERSION t in
  txn_request (setup_compare_and_swap_sequence (par_value param) (par_lease_id param) t).
Definition updateParse (param : ActionParameters) (status : Status) (reply : TxnResponse) : V3Response :=
  match status with
  | Some e => failed e
  | None =>
      if succeeded reply then set_action UPDATE_ACTION (parseTxn (withPrefix param) reply newResponse)
      else set_error 100 "Key not found" newResponse
  end.

(** [AsyncCompareAndSwapAction]. *)
Definition swapRequest (param : ActionParameters) (type : Atomicity_Type) : TxnRequest :=
  let t := compareOld param type (newTransaction (par_key param)) in
  let t := setup_basic_failure_operation (par_key param) t in
  txn_request (setup_compare_and_swap_sequence (par_value param) (par_lease_id param) t).
Definition swapParse (param : ActionParameters) (status : Status) (reply : TxnResponse) : V3Response :=
  match status with
  | Some e => failed e
  | None =>
      let r := set_action COMPARESWAP_ACTION (parseTxn (withPrefix param) reply newResponse) in
      if negb (succeeded reply) && (error_code r =? 0)%Z then set_error 101 "Compare failed" r else r
  end.

(** [AsyncCompareAndDeleteAction]. *)
Definition compareDeleteRequest (param : ActionParameters) (type : Atomicity_Type) : TxnRequest :=
  let t := compareOld param type (newTransaction (par_key param)) in
  let t := setup_compare_and_delete_operation (par_key param) t in
  txn_request (setup_basic_failure_operation (par_key param) t).
Definition compareDeleteParse (param : ActionParameters) (status : Status) (reply : TxnResponse) : V3Response :=
  match status with
  | Some e => failed e
  | None =>
      let r := set_action COMPAREDELETE_ACTION (parseTxn (withPrefix param) reply newResponse) in
      if negb (succeeded reply) then set_error 101 "Compare failed" r else r
  end.

(** The end of the range of keys with a prefix: the key with its last [char]
    incremented. *)
Fixpoint incrementLast (key : string) : res string :=
  match key with
  | EmptyString => Err (Undefined "range_end.back() of an empty string")
  | String c EmptyString => Ok (String (ascii_of_N ((N_of_ascii c + 1) mod 256)) EmptyString)
  | String c key => try! e := incrementLast key in Ok (String c e)
  end.
Definition rangeEnd (param : ActionParameters) : res string :=
  if withPrefix param then incrementLast (par_key param) else Ok "".

(** [AsyncGetAction], [AsyncDeleteAction], [AsyncWatchAction]. *)
Definition getRequest (param : ActionParameters) : res RangeRequest :=
  try! e := rangeEnd param in Ok (mkRange (par_key param) e (withPrefix param)).
Definition getParse (param : ActionParameters) (status : Status) (reply : RangeResponse) : V3Response :=
  match status with
  | Some e => failed e
  | None => parseRange reply (withPrefix param) newResponse
  end.
Definition deleteRequest (param : ActionParameters) : res DeleteRangeRequest :=
  try! e := rangeEnd param in Ok (mkDelete (par_key param) e true).
Definition deleteParse (param : ActionParameters) (status : Status) (reply : DeleteRangeResponse) : V3Response :=
  match status with
  | Some e => failed e
  | None => parseDelete (withPrefix param) reply newResponse
  end.
Definition watchRequest (param : ActionParameters) : res WatchCreateRequest :=
  try! e := rangeEnd param in Ok (mkWatchCreate (par_key param) e true (revision param)).
Definition leaseRequest (param : ActionParameters) : Z :=
  ttl_request (setup_lease_grant_operation (ttl param) (newTransaction "")).
Definition leaseParse (status : Status) (reply : LeaseGrantResponse) : V3Response :=
  match status with
  | Some e => failed e
  | None => parseLease reply newResponse
  end.

(** ** Watching: [AsyncWatchAction] *)

(** The tags of the completion queue. *)
Inductive Tag : Type := TagCreate | TagWrite | TagRead | TagWritesDone.
#[export] Instance Tag_eq_dec : EqDecision Tag.
Proof. solve_decision. Defined.

(** [stream_ops] are the operations of the stream that are under way;
    [callbacks] is what the callback was given, [running] whether a loop of
    [waitForResponse] goes on. *)
Record AsyncWatchAction : Type := mkWatch {
  reply : WatchResponse;
  isCancelled : bool;
  stream_ops : list Tag;
  callbacks : list V3Response;
  running : bool
}.

Definition newWatch : AsyncWatchAction :=
  mkWatch (mkWatchResponse 0 []) false [TagCreate; TagWrite; TagRead] [] true.

Definition post (t : Tag) : M AsyncWatchAction unit :=
  modify (fun s => mkWatch (reply s) (isCancelled s) (stream_ops s ++ [t]) (callbacks s) (running s)).
Definition stop : M AsyncWatchAction unit :=
  modify (fun s => mkWatch (reply s) (isCancelled s) (stream_ops s) (callbacks s) false).
Definition cancelled : M AsyncWatchAction unit :=
  modify (fun s => mkWatch (reply s) true (stream_ops s) (callbacks s) (running s)).
Definition callback (r : V3Response) : M AsyncWatchAction unit :=
  modify (fun s => mkWatch (reply s) (isCancelled s) (stream_ops s) (callbacks s ++ [r]) (running s)).

Definition CancelWatch : M AsyncWatchAction unit :=
  let! s := get in when (negb (isCancelled s)) (post TagWritesDone).

Definition has_events (r : WatchResponse) : bool := negb (length (events r) =? 0).

(** One turn of [waitForResponse()]. *)
Definition waitTurn (got_tag : Tag) (ok : bool) : M AsyncWatchAction unit :=
  if negb ok || bool_decide (got_tag = TagWritesDone) then stop
  else when (bool_decide (got_tag = TagRead))
    (let! s := get in if has_events (reply s) then post TagWritesDone else post TagRead).

(** One turn of [waitForResponse(callback)]. *)
Definition callbackTurn (got_tag : Tag) (ok : bool) : M AsyncWatchAction unit :=
  if negb ok then stop
  else
    match got_tag with
    | TagWritesDone => cancelled
    | TagRead =>
        let! s := get in
        do! when (has_events (reply s)) (callback (parseWatch (reply s) newResponse)) in
        post TagRead
    | _ => ret tt
    end.

(** An operation under way completes, and the loop takes it from the queue; a
    completed read has filled [reply]. *)
Inductive WatchMove : Type :=
| Complete (t : Tag) (ok : bool) (r : WatchResponse)
| Cancel.
Definition watchMove (turn : Tag -> bool -> M AsyncWatchAction unit) (m : WatchMove) : M AsyncWatchAction unit :=
  match m with
  | Cancel => CancelWatch
  | Complete t ok r =>
      let! s := get in
      match eraseFirst t (stream_ops s) with
      | Some rest =>
          when (running s)
            (do! modify (fun s => mkWatch (if bool_decide (t = TagRead) && ok then r else reply s)
                           (isCancelled s) rest (callbacks s) (running s)) in
             turn t ok)
      | None => ret tt
      end
  end.
