(* ===== verification/EtcdProps.v ===== *)
(** * The etcd client: correctness

    Against a service that behaves as etcd documents its transactions, the
    conditional actions are atomic conditional updates of a map; the actions
    with a prefix act on exactly the keys with that prefix; a watch hands over
    every reply once, in order. *)
From Stdlib Require Import ZArith NArith Ascii String Lia.
From stdpp Require Import base numbers list gmap strings sorting.
From S2P Require Import Prelude Etcd.
Open Scope cpp_scope.

Set Default Goal Selector "!".

Abbreviation Contents := (gmap string mvccpb.KeyValue).

(** ** The service *)

(** [key <= k < range_end], where an empty end means the key alone, and the
    end that is one zero byte means no bound. *)
Definition in_range (key range_end k : string) : bool :=
  if decide (range_end = "") then bool_decide (k = key)
  else if decide (range_end = String Ascii.zero "") then (key <=? k)%string
  else (key <=? k)%string && (k <? range_end)%string.
Definition selected (key range_end : string) (m : Contents) : Contents :=
  filter (fun p => in_range key range_end p.1) m.
Definition is_listing (sorted : bool) (m : Contents) (l : list mvccpb.KeyValue) : Prop :=
  l ≡ₚ (map_to_list m).*2 /\
  (sorted = true -> Sorted (fun a b => (mvccpb.key a <=? mvccpb.key b)%string) l).

(** A comparison, against zero and against no value where there is no key. *)
Definition compareZ (r : CompareResult) (a b : Z) : bool :=
  match r with EQUAL => (a =? b)%Z | GREATER => (b <? a)%Z end.
Definition holds (m : Contents) (c : Compare) : bool :=
  let kv := m !! cmp_key c in
  match cmp_union c with
  | TargetVersion n => compareZ (cmp_result c) (default 0%Z (mvccpb.version <$> kv)) n
  | TargetModRevision n => compareZ (cmp_result c) (default 0%Z (mvccpb.mod_revision <$> kv)) n
  | TargetValue v =>
      match kv, cmp_result c with
      | None, _ => false
      | Some kv, EQUAL => bool_decide (mvccpb.value kv = v)
      | Some kv, GREATER => (v <? mvccpb.value kv)%string
      end
  end.

(** One operation of a transaction of the given revision. *)
Inductive opStep (rev : Z) (m : Contents) : RequestOp -> ResponseOp -> Contents -> Prop :=
| step_range r l :
    is_listing (ascending r) (selected (range_key r) (range_end r) m) l ->
    opStep rev m (RequestRange r) (ResponseRange (mkRangeResponse rev l)) m
| step_put r :
    let old := m !! put_key r in
    opStep rev m (RequestPut r) (ResponsePut (if put_prev_kv r then old else None))
      (<[put_key r := mvccpb.mkKeyValue (put_key r) rev (default 0 (mvccpb.version <$> old) + 1)%Z
                        (put_value r) (put_lease r)]> m)
| step_delete r l :
    is_listing false (selected (delete_key r) (delete_end r) m) l ->
    opStep rev m (RequestDeleteRange r)
      (ResponseDeleteRange (mkDeleteResponse rev (if delete_prev_kv r then l else [])))
      (filter (fun p => negb (in_range (delete_key r) (delete_end r) p.1)) m).
Inductive opSteps (rev : Z) : Contents -> list RequestOp -> list ResponseOp -> Contents -> Prop :=
| steps_nil m : opSteps rev m [] [] m
| steps_cons m op resp m' ops resps m'' :
    opStep rev m op resp m' -> opSteps rev m' ops resps m'' -> opSteps rev m (op :: ops) (resp :: resps) m''.

(** Every key is stored with its name, and versions and revisions count from
    one. *)
Definition stored (m : Contents) : Prop :=
  forall k kv, m !! k = Some kv -> mvccpb.key kv = k /\ (0 < mvccpb.version kv)%Z /\ (0 < mvccpb.mod_revision kv)%Z.

Class Etcd (S : Type) : Type := {
  contents : S -> Contents;
  etcdTxn : TxnRequest -> S -> TxnResponse * S;
  etcdRange : RangeRequest -> S -> RangeResponse;
  etcdDeleteRange : DeleteRangeRequest -> S -> DeleteRangeResponse * S
}.
Class EtcdLaws (S : Type) `{!Etcd S} : Prop := {
  etcd_stored s : stored (contents s);
  etcd_txn r s :
    let (reply, s') := etcdTxn r s in
    succeeded reply = forallb (holds (contents s)) (compare r) /\
    exists rev, (0 < rev)%Z /\
      opSteps rev (contents s) (if succeeded reply then success r else failure r) (responses reply) (contents s');
  etcd_range r s : is_listing (ascending r) (selected (range_key r) (range_end r) (contents s)) (kvs (etcdRange r s));
  etcd_delete r s :
    let (reply, s') := etcdDeleteRange r s in
    exists rev, opStep rev (contents s) (RequestDeleteRange r) (ResponseDeleteRange reply) (contents s')
}.

(** ** Single keys *)

Lemma selected_key key m : selected key "" m = from_option (fun kv => {[ key := kv ]}) ∅ (m !! key).
Proof.
  apply map_eq. intros k. unfold selected, in_range. rewrite map_lookup_filter. simpl.
  destruct (m !! key) as [kv|] eqn:E; simpl.
  - destruct (decide (k = key)) as [->|Hk].
    + rewrite E, lookup_singleton_eq. simpl. by rewrite option_guard_True by by apply bool_decide_pack.
    + rewrite lookup_singleton_ne by done. destruct (m !! k); [|done]. simpl.
      rewrite option_guard_False; [done|]. by intros Hf%bool_decide_unpack.
  - rewrite lookup_empty. destruct (m !! k) eqn:Ek; [|done]. simpl.
    rewrite option_guard_False; [done|]. intros ->%bool_decide_unpack. congruence.
Qed.

Lemma listing_key sorted key m l :
  is_listing sorted (selected key "" m) l -> l = option_list (m !! key).
Proof.
  intros [Hl _]. rewrite selected_key in Hl. destruct (m !! key) as [kv|]; simpl in *.
  - rewrite map_to_list_singleton in Hl. by apply Permutation_singleton_r in Hl.
  - rewrite map_to_list_empty in Hl. by apply Permutation_nil_r in Hl.
Qed.

Lemma delete_key_filter key (m : Contents) :
  filter (fun p => negb (in_range key "" p.1)) m = delete key m.
Proof.
  apply map_eq. intros k. rewrite map_lookup_filter. unfold in_range. simpl.
  destruct (decide (k = key)) as [->|Hk].
  - rewrite lookup_delete_eq. destruct (m !! key); [|done]. simpl. rewrite option_guard_False; [done|].
    rewrite bool_decide_true by done. by intros [].
  - rewrite lookup_delete_ne by done. destruct (m !! k); [|done]. simpl. rewrite option_guard_True; [done|].
    by rewrite bool_decide_false.
Qed.

(** ** Conditional actions *)

Inductive Conditional : Type :=
| Set_ (create : bool)
| Update
| CompareAndSwap (type : Atomicity_Type)
| CompareAndDelete (type : Atomicity_Type).

Definition request (c : Conditional) (p : ActionParameters) : TxnRequest :=
  match c with
  | Set_ create => setRequest p create
  | Update => updateRequest p
  | CompareAndSwap type => swapRequest p type
  | CompareAndDelete type => compareDeleteRequest p type
  end.
Definition parse (c : Conditional) (p : ActionParameters) (status : Status) (reply : TxnResponse) : V3Response :=
  match c with
  | Set_ create => setParse p create status reply
  | Update => updateParse p status reply
  | CompareAndSwap _ => swapParse p status reply
  | CompareAndDelete _ => compareDeleteParse p status reply
  end.

(** The specification: an update under a condition on the one key. *)
Definition matchesOld (p : ActionParameters) (type : Atomicity_Type) (old : option mvccpb.KeyValue) : bool :=
  match type with
  | PREV_VALUE => bool_decide (mvccpb.value <$> old = Some (old_value p))
  | PREV_INDEX => (default 0 (mvccpb.mod_revision <$> old) =? old_revision p)%Z
  end.
Definition guard (c : Conditional) (p : ActionParameters) (old : option mvccpb.KeyValue) : bool :=
  match c with
  | Set_ create => negb create || negb (bool_decide (is_Some old))
  | Update => bool_decide (is_Some old)
  | CompareAndSwap type | CompareAndDelete type => matchesOld p type old
  end.
Definition effect (c : Conditional) (rev : Z) (p : ActionParameters) (old : option mvccpb.KeyValue) :
    option mvccpb.KeyValue :=
  match c with
  | CompareAndDelete _ => None
  | _ => Some (mvccpb.mkKeyValue (par_key p) rev (default 0%Z (mvccpb.version <$> old) + 1) (par_value p) (par_lease_id p))
  end.
Definition failureCode (c : Conditional) (old : option mvccpb.KeyValue) : Z :=
  match c with
  | Set_ _ => 105
  | Update => 100
  | CompareAndSwap _ => if bool_decide (is_Some old) then 101 else 100
  | CompareAndDelete _ => 101
  end.
(** The value that is reported, beside what there was before. *)
Definition reported (c : Conditional) (ok : bool) (old new : option mvccpb.KeyValue) : mvccpb.KeyValue :=
  match c, ok with
  | Update, false => mvccpb.empty
  | CompareAndDelete _, true => default mvccpb.empty (mvccpb.clear_value <$> old)
  | _, _ => default mvccpb.empty new
  end.

(** *** The three sequences of operations *)

Lemma steps_range rev m key sorted resps m' :
  opSteps rev m [RequestRange (mkRange key "" sorted)] resps m' ->
  resps = [ResponseRange (mkRangeResponse rev (option_list (m !! key)))] /\ m' = m.
Proof.
  intros Hs. inversion Hs as [|? ? resp ? ? ? ? H1 H2]; subst. inversion H1 as [? l Hl| |]; subst.
  inversion H2; subst. split; [|done]. by rewrite (listing_key _ _ _ _ Hl).
Qed.

Lemma steps_put_range rev m key value lease resps m' :
  opSteps rev m [RequestPut (mkPut key value true lease); RequestRange (mkRange key "" false)] resps m' ->
  let kv := mvccpb.mkKeyValue key rev (default 0%Z (mvccpb.version <$> m !! key) + 1) value lease in
  resps = [ResponsePut (m !! key); ResponseRange (mkRangeResponse rev [kv])] /\ m' = <[key := kv]> m.
Proof.
  intros Hs. inversion Hs as [|? ? resp ? ? ? ? H1 H2]; subst. inversion H1; subst. simpl in *.
  destruct (steps_range _ _ _ _ _ _ H2) as [-> ->]. by rewrite lookup_insert_eq.
Qed.

Lemma steps_delete rev m key resps m' :
  opSteps rev m [RequestDeleteRange (mkDelete key "" true)] resps m' ->
  resps = [ResponseDeleteRange (mkDeleteResponse rev (option_list (m !! key)))] /\ m' = delete key m.
Proof.
  intros Hs. inversion Hs as [|? ? resp ? ? ? ? H1 H2]; subst. inversion H1 as [| |? l Hl]; subst.
  inversion H2; subst. simpl in *. rewrite (listing_key _ _ _ _ Hl). split; [done|]. apply delete_key_filter.
Qed.

Section client.
Context {S : Type} `{!Etcd S} `{!EtcdLaws S}.

Definition perform (c : Conditional) (p : ActionParameters) (s : S) : V3Response * S :=
  let (reply, s') := etcdTxn (request c p) s in (parse c p None reply, s').

(** What the service evaluates, and what it then does. *)
Lemma holds_request c p s :
  forallb (holds (contents s)) (compare (request c p)) =
  match c with Set_ _ => negb (bool_decide (is_Some (contents s !! par_key p)))
             | _ => guard c p (contents s !! par_key p) end.
Proof.
  pose proof (etcd_stored s (par_key p)) as Hs.
  destruct c as [[]| |[]|[]]; simpl; rewrite andb_true_r; unfold holds; simpl;
    destruct (contents s !! par_key p) as [kv|] eqn:E; simpl; try done.
  all: try (destruct (Hs kv eq_refl) as (_ & Hv & _)).
  1,2: by apply Z.eqb_neq; lia.
  1: by apply Z.ltb_lt.
  all: apply bool_decide_ext; split; [by intros ->|by intros [= ->]].
Qed.

Lemma perform_steps c p s :
  exists reply rev, (0 < rev)%Z /\ perform c p s = (parse c p None reply, (perform c p s).2) /\
    succeeded reply = (match c with Set_ _ => negb (bool_decide (is_Some (contents s !! par_key p)))
                                  | _ => guard c p (contents s !! par_key p) end) /\
    opSteps rev (contents s) (if succeeded reply then success (request c p) else failure (request c p))
      (responses reply) (contents (perform c p s).2).
Proof.
  unfold perform. pose proof (etcd_txn (request c p) s) as H.
  destruct (etcdTxn (request c p) s) as [reply s'] eqn:E. destruct H as [Hs (rev & Hrev & Hsteps)].
  rewrite holds_request in Hs. by exists reply, rev.
Qed.

(** *** The requests *)

Definition put_get (p : ActionParameters) : list RequestOp :=
  [RequestPut (mkPut (par_key p) (par_value p) true (par_lease_id p)); RequestRange (mkRange (par_key p) "" false)].
Definition get_only (p : ActionParameters) : list RequestOp := [RequestRange (mkRange (par_key p) "" false)].

Lemma success_request c p :
  success (request c p) =
  match c with CompareAndDelete _ => [RequestDeleteRange (mkDelete (par_key p) "" true)] | _ => put_get p end.
Proof. by destruct c as [[]| |[]|[]]. Qed.
Lemma failure_request c p :
  failure (request c p) =
  match c with Set_ false => put_get p | Update => [] | _ => get_only p end.
Proof. by destruct c as [[]| |[]|[]]. Qed.

(** *** What is parsed of the replies *)

Lemma parse_put_range prefix reply old rev kv :
  responses reply = [ResponsePut old; ResponseRange (mkRangeResponse rev [kv])] ->
  let r := parseTxn prefix reply newResponse in
  error_code r = 0%Z /\
  (prefix = false -> kv_kvs (value r) = kv /\ kv_kvs (prev_value r) = default mvccpb.empty old).
Proof. intros E. unfold parseTxn. rewrite E. destruct old, prefix; done. Qed.

Lemma parse_range prefix reply old rev :
  responses reply = [ResponseRange (mkRangeResponse rev (option_list old))] ->
  let r := parseTxn prefix reply newResponse in
  error_code r = (if bool_decide (is_Some old) then 0 else 100)%Z /\
  (prefix = false -> kv_kvs (value r) = default mvccpb.empty old /\ kv_kvs (prev_value r) = mvccpb.empty).
Proof. intros E. unfold parseTxn. rewrite E. destruct old, prefix; done. Qed.

Lemma parse_delete prefix reply old rev :
  responses reply = [ResponseDeleteRange (mkDeleteResponse rev (option_list old))] ->
  let r := parseTxn prefix reply newResponse in
  error_code r = 0%Z /\
  (prefix = false -> kv_kvs (value r) = default mvccpb.empty (mvccpb.clear_value <$> old) /\
                     kv_kvs (prev_value r) = default mvccpb.empty old).
Proof. intros E. unfold parseTxn. rewrite E. destruct old, prefix; done. Qed.

(** What one action does to the contents and what it reports. *)
Definition outcome (c : Conditional) (p : ActionParameters) (m : Contents) (r : V3Response) (m' : Contents) : Prop :=
  let old := m !! par_key p in
  exists rev, (0 < rev)%Z /\
  let new := if guard c p old then effect c rev p old else old in
  m' = partial_alter (fun _ => new) (par_key p) m /\
  error_code r = (if guard c p old then 0 else failureCode c old)%Z /\
  (withPrefix p = false ->
    kv_kvs (value r) = reported c (guard c p old) old new /\
    kv_kvs (prev_value r) = if guard c p old then default mvccpb.empty old else mvccpb.empty).

Lemma perform_outcome c p s : outcome c p (contents s) (perform c p s).1 (contents (perform c p s).2).
Proof.
  destruct (perform_steps c p s) as (reply & rev & Hrev & Ep & Hs & Hsteps).
  set (s' := (perform c p s).2) in *. rewrite Ep. unfold outcome. exists rev. split; [done|].
  cbn [fst].
  rewrite success_request, failure_request in Hsteps.
  set (old := contents s !! par_key p) in *.
  assert (Hself : contents s = partial_alter (fun _ => old) (par_key p) (contents s)).
  { unfold old. by rewrite partial_alter_self. }
  destruct c as [create| |type|type]; cbn [guard effect failureCode parse] in *.
  - unfold setParse. rewrite Hs in *. case_bool_decide as Ho; simpl in Hsteps.
    + destruct create; simpl in Hsteps.
      * apply steps_range in Hsteps as [Er ->]. destruct (parse_range (withPrefix p) _ _ _ Er) as [He Hv]. done.
      * apply steps_put_range in Hsteps as [Er ->]. by destruct (parse_put_range (withPrefix p) _ _ _ _ Er) as [He Hv].
    + assert (H1 : negb create || true = true) by (by destruct create). simpl. rewrite H1.
      assert (Hsteps' : opSteps rev (contents s) (put_get p) (responses reply) (contents s')) by (by destruct create).
      apply steps_put_range in Hsteps' as [Er ->]. by destruct (parse_put_range (withPrefix p) _ _ _ _ Er) as [He Hv].
  - unfold updateParse. rewrite Hs in *. case_bool_decide; simpl in Hsteps.
    + apply steps_put_range in Hsteps as [Er ->]. by destruct (parse_put_range (withPrefix p) _ _ _ _ Er).
    + inversion Hsteps. done.
  - unfold swapParse. rewrite Hs in *. destruct (matchesOld p type old); simpl in Hsteps.
    + apply steps_put_range in Hsteps as [Er ->]. by destruct (parse_put_range (withPrefix p) _ _ _ _ Er).
    + apply steps_range in Hsteps as [Er ->].
      destruct (parse_range (withPrefix p) _ _ _ Er) as [He Hv].
      simpl. fold old in He, Hv. rewrite He.
      case_bool_decide; simpl; by split_and!.
  - unfold compareDeleteParse. rewrite Hs in *. destruct (matchesOld p type old); simpl in Hsteps.
    + apply steps_delete in Hsteps as [Er ->]. by destruct (parse_delete (withPrefix p) _ _ _ Er).
    + apply steps_range in Hsteps as [Er ->].
      destruct (parse_range (withPrefix p) _ _ _ Er) as [He Hv]. simpl. by split_and!.
Qed.

(** *** Sequences of actions, of any clients *)

Fixpoint performAll (l : list (Conditional * ActionParameters)) (s : S) : list V3Response * S :=
  match l with
  | [] => ([], s)
  | (c, p) :: l =>
      let (r, s') := perform c p s in
      let (rs, s'') := performAll l s' in
      (r :: rs, s'')
  end.

(** The specification: a map that is updated one action at a time. *)
Inductive updates : Contents -> list (Conditional * ActionParameters) -> list V3Response -> Contents -> Prop :=
| updates_nil m : updates m [] [] m
| updates_cons m c p l r m' rs m'' :
    outcome c p m r m' -> updates m' l rs m'' -> updates m ((c, p) :: l) (r :: rs) m''.

(** C35. The conditional actions of any clients refine a map with atomic
    conditional updates: in the order in which the service takes them, each
    changes its own key by its effect exactly when its condition holds of what
    is stored there, leaves everything else alone, and its error code, value
    and previous value say what happened. *)
Theorem conditional_refines l s :
  updates (contents s) l (performAll l s).1 (contents (performAll l s).2).
Proof.
  revert s. induction l as [|[c p] l IH]; intros s; simpl; [constructor|].
  pose proof (perform_outcome c p s) as Ho. destruct (perform c p s) as [r s'].
  specialize (IH s'). destruct (performAll l s') as [rs s'']. by econstructor.
Qed.

(** *** Election *)

Lemma perform_other c p s k :
  par_key p <> k -> contents (perform c p s).2 !! k = contents s !! k.
Proof. intros Hk. destruct (perform_outcome c p s) as (rev & _ & -> & _). by apply lookup_partial_alter_ne. Qed.

Lemma perform_create p s :
  let (r, s') := perform (Set_ true) p s in
  match contents s !! par_key p with
  | Some kv => contents s' !! par_key p = Some kv /\ error_code r = 105%Z /\ (withPrefix p = false -> kv_kvs (value r) = kv)
  | None => error_code r = 0%Z /\ mvccpb.value <$> contents s' !! par_key p = Some (par_value p)
  end.
Proof.
  pose proof (perform_outcome (Set_ true) p s) as (rev & _ & Em & Ee & Ev).
  destruct (perform (Set_ true) p s) as [r s']. cbn [fst snd] in *. rewrite Em, lookup_partial_alter_eq.
  destruct (contents s !! par_key p) as [kv|]; simpl in *; [|done].
  split_and!; [done..|]. intros Hp. by destruct (Ev Hp).
Qed.

(** Every response to a create of the key says that the key exists, with the
    value of the winner. *)
Definition lost (k v : string) (a : Conditional * ActionParameters) (r : V3Response) : Prop :=
  par_key a.2 = k ->
  error_code r = 105%Z /\ (withPrefix a.2 = false -> mvccpb.value (kv_kvs (value r)) = v).

Lemma creates_lose k v l : forall s,
  mvccpb.value <$> contents s !! k = Some v ->
  (forall a, a ∈ l -> par_key a.2 = k -> a.1 = Set_ true) ->
  Forall2 (lost k v) l (performAll l s).1 /\ mvccpb.value <$> contents (performAll l s).2 !! k = Some v.
Proof.
  induction l as [|[c p] l IH]; intros s Hk Hall; simpl; [done|].
  assert (Hstep : lost k v (c, p) (perform c p s).1 /\ mvccpb.value <$> contents (perform c p s).2 !! k = Some v).
  { destruct (decide (par_key p = k)) as [Ek|Ek].
    2: { split; [by intros Ek'|by rewrite perform_other]. }
    assert (c = Set_ true) as -> by (by apply (Hall (c, p)); [left|]).
    pose proof (perform_create p s) as Hc. destruct (perform (Set_ true) p s) as [r s']. rewrite Ek in Hc.
    destruct (contents s !! k) as [kv|] eqn:E; [|done]. destruct Hc as (E1 & E2 & E3). cbn [fst snd].
    rewrite E1. split; [|done]. intros _. split; [done|]. intros Hp. rewrite (E3 Hp). by injection Hk. }
  destruct (perform c p s) as [r s']. destruct Hstep as [Hl Hk'].
  destruct (IH s' Hk') as [IH1 IH2]; [intros a Ha; apply Hall; by right|].
  destruct (performAll l s') as [rs s'']. split; [by constructor|done].
Qed.

Lemma performAll_app l1 l2 s :
  performAll (l1 ++ l2) s =
  let (rs1, s1) := performAll l1 s in let (rs2, s2) := performAll l2 s1 in (rs1 ++ rs2, s2).
Proof.
  revert s. induction l1 as [|[c p] l1 IH]; intros s; simpl; [by destruct (performAll l2 s)|].
  destruct (perform c p s) as [r s']. rewrite IH. destruct (performAll l1 s') as [rs1 s1].
  by destruct (performAll l2 s1).
Qed.

Lemma performAll_other k l : forall s,
  (forall a, a ∈ l -> par_key a.2 <> k) -> contents (performAll l s).2 !! k = contents s !! k.
Proof.
  induction l as [|[c p] l IH]; intros s Hall; simpl; [done|].
  pose proof (perform_other c p s k) as H. destruct (perform c p s) as [r s']. cbn [snd] in H.
  specialize (IH s'). destruct (performAll l s') as [rs s'']. cbn [snd] in *. rewrite IH, H; [done| |].
  - by apply (Hall (c, p)); left.
  - intros a Ha. apply Hall. by right.
Qed.

(** A key that does not exist elects one client: when every action on it
    is a create, in whatever order and mixed with whatever actions on other
    keys, the first create succeeds, every later one answers 105 with the
    value of the first, and that value stays. *)
Lemma create_elects_one pre p post s :
  contents s !! par_key p = None ->
  (forall a, a ∈ pre -> par_key a.2 <> par_key p) ->
  (forall a, a ∈ post -> par_key a.2 = par_key p -> a.1 = Set_ true) ->
  exists rs r rs', (performAll (pre ++ (Set_ true, p) :: post) s).1 = rs ++ r :: rs' /\
    length rs = length pre /\ error_code r = 0%Z /\
    Forall2 (lost (par_key p) (par_value p)) post rs' /\
    mvccpb.value <$> contents (performAll (pre ++ (Set_ true, p) :: post) s).2 !! par_key p = Some (par_value p).
Proof.
  intros Hnone Hpre Hpost. rewrite performAll_app.
  pose proof (performAll_other _ _ s Hpre) as H1.
  assert (Hl : length (performAll pre s).1 = length pre).
  { clear. revert s. induction pre as [|[c q] pre IH]; intros s; simpl; [done|].
    destruct (perform c q s) as [r s']. specialize (IH s'). destruct (performAll pre s'). simpl in *. by rewrite IH. }
  destruct (performAll pre s) as [rs s1]. cbn [fst snd] in *. simpl.
  pose proof (perform_create p s1) as Hc. destruct (perform (Set_ true) p s1) as [r s2].
  rewrite H1, Hnone in Hc. destruct Hc as [He Hv].
  destruct (creates_lose _ _ post s2 Hv Hpost) as [Hf Hk]. destruct (performAll post s2) as [rs' s3].
  by exists rs, r, rs'.
Qed.
End client.

(** ** Prefixes *)

Fixpoint lastChar (s : string) : option ascii :=
  match s with
  | EmptyString => None
  | String c EmptyString => Some c
  | String _ s => lastChar s
  end.
(** The last byte of the key can be incremented. *)
Definition incrementable (s : string) : bool :=
  match lastChar s with Some c => (N_of_ascii c <? 255)%N | None => false end.

Lemma ascii_compare_N a b : Ascii.compare a b = (N_of_ascii a ?= N_of_ascii b)%N.
Proof. done. Qed.

Lemma leb_cons a s b t :
  (String a s <=? String b t)%string =
  match (N_of_ascii a ?= N_of_ascii b)%N with Lt => true | Eq => (s <=? t)%string | Gt => false end.
Proof. unfold String.leb. simpl. rewrite ascii_compare_N. by destruct (_ ?= _)%N. Qed.
Lemma ltb_cons a s b t :
  (String a s <? String b t)%string =
  match (N_of_ascii a ?= N_of_ascii b)%N with Lt => true | Eq => (s <? t)%string | Gt => false end.
Proof. unfold String.ltb. simpl. rewrite ascii_compare_N. by destruct (_ ?= _)%N. Qed.

Lemma N_of_ascii_inj a b : N_of_ascii a = N_of_ascii b -> a = b.
Proof. intros E. by rewrite <- (ascii_N_embedding a), E, ascii_N_embedding. Qed.

Lemma N_of_succ c : (N_of_ascii c < 255)%N -> N_of_ascii (ascii_of_N ((N_of_ascii c + 1) mod 256)) = (N_of_ascii c + 1)%N.
Proof. intros. rewrite N.mod_small by lia. apply N_ascii_embedding. lia. Qed.

Lemma prefix_between key : forall e k,
  incrementLast key = Ok e -> incrementable key = true ->
  ((key <=? k)%string && (k <? e)%string) = String.prefix key k.
Proof.
  induction key as [|c key IH]; intros e k He Hi; [done|].
  destruct key as [|c' key].
  - injection He as <-. unfold incrementable in Hi. simpl in Hi. apply N.ltb_lt in Hi.
    destruct k as [|d k]; [done|]. rewrite leb_cons, ltb_cons, N_of_succ by done. simpl.
    destruct (ascii_dec c d) as [<-|Hd].
    + rewrite N.compare_refl. rewrite (proj2 (N.compare_lt_iff _ _)) by lia. by destruct k.
    + assert (Hne : N_of_ascii c <> N_of_ascii d) by (by intros ?%N_of_ascii_inj).
      destruct (N.compare_spec (N_of_ascii c) (N_of_ascii d)); [done| |done]. simpl.
      destruct (N.compare_spec (N_of_ascii d) (N_of_ascii c + 1)); [by destruct k|lia|done].
  - change (res_bind (incrementLast (String c' key)) (fun e => Ok (String c e)) = Ok e) in He.
    destruct (incrementLast (String c' key)) as [e'|] eqn:E; [|done]. injection He as <-.
    destruct k as [|d k]; [done|]. rewrite leb_cons, ltb_cons.
    change (String.prefix (String c (String c' key)) (String d k)) with
      (if ascii_dec c d then String.prefix (String c' key) k else false).
    destruct (ascii_dec c d) as [<-|Hd].
    + rewrite N.compare_refl. by apply IH.
    + assert (Hne : N_of_ascii c <> N_of_ascii d) by (by intros ?%N_of_ascii_inj).
      destruct (N.compare_spec (N_of_ascii c) (N_of_ascii d)); [done| |done]. simpl.
      by rewrite (proj2 (N.compare_gt_iff _ _)).
Qed.

Lemma incrementLast_Ok key : incrementable key = true -> exists e, incrementLast key = Ok e /\ e <> "" /\ e <> String Ascii.zero "".
Proof.
  induction key as [|c key IH]; [done|]. intros Hi. destruct key as [|c' key].
  - eexists. split; [done|]. split; [done|]. intros [= E]. unfold incrementable in Hi. simpl in Hi.
    apply N.ltb_lt in Hi. apply (f_equal N_of_ascii) in E. rewrite N_of_succ in E by done. simpl in E. lia.
  - destruct (IH Hi) as (e & E & Hne & _). exists (String c e).
    change (incrementLast (String c (String c' key))) with
      (res_bind (incrementLast (String c' key)) (fun e => Ok (String c e))). rewrite E. split; [done|].
    split; [done|]. intros [= _ ->]. done.
Qed.

(** The keys an action is meant for. *)
Definition meant (p : ActionParameters) (k : string) : bool :=
  if withPrefix p then String.prefix (par_key p) k else bool_decide (k = par_key p).

Lemma rangeEnd_meant p :
  (withPrefix p = true -> incrementable (par_key p) = true) ->
  exists e, rangeEnd p = Ok e /\ forall k, in_range (par_key p) e k = meant p k.
Proof.
  intros Hi. unfold rangeEnd, meant. destruct (withPrefix p); [|by exists ""].
  destruct (incrementLast_Ok (par_key p) (Hi eq_refl)) as (e & E & Hne & Hz). exists e. split; [done|]. intros k.
  unfold in_range. rewrite !decide_False by done. apply prefix_between; [done|by apply Hi].
Qed.

Definition meantOf (p : ActionParameters) (m : Contents) : Contents := filter (fun q => meant p q.1) m.

Lemma selected_meant p e m :
  (forall k, in_range (par_key p) e k = meant p k) -> selected (par_key p) e m = meantOf p m.
Proof. intros He. unfold selected, meantOf. apply map_filter_ext. intros k kv _. simpl. by rewrite He. Qed.

(** What a response of [AsyncGetAction] or [AsyncDeleteAction] lists. *)
Definition listed (p : ActionParameters) (one : V3Response -> KeyValue) (r : V3Response) : list mvccpb.KeyValue :=
  kv_kvs <$> (if withPrefix p then values r else if (error_code r =? 0)%Z then [one r] else []).

Lemma listing_empty sorted (m : Contents) l : is_listing sorted m l -> (l = [] <-> m = ∅).
Proof.
  intros [Hl _]. split.
  - intros ->. symmetry in Hl. apply Permutation_nil_r in Hl. by apply fmap_nil_inv, map_to_list_empty_iff in Hl.
  - intros ->. rewrite map_to_list_empty in Hl. by apply Permutation_nil_r in Hl.
Qed.

Lemma listing_single p sorted m l kv :
  withPrefix p = false -> is_listing sorted (meantOf p m) (kv :: l) -> l = [].
Proof.
  intros Hp Hl. rewrite <- (selected_meant p "") in Hl.
  - apply listing_key in Hl. destruct (m !! par_key p); by simplify_eq/=.
  - intros k. unfold in_range, meant. by rewrite Hp.
Qed.

Lemma values_of_kvs (l : list mvccpb.KeyValue) : kv_kvs <$> (of_kvs <$> l) = l.
Proof. rewrite <- list_fmap_compose. apply list_fmap_id. Qed.

Lemma getParse_listed p reply m :
  is_listing (withPrefix p) (meantOf p m) (kvs reply) ->
  let r := getParse p None reply in
  is_listing (withPrefix p) (meantOf p m) (listed p value r) /\
  error_code r = (if bool_decide (meantOf p m = ∅) then 100 else 0)%Z.
Proof.
  intros Hl. pose proof (listing_empty _ _ _ Hl) as He. unfold getParse, parseRange, listed.
  destruct (kvs reply) as [|kv l] eqn:E; simpl.
  - rewrite bool_decide_true by (by apply He). split; [|done]. by destruct (withPrefix p).
  - rewrite bool_decide_false by (intros Hm; by apply He in Hm).
    destruct (withPrefix p) eqn:Hp; simpl; [by rewrite values_of_kvs|].
    pose proof (listing_single p _ _ _ _ Hp Hl) as ->. done.
Qed.

Lemma deleteParse_listed p reply m :
  is_listing false (meantOf p m) (prev_kvs reply) ->
  let r := deleteParse p None reply in
  is_listing false (meantOf p m) (listed p prev_value r) /\
  error_code r = (if bool_decide (meantOf p m = ∅) then 100 else 0)%Z.
Proof.
  intros Hl. pose proof (listing_empty _ _ _ Hl) as He. unfold deleteParse, parseDelete, listed.
  destruct (prev_kvs reply) as [|kv l] eqn:E; simpl.
  - rewrite bool_decide_true by (by apply He). split; [|done]. by destruct (withPrefix p).
  - rewrite bool_decide_false by (intros Hm; by apply He in Hm).
    destruct (withPrefix p) eqn:Hp; simpl; [by rewrite values_of_kvs|].
    pose proof (listing_single p _ _ _ _ Hp Hl) as ->. done.
Qed.

(** C36. [AsyncGetAction], [AsyncDeleteAction] and [AsyncWatchAction] act on
    exactly the keys they are meant for: with a prefix that ends in a byte
    that can be incremented, the keys with that prefix, else the one key.  A get lists
    them, sorted by key when they are asked for by prefix, a delete removes
    exactly them and lists what they held, a watch is created for them; the
    error is 100 exactly when there is none. *)
Theorem prefix_actions {S} `{!Etcd S} `{!EtcdLaws S} p (s : S) :
  (withPrefix p = true -> incrementable (par_key p) = true) ->
  (exists q, getRequest p = Ok q /\
    let r := getParse p None (etcdRange q s) in
    is_listing (withPrefix p) (meantOf p (contents s)) (listed p value r) /\
    error_code r = (if bool_decide (meantOf p (contents s) = ∅) then 100 else 0)%Z) /\
  (exists q, deleteRequest p = Ok q /\
    let (reply, s') := etcdDeleteRange q s in
    let r := deleteParse p None reply in
    contents s' = filter (fun q => negb (meant p q.1)) (contents s) /\
    is_listing false (meantOf p (contents s)) (listed p prev_value r) /\
    error_code r = (if bool_decide (meantOf p (contents s) = ∅) then 100 else 0)%Z) /\
  (exists q, watchRequest p = Ok q /\ forall k, in_range (watch_key q) (watch_end q) k = meant p k).
Proof.
  intros Hi. destruct (rangeEnd_meant p Hi) as (e & E & He).
  split_and!.
  - unfold getRequest. rewrite E. simpl. eexists. split; [done|]. apply getParse_listed.
    pose proof (etcd_range (mkRange (par_key p) e (withPrefix p)) s) as Hr. simpl in Hr.
    by rewrite (selected_meant p e _ He) in Hr.
  - unfold deleteRequest. rewrite E. simpl. eexists. split; [done|].
    pose proof (etcd_delete (mkDelete (par_key p) e true) s) as Hd.
    destruct (etcdDeleteRange _ s) as [reply s']. destruct Hd as (rev & Hd).
    inversion Hd as [| |? l Hl]; subst. simpl in *. split.
    + apply map_filter_ext. intros k kv _. simpl. by rewrite He.
    + apply deleteParse_listed. simpl. by rewrite (selected_meant p e _ He) in Hl.
  - unfold watchRequest. rewrite E. simpl. by eexists.
Qed.

(** A prefix that ends in the byte 255 gets a range that ends before it
    begins: the key itself is not in it. *)
Lemma prefix_255 :
  let p := mkParameters true 0 0 0 0 (String "a" (String "255" "")) "" "" in
  exists e, rangeEnd p = Ok e /\ forall k, in_range (par_key p) e k = false.
Proof.
  simpl. eexists. split; [vm_compute; reflexivity|]. intros k. unfold in_range. simpl.
  destruct k as [|c [|d k]]; [done| |].
  - rewrite leb_cons, ltb_cons. destruct (N.compare_spec (N_of_ascii "a") (N_of_ascii c)) as [E|?|?]; try done.
    simpl. by rewrite (proj2 (N.compare_gt_iff _ _)).
  - rewrite !leb_cons, !ltb_cons. destruct (N.compare_spec (N_of_ascii "a") (N_of_ascii c)) as [E|?|?]; try done.
    + rewrite <- E. simpl.
      destruct d as [[] [] [] [] [] [] [] []]; try done; by destruct k.
    + simpl. by rewrite (proj2 (N.compare_gt_iff _ _)).
Qed.

(** ** Watching *)

Definition watchRun (turn : Tag -> bool -> M AsyncWatchAction unit) (ms : list WatchMove) : AsyncWatchAction -> AsyncWatchAction :=
  fun s => (for_each ms (watchMove turn) s).2.
Definition ok_move (m : WatchMove) : bool := if m is Complete _ false _ then false else true.
(** The replies that were read. *)
Definition reads (ms : list WatchMove) : list WatchResponse :=
  ms ≫= (fun m => if m is Complete TagRead true r then [r] else []).
Definition readsUnderWay (s : AsyncWatchAction) : nat := length (filter (.= TagRead) (stream_ops s)).

Lemma eraseFirst_filter (P : Tag -> Prop) `{!forall t, Decision (P t)} t l rest :
  eraseFirst t l = Some rest ->
  length (filter P l) = length (filter P rest) + (if bool_decide (P t) then 1 else 0).
Proof.
  revert rest. induction l as [|u l IH]; simpl; [done|]. intros rest. case_decide as Ht.
  - intros [= <-]. subst u. rewrite filter_cons. case_bool_decide; case_decide; simpl; done || lia.
  - destruct (eraseFirst t l) as [rest'|] eqn:E; [|done]. intros [= <-]. specialize (IH rest' eq_refl).
    rewrite !filter_cons. case_decide; simpl; lia.
Qed.

Lemma watchRun_cons turn m ms s :
  (forall s, (watchMove turn m s).1 = Ok tt) ->
  watchRun turn (m :: ms) s = watchRun turn ms (watchMove turn m s).2.
Proof.
  intros Hm. unfold watchRun. cbn [for_each]. specialize (Hm s).
  destruct (watchMove turn m s) as [x s'] eqn:E. simpl in Hm. subst x. by rewrite (bind_Ok _ _ _ _ _ E).
Qed.

Lemma callbackMove_Ok m s : (watchMove callbackTurn m s).1 = Ok tt.
Proof.
  destruct m as [t ok r|]; simpl.
  - rewrite bind_get. destruct (eraseFirst t (stream_ops s)); [|done]. destruct (running s); [|done]. simpl.
    rewrite bind_modify. unfold callbackTurn. destruct ok; [|done]. destruct t; try done. simpl.
    rewrite bind_get. unfold when. by destruct (has_events _).
  - unfold CancelWatch. rewrite bind_get. by destruct (isCancelled s).
Qed.

Lemma eraseFirst_read s : readsUnderWay s = 1 -> exists rest, eraseFirst TagRead (stream_ops s) = Some rest.
Proof.
  intros Hr. destruct (eraseFirst TagRead (stream_ops s)) eqn:E; [eauto|]. apply eraseFirst_None in E. exfalso.
  unfold readsUnderWay in Hr. destruct (filter (.= TagRead) (stream_ops s)) as [|t l] eqn:Ef; [done|].
  assert (Ht : t ∈ filter (.= TagRead) (stream_ops s)) by (rewrite Ef; by left).
  apply list_elem_of_filter in Ht as [-> Ht]. done.
Qed.

Lemma readsUnderWay_app s t :
  length (filter (.= TagRead) (stream_ops s ++ [t])) = readsUnderWay s + (if bool_decide (t = TagRead) then 1 else 0).
Proof.
  unfold readsUnderWay. rewrite filter_app, length_app, filter_cons. simpl.
  case_bool_decide; case_decide; simpl; done || lia.
Qed.

Lemma callbackMove_step m s :
  running s = true -> readsUnderWay s = 1 -> ok_move m = true ->
  let s' := (watchMove callbackTurn m s).2 in
  running s' = true /\ readsUnderWay s' = 1 /\
  callbacks s' = callbacks s ++ ((fun r => parseWatch r newResponse) <$> filter has_events (reads [m])).
Proof.
  intros Hr H1 Hm. destruct m as [t ok r|]; simpl.
  - destruct ok; [|done]. rewrite bind_get. unfold reads. simpl. rewrite app_nil_r.
    destruct (eraseFirst t (stream_ops s)) as [rest|] eqn:E.
    2: { destruct t; simpl; try by rewrite app_nil_r. destruct (eraseFirst_read s H1) as (? & ?). congruence. }
    pose proof (eraseFirst_filter (.= TagRead) t _ _ E) as Hl. fold (readsUnderWay s) in Hl. rewrite H1 in Hl.
    rewrite Hr. cbn [when]. rewrite bind_modify. unfold callbackTurn. simpl.
    destruct t; simpl in *; try (unfold readsUnderWay; simpl; rewrite app_nil_r; split_and!; [done|lia|done]).
    rewrite bind_get. simpl. rewrite filter_cons. unfold when. destruct (has_events r) eqn:Ev; simpl.
    + unfold readsUnderWay. simpl. rewrite filter_app, length_app. simpl. split_and!; [done|lia|done].
    + unfold readsUnderWay. simpl. rewrite filter_app, length_app. simpl.
      rewrite app_nil_r. split_and!; [done|lia|done].
  - unfold CancelWatch. rewrite bind_get. unfold reads. simpl. rewrite app_nil_r.
    destruct (isCancelled s); simpl; [done|]. unfold readsUnderWay at 1. simpl.
    rewrite readsUnderWay_app, bool_decide_false by done. split_and!; [done|lia|done].
Qed.

Lemma callbackRun_running ms : forall s,
  running s = true -> readsUnderWay s = 1 -> forallb ok_move ms = true ->
  let s' := watchRun callbackTurn ms s in
  running s' = true /\ readsUnderWay s' = 1 /\
  callbacks s' = callbacks s ++ ((fun r => parseWatch r newResponse) <$> filter has_events (reads ms)).
Proof.
  induction ms as [|m ms IH]; intros s Hr H1 Hok; [simpl; by rewrite app_nil_r|].
  apply andb_true_iff in Hok as [Hm Hok]. cbv zeta. rewrite watchRun_cons by apply callbackMove_Ok.
  destruct (callbackMove_step m s Hr H1 Hm) as (Hr' & H1' & Ec).
  destruct (IH _ Hr' H1' Hok) as (? & ? & ->). split_and!; [done..|]. rewrite Ec.
  change (m :: ms) with ([m] ++ ms). unfold reads. by rewrite bind_app, filter_app, fmap_app, app_assoc.
Qed.

Lemma stopped_move turn m s :
  running s = false -> running (watchMove turn m s).2 = false /\ callbacks (watchMove turn m s).2 = callbacks s.
Proof.
  intros Hr. destruct m as [t ok r|]; simpl.
  - rewrite bind_get. destruct (eraseFirst t (stream_ops s)); [|done]. by rewrite Hr.
  - unfold CancelWatch. rewrite bind_get. by destruct (isCancelled s).
Qed.

Lemma callbackRun_stopped ms : forall s,
  running s = false ->
  running (watchRun callbackTurn ms s) = false /\ callbacks (watchRun callbackTurn ms s) = callbacks s.
Proof.
  induction ms as [|m ms IH]; intros s Hr; [done|]. rewrite watchRun_cons by apply callbackMove_Ok.
  destruct (stopped_move callbackTurn m s Hr) as [Hr' Ec]. destruct (IH _ Hr') as [? ->]. done.
Qed.

(** C37. While a watch goes on, exactly one read is under way, whatever is
    cancelled meanwhile; the callback is given every reply that has events,
    parsed, once and in the order in which the replies came, and nothing more
    once a read has failed. *)
Theorem watch_in_order ms rest :
  forallb ok_move ms = true ->
  let parsed := (fun r => parseWatch r newResponse) <$> filter has_events (reads ms) in
  let s := watchRun callbackTurn ms newWatch in
  running s = true /\ readsUnderWay s = 1 /\ callbacks s = parsed /\
  forall r, let s' := watchRun callbackTurn (ms ++ Complete TagRead false r :: rest) newWatch in
            running s' = false /\ callbacks s' = parsed.
Proof.
  intros Hok. destruct (callbackRun_running ms newWatch eq_refl eq_refl Hok) as (Hr & H1 & Ec).
  cbv zeta. split_and!; [done..|]. intros r.
  assert (Eapp : forall ms' s, watchRun callbackTurn (ms' ++ Complete TagRead false r :: rest) s =
    watchRun callbackTurn (Complete TagRead false r :: rest) (watchRun callbackTurn ms' s)).
  { intros ms'. induction ms' as [|m ms' IH]; intros s; [done|].
    cbn [app]. by rewrite !(watchRun_cons _ m) by apply callbackMove_Ok. }
  rewrite Eapp. set (s := watchRun callbackTurn ms newWatch) in *.
  rewrite watchRun_cons by apply callbackMove_Ok.
  assert (Hs : running (watchMove callbackTurn (Complete TagRead false r) s).2 = false /\
    callbacks (watchMove callbackTurn (Complete TagRead false r) s).2 = callbacks s).
  { simpl. rewrite bind_get. destruct (eraseFirst_read s H1) as [l ->]. by rewrite Hr. }
  destruct Hs as [Hs1 Hs2]. destruct (callbackRun_stopped rest _ Hs1) as [-> ->]. by rewrite Hs2, Ec.
Qed.

(** [isCancelled] is set when the loop has seen that writing is done, not when
    it was asked for: cancelling twice before asks for it twice. *)
Lemma cancel_twice :
  stream_ops (watchRun callbackTurn [Cancel; Cancel] newWatch) =
  [TagCreate; TagWrite; TagRead; TagWritesDone; TagWritesDone].
Proof. reflexivity. Qed.

(** The loop without callback stops reading at the first reply with events,
    which is the one it returns with. *)
Lemma wait_first_reply r :
  has_events r = true ->
  let s := watchRun waitTurn [Complete TagCreate true r; Complete TagWrite true r; Complete TagRead true (mkWatchResponse 1 []);
                              Complete TagRead true r; Complete TagWritesDone true r] newWatch in
  running s = false /\ reply s = r /\ stream_ops s = [].
Proof.
  intros Hr. unfold watchRun. simpl. unfold waitTurn, bind, get, modify, when. simpl. rewrite Hr. done.
Qed.

(** ** A service with the laws *)

Record Stored : Type := mkStored { st_mod : positive; st_version : positive; st_value : string; st_lease : Z }.
Record Store : Type := mkStore { st_revision : positive; st_map : gmap string Stored }.
Definition stored_kv (k : string) (x : Stored) : mvccpb.KeyValue :=
  mvccpb.mkKeyValue k (Zpos (st_mod x)) (Zpos (st_version x)) (st_value x) (st_lease x).
Definition st_contents (m : gmap string Stored) : Contents := map_imap (fun k x => Some (stored_kv k x)) m.

Definition key_le (a b : mvccpb.KeyValue) : Prop := (mvccpb.key a <=? mvccpb.key b)%string.
Definition listing (m : Contents) : list mvccpb.KeyValue := merge_sort key_le (map_to_list m).*2.

Definition st_op (rev : positive) (m : gmap string Stored) (op : RequestOp) : ResponseOp * gmap string Stored :=
  match op with
  | RequestRange r =>
      (ResponseRange (mkRangeResponse (Zpos rev) (listing (selected (range_key r) (range_end r) (st_contents m)))), m)
  | RequestPut r =>
      let old := m !! put_key r in
      (ResponsePut (if put_prev_kv r then stored_kv (put_key r) <$> old else None),
       <[put_key r := mkStored rev (from_option (fun x => Pos.succ (st_version x)) 1%positive old)
                        (put_value r) (put_lease r)]> m)
  | RequestDeleteRange r =>
      let gone := listing (selected (delete_key r) (delete_end r) (st_contents m)) in
      (ResponseDeleteRange (mkDeleteResponse (Zpos rev) (if delete_prev_kv r then gone else [])),
       filter (fun p => negb (in_range (delete_key r) (delete_end r) p.1)) m)
  end.
Fixpoint st_ops (rev : positive) (m : gmap string Stored) (ops : list RequestOp) : list ResponseOp * gmap string Stored :=
  match ops with
  | [] => ([], m)
  | op :: ops =>
      let (resp, m') := st_op rev m op in
      let (resps, m'') := st_ops rev m' ops in
      (resp :: resps, m'')
  end.

#[export] Instance Store_Etcd : Etcd Store := {|
  contents s := st_contents (st_map s);
  etcdTxn r s :=
    let rev := Pos.succ (st_revision s) in
    let ok := forallb (holds (st_contents (st_map s))) (compare r) in
    let (resps, m) := st_ops rev (st_map s) (if ok then success r else failure r) in
    (mkTxnResponse (Zpos rev) ok resps, mkStore rev m);
  etcdRange r s :=
    mkRangeResponse (Zpos (st_revision s)) (listing (selected (range_key r) (range_end r) (st_contents (st_map s))));
  etcdDeleteRange r s :=
    let rev := Pos.succ (st_revision s) in
    let (resp, m) := st_op rev (st_map s) (RequestDeleteRange r) in
    (if resp is ResponseDeleteRange resp then resp else mkDeleteResponse 0 [], mkStore rev m)
|}.

Lemma leb_total a b : (a <=? b)%string \/ (b <=? a)%string.
Proof. destruct (String.leb_total a b) as [->| ->]; [by left|by right]. Qed.
#[local] Instance key_le_total : Total key_le.
Proof. intros a b. apply leb_total. Qed.

Lemma listing_ok sorted m : is_listing sorted m (listing m).
Proof.
  split; [apply merge_sort_Permutation|]. intros _.
  apply (Sorted_merge_sort key_le).
Qed.

Lemma lookup_contents m k : st_contents m !! k = stored_kv k <$> m !! k.
Proof. unfold st_contents. rewrite map_lookup_imap. by destruct (m !! k). Qed.

Lemma st_op_ok rev m op : let (resp, m') := st_op rev m op in opStep (Zpos rev) (st_contents m) op resp (st_contents m').
Proof.
  destruct op as [r|r|r]; simpl.
  - constructor. apply listing_ok.
  - replace (st_contents (<[_ := _]> m)) with (<[put_key r := mvccpb.mkKeyValue (put_key r) (Zpos rev)
      (default 0%Z (mvccpb.version <$> st_contents m !! put_key r) + 1)%Z (put_value r) (put_lease r)]> (st_contents m)).
    + replace (stored_kv (put_key r) <$> m !! put_key r) with (st_contents m !! put_key r) by apply lookup_contents.
      constructor.
    + apply map_eq. intros k. rewrite lookup_contents. destruct (decide (k = put_key r)) as [->|Hk].
      * rewrite lookup_insert_eq, lookup_contents, lookup_insert_eq. simpl.
        destruct (m !! put_key r); simpl; unfold stored_kv; simpl; do 2 f_equal; lia.
      * by rewrite lookup_insert_ne, !lookup_contents, lookup_insert_ne by done.
  - replace (st_contents (filter _ m)) with
      (filter (fun p => negb (in_range (delete_key r) (delete_end r) p.1)) (st_contents m)).
    + constructor. apply listing_ok.
    + apply map_eq. intros k. rewrite lookup_contents, !map_lookup_filter, lookup_contents.
      destruct (m !! k); [|done]. simpl. by case_guard.
Qed.

Lemma st_ops_ok rev ops : forall m,
  let (resps, m') := st_ops rev m ops in opSteps (Zpos rev) (st_contents m) ops resps (st_contents m').
Proof.
  induction ops as [|op ops IH]; intros m; simpl; [constructor|].
  pose proof (st_op_ok rev m op) as Ho. destruct (st_op rev m op) as [resp m1].
  specialize (IH m1). destruct (st_ops rev m1 ops) as [resps m2]. by econstructor.
Qed.

#[export] Instance Store_laws : EtcdLaws Store.
Proof.
  split.
  - intros s k kv. simpl. rewrite lookup_contents. destruct (st_map s !! k); [|done]. by intros [= <-].
  - intros r s. simpl. pose proof (st_ops_ok (Pos.succ (st_revision s)) (if forallb (holds (st_contents (st_map s))) (compare r)
      then success r else failure r) (st_map s)) as H.
    destruct (st_ops _ _ _) as [resps m]. simpl. split; [done|].
    exists (Zpos (Pos.succ (st_revision s))). split; [lia|done].
  - intros r s. apply listing_ok.
  - intros r s. pose proof (st_op_ok (Pos.succ (st_revision s)) (st_map s) (RequestDeleteRange r)) as H.
    simpl in *. by eexists.
Qed.

(** ** Witnesses *)

Definition param (key value old : string) : ActionParameters := mkParameters false 0 0 0 0 key value old.
Definition elections : list (Conditional * ActionParameters) :=
  [(Set_ false, param "b" "1" ""); (Set_ true, param "a" "x" ""); (Update, param "b" "2" "");
   (Set_ true, param "a" "y" ""); (CompareAndSwap PREV_VALUE, param "b" "3" "1")].

Lemma conditional_refines_witness :
  (error_code <$> (performAll elections (mkStore 1 ∅)).1) = [0; 0; 0; 105; 101]%Z /\
  updates ∅ elections (performAll elections (mkStore 1 ∅)).1 (contents (performAll elections (mkStore 1 ∅)).2).
Proof.
  split; [vm_compute; reflexivity|]. exact (conditional_refines elections (mkStore 1 ∅)).
Defined.

Lemma create_elects_one_witness :
  mvccpb.value <$> contents (performAll [(Set_ false, param "b" "1" ""); (Set_ true, param "a" "x" "");
    (Update, param "b" "2" ""); (Set_ true, param "a" "y" "")] (mkStore 1 ∅)).2 !! "a" = Some "x".
Proof.
  destruct (create_elects_one [(Set_ false, param "b" "1" "")] (param "a" "x" "")
    [(Update, param "b" "2" ""); (Set_ true, param "a" "y" "")] (mkStore 1 ∅)) as (_ & _ & _ & _ & _ & _ & _ & H).
  - reflexivity.
  - intros a ->%list_elem_of_singleton. done.
  - intros a [->|[->|[]%elem_of_nil]%elem_of_cons]%elem_of_cons; done.
  - exact H.
Defined.

Lemma prefix_actions_witness :
  let p := mkParameters true 0 0 0 0 "a" "" "" in
  let s := mkStore 1 (<["a" := mkStored 1 1 "x" 0]> (<["ab" := mkStored 1 1 "y" 0]> (<["b" := mkStored 1 1 "z" 0]> ∅))) in
  exists q, getRequest p = Ok q /\ range_end q = "b" /\
    (mvccpb.key <$> listed p value (getParse p None (etcdRange q s))) = ["a"; "ab"] /\
    error_code (getParse p None (etcdRange q s)) = (if bool_decide (meantOf p (contents s) = ∅) then 100 else 0)%Z.
Proof.
  intros p s. destruct (prefix_actions p s ltac:(reflexivity)) as [(q & E & _ & He) _]. exists q. split; [exact E|].
  split; [|split; [|exact He]]; vm_compute in E; injection E as <-; vm_compute; reflexivity.
Defined.

Lemma watch_in_order_witness :
  let r n := mkWatchResponse n [mvccpb.mkEvent mvccpb.PUT (mvccpb.mkKeyValue "a" n 2 "x" 0) None] in
  let ms := [Complete TagCreate true (r 0%Z); Complete TagRead true (mkWatchResponse 1 []);
             Complete TagWrite true (r 0%Z); Complete TagRead true (r 2%Z); Cancel; Complete TagRead true (r 3%Z)] in
  (index <$> callbacks (watchRun callbackTurn ms newWatch)) = [2; 3]%Z /\
  readsUnderWay (watchRun callbackTurn ms newWatch) = 1.
Proof.
  intros r ms. destruct (watch_in_order ms [] ltac:(reflexivity)) as (_ & H & _ & _).
  split; [vm_compute; reflexivity|exact H].
Defined.
