(* ===== verification/Proxy.v ===== *)
(** * The provider agent (src/wangle/chijinxin/ProviderAgent.cpp), with the
      socket handlers of its pipelines (src/wangle/channel/AsyncSocketHandler,
      EventBaseHandler)

    The agent relays a connection of a client to a backend.  Both ends are a
    pipeline of an [AsyncSocketHandler], an [EventBaseHandler] and a handler
    of the agent; an event base of a pool of threads serves each of them. *)
From Stdlib Require Import ZArith Strings.Byte.
From stdpp Require Import base numbers list strings.
From S2P Require Import Prelude.
Open Scope cpp_scope.

Set Default Goal Selector "!".

Abbreviation byte := Byte.byte.
Definition IOBuf : Type := list byte.

(** ** AsyncSocketHandler *)

Inductive Fired : Type := TransportActive | TransportInactive | DeletePipeline.
#[export] Instance Fired_eq_dec : EqDecision Fired.
Proof. solve_decision. Defined.

(** The handler with its socket: whether the socket is good, whether its read
    callback is the handler, what was written to it; [transport_] is whether
    the pipeline has its transport. *)
Record AsyncSocketHandler : Type := mkSocketHandler {
  good : bool;
  readCallback : bool;
  sent : list IOBuf;
  firedInactive_ : bool;
  pipelineDeleted_ : bool;
  transport_ : bool;
  fired : list Fired
}.
Definition newSocketHandler : AsyncSocketHandler := mkSocketHandler true false [] false false false [].

Definition setReadCB b (h : AsyncSocketHandler) : AsyncSocketHandler :=
  mkSocketHandler (good h) b (sent h) (firedInactive_ h) (pipelineDeleted_ h) (transport_ h) (fired h).
Definition setFiredInactive b (h : AsyncSocketHandler) : AsyncSocketHandler :=
  mkSocketHandler (good h) (readCallback h) (sent h) b (pipelineDeleted_ h) (transport_ h) (fired h).
Definition setTransport b (h : AsyncSocketHandler) : AsyncSocketHandler :=
  mkSocketHandler (good h) (readCallback h) (sent h) (firedInactive_ h) (pipelineDeleted_ h) b (fired h).
Definition fire x (h : AsyncSocketHandler) : AsyncSocketHandler :=
  mkSocketHandler (good h) (readCallback h) (sent h) (firedInactive_ h) (pipelineDeleted_ h) (transport_ h) (fired h ++ [x]).
(** [closeNow], and what the socket does by itself at the end of its stream or
    after an error: it is not good any more and has no read callback. *)
Definition socketEnds (h : AsyncSocketHandler) : AsyncSocketHandler :=
  mkSocketHandler false false (sent h) (firedInactive_ h) (pipelineDeleted_ h) (transport_ h) (fired h).

Definition attachReadCallback (h : AsyncSocketHandler) : AsyncSocketHandler := setReadCB (good h) h.
Definition detachReadCallback (h : AsyncSocketHandler) : AsyncSocketHandler :=
  let h := setReadCB false h in
  if negb (firedInactive_ h) then fire TransportInactive (setFiredInactive true h) else h.
Definition transportActive (h : AsyncSocketHandler) : AsyncSocketHandler :=
  fire TransportActive (setFiredInactive false (attachReadCallback (setTransport true h))).
Definition transportInactive (h : AsyncSocketHandler) : AsyncSocketHandler :=
  setTransport false (detachReadCallback h).
(** [None] for a null buffer; whether the future of the write is fulfilled,
    assuming that a socket that is good takes what it is given. *)
Definition write (buf : option IOBuf) (h : AsyncSocketHandler) : bool * AsyncSocketHandler :=
  match buf with
  | None => (true, h)
  | Some buf =>
      if negb (good h) then (false, h)
      else (true, mkSocketHandler (good h) (readCallback h) (sent h ++ [buf]) (firedInactive_ h)
                    (pipelineDeleted_ h) (transport_ h) (fired h))
  end.
Definition shutdown (h : AsyncSocketHandler) : AsyncSocketHandler :=
  let h := socketEnds (detachReadCallback h) in
  if negb (pipelineDeleted_ h) then
    fire DeletePipeline
      (mkSocketHandler (good h) (readCallback h) (sent h) (firedInactive_ h) true (transport_ h) (fired h))
  else h.
Arguments write : simpl never.
Arguments shutdown : simpl never.
Arguments transportActive : simpl never.
Arguments transportInactive : simpl never.

(** ** The agent *)

(** [backendPipeline_] is not initialised by the constructor. *)
Inductive Pointer : Type :=
| Indeterminate (null : bool)
| BackendPipeline.
#[export] Instance Pointer_eq_dec : EqDecision Pointer.
Proof. solve_decision. Defined.

(** What a thread waits for in [runImmediatelyOrRunInEventBaseThreadAndWait]. *)
Inductive Job : Type := WriteJob (buf : IOBuf) | CloseJob.

(** The progress of [client_.connect]. *)
Inductive Connect : Type := NotConnecting | Connecting | ConnectedFuture | ConnectDone.
#[export] Instance Connect_eq_dec : EqDecision Connect.
Proof. solve_decision. Defined.

(** [frontJob] is what the thread of the frontend waits for, in the backend's;
    [fromClient] and [fromServer] are what the sockets have delivered. *)
Record Agent : Type := mkAgent {
  front : AsyncSocketHandler;
  back : option AsyncSocketHandler;
  backendPipeline_ : Pointer;
  connect_ : Connect;
  frontJob : option Job;
  backJob : option IOBuf;
  frontDeleted : bool;
  fromClient : list IOBuf;
  fromServer : list IOBuf
}.
Definition newAgent (null : bool) : Agent :=
  mkAgent newSocketHandler None (Indeterminate null) NotConnecting None None false [] [].

Definition setFront x (s : Agent) : Agent :=
  mkAgent x (back s) (backendPipeline_ s) (connect_ s) (frontJob s) (backJob s) (frontDeleted s) (fromClient s) (fromServer s).
Definition setBack x (s : Agent) : Agent :=
  mkAgent (front s) x (backendPipeline_ s) (connect_ s) (frontJob s) (backJob s) (frontDeleted s) (fromClient s) (fromServer s).
Definition setPointer x (s : Agent) : Agent :=
  mkAgent (front s) (back s) x (connect_ s) (frontJob s) (backJob s) (frontDeleted s) (fromClient s) (fromServer s).
Definition setConnect x (s : Agent) : Agent :=
  mkAgent (front s) (back s) (backendPipeline_ s) x (frontJob s) (backJob s) (frontDeleted s) (fromClient s) (fromServer s).
Definition setFrontJob x (s : Agent) : Agent :=
  mkAgent (front s) (back s) (backendPipeline_ s) (connect_ s) x (backJob s) (frontDeleted s) (fromClient s) (fromServer s).
Definition setBackJob x (s : Agent) : Agent :=
  mkAgent (front s) (back s) (backendPipeline_ s) (connect_ s) (frontJob s) x (frontDeleted s) (fromClient s) (fromServer s).
Definition setDeleted x (s : Agent) : Agent :=
  mkAgent (front s) (back s) (backendPipeline_ s) (connect_ s) (frontJob s) (backJob s) x (fromClient s) (fromServer s).
Definition received (buf : IOBuf) (s : Agent) : Agent :=
  mkAgent (front s) (back s) (backendPipeline_ s) (connect_ s) (frontJob s) (backJob s) (frontDeleted s)
    (fromClient s ++ [buf]) (fromServer s).
Definition answered (buf : IOBuf) (s : Agent) : Agent :=
  mkAgent (front s) (back s) (backendPipeline_ s) (connect_ s) (frontJob s) (backJob s) (frontDeleted s)
    (fromClient s) (fromServer s ++ [buf]).
Definition onFront (f : AsyncSocketHandler -> AsyncSocketHandler) : M Agent unit :=
  modify (fun s => setFront (f (front s)) s).
Definition onBack (f : AsyncSocketHandler -> AsyncSocketHandler) : M Agent unit :=
  modify (fun s => setBack (f <$> back s) s).

Section agent.
(** Whether one event base serves both ends: [connect] takes any of the group. *)
Context (sameBase : bool).

(** [backendPipeline_->], and the transport that [EventBaseHandler] asks for
    its event base. *)
Definition backend : M Agent unit :=
  let! s := get in
  match backendPipeline_ s, back s with
  | Indeterminate _, _ => raise (Undefined "backendPipeline_")
  | BackendPipeline, None => raise (Undefined "pipeline deleted")
  | BackendPipeline, Some h => if transport_ h then ret tt else raise (Undefined "getTransport()")
  end.
Definition frontend : M Agent unit :=
  let! s := get in
  if frontDeleted s then raise (Undefined "frontendPipeline_")
  else if transport_ (front s) then ret tt else raise (Undefined "getTransport()").

(** What a job does in the thread that it waits for. *)
Definition runFrontJob (j : Job) : M Agent unit :=
  match j with
  | WriteJob buf => onBack (fun h => (write (Some buf) h).2)
  | CloseJob =>
      do! onBack shutdown in
      (* the continuation of [readEOF], in the thread of the frontend *)
      do! frontend in
      do! onFront shutdown in
      modify (setDeleted true)
  end.
Definition runBackJob (buf : IOBuf) : M Agent unit := onFront (fun h => (write (Some buf) h).2).

Definition inBackend (j : Job) : M Agent unit :=
  do! backend in
  if sameBase then runFrontJob j else modify (setFrontJob (Some j)).
Definition inFrontend (buf : IOBuf) : M Agent unit :=
  do! frontend in
  if sameBase then runBackJob buf else modify (setBackJob (Some buf)).

(** ** ProxyFrontendHandler *)

Definition proxy_read (buf : IOBuf) : M Agent unit := inBackend (WriteJob buf).
Definition proxy_readEOF : M Agent unit := inBackend CloseJob.
Definition proxy_transportActive : M Agent unit :=
  let! s := get in
  match backendPipeline_ s with
  | BackendPipeline | Indeterminate false => ret tt
  | Indeterminate true =>
      do! onFront transportInactive in
      modify (setConnect Connecting)
  end.
(** [Pipeline::transportActive] of the frontend. *)
Definition frontActive : M Agent unit :=
  do! onFront transportActive in
  proxy_transportActive.
(** [ClientBootstrap]'s [connectSuccess]. *)
Definition connectSuccess : M Agent unit :=
  do! modify (setBack (Some (transportActive newSocketHandler))) in
  modify (setConnect ConnectedFuture).
(** The continuation of [connect]. *)
Definition onConnected : M Agent unit :=
  do! modify (setConnect ConnectDone) in
  do! modify (setPointer BackendPipeline) in
  frontActive.

(** ** ProxyBackendHandler *)

Definition backend_read (buf : IOBuf) : M Agent unit := inFrontend buf.

(** ** Events *)

Inductive AgentEvent : Type :=
| Init                       (* ServerConnection::init *)
| ConnectSuccess
| ConnectErr
| OnConnected
| FrontRead (buf : IOBuf)
| FrontEOF
| FrontErr
| BackRead (buf : IOBuf)
| BackEOF
| BackErr
| RunFrontJob
| RunBackJob.

(** A socket calls its read callback, in a thread that does not wait; a job
    runs when the thread it was given to does not wait. *)
Definition frontReads (s : Agent) : bool :=
  negb (frontDeleted s) && readCallback (front s) && negb (bool_decide (is_Some (frontJob s))).
Definition backReads (s : Agent) : bool :=
  match back s with
  | Some h => negb (frontDeleted s) && readCallback h && negb (bool_decide (is_Some (backJob s)))
  | None => false
  end.
Definition possible (ev : AgentEvent) (s : Agent) : bool :=
  match ev with
  | Init => bool_decide (connect_ s = NotConnecting)
  | ConnectSuccess | ConnectErr => bool_decide (connect_ s = Connecting)
  | OnConnected => bool_decide (connect_ s = ConnectedFuture)
  | FrontRead _ | FrontEOF | FrontErr => frontReads s
  | BackRead _ | BackEOF | BackErr => backReads s
  | RunFrontJob => bool_decide (is_Some (frontJob s)) && negb (bool_decide (is_Some (backJob s)))
  | RunBackJob => bool_decide (is_Some (backJob s)) && negb (bool_decide (is_Some (frontJob s)))
  end.

Definition agentEvent (ev : AgentEvent) : M Agent unit :=
  match ev with
  | Init => frontActive
  | ConnectSuccess => connectSuccess
  | ConnectErr => modify (setConnect ConnectDone)
  | OnConnected => onConnected
  | FrontRead buf => do! modify (received buf) in proxy_read buf
  | FrontEOF => do! onFront socketEnds in proxy_readEOF
  | FrontErr => onFront socketEnds
  | BackRead buf => do! modify (answered buf) in backend_read buf
  | BackEOF | BackErr => onBack socketEnds
  | RunFrontJob =>
      let! s := get in
      do! modify (setFrontJob None) in
      match frontJob s with Some j => runFrontJob j | None => ret tt end
  | RunBackJob =>
      let! s := get in
      do! modify (setBackJob None) in
      match backJob s with Some buf => runBackJob buf | None => ret tt end
  end.
Definition agentRun (evs : list AgentEvent) : M Agent unit :=
  for_each evs (fun ev => let! s := get in when (possible ev s) (agentEvent ev)).
End agent.
