(* ===== verification/ProxyProps.v ===== *)
(** * The provider agent: correctness

    What the agent relays, where it can stop, and what the socket handler
    fires. *)
From Stdlib Require Import ZArith Strings.Byte.
From stdpp Require Import base numbers list strings.
From S2P Require Import Prelude Proxy.
Open Scope cpp_scope.

Set Default Goal Selector "!".

(** What one end handed over and what of it has reached the socket of the
    other: in order, and all but what waits while that socket is good. *)
Definition relayed (all pending : list IOBuf) (h : AsyncSocketHandler) : Prop :=
  if good h then sent h ++ pending = all else sent h `prefix_of` all.

Lemma relayed_prefix all pending h : relayed all pending h -> sent h `prefix_of` all.
Proof. unfold relayed. destruct (good h); [|done]. intros <-. by exists pending. Qed.

Lemma relayed_more all pending h buf :
  relayed all [] h -> pending = [buf] -> relayed (all ++ [buf]) pending h.
Proof.
  unfold relayed. intros Hr ->. destruct (good h); [by rewrite <- Hr, app_nil_r|].
  by apply prefix_app_r.
Qed.

Lemma relayed_write all buf h : relayed all [buf] h -> relayed all [] (write (Some buf) h).2.
Proof. unfold relayed, write. destruct (good h) eqn:E; simpl; [by rewrite app_nil_r|by rewrite E]. Qed.

Lemma relayed_ends all pending h h' :
  relayed all pending h -> good h' = false -> sent h' = sent h -> relayed all [] h'.
Proof. intros Hr%relayed_prefix Hg Hs. unfold relayed. by rewrite Hg, Hs. Qed.

Lemma shutdown_ends h : good (shutdown h) = false /\ sent (shutdown h) = sent h /\
  readCallback (shutdown h) = false /\ transport_ (shutdown h) = transport_ h.
Proof.
  unfold shutdown, socketEnds, detachReadCallback, setReadCB, setFiredInactive, fire. simpl.
  destruct (firedInactive_ h); simpl; by destruct (pipelineDeleted_ h).
Qed.

Definition writeOf (j : option Job) : list IOBuf := if j is Some (WriteJob buf) then [buf] else [].

Section agent.
Context (sameBase : bool).
Implicit Types (s : Agent).

(** Before the agent has its backend nothing is relayed; afterwards both
    pipelines have their transports. *)
Record inv s : Prop := {
  inv_before : backendPipeline_ s <> BackendPipeline ->
    backendPipeline_ s = Indeterminate true /\ readCallback (front s) = false /\ frontJob s = None /\
    backJob s = None /\ frontDeleted s = false /\ fromClient s = [] /\ fromServer s = [] /\ sent (front s) = [];
  inv_after : backendPipeline_ s = BackendPipeline -> connect_ s = ConnectDone /\
    (is_Some (back s) /\ transport_ (front s) = true);
  inv_connect : connect_ s = ConnectedFuture -> is_Some (back s);
  inv_back h : back s = Some h -> transport_ h = true /\ relayed (fromClient s) (writeOf (frontJob s)) h;
  inv_front : relayed (fromServer s) (option_list (backJob s)) (front s);
  inv_deleted : frontDeleted s = true -> frontJob s = None /\ backJob s = None;
  inv_same : sameBase = true -> frontJob s = None /\ backJob s = None
}.

Lemma new_inv : inv (newAgent true).
Proof. by split. Qed.

Lemma backend_ok s : inv s -> backendPipeline_ s = BackendPipeline -> backend s = (Ok tt, s).
Proof.
  intros Hi Hp. destruct (inv_after s Hi Hp) as (_ & [h Hh] & _). unfold backend. rewrite bind_get, Hp, Hh.
  by rewrite (proj1 (inv_back s Hi h Hh)).
Qed.

Lemma frontend_ok s :
  inv s -> backendPipeline_ s = BackendPipeline -> frontDeleted s = false -> frontend s = (Ok tt, s).
Proof. intros Hi Hp Hd. destruct (inv_after s Hi Hp) as (_ & _ & Ht). unfold frontend. by rewrite bind_get, Hd, Ht. Qed.

(** *** Jobs *)

Lemma write_transport buf h : transport_ (write (Some buf) h).2 = transport_ h /\ readCallback (write (Some buf) h).2 = readCallback h.
Proof. unfold write. by destruct (good h). Qed.

(** The backend is given what was read last. *)
Lemma runWrite_inv s buf h :
  inv s -> backendPipeline_ s = BackendPipeline -> frontJob s = None -> back s = Some h ->
  relayed (fromClient s) [buf] h ->
  inv (setBack (Some (write (Some buf) h).2) s).
Proof.
  intros Hi Hp Hj Hh Hr. destruct Hi as [Hb Ha Hc Hk Hf Hd Hs]. split; simpl; try done.
  - intros _. destruct (Ha Hp) as (? & _ & ?). by split_and!.
  - intros h' [= <-]. destruct (write_transport buf h) as [-> _]. split; [by apply (Hk h)|].
    rewrite Hj. by apply relayed_write.
Qed.

Lemma close_inv s :
  inv s -> backendPipeline_ s = BackendPipeline -> frontJob s = None -> backJob s = None -> frontDeleted s = false ->
  exists s', runFrontJob CloseJob s = (Ok tt, s') /\ inv s'.
Proof.
  intros Hi Hp Hj Hb Hd. destruct (inv_after s Hi Hp) as (Hc & [h Hh] & Ht).
  pose proof (shutdown_ends h) as (Hg & Hse & _ & Htr).
  pose proof (shutdown_ends (front s)) as (Hg' & Hse' & _ & Htr').
  simpl. unfold onBack. rewrite bind_modify. unfold frontend. rewrite bind_assoc, bind_get. simpl. rewrite Hd, Ht.
  rewrite bind_ret. unfold onFront. rewrite bind_modify. eexists. split; [done|].
  rewrite Hh. simpl. split; simpl; try done.
  - intros _. rewrite Htr'. by split_and!.
  - intros h' [= <-]. rewrite Htr. destruct (inv_back s Hi h Hh) as [Ht' Hr]. split; [done|].
    rewrite Hj. by eapply relayed_ends.
  - rewrite Hb. eapply relayed_ends; [apply Hi|done|done].
Qed.

Lemma inBackend_write_inv s buf :
  inv s -> backendPipeline_ s = BackendPipeline -> frontJob s = None -> frontDeleted s = false ->
  exists s', proxy_read sameBase buf (received buf s) = (Ok tt, s') /\ inv s'.
Proof.
  intros Hi Hp Hj Hd. destruct (inv_after s Hi Hp) as (Hc & [h Hh] & Ht).
  destruct (inv_back s Hi h Hh) as [Htr Hr]. rewrite Hj in Hr. simpl in Hr.
  unfold proxy_read, inBackend, backend. rewrite bind_assoc, bind_get. simpl. rewrite Hp, Hh, Htr, bind_ret.
  assert (Hmore : relayed (fromClient s ++ [buf]) [buf] h) by (by apply relayed_more).
  destruct sameBase eqn:Es.
  - eexists. split; [done|]. change (back (received buf s)) with (back s). rewrite Hh. cbn [fmap option_fmap option_map].
    destruct Hi as [H1 H2 H3 H4 H5 H6 H7]. split; simpl; try done.
    + intros h' [= <-]. destruct (write_transport buf h) as [-> _]. split; [done|]. rewrite Hj. by apply relayed_write.
  - eexists. split; [done|]. destruct Hi as [H1 H2 H3 H4 H5 H6 H7]. split; simpl; try done.
    + intros h' Hh'. rewrite Hh in Hh'. by injection Hh' as <-.
    + by rewrite Hd.
    + by rewrite Es.
Qed.

Lemma inFrontend_inv s buf :
  inv s -> backendPipeline_ s = BackendPipeline -> backJob s = None -> frontDeleted s = false ->
  exists s', backend_read sameBase buf (answered buf s) = (Ok tt, s') /\ inv s'.
Proof.
  intros Hi Hp Hb Hd. destruct (inv_after s Hi Hp) as (Hc & Hsome & Ht).
  pose proof (inv_front s Hi) as Hr. rewrite Hb in Hr. simpl in Hr.
  unfold backend_read, inFrontend, frontend. rewrite bind_assoc, bind_get. simpl. rewrite Hd, Ht, bind_ret.
  assert (Hmore : relayed (fromServer s ++ [buf]) [buf] (front s)) by (by apply relayed_more).
  destruct (write_transport buf (front s)) as [Htr _].
  destruct sameBase eqn:Es.
  - eexists. split; [done|]. destruct Hi as [H1 H2 H3 H4 H5 H6 H7]. split; simpl; try done.
    + intros _. rewrite Htr. by split_and!.
    + rewrite Hb. by apply relayed_write.
  - eexists. split; [done|]. destruct Hi as [H1 H2 H3 H4 H5 H6 H7]. split; simpl; try done.
    + by rewrite Hd.
    + by rewrite Es.
Qed.

(** *** Connecting *)

Lemma init_inv s : inv s -> connect_ s = NotConnecting -> exists s', frontActive s = (Ok tt, s') /\ inv s'.
Proof.
  intros Hi Hc.
  assert (Hp : backendPipeline_ s <> BackendPipeline) by (intros Hp; destruct (inv_after s Hi Hp) as [? _]; congruence).
  destruct (inv_before s Hi Hp) as (Ep & Hr & Hj & Hb & Hd & Hcl & Hse & Hsent).
  unfold frontActive, onFront. rewrite bind_modify. unfold proxy_transportActive. rewrite bind_get. simpl. rewrite Ep.
  unfold onFront. rewrite bind_modify. eexists. split; [done|].
  destruct Hi as [H1 H2 H3 H4 H5 H6 H7]. by split.
Qed.

Lemma connectSuccess_inv s : inv s -> connect_ s = Connecting -> exists s', connectSuccess s = (Ok tt, s') /\ inv s'.
Proof.
  intros Hi Hc.
  assert (Hp : backendPipeline_ s <> BackendPipeline) by (intros Hp; destruct (inv_after s Hi Hp) as [? _]; congruence).
  destruct (inv_before s Hi Hp) as (Ep & Hr & Hj & Hb & Hd & Hcl & Hse & Hsent).
  unfold connectSuccess. rewrite bind_modify. eexists. split; [done|].
  destruct Hi as [H1 H2 H3 H4 H5 H6 H7]. split; simpl; try done.
  intros h [= <-]. split; [done|]. by rewrite Hcl, Hj.
Qed.

Lemma onConnected_inv s : inv s -> connect_ s = ConnectedFuture -> exists s', onConnected s = (Ok tt, s') /\ inv s'.
Proof.
  intros Hi Hc. pose proof (inv_connect s Hi Hc) as Hsome.
  assert (Hp : backendPipeline_ s <> BackendPipeline) by (intros Hp; destruct (inv_after s Hi Hp) as [? _]; congruence).
  destruct (inv_before s Hi Hp) as (Ep & Hr & Hj & Hb & Hd & Hcl & Hse & Hsent).
  unfold onConnected. rewrite !bind_modify. unfold frontActive, onFront. rewrite bind_modify.
  unfold proxy_transportActive. rewrite bind_get. simpl. eexists. split; [done|].
  destruct Hi as [H1 H2 H3 H4 H5 H6 H7]. split; simpl; try done.
Qed.

Lemma connectErr_inv s : inv s -> connect_ s = Connecting -> inv (setConnect ConnectDone s).
Proof.
  intros Hi Hc. pose proof (inv_after s Hi) as Ha.
  destruct Hi as [H1 H2 H3 H4 H5 H6 H7]. split; simpl; try done. intros Hp. by destruct (Ha Hp).
Qed.

(** *** The end of a stream *)

Lemma frontEnds_inv s : inv s -> inv (setFront (socketEnds (front s)) s).
Proof.
  intros [H1 H2 H3 H4 H5 H6 H7]. split; simpl; try done.
  - intros Hp. destruct (H1 Hp) as (? & ? & ? & ? & ? & ? & ? & ?). by split_and!.
  - by apply relayed_prefix in H5.
Qed.

Lemma backEnds_inv s : inv s -> inv (setBack (socketEnds <$> back s) s).
Proof.
  intros [H1 H2 H3 H4 H5 H6 H7]. split; simpl; try done.
  - intros Hp. destruct (H2 Hp) as (? & [h ->] & ?). by split_and!.
  - intros Hc. destruct (H3 Hc) as [h ->]. by eexists.
  - intros h. destruct (back s) as [h0|]; [|done]. intros [= <-]. destruct (H4 h0 eq_refl) as [? Hr%relayed_prefix]. done.
Qed.

Lemma frontEOF_inv s :
  inv s -> backendPipeline_ s = BackendPipeline -> frontJob s = None -> frontDeleted s = false ->
  (sameBase = true -> backJob s = None) ->
  exists s', proxy_readEOF sameBase s = (Ok tt, s') /\ inv s'.
Proof.
  intros Hi Hp Hj Hd Hb. unfold proxy_readEOF, inBackend. rewrite (bind_Ok _ _ _ _ _ (backend_ok s Hi Hp)).
  destruct sameBase eqn:Es; [by apply close_inv; auto|].
  eexists. split; [done|]. pose proof (inv_after s Hi Hp) as Ha. destruct Hi as [H1 H2 H3 H4 H5 H6 H7].
  split; simpl; try done.
  - intros h Hh. destruct (H4 h Hh) as [? Hr]. by rewrite Hj in Hr.
  - by rewrite Hd.
  - by rewrite Es.
Qed.

(** *** Every event *)

(** The backend speaks only when it is spoken to. *)
Definition politely (ev : AgentEvent) s : bool :=
  possible ev s &&
  match ev with BackRead _ => bool_decide (backendPipeline_ s = BackendPipeline) | _ => true end.
Definition politeStep (ev : AgentEvent) : M Agent unit :=
  let! s := get in when (politely ev s) (agentEvent sameBase ev).

Lemma frontReads_true s :
  inv s -> frontReads s = true -> backendPipeline_ s = BackendPipeline /\ frontJob s = None /\ frontDeleted s = false.
Proof.
  intros Hi [[Hd%negb_true_iff Hr]%andb_true_iff Hj%negb_true_iff%bool_decide_eq_false]%andb_true_iff.
  split_and!; [|by apply eq_None_not_Some|done].
  destruct (decide (backendPipeline_ s = BackendPipeline)) as [|Hp]; [done|].
  destruct (inv_before s Hi Hp) as (_ & Hf & _). congruence.
Qed.

Lemma backReads_true s : backReads s = true -> backJob s = None /\ frontDeleted s = false.
Proof.
  unfold backReads. destruct (back s); [|done].
  intros [[Hd%negb_true_iff Hr]%andb_true_iff Hj%negb_true_iff%bool_decide_eq_false]%andb_true_iff.
  by rewrite eq_None_not_Some.
Qed.

Lemma setFrontJob_inv s :
  inv s -> writeOf (frontJob s) = [] -> inv (setFrontJob None s).
Proof.
  intros [H1 H2 H3 H4 H5 H6 H7] Hw. split; simpl; try done.
  - intros Hp. destruct (H1 Hp) as (? & ? & ? & ? & ? & ? & ? & ?). by split_and!.
  - intros h Hh. destruct (H4 h Hh) as [? Hr]. by rewrite Hw in Hr.
  - intros Hd. by destruct (H6 Hd).
  - intros Hs. by destruct (H7 Hs).
Qed.

Lemma runFront_inv s :
  inv s -> is_Some (frontJob s) -> backJob s = None ->
  exists s', agentEvent sameBase RunFrontJob s = (Ok tt, s') /\ inv s'.
Proof.
  intros Hi [j Hj] Hb. simpl. rewrite bind_get, bind_modify, Hj.
  assert (Hp : backendPipeline_ s = BackendPipeline).
  { destruct (decide (backendPipeline_ s = BackendPipeline)) as [|Hp]; [done|].
    destruct (inv_before s Hi Hp) as (_ & _ & ? & _). congruence. }
  assert (Hd : frontDeleted s = false).
  { destruct (frontDeleted s) eqn:Hd; [|done]. destruct (inv_deleted s Hi Hd). congruence. }
  destruct j as [buf|].
  - destruct (inv_after s Hi Hp) as (_ & [h Hh] & _). destruct (inv_back s Hi h Hh) as [Htr Hr]. rewrite Hj in Hr.
    simpl. eexists. split; [done|]. simpl. rewrite Hh. simpl.
    destruct Hi as [H1 H2 H3 H4 H5 H6 H7]. split; simpl; try done.
    + intros _. destruct (H2 Hp) as (? & _ & ?). by split_and!.
    + intros h' [= <-]. destruct (write_transport buf h) as [-> _]. split; [done|]. by apply relayed_write.
  - apply (close_inv (setFrontJob None s)); try done. apply setFrontJob_inv; [done|by rewrite Hj].
Qed.

Lemma runBack_inv s :
  inv s -> is_Some (backJob s) -> exists s', agentEvent sameBase RunBackJob s = (Ok tt, s') /\ inv s'.
Proof.
  intros Hi [buf Hb]. simpl. rewrite bind_get, bind_modify, Hb. eexists. split; [done|].
  assert (Hp : backendPipeline_ s = BackendPipeline).
  { destruct (decide (backendPipeline_ s = BackendPipeline)) as [|Hp]; [done|].
    destruct (inv_before s Hi Hp) as (_ & _ & _ & ? & _). congruence. }
  destruct (write_transport buf (front s)) as [Htr Hrc].
  destruct Hi as [H1 H2 H3 H4 H5 H6 H7]. split; simpl; try done.
  - intros _. rewrite Htr. by apply H2.
  - rewrite Hb in H5. by apply relayed_write.
  - intros Hd. by destruct (H6 Hd).
  - intros Hs. by destruct (H7 Hs).
Qed.

Lemma politeStep_inv ev : runs inv (politeStep ev) (fun _ => inv).
Proof.
  intros s Hi. unfold politeStep. rewrite bind_get. unfold when.
  destruct (politely ev s) eqn:Ep; [|by exists tt, s].
  apply andb_true_iff in Ep as [Ep Epol].
  cut (exists s', agentEvent sameBase ev s = (Ok tt, s') /\ inv s'); [intros (s' & ? & ?); by exists tt, s'|].
  destruct ev as [| | | |buf| | |buf| | | |]; cbn [possible agentEvent] in *;
    try apply bool_decide_eq_true in Ep.
  - by apply init_inv.
  - by apply connectSuccess_inv.
  - eexists. split; [done|by apply connectErr_inv].
  - by apply onConnected_inv.
  - destruct (frontReads_true s Hi Ep) as (Hp & Hj & Hd). rewrite bind_modify. by apply inBackend_write_inv.
  - destruct (frontReads_true s Hi Ep) as (Hp & Hj & Hd). unfold onFront. rewrite bind_modify.
    apply frontEOF_inv; [by apply frontEnds_inv|done..|]. intros Hs. by destruct (inv_same s Hi Hs).
  - eexists. split; [done|]. by apply frontEnds_inv.
  - apply bool_decide_eq_true in Epol. destruct (backReads_true s Ep) as [Hb Hd]. rewrite bind_modify. by apply inFrontend_inv.
  - eexists. split; [done|]. by apply backEnds_inv.
  - eexists. split; [done|]. by apply backEnds_inv.
  - apply andb_true_iff in Ep as [Hj%bool_decide_eq_true Hb%negb_true_iff%bool_decide_eq_false].
    apply runFront_inv; [done|done|by apply eq_None_not_Some].
  - apply andb_true_iff in Ep as [Hj%bool_decide_eq_true _]. by apply runBack_inv.
Qed.

(** C38. For every order of connecting, data, ends of stream and errors on
    both sides, with a backend that speaks only when it is spoken to and a
    [backendPipeline_] that starts as null by luck: nothing is dereferenced
    that is not there; each socket has been sent the buffers that the other
    one delivered, in order, and all of them as long as it is good, except
    for the one a waiting thread still holds; and nothing was read from the
    client before the backend was connected.  With one event base no thread
    ever waits. *)
Theorem agent_relays evs :
  exists s, for_each evs politeStep (newAgent true) = (Ok tt, s) /\
    relayed (fromServer s) (option_list (backJob s)) (front s) /\
    (forall h, back s = Some h -> relayed (fromClient s) (writeOf (frontJob s)) h) /\
    (backendPipeline_ s <> BackendPipeline -> fromClient s = []) /\
    (sameBase = true -> frontJob s = None /\ backJob s = None).
Proof.
  destruct (runs_for_each (fun _ => inv) politeStep evs (fun ev _ => politeStep_inv ev) _ new_inv)
    as ([] & s & E & Hi).
  exists s. split; [done|]. split_and!; [by apply Hi| | |by apply Hi].
  - intros h Hh. by apply (inv_back s Hi h Hh).
  - intros Hp. by destruct (inv_before s Hi Hp) as (_ & _ & _ & _ & _ & ? & _).
Qed.
End agent.

(** ** A witness, and what goes wrong *)

Definition request : list AgentEvent :=
  [Init; ConnectSuccess; OnConnected; FrontRead [x01]; FrontRead [x02]; BackRead [x03]; FrontEOF].

Lemma agent_relays_witness :
  exists s, for_each request (politeStep true) (newAgent true) = (Ok tt, s) /\
    (sent <$> back s) = Some [[x01]; [x02]] /\ sent (front s) = [[x03]] /\ frontDeleted s = true /\
    (frontJob s = None /\ backJob s = None).
Proof.
  destruct (agent_relays true request) as (s & E & _ & _ & _ & Hj). exists s.
  split; [exact E|]. repeat split; [..|exact (proj1 (Hj eq_refl))|exact (proj2 (Hj eq_refl))];
    vm_compute in E; injection E as <-; reflexivity.
Defined.

(** With an event base for each end, both threads can wait for each other: the
    client and the backend send at the same time.  Nothing that is possible
    then changes anything ever again. *)
Definition crossing : list AgentEvent :=
  [Init; ConnectSuccess; OnConnected; FrontRead [x01]; RunFrontJob; FrontRead [x02]; BackRead [x03]].

Lemma blocked_forever s evs :
  is_Some (frontJob s) -> is_Some (backJob s) -> connect_ s = ConnectDone ->
  agentRun false evs s = (Ok tt, s).
Proof.
  intros Hf Hb Hc. induction evs as [|ev evs IH]; [done|]. unfold agentRun. cbn [for_each].
  rewrite bind_assoc, bind_get.
  assert (Ep : possible ev s = false).
  { destruct ev; simpl; rewrite ?Hc; try done; unfold frontReads, backReads;
      rewrite ?(bool_decide_true (is_Some (frontJob s))), ?(bool_decide_true (is_Some (backJob s))) by done; simpl;
      rewrite ?andb_false_r; try done; by destruct (back s); rewrite ?andb_false_r. }
  rewrite Ep. exact IH.
Qed.

Lemma crossing_deadlocks :
  exists s, agentRun false crossing (newAgent true) = (Ok tt, s) /\
    frontJob s = Some (WriteJob [x02]) /\ backJob s = Some [x03] /\
    forall evs, agentRun false evs s = (Ok tt, s).
Proof.
  eexists. split; [vm_compute; reflexivity|]. split_and!; [done..|].
  intros evs. by apply blocked_forever.
Qed.

(** A backend that speaks first finds the frontend without its transport. *)
Lemma server_first_crashes :
  (agentRun true [Init; ConnectSuccess; BackRead [x01]] (newAgent true)).1 = Err (Undefined "getTransport()").
Proof. reflexivity. Qed.

(** A [backendPipeline_] that starts as something else: no backend is
    connected, and the first bytes go through the pointer. *)
Lemma indeterminate_crashes :
  (agentRun true [Init; FrontRead [x01]] (newAgent false)).1 = Err (Undefined "backendPipeline_").
Proof. reflexivity. Qed.

(** When no connection can be made the client is not told: its pipeline stays
    paused, and nothing that can happen changes that. *)
Lemma connectErr_hangs evs :
  exists s, agentRun true [Init; ConnectErr] (newAgent true) = (Ok tt, s) /\ frontDeleted s = false /\
    agentRun true evs s = (Ok tt, s).
Proof.
  eexists. split; [vm_compute; reflexivity|]. split; [done|].
  induction evs as [|ev evs IH]; [done|]. unfold agentRun. cbn [for_each].
  rewrite bind_assoc, bind_get. destruct ev; exact IH.
Qed.

(** When the backend closes its connection the client is not told either: what
    it sends is dropped. *)
Lemma backEOF_drops :
  exists s, agentRun true [Init; ConnectSuccess; OnConnected; BackEOF; FrontRead [x01]] (newAgent true) = (Ok tt, s) /\
    frontDeleted s = false /\ readCallback (front s) = true /\ (sent <$> back s) = Some [] /\ fromClient s = [[x01]].
Proof. eexists. split; [vm_compute; reflexivity|]. done. Qed.

(** ** AsyncSocketHandler *)

Inductive SocketOp : Type := Activate | Inactivate | Detach | Write (buf : option IOBuf) | Shutdown | Ends.
Definition socketOp (op : SocketOp) (h : AsyncSocketHandler) : AsyncSocketHandler :=
  match op with
  | Activate => transportActive h
  | Inactivate => transportInactive h
  | Detach => detachReadCallback h
  | Write buf => (write buf h).2
  | Shutdown => shutdown h
  | Ends => socketEnds h
  end.

(** Whether the last of what was fired about the transport is inactive. *)
Fixpoint inactiveLast (acc : bool) (l : list Fired) : option bool :=
  match l with
  | [] => Some acc
  | TransportActive :: l => inactiveLast false l
  | TransportInactive :: l => if acc then None else inactiveLast true l
  | DeletePipeline :: l => inactiveLast acc l
  end.

Lemma inactiveLast_app l1 : forall acc l2,
  inactiveLast acc (l1 ++ l2) = inactiveLast acc l1 ≫= (fun a => inactiveLast a l2).
Proof. induction l1 as [|[] l1 IH]; intros acc l2; simpl; [done|apply IH| |apply IH]. by destruct acc. Qed.

(** [transportInactive] is fired at most once after each [transportActive],
    and the pipeline is deleted at most once. *)
Lemma socket_fires_once ops :
  let h := fold_left (fun h op => socketOp op h) ops newSocketHandler in
  inactiveLast false (fired h) = Some (firedInactive_ h) /\
  length (filter (.= DeletePipeline) (fired h)) = if pipelineDeleted_ h then 1 else 0.
Proof.
  set (ok h := inactiveLast false (fired h) = Some (firedInactive_ h) /\
    length (filter (.= DeletePipeline) (fired h)) = if pipelineDeleted_ h then 1 else 0).
  change (ok (fold_left (fun h op => socketOp op h) ops newSocketHandler)).
  assert (Hnew : ok newSocketHandler) by done. revert Hnew. generalize newSocketHandler.
  induction ops as [|op ops IH]; intros h Hh; [done|]. simpl. apply IH. clear IH. destruct Hh as [H1 H2]. unfold ok.
  destruct op as [| | |[buf|]| |]; simpl; try (unfold write; by destruct (good h));
    unfold transportActive, transportInactive, shutdown, socketEnds, attachReadCallback, detachReadCallback,
      setTransport, setReadCB, setFiredInactive, fire; simpl;
    try destruct (firedInactive_ h) eqn:Ef; try destruct (pipelineDeleted_ h) eqn:Ed; simpl;
    rewrite ?inactiveLast_app, ?filter_app, ?length_app, ?inactiveLast_app, ?H1, ?H2; done.
Qed.
