(* ===== verification/Broadcast.v ===== *)
(** * Broadcasts (src/wangle/channel/broadcast)

    [BroadcastHandler] passes what one upstream connection delivers to its
    subscribers; [BroadcastPool] keeps at most one upstream connection, with
    its [BroadcastManager], for each routing data; [ObservingHandler] is the
    subscriber at the end of a client's pipeline.

    Managers, upstream pipelines and observers are objects with a lifetime:
    each has its place in a heap, and using one that is gone is undefined.
    [DestructorGuard]s and the references that a pipeline's contexts hold
    while they call its handlers delay a destruction, and are counted.

    The futures of the pool complete inline.  What the server pool's [connect]
    answers, and when, is an input; so are the data of the upstream and which
    writes to a client fail. *)
From stdpp Require Import base numbers list gmap strings.
From S2P Require Import Prelude.
Open Scope cpp_scope.

Set Default Goal Selector "!".

Section broadcast.
(** Data and routing data. *)
Context {T R : Type} `{!EqDecision R, !Countable R}.

(** ** State *)

(** [SharedPromise]: the observers that wait, or how it was fulfilled. *)
Inductive Promise : Type :=
| Waiting (waiters : list nat)
| Fulfilled
| Moved.

Record BroadcastManager : Type := mkManager {
  routingData_ : R;
  connectStarted_ : bool;
  deletingBroadcast_ : bool;
  sharedPromise_ : Promise;
  m_guards : nat;
  m_destroy : bool;      (* destroy() while a guard is held *)
  m_dead : bool
}.

(** The upstream pipeline of a manager, with its [BroadcastHandler] and the
    [pipelineDeleted_] of its socket handler; [owned] by the manager's client,
    and referenced by the contexts that are calling. *)
Record BroadcastHandler : Type := mkBroadcast {
  subscribers_ : list (nat * nat);
  nextSubscriptionId_ : nat;
  pipelineDeleted_ : bool;
  pipelineManager_ : bool;
  owned : bool;
  p_guards : nat
}.

Record ObservingHandler : Type := mkObserver {
  o_routingData_ : R;
  broadcastHandler_ : option nat;
  subscriptionId_ : nat;
  deleted_ : bool
}.

(** What a subscriber is told. *)
Inductive Told : Type :=
| OnNext (o : nat) (x : T)
| OnError (o : nat)
| OnCompleted (o : nat).

(** A manager and its pipeline have the same index. *)
Record Pool : Type := mkPool {
  broadcasts_ : gmap R nat;
  managers : gmap nat BroadcastManager;
  handlers : gmap nat BroadcastHandler;
  observers : gmap nat ObservingHandler;
  nextObject : nat;
  told : list Told
}.
Definition newPool : Pool := mkPool ∅ ∅ ∅ ∅ 0 [].

Definition setBroadcasts x (s : Pool) : Pool :=
  mkPool x (managers s) (handlers s) (observers s) (nextObject s) (told s).
Definition setManager m x (s : Pool) : Pool :=
  mkPool (broadcasts_ s) (<[m := x]> (managers s)) (handlers s) (observers s) (nextObject s) (told s).
Definition setHandler m x (s : Pool) : Pool :=
  mkPool (broadcasts_ s) (managers s) (<[m := x]> (handlers s)) (observers s) (nextObject s) (told s).
Definition setObserver o x (s : Pool) : Pool :=
  mkPool (broadcasts_ s) (managers s) (handlers s) (<[o := x]> (observers s)) (nextObject s) (told s).
Definition tell (x : Told) : M Pool unit := modify (fun s =>
  mkPool (broadcasts_ s) (managers s) (handlers s) (observers s) (nextObject s) (told s ++ [x])).
Definition newObject : M Pool nat := fun s =>
  (Ok (nextObject s),
   mkPool (broadcasts_ s) (managers s) (handlers s) (observers s) (S (nextObject s)) (told s)).

(** Objects that are there. *)
Definition pipelineAlive (h : BroadcastHandler) : bool := owned h || negb (p_guards h =? 0).
Definition manager (m : nat) : M Pool BroadcastManager :=
  let! s := get in
  match managers s !! m with
  | Some x => if m_dead x then raise (Undefined "BroadcastManager destroyed") else ret x
  | None => raise (Undefined "BroadcastManager")
  end.
Definition handler (m : nat) : M Pool BroadcastHandler :=
  let! s := get in
  match handlers s !! m with
  | Some x => if pipelineAlive x then ret x else raise (Undefined "BroadcastHandler destroyed")
  | None => raise (Undefined "BroadcastHandler")
  end.
Definition observer (o : nat) : M Pool ObservingHandler :=
  let! s := get in
  match observers s !! o with
  | Some x => if deleted_ x then raise (Undefined "ObservingHandler destroyed") else ret x
  | None => raise (Undefined "ObservingHandler")
  end.

Definition withPromise p (x : BroadcastManager) : BroadcastManager :=
  mkManager (routingData_ x) (connectStarted_ x) (deletingBroadcast_ x) p (m_guards x) (m_destroy x) (m_dead x).
Definition withStarted (x : BroadcastManager) : BroadcastManager :=
  mkManager (routingData_ x) true (deletingBroadcast_ x) (sharedPromise_ x) (m_guards x) (m_destroy x) (m_dead x).
Definition withDeleting (x : BroadcastManager) : BroadcastManager :=
  mkManager (routingData_ x) (connectStarted_ x) true (sharedPromise_ x) (m_guards x) (m_destroy x) (m_dead x).
Definition withGuards n (x : BroadcastManager) : BroadcastManager :=
  mkManager (routingData_ x) (connectStarted_ x) (deletingBroadcast_ x) (sharedPromise_ x) n (m_destroy x) (m_dead x).
Definition withDestroy (x : BroadcastManager) : BroadcastManager :=
  mkManager (routingData_ x) (connectStarted_ x) (deletingBroadcast_ x) (sharedPromise_ x) (m_guards x) true (m_dead x).
Definition withDead (x : BroadcastManager) : BroadcastManager :=
  mkManager (routingData_ x) (connectStarted_ x) (deletingBroadcast_ x) (sharedPromise_ x) (m_guards x) (m_destroy x) true.

Definition withSubscribers l n (h : BroadcastHandler) : BroadcastHandler :=
  mkBroadcast l n (pipelineDeleted_ h) (pipelineManager_ h) (owned h) (p_guards h).
Definition withDeleted (h : BroadcastHandler) : BroadcastHandler :=
  mkBroadcast (subscribers_ h) (nextSubscriptionId_ h) true (pipelineManager_ h) (owned h) (p_guards h).
Definition disowned (h : BroadcastHandler) : BroadcastHandler :=
  mkBroadcast (subscribers_ h) (nextSubscriptionId_ h) (pipelineDeleted_ h) false false (p_guards h).
Definition withPGuards n (h : BroadcastHandler) : BroadcastHandler :=
  mkBroadcast (subscribers_ h) (nextSubscriptionId_ h) (pipelineDeleted_ h) (pipelineManager_ h) (owned h) n.

(** ** Lifetimes *)

(** [~BroadcastHandler], when the last reference to the pipeline is gone. *)
Definition putHandler (m : nat) (h : BroadcastHandler) : M Pool unit :=
  do! modify (setHandler m h) in
  if negb (pipelineAlive h) && negb (length (subscribers_ h) =? 0)
  then raise (CheckFailed "subscribers_.empty()") else ret tt.

(** [~BroadcastManager], with its client. *)
Definition deleteManager (m : nat) : M Pool unit :=
  let! x := manager m in
  do! modify (setManager m (withDead x)) in
  let! s := get in
  match handlers s !! m with
  | Some h => putHandler m (disowned h)
  | None => ret tt
  end.
Definition destroyManager (m : nat) : M Pool unit :=
  let! x := manager m in
  if m_guards x =? 0 then deleteManager m else modify (setManager m (withDestroy x)).
Definition guardManager (m : nat) : M Pool unit :=
  let! x := manager m in modify (setManager m (withGuards (S (m_guards x)) x)).
Definition unguardManager (m : nat) : M Pool unit :=
  let! x := manager m in
  do! modify (setManager m (withGuards (m_guards x - 1) x)) in
  when ((m_guards x - 1 =? 0) && m_destroy x) (deleteManager m).

(** The reference that a context takes to its pipeline while it calls. *)
Definition inPipeline (m : nat) (body : M Pool unit) : M Pool unit :=
  let! h := handler m in
  do! modify (setHandler m (withPGuards (S (p_guards h)) h)) in
  do! body in
  let! h := handler m in
  putHandler m (withPGuards (p_guards h - 1) h).

(** ** Closing a broadcast *)

(** [BroadcastPool::deleteBroadcast]. *)
Definition deleteBroadcast (r : R) : M Pool unit :=
  let! s := get in
  match broadcasts_ s !! r with
  | Some m =>
      do! modify (setBroadcasts (delete r (broadcasts_ s))) in
      destroyManager m
  | None => ret tt
  end.

(** [BroadcastManager::deletePipeline]. *)
Definition deletePipeline (m : nat) : M Pool unit :=
  let! x := manager m in
  do! modify (setManager m (withDeleting x)) in
  deleteBroadcast (routingData_ x).

(** [close] of the upstream pipeline, down to its socket handler. *)
Definition closePipeline (m : nat) : M Pool unit :=
  inPipeline m (
    let! h := handler m in
    when (negb (pipelineDeleted_ h))
      (do! modify (setHandler m (withDeleted h)) in
       when (pipelineManager_ h) (deletePipeline m))).

Definition closeIfIdle (m : nat) : M Pool unit :=
  let! h := handler m in
  when (length (subscribers_ h) =? 0) (closePipeline m).

(** ** BroadcastHandler *)

Definition subscribe (m o : nat) : M Pool nat :=
  let! h := handler m in
  let subscriptionId := nextSubscriptionId_ h in
  do! modify (setHandler m (withSubscribers (subscribers_ h ++ [(subscriptionId, o)]) (S subscriptionId) h)) in
  ret subscriptionId.

Definition unsubscribe (m subscriptionId : nat) : M Pool unit :=
  let! h := handler m in
  match assoc subscriptionId (subscribers_ h) with
  | None => ret tt
  | Some _ =>
      do! modify (setHandler m
        (withSubscribers (without subscriptionId (subscribers_ h)) (nextSubscriptionId_ h) h)) in
      closeIfIdle m
  end.

(** [~ObservingHandler]. *)
Definition destroyObserver (o : nat) : M Pool unit :=
  let! x := observer o in
  do! match broadcastHandler_ x with
      | Some m =>
          do! modify (setObserver o (mkObserver (o_routingData_ x) None (subscriptionId_ x) false)) in
          unsubscribe m (subscriptionId_ x)
      | None => ret tt
      end in
  modify (setObserver o (mkObserver (o_routingData_ x) None (subscriptionId_ x) true)).

(** [ObservingHandler]'s [onNext], of which the write may fail; [onError] and
    [onCompleted], which let go of the broadcast first. *)
Definition onNext (fails : nat -> bool) (x : T) (o : nat) : M Pool unit :=
  do! observer o in
  do! tell (OnNext o x) in
  when (fails o) (destroyObserver o).
Definition onLast (last : nat -> Told) (o : nat) : M Pool unit :=
  let! x := observer o in
  do! tell (last o) in
  do! modify (setObserver o (mkObserver (o_routingData_ x) None (subscriptionId_ x) false)) in
  destroyObserver o.

(** [forEachSubscriber], over a copy. *)
Definition forEachSubscriber (m : nat) (f : nat -> M Pool unit) : M Pool unit :=
  let! h := handler m in
  for_each (subscribers_ h) (fun it => f it.2).

Definition broadcastRead (m : nat) (fails : nat -> bool) (data : T) : M Pool unit :=
  forEachSubscriber m (onNext fails data).
Definition broadcastEnd (m : nat) (last : nat -> Told) : M Pool unit :=
  do! forEachSubscriber m (onLast last) in
  let! h := handler m in
  do! modify (setHandler m (withSubscribers [] (nextSubscriptionId_ h) h)) in
  closeIfIdle m.

(** ** Connecting *)

(** How [setRoutingData] ends: it may throw, or find that the upstream is gone
    already and close its pipeline. *)
Inductive SetRouting : Type := SetOk | SetThrows | SetCloses.
Inductive Connection : Type :=
| ConnectError
| Connected (set : SetRouting).
#[global] Instance SetRouting_eq_dec : EqDecision SetRouting.
Proof. solve_decision. Defined.
#[global] Instance Connection_eq_dec : EqDecision Connection.
Proof. solve_decision. Defined.

(** A future of the shared promise. *)
Inductive Future : Type := Pending (m : nat) | Value (m : nat) | Exception.

(** The continuations of [ObservingHandler::transportActive]. *)
Definition observerReady (m o : nat) : M Pool unit :=
  let! s := get in
  match observers s !! o with
  | None => raise (Undefined "ObservingHandler")
  | Some x =>
      if deleted_ x then ret tt
      else
        let! subscriptionId := subscribe m o in
        modify (setObserver o (mkObserver (o_routingData_ x) (Some m) subscriptionId false))
  end.
Definition observerFailed (o : nat) : M Pool unit :=
  let! s := get in
  match observers s !! o with
  | None => raise (Undefined "ObservingHandler")
  | Some x => if deleted_ x then ret tt else destroyObserver o
  end.

Definition waitersOf (p : Promise) : list nat := if p is Waiting l then l else [].

Definition handleConnectError (m : nat) : M Pool unit :=
  let! x := manager m in
  do! modify (setManager m (withPromise Moved x)) in
  do! deleteBroadcast (routingData_ x) in
  for_each (waitersOf (sharedPromise_ x)) observerFailed.

(** The continuation of [connect]. *)
Definition connectDone (m : nat) (c : Connection) : M Pool Future :=
  match c with
  | ConnectError => do! handleConnectError m in ret Exception
  | Connected set =>
      do! guardManager m in
      do! modify (setHandler m (mkBroadcast [] 0 false true true 0)) in
      match set with
      | SetThrows =>
          do! handleConnectError m in
          do! unguardManager m in
          ret Exception
      | _ =>
          do! when (if set is SetCloses then true else false) (closePipeline m) in
          let! x := manager m in
          if deletingBroadcast_ x then
            do! handleConnectError m in
            do! unguardManager m in
            ret Exception
          else
            do! modify (setManager m (withPromise Fulfilled x)) in
            do! for_each (waitersOf (sharedPromise_ x)) (observerReady m) in
            do! closeIfIdle m in
            do! unguardManager m in
            ret (Value m)
      end
  end.

(** [BroadcastManager::getHandler]; [now] when [connect] completes at once. *)
Definition managerGetHandler (m : nat) (now : option Connection) : M Pool Future :=
  let! x := manager m in
  if connectStarted_ x then
    match sharedPromise_ x with
    | Waiting _ => ret (Pending m)
    | Fulfilled => ret (Value m)
    | Moved => raise (Undefined "SharedPromise moved from")
    end
  else
    do! modify (setManager m (withStarted x)) in
    match now with
    | None => ret (Pending m)
    | Some c => connectDone m c
    end.

(** [BroadcastPool::getHandler]. *)
Definition getHandler (r : R) (now : option Connection) : M Pool Future :=
  let! s := get in
  match broadcasts_ s !! r with
  | Some m => managerGetHandler m now
  | None =>
      let! m := newObject in
      do! modify (setManager m (mkManager r false false (Waiting []) 0 false false)) in
      do! modify (fun s => setBroadcasts (<[r := m]> (broadcasts_ s)) s) in
      managerGetHandler m now
  end.

(** [ObservingHandler::transportActive] of a new pipeline. *)
Definition transportActive (o : nat) (now : option Connection) : M Pool unit :=
  let! x := observer o in
  let! future := getHandler (o_routingData_ x) now in
  match future with
  | Value m => observerReady m o
  | Exception => observerFailed o
  | Pending m =>
      let! x := manager m in
      modify (setManager m (withPromise (Waiting (waitersOf (sharedPromise_ x) ++ [o])) x))
  end.

(** ** Events *)

Inductive PoolEvent : Type :=
| NewObserver (r : R) (now : option Connection)
| ConnectDone (m : nat) (c : Connection)
| UpstreamData (m : nat) (fails : nat -> bool) (x : T)
| UpstreamEOF (m : nat)
| UpstreamError (m : nat)
| CloseObserver (o : nat).

(** The connection of a manager completes once; an upstream is read until its
    pipeline is deleted. *)
Definition isConnecting (m : nat) (s : Pool) : bool :=
  match managers s !! m with
  | Some x => negb (m_dead x) && (if sharedPromise_ x is Waiting _ then true else false)
  | None => false
  end.
Definition isOpen (m : nat) (s : Pool) : bool :=
  match handlers s !! m with Some h => pipelineAlive h && negb (pipelineDeleted_ h) | None => false end.
Definition isThere (o : nat) (s : Pool) : bool :=
  match observers s !! o with Some x => negb (deleted_ x) | None => false end.

Definition poolEvent (ev : PoolEvent) : M Pool unit :=
  let! s := get in
  match ev with
  | NewObserver r now =>
      let! o := newObject in
      do! modify (setObserver o (mkObserver r None 0 false)) in
      transportActive o now
  | ConnectDone m c => when (isConnecting m s) (do! connectDone m c in ret tt)
  | UpstreamData m fails x => when (isOpen m s) (inPipeline m (broadcastRead m fails x))
  | UpstreamEOF m => when (isOpen m s) (inPipeline m (broadcastEnd m OnCompleted))
  | UpstreamError m => when (isOpen m s) (inPipeline m (broadcastEnd m OnError))
  | CloseObserver o => when (isThere o s) (destroyObserver o)
  end.
End broadcast.
