(* ===== verification/BroadcastFacts.v ===== *)
(** * Broadcasts: what closing, subscribing and telling do

    Each step of a broadcast touches its own manager and pipeline, and the
    observers of its routing data ([frame]).  Within that, the stages of a
    broadcast: connecting, streaming, ended. *)
From Stdlib Require Import Lia.
From stdpp Require Import base numbers list gmap strings.
From S2P Require Import Prelude Broadcast.
Open Scope cpp_scope.

Set Default Goal Selector "!".

Section broadcast.
Context {T R : Type} `{!EqDecision R, !Countable R}.
#[local] Abbreviation Pool := (Pool (T:=T) (R:=R)).
Implicit Types (s : Pool).

(** ** Objects that are there *)

Lemma bind_manager {A} s m x (k : _ -> M Pool A) :
  managers s !! m = Some x -> m_dead x = false -> bind (manager m) k s = k x s.
Proof. intros E Hd. unfold manager. rewrite bind_assoc, bind_get, E, Hd. apply bind_ret. Qed.
Lemma bind_handler {A} s m h (k : _ -> M Pool A) :
  handlers s !! m = Some h -> pipelineAlive h = true -> bind (handler m) k s = k h s.
Proof. intros E Ha. unfold handler. rewrite bind_assoc, bind_get, E, Ha. apply bind_ret. Qed.
Lemma bind_observer {A} s o y (k : _ -> M Pool A) :
  observers s !! o = Some y -> deleted_ y = false -> bind (observer o) k s = k y s.
Proof. intros E Hd. unfold observer. rewrite bind_assoc, bind_get, E, Hd. apply bind_ret. Qed.

(** ** Closing *)

Definition setDead (r : R) (m : nat) (x : BroadcastManager (R:=R)) (h : BroadcastHandler) s : Pool :=
  mkPool (delete r (broadcasts_ s)) (<[m := x]> (managers s)) (<[m := h]> (handlers s)) (observers s) (nextObject s) (told s).

(** An idle broadcast closes its pipeline; that takes it out of the pool and
    destroys the manager, or marks it when it is guarded. *)
Lemma closePipeline_idle s m r n g p gm :
  managers s !! m = Some (mkManager r true false p gm false false) ->
  broadcasts_ s !! r = Some m ->
  handlers s !! m = Some (mkBroadcast [] n false true true g) ->
  closePipeline m s = (Ok tt,
    if gm =? 0 then setDead r m (mkManager r true true p 0 false true) (mkBroadcast [] n true false false g) s
    else setDead r m (mkManager r true true p gm true false) (mkBroadcast [] n true true true g) s).
Proof.
  intros Em Eb Eh. unfold closePipeline, inPipeline. rewrite (bind_handler _ _ _ _ Eh) by done.
  rewrite bind_modify. unfold bind at 1.
  set (s1 := setHandler m _ s).
  assert (E1 : handlers s1 !! m = Some (mkBroadcast [] n false true true (S g))) by apply lookup_insert_eq.
  assert (Ebody : (let! h := handler m in when (negb (pipelineDeleted_ h))
      (do! modify (setHandler m (withDeleted h)) in when (pipelineManager_ h) (deletePipeline m))) s1 =
    (Ok tt, if gm =? 0 then setDead r m (mkManager r true true p 0 false true) (mkBroadcast [] n true false false (S g)) s
      else setDead r m (mkManager r true true p gm true false) (mkBroadcast [] n true true true (S g)) s)).
  { rewrite (bind_handler _ _ _ _ E1) by done. simpl. rewrite bind_modify. unfold deletePipeline.
    rewrite (bind_manager _ m (mkManager r true false p gm false false)); [|exact Em|done].
    rewrite bind_modify. unfold deleteBroadcast. rewrite bind_get. simpl.
    rewrite Eb, bind_modify. unfold destroyManager. rewrite (bind_manager _ m (mkManager r true true p gm false false));
      [|apply lookup_insert_eq|done]. simpl.
    destruct (Nat.eqb_spec gm 0) as [->|Hg].
    - unfold deleteManager. rewrite (bind_manager _ m (mkManager r true true p 0 false false)); [|apply lookup_insert_eq|done].
      rewrite bind_modify, bind_get. simpl. rewrite lookup_insert_eq. unfold putHandler. rewrite bind_modify. simpl.
      unfold setDead, setHandler, setManager, setBroadcasts, ret. simpl. by rewrite !insert_insert_eq.
    - unfold modify, setDead, setManager, setHandler, setBroadcasts. simpl. by rewrite !insert_insert_eq. }
  rewrite Ebody. destruct (gm =? 0).
  - rewrite (bind_handler _ m (mkBroadcast [] n true false false (S g))); [|apply lookup_insert_eq|done].
    unfold putHandler. rewrite bind_modify. simpl. rewrite andb_false_r. unfold setDead, setHandler, ret. simpl.
    by rewrite Nat.sub_0_r, insert_insert_eq.
  - rewrite (bind_handler _ m (mkBroadcast [] n true true true (S g))); [|apply lookup_insert_eq|done].
    unfold putHandler. rewrite bind_modify. simpl. unfold setDead, setHandler, ret. simpl.
    by rewrite Nat.sub_0_r, insert_insert_eq.
Qed.

(** ** What a step leaves alone *)

Record others (m : nat) (r : R) s s' : Prop := {
  f_managers m' : m' <> m -> managers s' !! m' = managers s !! m';
  f_handlers m' : m' <> m -> handlers s' !! m' = handlers s !! m';
  f_broadcasts r' : r' <> r -> broadcasts_ s' !! r' = broadcasts_ s !! r';
  f_observers o y : o_routingData_ y <> r -> observers s' !! o = Some y <-> observers s !! o = Some y
}.
(** ... and creates no object. *)
Record frame (m : nat) (r : R) s s' : Prop := {
  f_others : others m r s s';
  f_next : nextObject s' = nextObject s;
  f_fresh o : observers s !! o = None -> observers s' !! o = None
}.

Lemma others_trans m r s1 s2 s3 : others m r s1 s2 -> others m r s2 s3 -> others m r s1 s3.
Proof.
  intros [A1 A2 A3 A4] [B1 B2 B3 B4]. split.
  - intros m' Hm. by rewrite B1, A1.
  - intros m' Hm. by rewrite B2, A2.
  - intros r' Hr. by rewrite B3, A3.
  - intros o y Hy. by rewrite B4, A4.
Qed.
Lemma frame_refl m r s : frame m r s s.
Proof. by split. Qed.
Lemma frame_trans m r s1 s2 s3 : frame m r s1 s2 -> frame m r s2 s3 -> frame m r s1 s3.
Proof.
  intros [A N F] [A' N' F']. split; [by eapply others_trans|congruence|]. intros o Ho. by apply F', F.
Qed.
Lemma frame_setManager m r x s : frame m r s (setManager m x s).
Proof. split; [split|..]; simpl; try done. intros m' Hm. by rewrite lookup_insert_ne. Qed.
Lemma frame_setHandler m r h s : frame m r s (setHandler m h s).
Proof. split; [split|..]; simpl; try done. intros m' Hm. by rewrite lookup_insert_ne. Qed.
Lemma frame_setDead m r x h s : frame m r s (setDead r m x h s).
Proof.
  split; [split|..]; simpl; try done.
  - intros m' Hm. by rewrite lookup_insert_ne.
  - intros m' Hm. by rewrite lookup_insert_ne.
  - intros r' Hr. by rewrite lookup_delete_ne.
Qed.
Lemma frame_setObserver m r o y y' s :
  observers s !! o = Some y -> o_routingData_ y = r -> o_routingData_ y' = r -> frame m r s (setObserver o y' s).
Proof.
  intros E Hy Hy'. split; [split|..]; simpl; try done.
  - intros o' z Hz. destruct (decide (o' = o)) as [->|Ho].
    + rewrite lookup_insert_eq, E. split; intros [= <-]; by rewrite ?Hy, ?Hy' in Hz.
    + by rewrite lookup_insert_ne.
  - intros o' Ho'. rewrite lookup_insert_ne; [done|]. intros ->. congruence.
Qed.

(** ** The stages of a broadcast

    [gm] guards of the manager and [g] references to the pipeline are held. *)

Record streaming (m : nat) (r : R) (gm g : nat) (subs : list (nat * nat)) s : Prop := {
  st_broadcast : broadcasts_ s !! r = Some m;
  st_manager : managers s !! m = Some (mkManager r true false Fulfilled gm false false);
  st_handler : exists n, handlers s !! m = Some (mkBroadcast subs n false true true g) /\ forall i, i ∈ subs.*1 -> i < n;
  st_nodup : NoDup subs.*1;
  st_subscribed i o : (i, o) ∈ subs -> observers s !! o = Some (mkObserver r (Some m) i false);
  st_all o y : observers s !! o = Some y -> o_routingData_ y = r -> deleted_ y = false -> o ∈ subs.*2
}.
Record closed (m : nat) (r : R) (gm g : nat) s : Prop := {
  cl_broadcast : broadcasts_ s !! r = None;
  cl_manager : exists p, managers s !! m = Some
    (if gm =? 0 then mkManager r true true p 0 false true else mkManager r true true p gm true false);
  cl_handler : exists n, handlers s !! m =
    Some (if gm =? 0 then mkBroadcast [] n true false false g else mkBroadcast [] n true true true g);
  cl_none o y : observers s !! o = Some y -> o_routingData_ y = r -> deleted_ y = true
}.
Definition stage (m : nat) (r : R) (gm g : nat) (subs : list (nat * nat)) s : Prop :=
  if subs is [] then closed m r gm g s else streaming m r gm g subs s.

Lemma assoc_middle (pre post : list (nat * nat)) i o :
  NoDup (pre ++ (i, o) :: post).*1 ->
  assoc i (pre ++ (i, o) :: post) = Some o /\ without i (pre ++ (i, o) :: post) = pre ++ post.
Proof.
  induction pre as [|[j p] pre IH]; simpl.
  - intros [Hn H]%NoDup_cons. rewrite decide_True by done. split; [done|]. unfold without.
    rewrite filter_cons_False by (intros Hf; by apply Hf). by apply without_id.
  - rewrite fmap_app. intros [Hn H]%NoDup_cons.
    assert (Hj : j <> i) by (intros ->; apply Hn; set_solver).
    rewrite decide_False by done. rewrite <- fmap_app in H. destruct (IH H) as [-> E]. split; [done|].
    unfold without in *. rewrite filter_cons_True by done. by rewrite E.
Qed.

Lemma streaming_owner m r gm g subs s i j o :
  streaming m r gm g subs s -> (i, o) ∈ subs -> (j, o) ∈ subs -> i = j.
Proof. intros Hs Hi%(st_subscribed _ _ _ _ _ _ Hs) Hj%(st_subscribed _ _ _ _ _ _ Hs). congruence. Qed.

Lemma streaming_stage m r gm g subs s : subs <> [] -> streaming m r gm g subs s -> stage m r gm g subs s.
Proof. by destruct subs. Qed.

Lemma streaming_observers m r gm g subs s :
  streaming m r gm g subs s -> NoDup subs.*2.
Proof.
  intros Hs. apply NoDup_fmap_2_strong; [|by apply (NoDup_fmap_1 fst), (st_nodup _ _ _ _ _ _ Hs)].
  intros [i o] [j o'] Hi Hj. simpl. intros <-. f_equal. by eapply streaming_owner.
Qed.

(** One subscriber less. *)
Lemma streaming_remove m r gm g pre i o post n s s' :
  streaming m r gm g (pre ++ (i, o) :: post) s ->
  (forall j, j ∈ (pre ++ (i, o) :: post).*1 -> j < n) ->
  broadcasts_ s' = broadcasts_ s -> managers s' = managers s ->
  handlers s' !! m = Some (mkBroadcast (pre ++ post) n false true true g) ->
  observers s' = <[o := mkObserver r None i true]> (observers s) ->
  streaming m r gm g (pre ++ post) s'.
Proof.
  intros Hs Hn Eb Em Eh Eo. pose proof (streaming_observers _ _ _ _ _ _ Hs) as Hnd2. destruct Hs as [Hb Hm _ Hnd Hsub Hall].
  rewrite !fmap_app in *. simpl in *. apply NoDup_app in Hnd as (Hn1 & Hd1 & [Hi1 Hn1']%NoDup_cons).
  apply NoDup_app in Hnd2 as (_ & Hd2 & [Ho2 _]%NoDup_cons).
  split; rewrite ?Eb, ?Em, ?Eo; try done.
  - exists n. split; [done|]. intros j Hj. apply Hn. rewrite fmap_app in Hj. set_solver.
  - rewrite fmap_app. apply NoDup_app. split_and!; [done| |done]. intros x Hx Hx'. apply (Hd1 x Hx). set_solver.
  - intros j o' Hj. assert (Hne : o' <> o).
    { intros ->. apply (list_elem_of_fmap_2 snd) in Hj. rewrite fmap_app in Hj. simpl in Hj.
      apply elem_of_app in Hj as [Hj|Hj]; [by apply (Hd2 o Hj); left|done]. }
    rewrite lookup_insert_ne by done. apply Hsub. set_solver.
  - intros o' y. destruct (decide (o' = o)) as [->|Ho'].
    + rewrite lookup_insert_eq. by intros [= <-].
    + rewrite lookup_insert_ne by done. intros Hy Hr Hd. specialize (Hall o' y Hy Hr Hd).
      rewrite fmap_app in *. cbn in Hall. set_solver.
Qed.

(** A subscriber that is destroyed unsubscribes; the last one closes the
    broadcast. *)
Lemma destroyObserver_stage m r gm g pre i o post s :
  streaming m r gm g (pre ++ (i, o) :: post) s ->
  exists s', destroyObserver o s = (Ok tt, s') /\ frame m r s s' /\ told s' = told s /\ stage m r gm g (pre ++ post) s'.
Proof.
  intros Hs. pose proof Hs as [Hb Hm (n & Hh & Hn) Hnd Hsub Hall].
  assert (Ho : observers s !! o = Some (mkObserver r (Some m) i false)) by (apply Hsub; set_solver).
  destruct (assoc_middle pre post i o Hnd) as [Ea Ew].
  unfold destroyObserver. rewrite (bind_observer _ _ _ _ Ho) by done. cbn [broadcastHandler_ o_routingData_ subscriptionId_].
  rewrite bind_assoc, bind_modify. set (s1 := setObserver o _ s).
  assert (F1 : frame m r s s1) by (by eapply frame_setObserver).
  unfold unsubscribe. rewrite bind_assoc, (bind_handler _ m (mkBroadcast (pre ++ (i, o) :: post) n false true true g)) by done.
  cbn [subscribers_ nextSubscriptionId_]. rewrite Ea, Ew. rewrite bind_assoc, bind_modify.
  unfold withSubscribers. cbn [pipelineDeleted_ pipelineManager_ owned p_guards].
  set (s2 := setHandler m _ s1).
  assert (F2 : frame m r s s2) by (eapply frame_trans; [exact F1|apply frame_setHandler]).
  assert (E2 : handlers s2 !! m = Some (mkBroadcast (pre ++ post) n false true true g)) by apply lookup_insert_eq.
  unfold closeIfIdle. rewrite bind_assoc, (bind_handler _ _ _ _ E2) by done. cbn [subscribers_].
  destruct (pre ++ post) as [|q rest] eqn:El; cbn [length Nat.eqb when].
  - rewrite (bind_Ok _ _ _ _ _ (closePipeline_idle s2 m r n g Fulfilled gm Hm Hb E2)).
    eexists. split; [done|]. split; [|split].
    + eapply frame_trans; [exact F2|]. destruct (gm =? 0); (eapply frame_trans; [apply frame_setDead|]);
        (eapply (frame_setObserver _ _ o (mkObserver r None i false)); [|done..]); apply lookup_insert_eq.
    + by destruct (gm =? 0).
    + split.
      * destruct (gm =? 0); simpl; apply lookup_delete_eq.
      * exists Fulfilled. destruct (gm =? 0); simpl; by rewrite lookup_insert_eq.
      * exists n. destruct (gm =? 0); simpl; by rewrite lookup_insert_eq.
      * intros o' y Hy Hr. destruct (deleted_ y) eqn:Hd; [done|]. exfalso.
        assert (Ey : <[o := mkObserver r None i true]> (observers s) !! o' = Some y).
        { rewrite <- Hy. destruct (gm =? 0); simpl; by rewrite insert_insert_eq. }
        destruct (decide (o' = o)) as [->|Ho']; [rewrite lookup_insert_eq in Ey; by injection Ey as <-|].
        rewrite lookup_insert_ne in Ey by done. specialize (Hall o' y Ey Hr Hd).
        apply app_eq_nil in El as [-> ->]. simpl in Hall. by apply list_elem_of_singleton in Hall.
  - rewrite bind_ret. eexists. split; [done|]. split; [|split; [done|]].
    + eapply frame_trans; [exact F2|]. eapply (frame_setObserver _ _ o (mkObserver r None i false)); [|done..].
      apply lookup_insert_eq.
    + rewrite <- El in *. apply streaming_stage; [by rewrite El|].
      apply (streaming_remove m r gm g pre i o post n s); [done..|exact E2|]. simpl. by rewrite insert_insert_eq.
Qed.
End broadcast.
