(* ===== verification/BroadcastSteps.v ===== *)
(** * Broadcasts: the loops over subscribers and waiters

    What one event does to the broadcast it belongs to: telling the
    subscribers, of which some leave; ending; subscribing those that waited,
    or closing them. *)
From Stdlib Require Import Lia.
From stdpp Require Import base numbers list gmap strings.
From S2P Require Import Prelude Broadcast BroadcastFacts.
Open Scope cpp_scope.

Set Default Goal Selector "!".

Lemma filter_same {A} (P Q : A -> Prop) `{!forall x, Decision (P x)} `{!forall x, Decision (Q x)} (l : list A) :
  (forall x, x ∈ l -> P x <-> Q x) -> filter P l = filter Q l.
Proof.
  induction l as [|x l IH]; intros HPQ; [done|]. rewrite !filter_cons, IH by set_solver.
  specialize (HPQ x ltac:(by left)). repeat case_decide; tauto.
Qed.

Section broadcast.
Context {T R : Type} `{!EqDecision R, !Countable R}.
#[local] Abbreviation Pool := (Pool (T:=T) (R:=R)).
#[local] Abbreviation Told := (Told (T:=T)).
Implicit Types (s : Pool).

(** A step of the broadcast [m] of [r] that tells [out] and ends in [Q]. *)
Definition steps (m : nat) (r : R) (c : M Pool unit) s (out : list Told) (Q : Pool -> Prop) : Prop :=
  exists s', c s = (Ok tt, s') /\ frame m r s s' /\ told s' = told s ++ out /\ Q s'.

Lemma steps_ret m r s (Q : Pool -> Prop) : Q s -> steps m r (ret tt) s [] Q.
Proof. intros H. exists s. split_and!; [done|apply frame_refl|by rewrite app_nil_r|done]. Qed.
Lemma steps_modify m r g s (Q : Pool -> Prop) :
  frame m r s (g s) -> told (g s) = told s -> Q (g s) -> steps m r (modify g) s [] Q.
Proof. intros F E H. exists (g s). split_and!; [done..|by rewrite E, app_nil_r|done]. Qed.
Lemma steps_bind m r c1 c2 s o1 o2 (P Q : Pool -> Prop) :
  steps m r c1 s o1 P -> (forall s', P s' -> steps m r c2 s' o2 Q) ->
  steps m r (do! c1 in c2) s (o1 ++ o2) Q.
Proof.
  intros (s1 & E1 & F1 & T1 & H1) H2. destruct (H2 s1 H1) as (s2 & E2 & F2 & T2 & H3).
  exists s2. rewrite (bind_Ok _ _ _ _ _ E1), T2, T1, app_assoc. split_and!; [done|by eapply frame_trans|done..].
Qed.
Lemma steps_mono m r c s out (P Q : Pool -> Prop) :
  steps m r c s out P -> (forall s', P s' -> Q s') -> steps m r c s out Q.
Proof. intros (s' & E & F & Ht & H) HQ. exists s'. split_and!; [done..|by apply HQ]. Qed.
Lemma frame_told m r s l :
  frame m r s (mkPool (broadcasts_ s) (managers s) (handlers s) (observers s) (nextObject s) l).
Proof. by repeat split. Qed.
Lemma steps_tell m r x s (Q : Pool -> Prop) :
  (forall l, Q (mkPool (broadcasts_ s) (managers s) (handlers s) (observers s) (nextObject s) l : Pool)) ->
  steps m r (tell x) s [x] Q.
Proof. intros H. eexists. split; [done|]. split; [apply frame_told|]. split; [done|]. apply H. Qed.

(** ** Data *)

Lemma streaming_told m r gm g subs s l :
  streaming m r gm g subs s ->
  streaming m r gm g subs (mkPool (broadcasts_ s) (managers s) (handlers s) (observers s) (nextObject s) l : Pool).
Proof. by intros [? ? ? ? ? ?]. Qed.

Definition staying (fails : nat -> bool) (subs : list (nat * nat)) : list (nat * nat) :=
  filter (fun it => fails it.2 = false) subs.

Lemma onNext_loop m r gm g fails x rest : forall kept s,
  stage m r gm g (kept ++ rest) s ->
  steps m r (for_each rest (fun it => onNext fails x it.2)) s
    ((fun o => OnNext o x) <$> rest.*2) (stage m r gm g (kept ++ staying fails rest)).
Proof.
  unfold staying. induction rest as [|[i o] rest IH]; intros kept s Hs; cbn [for_each].
  - by apply steps_ret.
  - assert (Hst : streaming m r gm g (kept ++ (i, o) :: rest) s) by (by destruct kept).
    assert (Ho : observers s !! o = Some (mkObserver r (Some m) i false)).
    { apply (st_subscribed _ _ _ _ _ _ Hst). set_solver. }
    change ((fun o => OnNext o x) <$> ((i, o) :: rest).*2) with ([OnNext o x] ++ ((fun o => OnNext (T:=T) o x) <$> rest.*2)).
    set (next := if fails o then kept else kept ++ [(i, o)]).
    eapply (steps_bind _ _ _ _ _ _ _ (stage m r gm g (next ++ rest))).
    + unfold onNext, steps. simpl. rewrite (bind_observer _ _ _ _ Ho) by done.
      eapply (steps_bind _ _ _ _ _ [_] [] (streaming m r gm g (kept ++ (i, o) :: rest))).
      { apply steps_tell. intros l. by apply streaming_told. }
      intros s' Hs'. subst next. destruct (fails o); cbn [when].
      * destruct (destroyObserver_stage m r gm g kept i o rest _ Hs') as (s2 & ? & ? & ? & ?).
        exists s2. rewrite app_nil_r. by split_and!.
      * apply steps_ret. rewrite <- app_assoc. apply streaming_stage; [by destruct kept|done].
    + intros s' Hs'. subst next. rewrite filter_cons. simpl. destruct (fails o); cbn; [by apply IH|].
      specialize (IH (kept ++ [(i, o)]) s'). rewrite <- !app_assoc in IH. apply IH. by rewrite app_assoc.
Qed.

(** ** The end *)

(** Some of the subscribers, which are still listed, were told the last thing
    and are gone. *)
Record ending (m : nat) (r : R) (gm g : nat) (subs rest : list (nat * nat)) s : Prop := {
  en_broadcast : broadcasts_ s !! r = Some m;
  en_manager : managers s !! m = Some (mkManager r true false Fulfilled gm false false);
  en_handler : exists n, handlers s !! m = Some (mkBroadcast subs n false true true g);
  en_nodup : NoDup rest.*2;
  en_subscribed i o : (i, o) ∈ rest -> observers s !! o = Some (mkObserver r (Some m) i false);
  en_all o y : observers s !! o = Some y -> o_routingData_ y = r -> deleted_ y = false -> o ∈ rest.*2
}.

Lemma streaming_ending m r gm g subs s : streaming m r gm g subs s -> ending m r gm g subs subs s.
Proof.
  intros Hs. pose proof (streaming_observers _ _ _ _ _ _ Hs). destruct Hs as [? ? (n & ? & _) ? ? ?].
  split; try done. by exists n.
Qed.

Lemma onLast_step m r gm g subs i o rest last s :
  ending m r gm g subs ((i, o) :: rest) s ->
  steps m r (onLast last o) s [last o] (ending m r gm g subs rest).
Proof.
  intros [Eb Em Eh [Hn Hnd]%NoDup_cons Hsub Hall].
  assert (Ho : observers s !! o = Some (mkObserver r (Some m) i false)) by (apply Hsub; set_solver).
  unfold onLast, steps. rewrite (bind_observer _ _ _ _ Ho) by done. cbn [o_routingData_ subscriptionId_].
  unfold tell. rewrite bind_modify, bind_modify. unfold destroyObserver.
  rewrite (bind_observer _ o (mkObserver r None i false)) by (done || apply lookup_insert_eq). simpl.
  rewrite bind_ret. eexists. split; [done|]. split; [|split; [done|]].
  - eapply frame_trans; [apply frame_told|]. eapply frame_trans; [apply (frame_setObserver _ _ o (mkObserver r (Some m) i false) (mkObserver r None i false)); [exact Ho|done..]|].
    eapply (frame_setObserver _ _ o (mkObserver r None i false)); [|done..]. apply lookup_insert_eq.
  - split; cbn; try done; rewrite !insert_insert_eq.
    + intros j o' Hj. assert (o' <> o) by (intros ->; apply Hn; by apply (list_elem_of_fmap_2 snd) in Hj).
      rewrite lookup_insert_ne by done. apply Hsub. by right.
    + intros o' y. destruct (decide (o' = o)) as [->|Hne]; [rewrite lookup_insert_eq; by intros [= <-]|].
      rewrite lookup_insert_ne by done. intros Hy Hr Hd. specialize (Hall o' y Hy Hr Hd). simpl in Hall. set_solver.
Qed.

Lemma onLast_loop m r gm g subs last rest : forall s,
  ending m r gm g subs rest s ->
  steps m r (for_each rest (fun it => onLast last it.2)) s (last <$> rest.*2) (ending m r gm g subs []).
Proof.
  induction rest as [|[i o] rest IH]; intros s Hs; cbn [for_each]; [by apply steps_ret|].
  change (last <$> ((i, o) :: rest).*2) with ([last o] ++ (last <$> rest.*2)).
  eapply steps_bind; [by eapply onLast_step|]. exact IH.
Qed.

(** No subscriber is left and none is attached: the broadcast closes. *)
Lemma closeIfIdle_closed m r gm g n p s :
  managers s !! m = Some (mkManager r true false p gm false false) -> broadcasts_ s !! r = Some m ->
  handlers s !! m = Some (mkBroadcast [] n false true true g) ->
  (forall o y, observers s !! o = Some y -> o_routingData_ y = r -> deleted_ y = true) ->
  steps m r (closeIfIdle m) s [] (closed m r gm g).
Proof.
  intros Em Eb Eh Hnone. unfold closeIfIdle, steps. rewrite (bind_handler _ _ _ _ Eh) by done. simpl.
  rewrite (closePipeline_idle _ _ _ _ _ _ _ Em Eb Eh). eexists. split; [done|]. rewrite app_nil_r.
  split; [destruct (gm =? 0); apply frame_setDead|]. split; [by destruct (gm =? 0)|]. split.
  - destruct (gm =? 0); simpl; apply lookup_delete_eq.
  - exists p. destruct (gm =? 0); simpl; by rewrite lookup_insert_eq.
  - exists n. destruct (gm =? 0); simpl; by rewrite lookup_insert_eq.
  - by destruct (gm =? 0).
Qed.

Lemma broadcastEnd_closes m r gm g subs last s :
  streaming m r gm g subs s ->
  steps m r (broadcastEnd m last) s (last <$> subs.*2) (closed m r gm g).
Proof.
  intros Hs%streaming_ending. pose proof Hs as [_ _ (n & Eh) _ _ _]. unfold broadcastEnd, forEachSubscriber, steps.
  rewrite bind_assoc, (bind_handler _ _ _ _ Eh) by done. rewrite <- (app_nil_r (last <$> _)).
  eapply steps_bind; [by eapply onLast_loop|]. cbn [subscribers_].
  intros s1 [Eb1 Em1 (n1 & Eh1) _ _ Hall]. unfold steps. rewrite (bind_handler _ _ _ _ Eh1) by done. rewrite bind_modify.
  set (s2 := setHandler m _ s1). assert (E2 : handlers s2 !! m = Some (mkBroadcast [] n1 false true true g)) by apply lookup_insert_eq.
  destruct (closeIfIdle_closed m r gm g n1 Fulfilled s2) as (s3 & E3 & F3 & T3 & H3); [done..| |].
  - intros o y Hy Hr. destruct (deleted_ y) eqn:Hd; [done|].
    specialize (Hall o y Hy Hr Hd). by apply elem_of_nil in Hall.
  - exists s3. split_and!; [done| |done..]. eapply frame_trans; [apply frame_setHandler|exact F3].
Qed.

(** ** A call from the upstream pipeline *)

Lemma inPipeline_stage m r subs subs' body out s :
  streaming m r 0 0 subs s ->
  (forall s1, streaming m r 0 1 subs s1 -> steps m r body s1 out (stage m r 0 1 subs')) ->
  steps m r (inPipeline m body) s out (stage m r 0 0 subs').
Proof.
  intros [Eb Em (n & Eh & Hn) Hnd Hsub Hall] Hbody. unfold inPipeline, steps.
  rewrite (bind_handler _ _ _ _ Eh) by done. rewrite bind_modify. simpl. set (s1 := setHandler m _ s).
  destruct (Hbody s1) as (s2 & E2 & F2 & T2 & H2).
  { split; try done. exists n. split; [apply lookup_insert_eq|done]. }
  rewrite (bind_Ok _ _ _ _ _ E2).
  assert (Eh2 : exists h, handlers s2 !! m = Some h /\ pipelineAlive h = true /\ subscribers_ h = subs' /\ p_guards h = 1 /\
    (subs' = [] -> owned h = false)).
  { destruct subs'; [destruct H2 as [_ _ (k & E) _]|destruct H2 as [_ _ (k & E & _) _ _ _]]; eexists; (split; [exact E|]); by split_and!. }
  destruct Eh2 as (h & Eh2 & Ha & Hs' & Hg & Ho). rewrite (bind_handler _ _ _ _ Eh2 Ha). unfold putHandler. rewrite bind_modify.
  assert (Enop : negb (pipelineAlive (withPGuards (p_guards h - 1) h)) && negb (length (subscribers_ (withPGuards (p_guards h - 1) h)) =? 0) = false).
  { simpl. rewrite Hs'. destruct subs'; [by rewrite andb_false_r|]. unfold pipelineAlive. simpl.
    destruct H2 as [_ _ (k & E & _) _ _ _]. by simplify_eq/=. }
  rewrite Enop. eexists. split; [done|]. split; [|split; [done|]].
  - eapply frame_trans; [apply frame_setHandler|]. eapply frame_trans; [exact F2|apply frame_setHandler].
  - destruct subs'.
    + destruct H2 as [? ? (k & E) ?]. split; try done. exists k. simpl in *. rewrite E in Eh2. simplify_eq/=. by rewrite lookup_insert_eq.
    + destruct H2 as [? ? (k & E & ?) ? ? ?]. split; try done. exists k. rewrite E in Eh2. simplify_eq/=. by rewrite lookup_insert_eq.
Qed.

Lemma upstreamData_steps m r subs fails x s :
  subs <> [] -> streaming m r 0 0 subs s ->
  steps m r (inPipeline m (broadcastRead m fails x)) s ((fun o => OnNext o x) <$> subs.*2)
    (stage m r 0 0 (staying fails subs)).
Proof.
  intros Hne Hs. apply (inPipeline_stage m r subs); [done|]. intros s1 Hs1. pose proof Hs1 as [_ _ (n & Eh & _) _ _ _].
  unfold broadcastRead, forEachSubscriber, steps. rewrite (bind_handler _ _ _ _ Eh) by done.
  apply (onNext_loop m r 0 1 fails x subs []). by apply streaming_stage.
Qed.

Lemma upstreamEnd_steps m r subs last s :
  streaming m r 0 0 subs s ->
  steps m r (inPipeline m (broadcastEnd m last)) s (last <$> subs.*2) (closed m r 0 0).
Proof. intros Hs. apply (inPipeline_stage m r subs []); [done|]. intros s1 Hs1. by eapply broadcastEnd_closes. Qed.

(** ** Subscribing those that waited *)

(** [subs] are subscribed, [ws] still wait; some of them may be gone. *)
Record joining (m : nat) (r : R) (gm g : nat) (subs : list (nat * nat)) (ws : list nat) s : Prop := {
  jn_broadcast : broadcasts_ s !! r = Some m;
  jn_manager : managers s !! m = Some (mkManager r true false Fulfilled gm false false);
  jn_handler : exists n, handlers s !! m = Some (mkBroadcast subs n false true true g) /\ forall i, i ∈ subs.*1 -> i < n;
  jn_nodup : NoDup subs.*1;
  jn_subscribed i o : (i, o) ∈ subs -> observers s !! o = Some (mkObserver r (Some m) i false);
  jn_waiting_nodup : NoDup ws;
  jn_waiting o : o ∈ ws -> exists i d, observers s !! o = Some (mkObserver r None i d);
  jn_all o y : observers s !! o = Some y -> o_routingData_ y = r -> deleted_ y = false -> o ∈ subs.*2 ++ ws
}.

Lemma joining_streaming m r gm g subs s : joining m r gm g subs [] s <-> streaming m r gm g subs s.
Proof.
  split.
  - intros [? ? ? ? ? _ _ Hall]. split; try done. intros o y Hy Hr Hd. specialize (Hall o y Hy Hr Hd). by rewrite app_nil_r in Hall.
  - intros [? ? ? ? ? Hall]. split; try done; [constructor|by intros o ?%elem_of_nil|].
    intros o y Hy Hr Hd. rewrite app_nil_r. by eapply Hall.
Qed.

Definition ifThere s (o : nat) : list nat := if isThere o s then [o] else [].

Lemma observerReady_step m r gm g subs o ws s :
  joining m r gm g subs (o :: ws) s ->
  steps m r (observerReady m o) s [] (fun s' => exists subs',
    joining m r gm g subs' ws s' /\ subs'.*2 = subs.*2 ++ ifThere s o /\ forall w, w <> o -> isThere w s' = isThere w s).
Proof.
  intros [Eb Em (n & Eh & Hlt) Hnd Hsub [Hn Hnd']%NoDup_cons Hw Hall].
  destruct (Hw o) as (i & d & Ho); [by left|]. 
  assert (Hif : ifThere s o = if d then [] else [o]) by (unfold ifThere, isThere; rewrite Ho; by destruct d).
  rewrite Hif. unfold observerReady, steps. rewrite bind_get, Ho. cbn [deleted_].
  destruct d; cbn [negb].
  - apply steps_ret. exists subs. split; [|split; [by rewrite app_nil_r|done]]. split; try done.
    + by exists n.
    + intros w ?. apply Hw. by right.
    + intros w y Hy Hr Hd. specialize (Hall w y Hy Hr Hd).
      assert (w <> o) by (intros ->; rewrite Ho in Hy; by injection Hy as <-).
      rewrite !elem_of_app, elem_of_cons in Hall. rewrite elem_of_app. tauto.
  - unfold subscribe. rewrite bind_assoc, (bind_handler _ _ _ _ Eh) by done. rewrite bind_assoc, bind_modify, bind_ret.
    cbn. eexists. split; [done|]. rewrite app_nil_r. split; [|split; [done|]].
    { eapply frame_trans; [apply frame_setHandler|]. by eapply (frame_setObserver _ _ o (mkObserver r None i false)). }
    exists (subs ++ [(n, o)]). split; [|split; [by rewrite fmap_app|]].
    2: { intros w Hwo. unfold isThere. simpl. by rewrite lookup_insert_ne. }
    assert (Hnew : forall j w, (j, w) ∈ subs -> w <> o) by (intros j w Hj ->; specialize (Hsub _ _ Hj); congruence).
    split; cbn; try done.
    + exists (S n). rewrite lookup_insert_eq. split; [done|]. intros j. rewrite fmap_app.
      intros [Hj|Hj]%elem_of_app; [specialize (Hlt j Hj); lia|].
      apply (list_elem_of_singleton j n) in Hj as ->. lia.
    + rewrite fmap_app. apply NoDup_app. split; [done|]. split; [|apply NoDup_singleton].
      intros j Hj Hj'. apply (list_elem_of_singleton j n) in Hj' as ->. specialize (Hlt _ Hj). lia.
    + intros j w [Hj|[= -> ->]%list_elem_of_singleton]%elem_of_app; [|apply lookup_insert_eq].
      rewrite lookup_insert_ne by (intros <-; by eapply Hnew). by apply Hsub.
    + intros w Hwin. rewrite lookup_insert_ne by (intros ->; done). apply Hw. by right.
    + intros w y. destruct (decide (w = o)) as [->|Hne]; [rewrite fmap_app; set_solver|]. rewrite lookup_insert_ne by done.
      intros Hy Hr Hd. specialize (Hall w y Hy Hr Hd). rewrite fmap_app. set_solver.
Qed.

Lemma observerReady_loop m r gm g ws : forall subs s,
  joining m r gm g subs ws s ->
  steps m r (for_each ws (observerReady m)) s [] (fun s' => exists subs',
    streaming m r gm g subs' s' /\ subs'.*2 = subs.*2 ++ filter (fun o => isThere o s) ws).
Proof.
  induction ws as [|o ws IH]; intros subs s Hs; cbn [for_each].
  - apply steps_ret. exists subs. rewrite app_nil_r. split; [by apply joining_streaming|done].
  - pose proof (jn_waiting_nodup _ _ _ _ _ _ _ Hs) as [Hn _]%NoDup_cons.
    eapply (steps_bind _ _ _ _ _ [] []); [by eapply observerReady_step|]. intros s1 (subs1 & H1 & E1 & Hsame).
    eapply steps_mono; [by apply IH|]. intros s2 (subs2 & H2 & E2). exists subs2. split; [done|].
    rewrite E2, E1, <- app_assoc. f_equal. rewrite filter_cons. unfold ifThere.
    assert (Ef : filter (fun o => isThere o s1) ws = filter (fun o => isThere o s) ws).
    { apply filter_same. intros w Hw. rewrite Hsame; [done|]. by intros ->. }
    rewrite Ef. by destruct (isThere o s).
Qed.
End broadcast.
