(* ===== verification/BroadcastConnect.v ===== *)
(** * Broadcasts: connecting

    An upstream connection that is made subscribes those that waited and are
    still there; one that fails, at whatever stage, closes them.  Both end in a
    state without pending objects. *)
From Stdlib Require Import Lia.
From stdpp Require Import base numbers list gmap strings.
From S2P Require Import Prelude Broadcast BroadcastFacts BroadcastSteps.
Open Scope cpp_scope.

Set Default Goal Selector "!".

Section broadcast.
Context {T R : Type} `{!EqDecision R, !Countable R}.
#[local] Abbreviation Pool := (Pool (T:=T) (R:=R)).
Implicit Types (s : Pool).

(** ** Stages around a connection *)

(** The observers [ws] wait for the connection; [extra] do not yet. *)
Record connecting (m : nat) (r : R) (ws extra : list nat) s : Prop := {
  cn_broadcast : broadcasts_ s !! r = Some m;
  cn_manager : managers s !! m = Some (mkManager r true false (Waiting ws) 0 false false);
  cn_handler : handlers s !! m = None;
  cn_nodup : NoDup (ws ++ extra);
  cn_waiting o : o ∈ ws ++ extra -> exists d, observers s !! o = Some (mkObserver r None 0 d);
  cn_all o y : observers s !! o = Some y -> o_routingData_ y = r -> deleted_ y = false -> o ∈ ws ++ extra
}.

(** Nothing is left of the broadcast but the observers [extra]. *)
Record over (m : nat) (r : R) (extra : list nat) s : Prop := {
  ov_broadcast : broadcasts_ s !! r = None;
  ov_manager x : managers s !! m = Some x -> m_dead x = true;
  ov_handler h : handlers s !! m = Some h -> pipelineAlive h = false;
  ov_extra o : o ∈ extra -> exists i d, observers s !! o = Some (mkObserver r None i d);
  ov_all o y : observers s !! o = Some y -> o_routingData_ y = r -> deleted_ y = false -> o ∈ extra
}.

Lemma closed_over m r s : closed m r 0 0 s -> over m r [] s.
Proof.
  intros [Hb (p & Hm) (n & Hh) Hnone]. split; try done.
  - intros x. rewrite Hm. by intros [= <-].
  - intros h. rewrite Hh. by intros [= <-].
  - by intros o ?%elem_of_nil.
  - intros o y Hy Hr Hd. by rewrite (Hnone o y Hy Hr) in Hd.
Qed.

(** ** Those that waited are closed *)

Definition unsubscribed (r : R) (ws : list nat) s : Prop :=
  forall o, o ∈ ws -> exists i d, observers s !! o = Some (mkObserver r None i d).

(** [s'] is [s] with the observers [ws] gone. *)
Definition without_observers (r : R) (ws : list nat) s s' : Prop :=
  (forall o, o ∈ ws -> exists i, observers s' !! o = Some (mkObserver r None i true)) /\
  (forall o, o ∉ ws -> observers s' !! o = observers s !! o).
Definition same_pool s s' : Prop :=
  broadcasts_ s' = broadcasts_ s /\ managers s' = managers s /\ handlers s' = handlers s.

Lemma observerFailed_step m r o i d s :
  observers s !! o = Some (mkObserver r None i d) ->
  steps m r (observerFailed o) s [] (fun s' => same_pool s s' /\ without_observers r [o] s s').
Proof.
  intros Ho. unfold observerFailed, steps. rewrite bind_get, Ho. destruct d; cbn [deleted_].
  - apply steps_ret. split; [done|]. split; [|done]. intros o' ->%list_elem_of_singleton. by exists i.
  - unfold destroyObserver. rewrite (bind_observer _ _ _ _ Ho) by done. simpl. rewrite bind_ret.
    apply steps_modify; [by eapply (frame_setObserver _ _ o (mkObserver r None i false))|done|].
    split; [done|]. split; simpl.
    + intros o' ->%list_elem_of_singleton. exists i. apply lookup_insert_eq.
    + intros o' Ho'. apply lookup_insert_ne. set_solver.
Qed.

Lemma observerFailed_loop m r ws : forall s,
  unsubscribed r ws s ->
  steps m r (for_each ws observerFailed) s [] (fun s' => same_pool s s' /\ without_observers r ws s s').
Proof.
  induction ws as [|o ws IH]; intros s Hw; cbn [for_each].
  - apply steps_ret. split; [done|]. split; [by intros o ?%elem_of_nil|done].
  - destruct (Hw o) as (i & d & Ho); [by left|].
    eapply (steps_bind _ _ _ _ _ [] []); [by eapply observerFailed_step|]. intros s1 [(E1 & E2 & E3) [W1 W2]].
    assert (Hw1 : unsubscribed r ws s1).
    { intros w Hwin. destruct (decide (w = o)) as [->|Hne].
      - destruct (W1 o) as [j Hj]; [by left|]. by exists j, true.
      - rewrite W2 by set_solver. apply Hw. by right. }
    eapply steps_mono; [by apply IH|]. intros s2 [(F1 & F2 & F3) [V1 V2]].
    split; [split_and!; congruence|]. split.
    + intros w Hwin. destruct (decide (w ∈ ws)); [by apply V1|]. rewrite V2 by done. apply W1. set_solver.
    + intros w Hwin. rewrite V2, W2; [done|set_solver..].
Qed.

(** ** A connection that fails *)

Lemma handleConnectError_running m r ws gm s :
  managers s !! m = Some (mkManager r true false (Waiting ws) gm false false) ->
  broadcasts_ s !! r = Some m -> (gm = 0 -> handlers s !! m = None) -> unsubscribed r ws s ->
  steps m r (handleConnectError m) s [] (fun s' =>
    broadcasts_ s' !! r = None /\ handlers s' = handlers s /\ without_observers r ws s s' /\
    managers s' !! m = Some (mkManager r true false Moved gm (negb (gm =? 0)) (gm =? 0))).
Proof.
  intros Em Eb Eh Hw. unfold handleConnectError, steps. rewrite (bind_manager _ _ _ _ Em) by done.
  rewrite bind_modify. simpl. set (s1 := setManager m _ s).
  set (s2 := setManager m (mkManager r true false Moved gm (negb (gm =? 0)) (gm =? 0)) (setBroadcasts (delete r (broadcasts_ s)) s)).
  assert (E : deleteBroadcast r s1 = (Ok tt, s2)).
  { unfold deleteBroadcast. rewrite bind_get. simpl. rewrite Eb, bind_modify. unfold destroyManager.
    rewrite (bind_manager _ m (mkManager r true false Moved gm false false)) by (done || apply lookup_insert_eq). simpl.
    destruct (Nat.eqb_spec gm 0) as [->|Hg].
    - unfold deleteManager. rewrite (bind_manager _ m (mkManager r true false Moved 0 false false)) by (done || apply lookup_insert_eq).
      rewrite bind_modify, bind_get. simpl. rewrite (Eh eq_refl). unfold ret, s2, setManager, setBroadcasts. simpl.
      by rewrite !insert_insert_eq.
    - unfold modify, s2, setManager, setBroadcasts. simpl. by rewrite !insert_insert_eq. }
  rewrite (bind_Ok _ _ _ _ _ E).
  assert (F2 : frame m r s s2).
  { split; [split|..]; simpl; try done; intros ? ?; [by rewrite lookup_insert_ne|by rewrite lookup_delete_ne]. }
  destruct (observerFailed_loop m r ws s2) as (s3 & E3 & F3 & T3 & (B3 & M3 & H3) & W3); [exact Hw|].
  exists s3. split; [done|]. split; [by eapply frame_trans|]. split; [by rewrite T3|]. rewrite B3, M3, H3. simpl.
  split_and!; [apply lookup_delete_eq|done|exact W3|apply lookup_insert_eq].
Qed.

(** The upstream's pipeline was closed before. *)
Lemma handleConnectError_deleted m r ws gm s :
  managers s !! m = Some (mkManager r true true (Waiting ws) gm true false) ->
  broadcasts_ s !! r = None -> unsubscribed r ws s ->
  steps m r (handleConnectError m) s [] (fun s' =>
    broadcasts_ s' !! r = None /\ handlers s' = handlers s /\ without_observers r ws s s' /\
    managers s' !! m = Some (mkManager r true true Moved gm true false)).
Proof.
  intros Em Eb Hw. unfold handleConnectError, steps. rewrite (bind_manager _ _ _ _ Em) by done.
  rewrite bind_modify. simpl. set (s1 := setManager m _ s). unfold deleteBroadcast. rewrite bind_assoc, bind_get. simpl.
  rewrite Eb, bind_ret.
  destruct (observerFailed_loop m r ws s1) as (s3 & E3 & F3 & T3 & (B3 & M3 & H3) & W3); [exact Hw|].
  exists s3. split; [done|]. split; [eapply frame_trans; [apply frame_setManager|done]|]. split; [by rewrite T3|].
  rewrite B3, M3, H3. split_and!; [done..|apply lookup_insert_eq].
Qed.

Lemma unguard_deletes m r d p n pd pm ow s :
  managers s !! m = Some (mkManager r true d p 1 true false) ->
  handlers s !! m = Some (mkBroadcast [] n pd pm ow 0) ->
  steps m r (unguardManager m) s [] (fun s' => broadcasts_ s' = broadcasts_ s /\ observers s' = observers s /\
    managers s' !! m = Some (mkManager r true d p 0 true true) /\
    handlers s' !! m = Some (mkBroadcast [] n pd false false 0)).
Proof.
  intros Em Eh. unfold unguardManager, steps. rewrite (bind_manager _ _ _ _ Em) by done. rewrite bind_modify. simpl.
  unfold deleteManager. rewrite (bind_manager _ m (mkManager r true d p 0 true false)) by (done || apply lookup_insert_eq).
  rewrite bind_modify, bind_get. simpl. rewrite Eh. unfold putHandler. rewrite bind_modify. simpl.
  eexists. split; [done|]. rewrite app_nil_r. split; [|split; [done|]].
  - eapply frame_trans; [apply frame_setManager|]. eapply frame_trans; [apply frame_setManager|]. apply frame_setHandler.
  - simpl. by rewrite !lookup_insert_eq.
Qed.

Lemma connecting_over m r ws extra s s' :
  connecting m r ws extra s -> without_observers r ws s s' -> broadcasts_ s' !! r = None ->
  (forall x, managers s' !! m = Some x -> m_dead x = true) ->
  (forall h, handlers s' !! m = Some h -> pipelineAlive h = false) -> over m r extra s'.
Proof.
  intros [_ _ _ Hnd Hw Hall] [W1 W2] Hb Hm Hh. apply NoDup_app in Hnd as (_ & Hdis & _). split; try done.
  - intros o Ho. rewrite W2 by (intros Hin; by apply (Hdis o Hin)). destruct (Hw o) as [d E]; [set_solver|]. by exists 0, d.
  - intros o y Hy Hr Hd. destruct (decide (o ∈ ws)) as [Hin|Hin].
    + destruct (W1 o Hin) as [i E]. rewrite E in Hy. by injection Hy as <-.
    + rewrite W2 in Hy by done. specialize (Hall o y Hy Hr Hd). set_solver.
Qed.
Lemma connecting_waiting m r ws extra s : connecting m r ws extra s -> unsubscribed r ws s.
Proof. intros Hc o Ho. destruct (cn_waiting _ _ _ _ _ Hc o) as [d E]; [set_solver|]. by exists 0, d. Qed.

(** What [connect] gave fails, in [setRoutingData] or after it. *)
Lemma connected_fails m r ws extra set s :
  connecting m r ws extra s -> set <> SetOk ->
  exists s', connectDone m (Connected set) s = (Ok Exception, s') /\ frame m r s s' /\ told s' = told s /\ over m r extra s'.
Proof.
  intros Hc Hset. pose proof Hc as [Eb Em Eh _ _ _]. pose proof (connecting_waiting _ _ _ _ _ Hc) as Hw.
  unfold connectDone, guardManager. rewrite bind_assoc, (bind_manager _ _ _ _ Em) by done. rewrite bind_modify.
  unfold withGuards. cbn [routingData_ connectStarted_ deletingBroadcast_ sharedPromise_ m_guards m_destroy m_dead].
  rewrite bind_modify. set (s1 := setHandler m _ _).
  assert (F1 : frame m r s s1) by (eapply frame_trans; [apply frame_setManager|apply frame_setHandler]).
  assert (Em1 : managers s1 !! m = Some (mkManager r true false (Waiting ws) 1 false false)) by apply lookup_insert_eq.
  assert (Eh1 : handlers s1 !! m = Some (mkBroadcast [] 0 false true true 0)) by apply lookup_insert_eq.
  assert (Hend : forall s2 d pd, frame m r s s2 -> told s2 = told s -> observers s2 = observers s -> handlers s2 !! m = Some (mkBroadcast [] 0 pd true true 0) ->
    steps m r (handleConnectError m) s2 [] (fun s' => broadcasts_ s' !! r = None /\ handlers s' = handlers s2 /\
      without_observers r ws s2 s' /\ managers s' !! m = Some (mkManager r true d Moved 1 true false)) ->
    exists s', bind (handleConnectError m) (fun _ => do! unguardManager m in ret Exception) s2 = (Ok Exception, s') /\
      frame m r s s' /\ told s' = told s /\ over m r extra s').
  { intros s2 d pd F2 T2 O2 E2 (s3 & E3 & F3 & T3 & B3 & H3 & W3 & M3). rewrite (bind_Ok _ _ _ _ _ E3).
    rewrite <- H3 in E2.
    destruct (unguard_deletes m r d Moved 0 pd true true s3 M3 E2) as (s4 & E4 & F4 & T4 & B4 & O4 & M4 & H4).
    rewrite (bind_Ok _ _ _ _ _ E4). exists s4. split; [done|]. split; [|split].
    - eapply frame_trans; [exact F2|]. by eapply frame_trans.
    - by rewrite T4, T3, T2, !app_nil_r.
    - apply (connecting_over m r ws extra s); [done|unfold without_observers in *; by rewrite O4, <- O2|by rewrite B4|..].
      + intros x. rewrite M4. by intros [= <-].
      + intros h. rewrite H4. by intros [= <-]. }
  destruct set; [done|..].
  - apply (Hend s1 false false); [done..|]. by apply (handleConnectError_running m r ws 1 s1).
  - cbn [when]. rewrite (bind_Ok _ _ _ _ _ (closePipeline_idle s1 m r 0 0 (Waiting ws) 1 Em1 Eb Eh1)). simpl.
    rewrite (bind_manager _ m (mkManager r true true (Waiting ws) 1 true false)) by (done || apply lookup_insert_eq). cbn [deletingBroadcast_].
    apply (Hend (setDead r m (mkManager r true true (Waiting ws) 1 true false) (mkBroadcast [] 0 true true true 0) s1) true true); [by eapply frame_trans; [exact F1|apply frame_setDead]|done..|apply lookup_insert_eq|].
    apply handleConnectError_deleted; [apply lookup_insert_eq|apply lookup_delete_eq|exact Hw].
Qed.

Lemma connectDone_fails m r ws extra c s :
  connecting m r ws extra s -> c <> Connected SetOk ->
  exists s', connectDone m c s = (Ok Exception, s') /\ frame m r s s' /\ told s' = told s /\ over m r extra s'.
Proof.
  intros Hc Hne. destruct c as [|set]; [|apply (connected_fails m r ws); [done|congruence]].
  pose proof Hc as [Eb Em Eh _ _ _]. pose proof (connecting_waiting _ _ _ _ _ Hc) as Hw.
  destruct (handleConnectError_running m r ws 0 s) as (s1 & E1 & F1 & T1 & B1 & H1 & W1 & M1); [done..|].
  unfold connectDone. rewrite (bind_Ok _ _ _ _ _ E1). exists s1. split; [done|]. split; [done|].
  split; [by rewrite T1, app_nil_r|]. apply (connecting_over m r ws extra s); [done..| |].
  - intros x. rewrite M1. by intros [= <-].
  - intros h. by rewrite H1, Eh.
Qed.

(** ** A connection that is made *)

Lemma unguard_streaming m r subs s :
  streaming m r 1 0 subs s -> steps m r (unguardManager m) s [] (streaming m r 0 0 subs).
Proof.
  intros [Eb Em Eh Hnd Hsub Hall]. unfold unguardManager, steps. rewrite (bind_manager _ _ _ _ Em) by done. rewrite bind_modify. simpl.
  eexists. split; [done|]. rewrite app_nil_r. split; [apply frame_setManager|]. split; [done|]. split; try done. apply lookup_insert_eq.
Qed.
Lemma unguard_closed m r s : closed m r 1 0 s -> steps m r (unguardManager m) s [] (over m r []).
Proof.
  intros [Hb (p & Em) (n & Eh) Hnone]. simpl in Em, Eh. eapply steps_mono; [by eapply unguard_deletes|].
  intros s' (B & O & M' & H'). split.
  - by rewrite B.
  - intros x. rewrite M'. by intros [= <-].
  - intros h. rewrite H'. by intros [= <-].
  - by intros o ?%elem_of_nil.
  - intros o y. rewrite O. intros Hy Hr Hd. by rewrite (Hnone o y Hy Hr) in Hd.
Qed.

Lemma connectDone_succeeds m r ws s :
  connecting m r ws [] s ->
  exists s' subs, connectDone m (Connected SetOk) s = (Ok (Value m), s') /\ frame m r s s' /\ told s' = told s /\
    subs.*2 = filter (fun o => isThere o s) ws /\
    (if subs is [] then over m r [] s' else streaming m r 0 0 subs s').
Proof.
  intros [Eb Em Eh Hnd Hw Hall]. rewrite app_nil_r in *.
  unfold connectDone, guardManager. rewrite bind_assoc, (bind_manager _ _ _ _ Em) by done. rewrite bind_modify.
  unfold withGuards. cbn [routingData_ connectStarted_ deletingBroadcast_ sharedPromise_ m_guards m_destroy m_dead].
  rewrite bind_modify. cbn [when]. rewrite bind_ret. set (s1 := setHandler m _ _).
  assert (F1 : frame m r s s1) by (eapply frame_trans; [apply frame_setManager|apply frame_setHandler]).
  rewrite (bind_manager _ m (mkManager r true false (Waiting ws) 1 false false)) by (done || apply lookup_insert_eq).
  cbn [deletingBroadcast_]. rewrite bind_modify. set (s2 := setManager m _ s1).
  assert (Hj : joining m r 1 0 [] ws s2).
  { split; simpl; try done.
    - apply lookup_insert_eq.
    - exists 0. rewrite lookup_insert_eq. split; [done|]. by intros i ?%elem_of_nil.
    - constructor.
    - by intros i o ?%elem_of_nil.
    - intros o Ho. destruct (Hw o Ho) as [d E]. by exists 0, d. }
  destruct (observerReady_loop m r 1 0 ws [] s2 Hj) as (s3 & E3 & F3 & T3 & subs & Hs3 & Esubs).
  cbn [sharedPromise_ waitersOf]. rewrite (bind_Ok _ _ _ _ _ E3).
  assert (Hi : steps m r (closeIfIdle m) s3 [] (if subs is [] then closed m r 1 0 else streaming m r 1 0 subs)).
  { pose proof Hs3 as [Eb3 Em3 (n & Eh3 & _) _ _ Hall3]. destruct subs as [|q subs].
    - eapply closeIfIdle_closed; [done..|]. intros o y Hy Hr. destruct (deleted_ y) eqn:Hd; [done|].
      specialize (Hall3 o y Hy Hr Hd). by apply elem_of_nil in Hall3.
    - unfold closeIfIdle, steps. rewrite (bind_handler _ _ _ _ Eh3) by done. by apply steps_ret. }
  destruct Hi as (s4 & E4 & F4 & T4 & Hs4). rewrite (bind_Ok _ _ _ _ _ E4).
  assert (Hu : steps m r (unguardManager m) s4 [] (if subs is [] then over m r [] else streaming m r 0 0 subs)).
  { destruct subs; [by apply unguard_closed|by apply unguard_streaming]. }
  destruct Hu as (s5 & E5 & F5 & T5 & Hs5). rewrite (bind_Ok _ _ _ _ _ E5).
  exists s5, subs. split; [done|]. split_and!.
  - eapply frame_trans; [exact F1|]. eapply frame_trans; [apply frame_setManager|]. eapply frame_trans; [exact F3|].
    by eapply frame_trans.
  - by rewrite T5, T4, T3, !app_nil_r.
  - exact Esubs.
  - by destruct subs.
Qed.

(** When nobody waits the broadcast is destroyed on the spot, and its handler
    with it. *)
Lemma connectDone_alone m r extra s :
  connecting m r [] extra s ->
  exists s', connectDone m (Connected SetOk) s = (Ok (Value m), s') /\ observers s' = observers s /\
    exists h, handlers s' !! m = Some h /\ pipelineAlive h = false.
Proof.
  intros [Eb Em Eh _ _ _]. unfold connectDone, guardManager. rewrite bind_assoc, (bind_manager _ _ _ _ Em) by done. rewrite bind_modify.
  unfold withGuards. cbn [routingData_ connectStarted_ deletingBroadcast_ sharedPromise_ m_guards m_destroy m_dead].
  rewrite bind_modify. cbn [when]. rewrite bind_ret. set (s1 := setHandler m _ _).
  rewrite (bind_manager _ m (mkManager r true false (Waiting []) 1 false false)) by (done || apply lookup_insert_eq).
  cbn [deletingBroadcast_]. rewrite bind_modify. cbn [sharedPromise_ waitersOf for_each]. rewrite bind_ret. set (s2 := setManager m _ s1).
  assert (E2 : handlers s2 !! m = Some (mkBroadcast [] 0 false true true 0)) by apply lookup_insert_eq.
  unfold closeIfIdle. rewrite bind_assoc, (bind_handler _ _ _ _ E2) by done. cbn [subscribers_ length Nat.eqb when].
  rewrite (bind_Ok _ _ _ _ _ (closePipeline_idle s2 m r 0 0 Fulfilled 1 (lookup_insert_eq _ _ _) Eb E2)). cbn [Nat.eqb].
  destruct (unguard_deletes m r true Fulfilled 0 true true true (setDead r m (mkManager r true true Fulfilled 1 true false)
    (mkBroadcast [] 0 true true true 0) s2)) as (s3 & E3 & _ & _ & _ & O3 & _ & H3); [apply lookup_insert_eq..|].
  rewrite (bind_Ok _ _ _ _ _ E3). exists s3. split; [done|]. split; [by rewrite O3|]. by eexists.
Qed.
End broadcast.
