(* ===== verification/BroadcastProps.v ===== *)
(** * Broadcasts: the pool refines a map of subscriber lists

    The specification knows, for each routing data, whether its upstream is
    being connected or streams, and the observers it is for, in the order in
    which they came.  The pool, with its managers, guards, promises and
    subscription ids, implements it ([rep], [pool_refines]).  They agree
    up to a connection that succeeds before [connect] returns: there the code
    uses a destroyed object, as a concrete run shows ([connect_at_once_dangles]). *)
From Stdlib Require Import Lia.
From stdpp Require Import base numbers list gmap strings.
From S2P Require Import Prelude Broadcast BroadcastFacts BroadcastSteps BroadcastConnect.
Open Scope cpp_scope.

Set Default Goal Selector "!".

Section broadcast.
Context {T R : Type} `{!EqDecision R, !Countable R}.
#[local] Abbreviation Pool := (Pool (T:=T) (R:=R)).
#[local] Abbreviation PoolEvent := (PoolEvent (T:=T) (R:=R)).
Implicit Types (s : Pool) (ev : PoolEvent).

(** ** The specification *)

Inductive Entry : Type :=
| Connecting (l : list nat)
| Streaming (l : list nat).
Definition members (e : Entry) : list nat := match e with Connecting l | Streaming l => l end.

Record Spec : Type := mkSpec {
  entries : gmap R (nat * Entry);
  next : nat
}.
Definition update (r : R) (e : option (nat * Entry)) (a : gmap R (nat * Entry)) : gmap R (nat * Entry) :=
  partial_alter (fun _ => e) r a.

Definition join (o : nat) (e : Entry) : Entry :=
  match e with Connecting l => Connecting (l ++ [o]) | Streaming l => Streaming (l ++ [o]) end.
(** A broadcast that streams to nobody is gone. *)
Definition streamingTo (m : nat) (l : list nat) : option (nat * Entry) :=
  if l is [] then None else Some (m, Streaming l).
Definition leave (m o : nat) (e : Entry) : option (nat * Entry) :=
  match e with
  | Connecting l => Some (m, Connecting (filter (fun p => p <> o) l))
  | Streaming l => streamingTo m (filter (fun p => p <> o) l)
  end.

(** Events of something that is not, or no longer, there. *)
Definition ignored (a : gmap R (nat * Entry)) ev : Prop :=
  match ev with
  | NewObserver _ _ => False
  | ConnectDone m _ => forall r l, a !! r <> Some (m, Connecting l)
  | UpstreamData m _ _ | UpstreamEOF m | UpstreamError m => forall r l, a !! r <> Some (m, Streaming l)
  | CloseObserver o => forall r m e, a !! r = Some (m, e) -> o ∉ members e
  end.

Inductive specStep (a : gmap R (nat * Entry)) (n : nat) : PoolEvent -> list Told -> gmap R (nat * Entry) -> nat -> Prop :=
| S_first r : a !! r = None ->
    specStep a n (NewObserver r None) [] (update r (Some (S n, Connecting [n])) a) (S (S n))
| S_refused r c : a !! r = None -> c <> Connected SetOk ->
    specStep a n (NewObserver r (Some c)) [] a (S (S n))
| S_join r m e now : a !! r = Some (m, e) ->
    specStep a n (NewObserver r now) [] (update r (Some (m, join n e)) a) (S n)
| S_connected m r l : a !! r = Some (m, Connecting l) ->
    specStep a n (ConnectDone m (Connected SetOk)) [] (update r (streamingTo m l) a) n
| S_failed m r l c : a !! r = Some (m, Connecting l) -> c <> Connected SetOk ->
    specStep a n (ConnectDone m c) [] (update r None a) n
| S_data m r l fails x : a !! r = Some (m, Streaming l) ->
    specStep a n (UpstreamData m fails x) ((fun o => OnNext o x) <$> l)
      (update r (streamingTo m (filter (fun o => fails o = false) l)) a) n
| S_eof m r l : a !! r = Some (m, Streaming l) ->
    specStep a n (UpstreamEOF m) (OnCompleted <$> l) (update r None a) n
| S_error m r l : a !! r = Some (m, Streaming l) ->
    specStep a n (UpstreamError m) (OnError <$> l) (update r None a) n
| S_close o r m e : a !! r = Some (m, e) -> o ∈ members e ->
    specStep a n (CloseObserver o) [] (update r (leave m o e) a) n
| S_ignored ev : ignored a ev -> specStep a n ev [] a n.
Inductive specRun (a : gmap R (nat * Entry)) (n : nat) : list PoolEvent -> list Told -> gmap R (nat * Entry) -> nat -> Prop :=
| R_nil : specRun a n [] [] a n
| R_cons ev evs out a' n' outs a'' n'' :
    specStep a n ev out a' n' -> specRun a' n' evs outs a'' n'' ->
    specRun a n (ev :: evs) (out ++ outs) a'' n''.

(** ** How the pool represents it *)

Definition entry_rep (r : R) (e : option (nat * Entry)) s : Prop :=
  match e with
  | None => broadcasts_ s !! r = None /\
      forall o y, observers s !! o = Some y -> o_routingData_ y = r -> deleted_ y = true
  | Some (m, Connecting l) => exists ws, connecting m r ws [] s /\ l = filter (fun o => isThere o s) ws
  | Some (m, Streaming l) => exists subs, streaming m r 0 0 subs s /\ l = subs.*2 /\ l <> []
  end.
Definition retired (m : nat) s : Prop :=
  (forall x, managers s !! m = Some x -> m_dead x = true) /\
  (forall h, handlers s !! m = Some h -> pipelineAlive h = false).
Definition fresh s : Prop := forall k, nextObject s <= k ->
  managers s !! k = None /\ handlers s !! k = None /\ observers s !! k = None.

Record rep (a : gmap R (nat * Entry)) s : Prop := {
  rp_entry r : entry_rep r (a !! r) s;
  rp_retired m : (forall r e, a !! r <> Some (m, e)) -> retired m s;
  rp_fresh : fresh s
}.

Lemma entry_manager r m e s : entry_rep r (Some (m, e)) s ->
  exists p, managers s !! m = Some (mkManager r true false p 0 false false).
Proof. destruct e; [intros (ws & [_ Em _ _ _ _] & _)|intros (subs & [_ Em _ _ _ _] & _)]; eauto. Qed.
Lemma entry_broadcast r m e s : entry_rep r (Some (m, e)) s -> broadcasts_ s !! r = Some m.
Proof. destruct e; [intros (ws & [Eb _ _ _ _ _] & _)|intros (subs & [Eb _ _ _ _ _] & _)]; done. Qed.

Lemma rep_owner a s r r' m e e' :
  rep a s -> a !! r = Some (m, e) -> a !! r' = Some (m, e') -> r = r'.
Proof.
  intros Hr E E'. pose proof (rp_entry _ _ Hr r) as H. pose proof (rp_entry _ _ Hr r') as H'.
  rewrite E in H. rewrite E' in H'. apply entry_manager in H as [p H]. apply entry_manager in H' as [p' H']. congruence.
Qed.

Lemma others_observer m r s s' r' o : others m r s s' -> r' <> r ->
  forall y, o_routingData_ y = r' -> (observers s' !! o = Some y <-> observers s !! o = Some y).
Proof. intros F Hr y Hy. apply (f_observers _ _ _ _ F). congruence. Qed.

Lemma entry_rep_others m r s s' r' e :
  others m r s s' -> r' <> r -> (forall m' e', e = Some (m', e') -> m' <> m) ->
  entry_rep r' e s -> entry_rep r' e s'.
Proof.
  intros F Hr Hm. pose proof (fun o => others_observer m r s s' r' o F Hr) as Ho. destruct F as [Fm Fh Fb _].
  destruct e as [[m' [l|l]]|].
  - assert (m' <> m) by (by eapply Hm). intros (ws & [Eb Em Eh Hnd Hw Hall] & ->). exists ws. split.
    + split; rewrite ?Fb, ?Fm, ?Fh by done; try done.
      * intros o Hin. destruct (Hw o Hin) as [d E]. exists d. by apply Ho.
      * intros o y Hy Hry. apply Ho in Hy; [|done]. by eapply Hall.
    + apply filter_same. intros o Hin. rewrite app_nil_r in Hw. destruct (Hw o Hin) as [d E]. unfold isThere.
      rewrite E. apply Ho in E; [|done]. by rewrite E.
  - assert (m' <> m) by (by eapply Hm). intros (subs & [Eb Em (n & Eh & Hn) Hnd Hsub Hall] & Hl). exists subs. split; [|done].
    split; rewrite ?Fb, ?Fm, ?Fh by done; try done.
    + by exists n.
    + intros i o Hin. apply Ho; [done|]. by apply Hsub.
    + intros o y Hy Hry. apply Ho in Hy; [|done]. by eapply Hall.
  - intros [Eb Hnone]. split; [by rewrite Fb|]. intros o y Hy Hry. apply Ho in Hy; [|done]. by eapply Hnone.
Qed.

(** A step of the broadcast [m] of [r] changes the entry of [r]. *)
Lemma rep_step a s s' m r e :
  rep a s -> others m r s s' -> fresh s' ->
  (forall r' e', r' <> r -> a !! r' <> Some (m, e')) ->
  (forall m' e', a !! r = Some (m', e') -> m' = m) ->
  (forall m' e', e = Some (m', e') -> m' = m) ->
  entry_rep r e s' -> (e = None -> retired m s') -> rep (update r e a) s'.
Proof.
  intros Hrep F Hf H1 H2 H3 He Hret. unfold update. split; [|..|done].
  - intros r'. destruct (decide (r' = r)) as [->|Hne]; [by rewrite lookup_partial_alter_eq|].
    rewrite lookup_partial_alter_ne by done. eapply entry_rep_others; [done..| |apply (rp_entry _ _ Hrep)].
    intros m' e' E ->. by apply (H1 r' e').
  - intros m' Hm'. destruct (decide (m' = m)) as [->|Hne].
    + destruct e as [[m' e]|]; [|by apply Hret]. specialize (H3 _ _ eq_refl) as ->. exfalso.
      apply (Hm' r e). by rewrite lookup_partial_alter_eq.
    + destruct (rp_retired _ _ Hrep m') as [A B].
      * intros r' e' E. destruct (decide (r' = r)) as [->|Hr]; [by specialize (H2 _ _ E)|].
        apply (Hm' r' e'). by rewrite lookup_partial_alter_ne.
      * destruct F as [Fm Fh _ _]. split; [rewrite Fm by done; exact A|rewrite Fh by done; exact B].
Qed.

Lemma fresh_frame m r s s' : frame m r s s' -> fresh s -> is_Some (managers s !! m) -> fresh s'.
Proof.
  intros [[Fm Fh _ _] Fn Ff] Hf [x Hx] k Hk. rewrite Fn in Hk. destruct (Hf k Hk) as (A & B & C).
  assert (k <> m) by congruence. rewrite Fm, Fh by done. split_and!; [done..|by apply Ff].
Qed.

Lemma rep_frame a s s' m r e0 e :
  rep a s -> a !! r = Some (m, e0) -> frame m r s s' ->
  (forall m' e', e = Some (m', e') -> m' = m) ->
  entry_rep r e s' -> (e = None -> retired m s') -> rep (update r e a) s'.
Proof.
  intros Hrep E F H3 He Hret. apply (rep_step a s s' m r e); try done.
  - apply F.
  - pose proof (rp_entry _ _ Hrep r) as H. rewrite E in H. apply entry_manager in H as [p H].
    eapply fresh_frame; [done|apply (rp_fresh _ _ Hrep)|by eauto].
  - intros r' e' Hr E'. apply Hr. by eapply rep_owner.
  - intros m' e' E'. congruence.
Qed.

(** ** The events of a broadcast *)

Definition implements (a : gmap R (nat * Entry)) ev s : Prop :=
  exists s' a' out, poolEvent ev s = (Ok tt, s') /\
    specStep a (nextObject s) ev out a' (nextObject s') /\ told s' = told s ++ out /\ rep a' s'.

Lemma over_rep m r s : over m r [] s -> entry_rep r None s /\ retired m s.
Proof.
  intros [Hb Hm Hh _ Hall]. split; [|done]. split; [done|]. intros o y Hy Hr.
  destruct (deleted_ y) eqn:Hd; [done|]. specialize (Hall o y Hy Hr Hd). by apply elem_of_nil in Hall.
Qed.
Lemma stage_rep m r subs s : stage m r 0 0 subs s ->
  entry_rep r (streamingTo m subs.*2) s /\ (streamingTo m subs.*2 = None -> retired m s).
Proof.
  destruct subs as [|q subs]; simpl.
  - intros H%closed_over%over_rep. by destruct H.
  - intros H. split; [|done]. by exists (q :: subs).
Qed.
Lemma streamingTo_owner m l m' e : streamingTo m l = Some (m', e) -> m' = m.
Proof. destruct l; [done|]. by intros [= <- _]. Qed.

Lemma entry_of (a : gmap R (nat * Entry)) m :
  (exists r e, a !! r = Some (m, e)) \/ (forall r e, a !! r <> Some (m, e)).
Proof.
  destruct (decide (map_Exists (fun _ p => p.1 = m) a)) as [(r & [m' e] & E & <-)|H]; [left; eauto|].
  right. intros r e E. apply H. by exists r, (m, e).
Qed.

Lemma isConnecting_entry a m s : rep a s -> isConnecting m s = true -> exists r l, a !! r = Some (m, Connecting l).
Proof.
  intros Hrep. unfold isConnecting. destruct (managers s !! m) as [x|] eqn:Em; [|done]. intros Hc.
  destruct (entry_of a m) as [(r & [l|l] & E)|Hn]; [by exists r, l| |].
  - pose proof (rp_entry _ _ Hrep r) as H. rewrite E in H. destruct H as (subs & [_ Em' _ _ _ _] & _).
    rewrite Em' in Em. by injection Em as <-.
  - destruct (rp_retired _ _ Hrep m Hn) as [H _]. by rewrite (H x Em) in Hc.
Qed.
Lemma isOpen_entry a m s : rep a s -> isOpen m s = true -> exists r l, a !! r = Some (m, Streaming l).
Proof.
  intros Hrep. unfold isOpen. destruct (handlers s !! m) as [h|] eqn:Eh; [|done]. intros Ho.
  destruct (entry_of a m) as [(r & [l|l] & E)|Hn]; [|by exists r, l|].
  - pose proof (rp_entry _ _ Hrep r) as H. rewrite E in H. destruct H as (ws & [_ _ Eh' _ _ _] & _). congruence.
  - destruct (rp_retired _ _ Hrep m Hn) as [_ H]. by rewrite (H h Eh) in Ho.
Qed.
Lemma isOpen_alive a m h s : rep a s -> handlers s !! m = Some h -> pipelineAlive h = true ->
  exists r subs n, streaming m r 0 0 subs s /\ subs <> [] /\ h = mkBroadcast subs n false true true 0.
Proof.
  intros Hrep Eh Ha. destruct (entry_of a m) as [(r & [l|l] & E)|Hn].
  - pose proof (rp_entry _ _ Hrep r) as H. rewrite E in H. destruct H as (ws & [_ _ Eh' _ _ _] & _). congruence.
  - pose proof (rp_entry _ _ Hrep r) as H. rewrite E in H. destruct H as (subs & Hs & -> & Hne).
    pose proof Hs as [_ _ (n & Eh' & _) _ _ _]. exists r, subs, n. split_and!; [done|by intros ->|congruence].
  - destruct (rp_retired _ _ Hrep m Hn) as [_ H]. by rewrite (H h Eh) in Ha.
Qed.
Lemma isThere_entry a o s : rep a s ->
  isThere o s = true <-> exists r m e, a !! r = Some (m, e) /\ o ∈ members e.
Proof.
  intros Hrep. split.
  - intros Ho. pose proof Ho as Ht. unfold isThere in Ho. destruct (observers s !! o) as [y|] eqn:Ey; [|done].
    destruct (deleted_ y) eqn:Hd; [done|]. set (r := o_routingData_ y). pose proof (rp_entry _ _ Hrep r) as H.
    destruct (a !! r) as [[m [l|l]]|] eqn:E.
    + destruct H as (ws & Hc & ->). exists r, m, (Connecting (filter (fun o => isThere o s) ws)). split; [done|]. simpl.
      apply list_elem_of_filter. split; [by rewrite Ht|]. rewrite <- (app_nil_r ws). by eapply (cn_all _ _ _ _ _ Hc).
    + destruct H as (subs & Hs & -> & _). exists r, m, (Streaming subs.*2). split; [done|]. by eapply (st_all _ _ _ _ _ _ Hs).
    + destruct H as [_ H]. by rewrite (H o y Ey) in Hd.
  - intros (r & m & e & E & Hin). pose proof (rp_entry _ _ Hrep r) as H. rewrite E in H. destruct e as [l|l]; simpl in Hin.
    + destruct H as (ws & _ & ->). apply list_elem_of_filter in Hin as [Ht _]. by destruct (isThere o s).
    + destruct H as (subs & Hs & -> & _). apply list_elem_of_fmap in Hin as ([i o'] & -> & Hin).
      cbn [snd]. unfold isThere. by rewrite (st_subscribed _ _ _ _ _ _ Hs i o' Hin).
Qed.

Lemma entry_connecting a m r l s : rep a s -> a !! r = Some (m, Connecting l) ->
  exists ws, connecting m r ws [] s /\ l = filter (fun o => isThere o s) ws.
Proof. intros Hrep E. pose proof (rp_entry _ _ Hrep r) as H. by rewrite E in H. Qed.
Lemma entry_streaming a m r l s : rep a s -> a !! r = Some (m, Streaming l) ->
  exists subs, streaming m r 0 0 subs s /\ l = subs.*2 /\ l <> [].
Proof. intros Hrep E. pose proof (rp_entry _ _ Hrep r) as H. by rewrite E in H. Qed.
Lemma streaming_open m r subs s : streaming m r 0 0 subs s -> isOpen m s = true.
Proof. intros [_ _ (n & Eh & _) _ _ _]. unfold isOpen. by rewrite Eh. Qed.

(** From a step within the broadcast [m] of [r]. *)
Lemma implements_steps a m r e0 e ev out c s (Q : Pool -> Prop) :
  rep a s -> a !! r = Some (m, e0) ->
  steps m r c s out Q -> poolEvent ev s = c s ->
  (forall n, specStep a n ev out (update r e a) n) ->
  (forall m' e', e = Some (m', e') -> m' = m) ->
  (forall s', Q s' -> entry_rep r e s' /\ (e = None -> retired m s')) -> implements a ev s.
Proof.
  intros Hrep E (s' & Ec & F & Ht & HQ) Eev Hspec Hm He. destruct (He s' HQ) as [H1 H2].
  exists s', (update r e a), out. split; [congruence|]. split; [rewrite (f_next _ _ _ _ F); apply Hspec|].
  split; [done|]. by eapply rep_frame.
Qed.

Lemma implements_data a m r l fails x s :
  rep a s -> a !! r = Some (m, Streaming l) -> implements a (UpstreamData m fails x) s.
Proof.
  intros Hrep E. destruct (entry_streaming a m r l s Hrep E) as (subs & Hs & -> & Hne).
  assert (Hf : filter (fun o => fails o = false) subs.*2 = (staying fails subs).*2).
  { unfold staying. clear. induction subs as [|[i o] subs IH]; [done|]. rewrite fmap_cons, !filter_cons. simpl.
    case_decide; [rewrite fmap_cons|]; by rewrite IH. }
  eapply (implements_steps a m r _ (streamingTo m (staying fails subs).*2)); [done..| | | | |].
  - apply (upstreamData_steps m r subs fails x s); [by intros ->|done].
  - unfold poolEvent. by rewrite bind_get, (streaming_open _ _ _ _ Hs).
  - intros n. rewrite <- Hf. by apply S_data.
  - apply streamingTo_owner.
  - apply stage_rep.
Qed.

Lemma implements_end a m r l (last : nat -> Told) ev s :
  rep a s -> a !! r = Some (m, Streaming l) ->
  (isOpen m s = true -> poolEvent ev s = inPipeline m (broadcastEnd m last) s) ->
  (forall n, specStep a n ev (last <$> l) (update r None a) n) -> implements a ev s.
Proof.
  intros Hrep E Hev Hspec. destruct (entry_streaming a m r l s Hrep E) as (subs & Hs & -> & Hne).
  eapply (implements_steps a m r _ None); [done..|by apply upstreamEnd_steps|by eapply Hev, streaming_open|done|done|].
  intros s' H%closed_over%over_rep. by destruct H.
Qed.

Lemma implements_connected a m r l c s :
  rep a s -> a !! r = Some (m, Connecting l) -> implements a (ConnectDone m c) s.
Proof.
  intros Hrep E. destruct (entry_connecting a m r l s Hrep E) as (ws & Hc & ->).
  assert (Hg : isConnecting m s = true) by (unfold isConnecting; by rewrite (cn_manager _ _ _ _ _ Hc)).
  destruct (decide (c = Connected SetOk)) as [->|Hne].
  - destruct (connectDone_succeeds m r ws s Hc) as (s' & subs & Ec & F & Ht & Hl & Hs').
    eapply (implements_steps a m r _ (streamingTo m (filter (fun o => isThere o s) ws)) _ []
      (do! connectDone m (Connected SetOk) in ret tt) s (if subs is [] then over m r [] else streaming m r 0 0 subs));
      [done..| | | | |].
    + exists s'. rewrite (bind_Ok _ _ _ _ _ Ec), app_nil_r. split_and!; [done..|]. by destruct subs.
    + unfold poolEvent. by rewrite bind_get, Hg.
    + intros n. by apply S_connected.
    + apply streamingTo_owner.
    + rewrite <- Hl. intros s2. destruct subs as [|q subs]; [intros H%over_rep; by destruct H|].
      intros H. by apply (stage_rep m r (q :: subs)).
  - destruct (connectDone_fails m r ws [] c s Hc Hne) as (s' & Ec & F & Ht & Hs').
    eapply (implements_steps a m r _ None _ [] (do! connectDone m c in ret tt) s (over m r [])); [done..| | | | |].
    + exists s'. by rewrite (bind_Ok _ _ _ _ _ Ec), app_nil_r.
    + unfold poolEvent. by rewrite bind_get, Hg.
    + intros n. by eapply S_failed.
    + done.
    + intros s2 H%over_rep. by destruct H.
Qed.

Lemma filter_remove (l : list nat) pre i o (post : list (nat * nat)) :
  NoDup (pre ++ (i, o) :: post).*2 -> filter (fun p => p <> o) (pre ++ (i, o) :: post).*2 = (pre ++ post).*2.
Proof.
  rewrite !fmap_app, fmap_cons. simpl. intros (_ & Hd & [Ho _]%NoDup_cons)%NoDup_app.
  rewrite filter_app, filter_cons_False by (intros Hf; by apply Hf).
  rewrite !filter_all; [done|by intros x Hx ->|]. intros x Hx ->. apply (Hd o Hx). by left.
Qed.

Lemma implements_close a r m e o s :
  rep a s -> a !! r = Some (m, e) -> o ∈ members e -> implements a (CloseObserver o) s.
Proof.
  intros Hrep E Ho. assert (Ht : isThere o s = true) by (apply (isThere_entry a); eauto).
  assert (Eev : poolEvent (CloseObserver o) s = destroyObserver o s) by (unfold poolEvent; by rewrite bind_get, Ht).
  destruct e as [l|l]; simpl in Ho.
  - destruct (entry_connecting a m r l s Hrep E) as (ws & Hc & ->). apply list_elem_of_filter in Ho as [_ Ho].
    pose proof Hc as [Eb Em Eh Hnd Hw Hall]. destruct (Hw o) as [d Eo]; [set_solver|]. rewrite app_nil_r in *.
    assert (d = false) as -> by (unfold isThere in Ht; rewrite Eo in Ht; by destruct d).
    eapply (implements_steps a m r _ (leave m o (Connecting (filter (fun o => isThere o s) ws))) _ [] (destroyObserver o) s (eq (setObserver o (mkObserver r None 0 true) s))); [done..| | | | |].
    + unfold destroyObserver, steps. rewrite (bind_observer _ _ _ _ Eo) by done. simpl. rewrite bind_ret.
      apply steps_modify; [by eapply (frame_setObserver _ _ o (mkObserver r None 0 false))|done..].
    + exact Eev.
    + intros n. eapply S_close; [done|]. apply list_elem_of_filter. by rewrite Ht.
    + intros m' e'. by intros [= <- _].
    + intros s' <-. split; [|done]. exists ws. split.
      * split; rewrite ?app_nil_r; simpl; try done.
        -- intros o' Ho'. destruct (decide (o' = o)) as [->|Hne]; [exists true; apply lookup_insert_eq|].
           rewrite lookup_insert_ne by done. by apply Hw.
        -- intros o' y. destruct (decide (o' = o)) as [->|Hne]; [done|]. rewrite lookup_insert_ne by done. apply Hall.
      * rewrite list_filter_filter. apply filter_same. intros w Hwin. unfold isThere at 2. simpl.
        destruct (decide (w = o)) as [->|Hne]; [rewrite lookup_insert_eq; simpl; tauto|]. rewrite lookup_insert_ne by done.
        unfold isThere. tauto.
  - destruct (entry_streaming a m r l s Hrep E) as (subs & Hs & -> & _).
    apply list_elem_of_fmap in Ho as ([i o'] & Heq & Hin). simpl in Heq. subst o'.
    apply list_elem_of_split in Hin as (pre & post & ->).
    destruct (destroyObserver_stage m r 0 0 pre i o post s Hs) as (s' & Ec & F & Ht' & Hst).
    eapply (implements_steps a m r _ (streamingTo m (pre ++ post).*2) _ [] (destroyObserver o) s (stage m r 0 0 (pre ++ post))); [done..| | | | |].
    + exists s'. by rewrite app_nil_r.
    + exact Eev.
    + intros n. rewrite <- (filter_remove [] pre i o post) by (by eapply streaming_observers). apply (S_close a n o r m _ E).
      simpl. rewrite fmap_app. set_solver.
    + apply streamingTo_owner.
    + apply stage_rep.
Qed.

(** ** A new observer *)

Definition addObserver (r : R) s : Pool :=
  mkPool (broadcasts_ s) (managers s) (handlers s) (<[nextObject s := mkObserver r None 0 false]> (observers s))
    (S (nextObject s)) (told s).

Lemma newObserver_eq r now s :
  poolEvent (NewObserver r now) s = transportActive (nextObject s) now (addObserver r s).
Proof. done. Qed.
Lemma others_addObserver m r s : fresh s -> others m r s (addObserver r s).
Proof.
  intros Hf. split; try done. intros o y Hy. simpl. destruct (Hf (nextObject s)) as (_ & _ & E); [lia|].
  destruct (decide (o = nextObject s)) as [->|Hne]; [|by rewrite lookup_insert_ne].
  rewrite lookup_insert_eq, E. split; [|done]. intros [= <-]. done.
Qed.
Lemma fresh_addObserver r s : fresh s -> fresh (addObserver r s).
Proof.
  intros Hf k Hk. simpl in *. destruct (Hf k) as (A & B & C); [lia|]. split_and!; [done..|].
  by rewrite lookup_insert_ne by lia.
Qed.
Lemma there_addObserver r s o : o <> nextObject s -> observers (addObserver r s) !! o = observers s !! o.
Proof. intros Ho. simpl. by rewrite lookup_insert_ne. Qed.

Lemma connecting_add m r ws s : fresh s -> connecting m r ws [] s -> connecting m r ws [nextObject s] (addObserver r s).
Proof.
  intros Hf [Eb Em Eh Hnd Hw Hall]. destruct (Hf (nextObject s)) as (_ & _ & E); [lia|]. rewrite app_nil_r in *.
  assert (Hn : nextObject s ∉ ws) by (intros Hin; destruct (Hw _ Hin) as [d Hd]; congruence).
  split; try done.
  - apply NoDup_app. split; [done|]. split; [|apply NoDup_singleton]. intros o Ho ->%list_elem_of_singleton. done.
  - intros o. destruct (decide (o = nextObject s)) as [->|Hne]; [intros _; exists false; apply lookup_insert_eq|].
    rewrite there_addObserver by done. intros Ho. apply Hw. set_solver.
  - intros o y. destruct (decide (o = nextObject s)) as [->|Hne]; [set_solver|].
    rewrite there_addObserver by done. intros Hy Hr Hd. specialize (Hall o y Hy Hr Hd). set_solver.
Qed.
Lemma joining_add m r subs s : fresh s -> streaming m r 0 0 subs s -> joining m r 0 0 subs [nextObject s] (addObserver r s).
Proof.
  intros Hf [Eb Em Eh Hnd Hsub Hall]. destruct (Hf (nextObject s)) as (_ & _ & E); [lia|].
  split; try done.
  - intros i o Hin. rewrite there_addObserver; [by apply Hsub|]. intros ->. rewrite (Hsub _ _ Hin) in E. done.
  - apply NoDup_singleton.
  - intros o ->%list_elem_of_singleton. exists 0, false. apply lookup_insert_eq.
  - intros o y. destruct (decide (o = nextObject s)) as [->|Hne]; [set_solver|].
    rewrite there_addObserver by done. intros Hy Hr Hd. specialize (Hall o y Hy Hr Hd). set_solver.
Qed.

(** The future that waits. *)
Lemma pending_waits m r ws o s :
  connecting m r ws [o] s -> isThere o s = true ->
  steps m r (let! x := manager m in modify (setManager m (withPromise (Waiting (waitersOf (sharedPromise_ x) ++ [o])) x)))
    s [] (fun s' => connecting m r (ws ++ [o]) [] s' /\ observers s' = observers s).
Proof.
  intros [Eb Em Eh Hnd Hw Hall] Ho. unfold steps. rewrite (bind_manager _ _ _ _ Em) by done. simpl.
  apply steps_modify; [apply frame_setManager|done|]. split; [|done].
  split; rewrite ?app_nil_r; try done. apply lookup_insert_eq.
Qed.

Lemma implements_join a r m e now s : rep a s -> a !! r = Some (m, e) -> implements a (NewObserver r now) s.
Proof.
  intros Hrep E. pose proof (rp_fresh _ _ Hrep) as Hf. set (o := nextObject s). set (s1 := addObserver r s).
  assert (Hsome : is_Some (managers s1 !! m)).
  { pose proof (rp_entry _ _ Hrep r) as H. rewrite E in H. apply entry_manager in H as [p H]. simpl. by rewrite H. }
  assert (H : steps m r (transportActive o now) s1 [] (entry_rep r (Some (m, join o e)))).
  { unfold transportActive, steps. rewrite (bind_observer _ o (mkObserver r None 0 false)) by (done || apply lookup_insert_eq).
    unfold getHandler. cbn [o_routingData_]. rewrite bind_assoc, bind_get.
    pose proof (rp_entry _ _ Hrep r) as Hr. rewrite E in Hr. cbn [broadcasts_ s1 addObserver].
    rewrite (entry_broadcast _ _ _ _ Hr). unfold managerGetHandler. destruct e as [l|l].
    - destruct Hr as (ws & Hc & ->). rewrite bind_assoc, (bind_manager s1 m (mkManager r true false (Waiting ws) 0 false false) _ (cn_manager _ _ _ _ _ Hc)) by done.
      cbn [connectStarted_ sharedPromise_]. rewrite bind_ret.
      assert (Ho : isThere o s1 = true) by (unfold isThere; simpl; by rewrite lookup_insert_eq).
      eapply steps_mono; [apply pending_waits; [by apply connecting_add|done]|]. intros s' [Hc' Eo]. exists (ws ++ [o]).
      split; [done|]. unfold isThere. rewrite Eo, filter_app. fold (isThere o s1).
      assert (Hn : o ∉ ws). { intros Hin. pose proof (cn_nodup _ _ _ _ _ Hc') as Hnd. rewrite app_nil_r in Hnd. apply NoDup_app in Hnd as (_ & Hnd & _).
        apply (Hnd o Hin). set_solver. }
      f_equal.
      + apply filter_same. intros w Hw. unfold s1. by rewrite there_addObserver by (by intros ->).
      + unfold s1. simpl. rewrite filter_cons. by rewrite lookup_insert_eq.
    - destruct Hr as (subs & Hs & -> & _). rewrite bind_assoc, (bind_manager s1 m (mkManager r true false Fulfilled 0 false false) _ (st_manager _ _ _ _ _ _ Hs)) by done.
      cbn [connectStarted_ sharedPromise_]. rewrite bind_ret.
      eapply steps_mono; [apply observerReady_step, joining_add; done|]. intros s' (subs' & Hj%joining_streaming & El & _).
      assert (Ei : ifThere s1 o = [o]) by (unfold ifThere, isThere; simpl; by rewrite lookup_insert_eq).
      exists subs'. split; [done|]. simpl. rewrite <- Ei, El. split; [done|]. rewrite Ei. by destruct subs. }
  destruct H as (s' & Ec & F & Ht & He). exists s', (update r (Some (m, join o e)) a), [].
  split; [done|]. split; [rewrite (f_next _ _ _ _ F); by apply S_join|]. split; [done|].
  apply (rep_step a s s' m r); try done.
  - eapply others_trans; [by apply others_addObserver|apply F].
  - eapply fresh_frame; [done|by apply fresh_addObserver|done].
  - intros r' e' Hne E'. apply Hne. by eapply rep_owner.
  - intros m' e' E'. congruence.
  - intros m' e' E'. congruence.
Qed.

(** *** ... of new routing data *)

Definition addBroadcast (r : R) s : Pool :=
  mkPool (<[r := nextObject s]> (broadcasts_ s)) (<[nextObject s := mkManager r true false (Waiting []) 0 false false]> (managers s))
    (handlers s) (observers s) (S (nextObject s)) (told s).

Lemma newBroadcast_eq r now s : broadcasts_ s !! r = None ->
  poolEvent (NewObserver r now) s =
  (let! future := match now with None => ret (Pending (S (nextObject s))) | Some c => connectDone (S (nextObject s)) c end in
   match future with
   | Value m => observerReady m (nextObject s)
   | Exception => observerFailed (nextObject s)
   | Pending m =>
       let! x := manager m in
       modify (setManager m (withPromise (Waiting (waitersOf (sharedPromise_ x) ++ [nextObject s])) x))
   end) (addBroadcast r (addObserver r s)).
Proof.
  intros Eb. rewrite newObserver_eq. set (o := nextObject s). set (m := S o). unfold transportActive.
  rewrite (bind_observer _ o (mkObserver r None 0 false)) by (done || apply lookup_insert_eq).
  unfold getHandler. cbn [o_routingData_]. rewrite bind_assoc, bind_get. cbn [broadcasts_ addObserver]. rewrite Eb.
  unfold newObject. rewrite bind_assoc. unfold bind at 1. cbn [fst snd nextObject addObserver]. rewrite bind_assoc, bind_modify, bind_assoc, bind_modify.
  unfold managerGetHandler. rewrite bind_assoc, (bind_manager _ m (mkManager r false false (Waiting []) 0 false false))
    by (done || apply lookup_insert_eq). cbn [connectStarted_]. rewrite bind_assoc, bind_modify.
  unfold setManager, setBroadcasts, addBroadcast. simpl. by rewrite insert_insert_eq.
Qed.

Lemma newBroadcast_connecting a r s : rep a s -> a !! r = None ->
  connecting (S (nextObject s)) r [] [nextObject s] (addBroadcast r (addObserver r s)) /\
  others (S (nextObject s)) r s (addBroadcast r (addObserver r s)) /\ fresh (addBroadcast r (addObserver r s)).
Proof.
  intros Hrep E. pose proof (rp_fresh _ _ Hrep) as Hf. pose proof (rp_entry _ _ Hrep r) as H. rewrite E in H. destruct H as [Eb Hnone].
  split; [|split].
  - split; simpl.
    + apply lookup_insert_eq.
    + apply lookup_insert_eq.
    + apply (Hf (S (nextObject s))). lia.
    + apply NoDup_singleton.
    + intros o ->%list_elem_of_singleton. exists false. apply lookup_insert_eq.
    + intros o y. destruct (decide (o = nextObject s)) as [->|Hne]; [set_solver|]. rewrite lookup_insert_ne by done.
      intros Hy Hr. by rewrite (Hnone o y Hy Hr).
  - eapply others_trans; [by apply others_addObserver|]. split; simpl; try done; intros ? ?; by rewrite lookup_insert_ne.
  - intros k Hk. simpl in Hk. destruct (fresh_addObserver r s Hf k) as (A & B & C); [simpl; lia|]. split_and!; [|done..].
    simpl in *. rewrite lookup_insert_ne by lia. apply A.
Qed.

Lemma rep_new a r s s' m e :
  rep a s -> a !! r = None -> m = S (nextObject s) -> others m r s s' -> fresh s' ->
  (forall m' e', e = Some (m', e') -> m' = m) -> entry_rep r e s' -> (e = None -> retired m s') -> rep (update r e a) s'.
Proof.
  intros Hrep E -> F Hf He Hent Hret. apply (rep_step a s s' (S (nextObject s)) r e); try done; [|by rewrite E].
  intros r' e' _ E'. pose proof (rp_entry _ _ Hrep r') as H. rewrite E' in H. apply entry_manager in H as [p H].
  destruct (rp_fresh _ _ Hrep (S (nextObject s))) as [A _]; [lia|]. congruence.
Qed.

Lemma implements_first a r s : rep a s -> a !! r = None -> implements a (NewObserver r None) s.
Proof.
  intros Hrep E. destruct (newBroadcast_connecting a r s Hrep E) as (Hc & Fo & Hf). set (s1 := addBroadcast r (addObserver r s)) in *.
  pose proof (rp_entry _ _ Hrep r) as H. rewrite E in H. destruct H as [Eb _].
  assert (Ho : isThere (nextObject s) s1 = true) by (unfold isThere; simpl; by rewrite lookup_insert_eq).
  destruct (pending_waits _ _ _ _ _ Hc Ho) as (s' & Ec & F & Ht & Hc' & Eo).
  exists s', (update r (Some (S (nextObject s), Connecting [nextObject s])) a), [].
  split; [by rewrite (newBroadcast_eq r None s Eb), bind_ret|]. split; [rewrite (f_next _ _ _ _ F); by apply S_first|].
  split; [done|]. apply (rep_new a r s s' (S (nextObject s))); try done.
  - eapply others_trans; [exact Fo|apply F].
  - eapply fresh_frame; [done|done|]. rewrite (cn_manager _ _ _ _ _ Hc). by eexists.
  - intros m' e'. by intros [= <- _].
  - exists [nextObject s]. split; [exact Hc'|]. unfold isThere in *. rewrite filter_cons, Eo. destruct (observers s1 !! _); [|done].
    by destruct (negb _).
Qed.

Lemma implements_refused a r c s : rep a s -> a !! r = None -> c <> Connected SetOk -> implements a (NewObserver r (Some c)) s.
Proof.
  intros Hrep E Hne. destruct (newBroadcast_connecting a r s Hrep E) as (Hc & Fo & Hf). set (s1 := addBroadcast r (addObserver r s)) in *.
  pose proof (rp_entry _ _ Hrep r) as H. rewrite E in H. destruct H as [Eb _].
  destruct (connectDone_fails _ _ _ _ c _ Hc Hne) as (s2 & Ec & F & Ht & Hov).
  destruct (ov_extra _ _ _ _ Hov (nextObject s)) as (i & d & Eo); [by left|].
  destruct (observerFailed_step (S (nextObject s)) r _ i d s2 Eo) as (s3 & E3 & F3 & T3 & (B & M' & H') & W1 & W2).
  assert (Hov' : over (S (nextObject s)) r [] s3).
  { destruct Hov as [Hb Hm Hh _ Hall]. split; rewrite ?B, ?M', ?H'; try done; [by intros o ?%elem_of_nil|].
    intros o y Hy Hr Hd. destruct (decide (o = nextObject s)) as [->|Ho].
    - destruct (W1 (nextObject s)) as [j Ej]; [by left|]. rewrite Ej in Hy. by injection Hy as <-.
    - rewrite W2 in Hy by set_solver. specialize (Hall o y Hy Hr Hd). set_solver. }
  apply over_rep in Hov' as [He Hret].
  exists s3, a, []. split; [rewrite (newBroadcast_eq r (Some c) s Eb); by rewrite (bind_Ok _ _ _ _ _ Ec)|].
  split; [rewrite (f_next _ _ _ _ F3), (f_next _ _ _ _ F); by apply S_refused|].
  split; [by rewrite T3, Ht|]. assert (Ea : update r None a = a) by (unfold update; rewrite <- E; apply partial_alter_self).
  rewrite <- Ea.
  apply (rep_new a r s s3 (S (nextObject s))); try done.
  - eapply others_trans; [exact Fo|]. eapply others_trans; [apply F|apply F3].
  - eapply (fresh_frame (S (nextObject s)) r s1); [by eapply frame_trans|done|]. rewrite (cn_manager _ _ _ _ _ Hc). by eexists.
Qed.

Lemma no_broadcast a r s : rep a s -> a !! r = None -> broadcasts_ s !! r = None.
Proof. intros Hrep Ea. pose proof (rp_entry _ _ Hrep r) as H. rewrite Ea in H. apply H. Qed.

(** Such a connection leaves nobody subscribed when the broadcast checks for
    that, is destroyed, and the client for which it was made subscribes to the
    freed handler. *)
Lemma dangles a r s : rep a s -> broadcasts_ s !! r = None ->
  (poolEvent (NewObserver r (Some (Connected SetOk))) s).1 = Err (Undefined "BroadcastHandler destroyed").
Proof.
  intros Hrep Eb. rewrite newBroadcast_eq by done.
  assert (Ea : a !! r = None).
  { destruct (a !! r) as [[m e]|] eqn:Ea; [|done]. pose proof (rp_entry _ _ Hrep r) as H. rewrite Ea in H.
    apply entry_broadcast in H. congruence. }
  destruct (newBroadcast_connecting a r s Hrep Ea) as (Hc & _ & _).
  destruct (connectDone_alone _ _ _ _ Hc) as (s1 & Ec & Eo & h & Eh & Ha). rewrite (bind_Ok _ _ _ _ _ Ec).
  unfold observerReady, subscribe, handler. rewrite bind_get, Eo. simpl. rewrite lookup_insert_eq. simpl.
  rewrite !bind_assoc, bind_get, Eh, Ha. done.
Qed.

(** The first client of its routing data comes, and the connection made for it
    succeeds before [connect] returns. *)
Definition atOnce s ev : Prop :=
  exists r, ev = NewObserver r (Some (Connected SetOk)) /\ broadcasts_ s !! r = None.

Lemma atOnce_dec s ev : atOnce s ev \/ ~ atOnce s ev.
Proof.
  destruct ev as [r now| | | | |]; try (right; by intros (? & ? & _)).
  destruct (broadcasts_ s !! r) eqn:Eb; [right; intros (? & [= -> _] & ?); congruence|].
  destruct (decide (now = Some (Connected SetOk))) as [->|Hne]; [left; by exists r|right]. by intros (? & [= <- ->] & _).
Qed.

Lemma poolEvent_refines a ev s : rep a s -> ~ atOnce s ev -> implements a ev s.
Proof.
  intros Hrep Hl. pose proof (isConnecting_entry a) as Hc. pose proof (isOpen_entry a) as Ho.
  assert (Hig : ignored a ev -> poolEvent ev s = (Ok tt, s) -> implements a ev s).
  { intros Hig E. exists s, a, []. split; [done|]. split; [by apply S_ignored|]. by rewrite app_nil_r. }
  assert (Hst : forall m, isOpen m s = false -> forall r l, a !! r <> Some (m, Streaming l)).
  { intros m Hm r l E. destruct (entry_streaming a m r l s Hrep E) as (subs & Hs & _). by rewrite (streaming_open _ _ _ _ Hs) in Hm. }
  destruct ev as [r now|m c|m fails x|m|m|o].
  - destruct (a !! r) as [[m e]|] eqn:E; [by eapply implements_join|].
    destruct now as [c|]; [|by apply implements_first]. apply implements_refused; [done..|]. intros ->. apply Hl. exists r. split; [done|].
    by rewrite (no_broadcast a r s Hrep E).
  - destruct (isConnecting m s) eqn:Hm.
    + destruct (Hc m s Hrep Hm) as (r & l & E). by eapply implements_connected.
    + apply Hig; [|unfold poolEvent; by rewrite bind_get, Hm]. intros r l E.
      destruct (entry_connecting a m r l s Hrep E) as (ws & Hcn & _). unfold isConnecting in Hm. by rewrite (cn_manager _ _ _ _ _ Hcn) in Hm.
  - destruct (isOpen m s) eqn:Hm; [destruct (Ho m s Hrep Hm) as (r & l & E); by eapply implements_data|].
    apply Hig; [exact (Hst m Hm)|unfold poolEvent; by rewrite bind_get, Hm].
  - destruct (isOpen m s) eqn:Hm.
    + destruct (Ho m s Hrep Hm) as (r & l & E). eapply (implements_end a m r l OnCompleted); [done..|unfold poolEvent; by rewrite bind_get, Hm|].
      intros n. by apply S_eof.
    + apply Hig; [exact (Hst m Hm)|unfold poolEvent; by rewrite bind_get, Hm].
  - destruct (isOpen m s) eqn:Hm.
    + destruct (Ho m s Hrep Hm) as (r & l & E). eapply (implements_end a m r l OnError); [done..|unfold poolEvent; by rewrite bind_get, Hm|].
      intros n. by apply S_error.
    + apply Hig; [exact (Hst m Hm)|unfold poolEvent; by rewrite bind_get, Hm].
  - destruct (isThere o s) eqn:Hm.
    + apply (isThere_entry a) in Hm as (r & m & e & E & Hin); [|done]. by eapply implements_close.
    + apply Hig; [|unfold poolEvent; by rewrite bind_get, Hm]. intros r m e E Hin.
      assert (isThere o s = true) by (apply (isThere_entry a); eauto). congruence.
Qed.

Definition poolRun (evs : list PoolEvent) : M Pool unit := for_each evs poolEvent.

(** A run follows the specification as long as no connection succeeds at
    once; the first one that does is where it stops. *)
Lemma poolRun_refines evs : forall a s, rep a s ->
  exists evs1 evs2 s' a' outs, evs = evs1 ++ evs2 /\ poolRun evs1 s = (Ok tt, s') /\
    specRun a (nextObject s) evs1 outs a' (nextObject s') /\ told s' = told s ++ outs /\ rep a' s' /\
    (evs2 = [] \/ exists ev evs3, evs2 = ev :: evs3 /\ atOnce s' ev /\
       (poolRun evs s).1 = Err (Undefined "BroadcastHandler destroyed")).
Proof.
  induction evs as [|ev evs IH]; intros a s Hrep.
  - exists [], [], s, a, []. rewrite (app_nil_r (told s)). split_and!; [done|done|apply R_nil|done|done|by left].
  - destruct (atOnce_dec s ev) as [Hat|Hl].
    + exists [], (ev :: evs), s, a, []. rewrite (app_nil_r (told s)). split_and!; [done|done|apply R_nil|done|done|]. right.
      exists ev, evs. split_and!; [done..|]. destruct Hat as (r & -> & Eb). pose proof (dangles a r s Hrep Eb) as H.
      unfold poolRun. cbn [for_each]. unfold bind at 1. by destruct (poolEvent _ s) as [[] ?]; simplify_eq/=.
    + destruct (poolEvent_refines a ev s Hrep Hl) as (s1 & a1 & out & E & Hst & Ht & Hrep1).
      destruct (IH a1 s1 Hrep1) as (evs1 & evs2 & s2 & a2 & outs & -> & E2 & Hst2 & Ht2 & Hrep2 & Hend).
      exists (ev :: evs1), evs2, s2, a2, (out ++ outs). unfold poolRun in *. cbn [for_each app].
      rewrite !(bind_Ok _ _ _ _ _ E). split_and!; [done..|by econstructor|by rewrite Ht2, Ht, app_assoc|done|].
      exact Hend.
Qed.

Lemma poolRun_ok evs a s s' : rep a s -> poolRun evs s = (Ok tt, s') -> exists a', rep a' s'.
Proof.
  intros Hrep E. destruct (poolRun_refines evs a s Hrep) as (evs1 & evs2 & s1 & a1 & outs & -> & E1 & _ & _ & Hrep1 & Hend).
  destruct Hend as [->|(ev & evs3 & -> & _ & Ef)]; [|by rewrite E in Ef].
  rewrite app_nil_r, E1 in E. injection E as <-. by exists a1.
Qed.

Lemma rep_new_pool : rep ∅ newPool.
Proof.
  split.
  - intros r. rewrite lookup_empty. split; [apply lookup_empty|]. intros o y. simpl. by rewrite lookup_empty.
  - intros m _. split; intros ?; simpl; by rewrite lookup_empty.
  - intros k _. simpl. by rewrite !lookup_empty.
Qed.

(** C23. BroadcastPool, BroadcastManager, BroadcastHandler and ObservingHandler
    together implement the specification.  For every sequence of clients that
    come and go, connections that are made or fail, data, ends and errors of
    the upstreams and failing writes, up to the first connection that, made
    for the first client of its routing data, succeeds before [connect]
    returns: no destroyed object is used and no CHECK fails, every client hears
    exactly what the upstream of its routing data sent from the moment it was
    subscribed, and each routing data has at most one upstream, which goes with
    its last subscriber.  That first connection is where it ends: its client
    subscribes to a handler that is destroyed by then. *)
Theorem pool_refines (evs : list PoolEvent) :
  exists evs1 evs2 s a, evs = evs1 ++ evs2 /\ poolRun evs1 newPool = (Ok tt, s) /\
    specRun ∅ 0 evs1 (told s) a (nextObject s) /\ rep a s /\
    (evs2 = [] \/ exists ev evs3, evs2 = ev :: evs3 /\ atOnce s ev /\
       (poolRun evs newPool).1 = Err (Undefined "BroadcastHandler destroyed")).
Proof.
  destruct (poolRun_refines evs ∅ newPool rep_new_pool) as (evs1 & evs2 & s & a & outs & E & E1 & Hs & Ht & Hrep & Hend).
  exists evs1, evs2, s, a. simpl in Ht. by rewrite Ht.
Qed.

(** Nothing leaks: at any time every manager that lives is the one of its
    routing data in the pool, every upstream pipeline that lives has a
    subscriber and each of its subscribers is a living observer of the same
    routing data that holds this pipeline and its subscription id, and every
    living observer waits for the pool's connection or is such a subscriber. *)
Lemma pool_no_leaks (evs : list PoolEvent) s : poolRun evs newPool = (Ok tt, s) ->
  (forall m x, managers s !! m = Some x -> m_dead x = false -> broadcasts_ s !! routingData_ x = Some m) /\
  (forall m h, handlers s !! m = Some h -> pipelineAlive h = true ->
     subscribers_ h <> [] /\ exists r, broadcasts_ s !! r = Some m /\
     forall i o, (i, o) ∈ subscribers_ h -> observers s !! o = Some (mkObserver r (Some m) i false)) /\
  (forall o y, observers s !! o = Some y -> deleted_ y = false ->
     exists m x, broadcasts_ s !! o_routingData_ y = Some m /\ managers s !! m = Some x /\ m_dead x = false /\
     ((exists ws, sharedPromise_ x = Waiting ws /\ o ∈ ws) \/
      (exists h, handlers s !! m = Some h /\ pipelineAlive h = true /\ o ∈ (subscribers_ h).*2))).
Proof.
  intros E. destruct (poolRun_ok evs _ _ _ rep_new_pool E) as [a Hrep]. split_and!.
  - intros m x Em Hd. destruct (entry_of a m) as [(r & e & Ea)|Hn].
    + pose proof (rp_entry _ _ Hrep r) as H. rewrite Ea in H. pose proof (entry_broadcast _ _ _ _ H) as Hb.
      apply entry_manager in H as [p H]. rewrite H in Em. by injection Em as <-.
    + destruct (rp_retired _ _ Hrep m Hn) as [H _]. by rewrite (H x Em) in Hd.
  - intros m h Eh Ha. destruct (isOpen_alive a m h s Hrep Eh Ha) as (r & subs & n & Hs & Hne & ->). simpl.
    split; [by intros ->|]. exists r. split; [apply Hs|]. intros i o. apply (st_subscribed _ _ _ _ _ _ Hs).
  - intros o y Ey Hd. pose proof (rp_entry _ _ Hrep (o_routingData_ y)) as H.
    destruct (a !! o_routingData_ y) as [[m [l|l]]|] eqn:Ea.
    + destruct H as (ws & [Eb Em _ _ _ Hall] & _). exists m. eexists. split_and!; [done..|]. left. exists ws. split; [done|].
      rewrite <- (app_nil_r ws). by eapply Hall.
    + destruct H as (subs & [Eb Em (n & Eh & _) _ _ Hall] & _). exists m. eexists. split_and!; [done..|]. right.
      eexists. split_and!; [done..|]. by eapply Hall.
    + destruct H as [_ H]. by rewrite (H o y Ey) in Hd.
Qed.

End broadcast.

(** ** At concrete inputs *)

(** Two clients of one routing data, of which the second has a write fail. *)
Definition exampleEvents : list (PoolEvent (T:=nat) (R:=nat)) :=
  [NewObserver 7 None; NewObserver 7 None; ConnectDone 1 (Connected SetOk);
   UpstreamData 1 (fun _ => false) 5; UpstreamData 1 (fun o => o =? 2) 6; UpstreamData 1 (fun _ => false) 8].

Lemma pool_refines_witness :
  told (poolRun (exampleEvents ++ [UpstreamEOF 1]) newPool).2 =
    [OnNext 0 5; OnNext 2 5; OnNext 0 6; OnNext 2 6; OnNext 0 8; OnCompleted 0] /\
  exists s a, poolRun (exampleEvents ++ [UpstreamEOF 1]) newPool = (Ok tt, s) /\
    specRun ∅ 0 (exampleEvents ++ [UpstreamEOF 1]) (told s) a (nextObject s) /\ rep a s.
Proof.
  split; [vm_compute; reflexivity|].
  destruct (pool_refines (exampleEvents ++ [UpstreamEOF 1])) as (evs1 & evs2 & s & a & E & E1 & Hs & Hrep & Hend).
  exists s, a. destruct Hend as [->|(ev & evs3 & _ & _ & Ef)].
  - rewrite app_nil_r in E. rewrite E. split; [exact E1|]. split; [exact Hs|exact Hrep].
  - vm_compute in Ef. discriminate Ef.
Defined.

Lemma pool_no_leaks_witness :
  let s := (poolRun exampleEvents newPool).2 in
  (subscribers_ <$> handlers s !! 1) = Some [(0, 0)] /\
  forall m h, handlers s !! m = Some h -> pipelineAlive h = true -> subscribers_ h <> [].
Proof.
  intros s. split; [vm_compute; reflexivity|]. intros m h Eh Ha.
  destruct (pool_no_leaks exampleEvents s) as (_ & H & _).
  - vm_compute. reflexivity.
  - exact (proj1 (H m h Eh Ha)).
Defined.

(** The connection of a third routing data succeeds at once. *)
Lemma connect_at_once_dangles :
  (poolRun (exampleEvents ++ [NewObserver 9 (Some (Connected SetOk))]) newPool).1 =
    Err (Undefined "BroadcastHandler destroyed").
Proof. vm_compute. reflexivity. Qed.
