(* ===== verification/Bootstrap.v ===== *)
(** * Servers and routing (src/wangle/bootstrap)

    [ServerWorkerPool] keeps an acceptor for each thread of the executor and
    makes every listening socket accept for every one of them;
    [ServerBootstrap] binds the sockets.  [AcceptRoutingHandler], in the accept
    pipeline of an acceptor, reads each new connection until its routing data
    are parsed and hands it to the worker that their hash selects.

    Executors and server sockets are not of the repository: threads start and
    stop as events, and a socket is its list of accept callbacks, of which
    the TCP factory's [removeAcceptCB] takes one out and the UDP factory's none. *)
From Stdlib Require Import ZArith Lia.
From stdpp Require Import base numbers list gmap strings.
From S2P Require Import Prelude.
Open Scope cpp_scope.

Set Default Goal Selector "!".

(** ** Workers and sockets *)

(** Removing an accept callback from a server socket; what it does for a
    callback that is not there is not said. *)
Class AcceptSockets : Type := {
  removeAcceptCallback : nat -> list nat -> res (list nat);
  remove_present w l : NoDup l -> w ∈ l -> removeAcceptCallback w l = Ok (filter (fun v => v <> w) l)
}.

(** The factories of the repository, of TCP and of UDP sockets; they add accept
    callbacks in one way. *)
Inductive SocketFactory : Type := AsyncServerSocketFactory | AsyncUDPServerSocketFactory.
#[export] Instance SocketFactory_eq_dec : EqDecision SocketFactory.
Proof. solve_decision. Defined.

Section workers.
Context {Address : Type} `{!AcceptSockets}.

(** A listening socket, with its accept callbacks. *)
Record Socket : Type := mkSocket {
  boundTo : Address;
  reuse : bool;
  callbacks : list nat
}.

(** Handles of threads and acceptors are numbers; the map is kept in the order
    of its keys. *)
Record Server : Type := mkServer {
  workers_ : list (nat * nat);
  sockets_ : list nat;
  sockets : gmap nat Socket;
  nextAcceptor : nat;
  nextSocket : nat;
  dropped : list nat;          (* acceptors whose connections were dropped, and that are gone *)
  stopped_ : bool
}.
Definition newServer : Server := mkServer [] [] ∅ 0 0 [] false.

Definition setWorkers x (s : Server) : Server :=
  mkServer x (sockets_ s) (sockets s) (nextAcceptor s) (nextSocket s) (dropped s) (stopped_ s).
Definition setSockets x (s : Server) : Server :=
  mkServer (workers_ s) x (sockets s) (nextAcceptor s) (nextSocket s) (dropped s) (stopped_ s).
Definition setSocket k x (s : Server) : Server :=
  mkServer (workers_ s) (sockets_ s) (<[k := x]> (sockets s)) (nextAcceptor s) (nextSocket s) (dropped s) (stopped_ s).
Definition addDropped w (s : Server) : Server :=
  mkServer (workers_ s) (sockets_ s) (sockets s) (nextAcceptor s) (nextSocket s) (dropped s ++ [w]) (stopped_ s).

(** [std::map::insert]: an entry that is there stays. *)
Fixpoint insertWorker (h w : nat) (l : list (nat * nat)) : list (nat * nat) :=
  match l with
  | [] => [(h, w)]
  | (h', w') :: l' =>
      if decide (h = h') then l
      else if decide (h < h') then (h, w) :: l
      else (h', w') :: insertWorker h w l'
  end.

Definition socketOf (k : nat) : M Server Socket :=
  let! s := get in of_option (Undefined "socket destroyed") (sockets s !! k).
Definition addAcceptCB (k w : nat) : M Server unit :=
  let! x := socketOf k in
  modify (setSocket k (mkSocket (boundTo x) (reuse x) (callbacks x ++ [w]))).
Definition removeAcceptCB (k w : nat) : M Server unit :=
  let! x := socketOf k in
  match removeAcceptCallback w (callbacks x) with
  | Ok l => modify (setSocket k (mkSocket (boundTo x) (reuse x) l))
  | Err f => raise f
  end.

Definition forEachWorker (f : nat -> M Server unit) : M Server unit :=
  let! s := get in for_each (workers_ s) (fun kv => f kv.2).

(** [threadStarted]; making the acceptor may throw. *)
Definition threadStarted (h : nat) (throws : bool) : M Server unit :=
  if throws then raise (RuntimeError "newAcceptor")
  else
    let! s := get in
    let worker := nextAcceptor s in
    do! modify (fun s => mkServer (insertWorker h worker (workers_ s)) (sockets_ s) (sockets s) (S worker)
          (nextSocket s) (dropped s) (stopped_ s)) in
    let! s := get in
    for_each (sockets_ s) (fun socket => addAcceptCB socket worker).

(** [threadStopped], with the way the factory of the sockets removes an accept
    callback. *)
Definition threadStoppedBy (removeCB : nat -> nat -> M Server unit) (h : nat) : M Server unit :=
  let! s := get in
  match assoc h (workers_ s) with
  | None => ret tt
  | Some worker =>
      do! modify (fun s => setWorkers (without h (workers_ s)) s) in
      do! for_each (sockets_ s) (fun socket => removeCB socket worker) in
      modify (addDropped worker)
  end.
(** [AsyncUDPServerSocketFactory::removeAcceptCB] is empty. *)
Definition udpRemoveAcceptCB (k w : nat) : M Server unit := ret tt.
Definition factoryRemoveAcceptCB (f : SocketFactory) : nat -> nat -> M Server unit :=
  match f with
  | AsyncServerSocketFactory => removeAcceptCB
  | AsyncUDPServerSocketFactory => udpRemoveAcceptCB
  end.
Definition threadStopped (f : SocketFactory) : nat -> M Server unit := threadStoppedBy (factoryRemoveAcceptCB f).

(** ** Groups of threads *)

(** [ServerBootstrap::group]: the sizes of the two groups, when they are not
    given those of new ones, and whether the acceptors are the application's. *)
Record Groups : Type := mkGroups {
  acceptThreads : nat;
  ioThreads : nat;
  ownAcceptors : bool
}.
Definition group (acceptorFactory_ childPipelineFactory_ : bool) (accept_group io_group : option nat)
    (hardware_concurrency : nat) : res Groups :=
  let accept_group := default 1 accept_group in
  let io_group :=
    match io_group with
    | Some n => n
    | None => if hardware_concurrency <=? 0 then 8 else hardware_concurrency
    end in
  if acceptorFactory_ && childPipelineFactory_
  then Err (CheckFailed "!(acceptorFactory_ && childPipelineFactory_)")
  else Ok (mkGroups accept_group io_group acceptorFactory_).

(** [addObserver]: [threadPreviouslyStarted] for the threads that run. *)
Definition addObserver (threads : list nat) : M Server unit := for_each threads (fun h => threadStarted h false).

(** ** Binding *)

(** [AsyncServerSocketFactory::newSocket], and [getAddress] of the result: the
    address that the system bound, or an exception. *)
Context (bindTo : Address -> bool -> nat -> option Address).

(** The sockets of the threads of the acceptor group, one after the other: each
    is bound to the address that the one before got. *)
Fixpoint startSockets (n : nat) (address : Address) (reusePort : bool) (k : nat)
    : list (nat * Socket) * bool :=
  match n with
  | 0 => ([], false)
  | S n =>
      match bindTo address reusePort k with
      | Some a =>
          let '(l, exn) := startSockets n a reusePort (S k) in
          ((k, mkSocket a reusePort []) :: l, exn)
      | None =>
          let '(l, _) := startSockets n address reusePort (S k) in (l, true)
      end
  end.

(** One socket: the workers that are there accept from it; then it is listed. *)
Definition acceptOn (socket : nat) : M Server unit := forEachWorker (addAcceptCB socket).
Definition listSocket (socket : nat) : M Server unit := modify (fun s => setSockets (sockets_ s ++ [socket]) s).

Definition bindImpl (numThreads : nat) (reusePort_ : bool) (address : Address) : M Server unit :=
  let! s := get in
  let reusePort := reusePort_ || (1 <? numThreads) in
  let '(new_sockets, exn) := startSockets (Nat.max 1 numThreads) address reusePort (nextSocket s) in
  do! modify (fun s => mkServer (workers_ s) (sockets_ s) (sockets s) (nextAcceptor s)
        (nextSocket s + Nat.max 1 numThreads) (dropped s) (stopped_ s)) in
  if exn then raise (RuntimeError "newSocket")
  else
    do! modify (fun s => mkServer (workers_ s) (sockets_ s) (list_to_map new_sockets ∪ sockets s) (nextAcceptor s)
          (nextSocket s) (dropped s) (stopped_ s)) in
    for_each new_sockets.*1 (fun socket => do! acceptOn socket in listSocket socket).

(** [bind] of an existing socket. *)
Definition bindSocket (numThreads : nat) (address : Address) : M Server unit :=
  if negb (numThreads =? 1) then raise (CheckFailed "acceptor_group_->numThreads() == 1")
  else
    let! s := get in
    let socket := nextSocket s in
    do! modify (fun s => mkServer (workers_ s) (sockets_ s) (<[socket := mkSocket address false []]> (sockets s))
          (nextAcceptor s) (S socket) (dropped s) (stopped_ s)) in
    do! acceptOn socket in
    listSocket socket.

(** [stop]: the last references to the sockets go. *)
Definition stop : M Server unit :=
  modify (fun s => mkServer (workers_ s) [] (filter (fun kv => kv.1 ∉ sockets_ s) (sockets s)) (nextAcceptor s)
    (nextSocket s) (dropped s) true).

Inductive ServerEvent : Type :=
| ThreadStarted (h : nat) (throws : bool)
| ThreadStopped (h : nat)
| Bind (numThreads : nat) (reusePort_ : bool) (address : Address)
| BindSocket (numThreads : nat) (address : Address)
| Observe (threads : list nat)
| Stop.

(** An executor reports a thread as started once before it stops; a server that
    makes UDP sockets is not given an existing socket, which is one of TCP. *)
Definition serverEvent (f : SocketFactory) (ev : ServerEvent) : M Server unit :=
  let! s := get in
  match ev with
  | ThreadStarted h throws => when (if assoc h (workers_ s) is None then true else false) (threadStarted h throws)
  | ThreadStopped h => threadStopped f h
  | Bind n reuse a => bindImpl n reuse a
  | BindSocket n a => when (bool_decide (f = AsyncServerSocketFactory)) (bindSocket n a)
  | Observe threads => addObserver (filter (fun h => assoc h (workers_ s) = None) (remove_dups threads))
  | Stop => stop
  end.
End workers.
