(* ===== verification/BootstrapProps.v ===== *)
(** * Servers: every socket accepts for every worker

    While threads start and stop and sockets are bound, in any order but one
    after the other, the accept callbacks of each listening socket are the
    acceptors of the current workers, each once - and, of a UDP socket, those
    that stopped while it was listed. *)
From Stdlib Require Import ZArith Lia.
From stdpp Require Import base numbers list gmap strings.
From S2P Require Import Prelude Bootstrap.
Open Scope cpp_scope.

Set Default Goal Selector "!".

Section workers.
Context (factory : SocketFactory).
Context {Address : Type} `{!AcceptSockets} (bindTo : Address -> bool -> nat -> option Address).
#[local] Abbreviation Server := (Server (Address:=Address)).
#[local] Abbreviation Socket := (Socket (Address:=Address)).
Implicit Types (s : Server).

Definition withSockets (x : gmap nat Socket) s : Server :=
  mkServer (workers_ s) (sockets_ s) x (nextAcceptor s) (nextSocket s) (dropped s) (stopped_ s).
Definition addCallbacks (l : list nat) (x : Socket) : Socket := mkSocket (boundTo x) (reuse x) (callbacks x ++ l).
Definition dropCallback (w : nat) (x : Socket) : Socket :=
  mkSocket (boundTo x) (reuse x) (filter (fun v => v <> w) (callbacks x)).

(** ** Loops over sockets and workers *)

Lemma addAcceptCB_eq k w s x : sockets s !! k = Some x -> addAcceptCB k w s = (Ok tt, setSocket k (addCallbacks [w] x) s).
Proof. intros E. unfold addAcceptCB, socketOf. by rewrite bind_assoc, bind_get, E. Qed.
Lemma removeAcceptCB_eq k w s x : sockets s !! k = Some x -> NoDup (callbacks x) /\ w ∈ callbacks x ->
  removeAcceptCB k w s = (Ok tt, setSocket k (dropCallback w x) s).
Proof.
  intros E [Hn Hw]. unfold removeAcceptCB, socketOf. rewrite bind_assoc, bind_get, E.
  unfold bind, of_option. by rewrite remove_present.
Qed.

(** A loop that updates one socket after the other. *)
Lemma for_each_sockets (body : nat -> M Server unit) (g : Socket -> Socket) (P : Socket -> Prop) l :
  (forall k s x, sockets s !! k = Some x -> P x -> body k s = (Ok tt, setSocket k (g x) s)) -> NoDup l ->
  forall s, (forall k, k ∈ l -> exists x, sockets s !! k = Some x /\ P x) ->
  exists m, for_each l body s = (Ok tt, withSockets m s) /\
    (forall k, k ∈ l -> m !! k = g <$> sockets s !! k) /\ (forall k, k ∉ l -> m !! k = sockets s !! k).
Proof.
  intros Hb. induction l as [|k l IH]; intros Hnd s Hl; cbn [for_each].
  - exists (sockets s). split; [by destruct s|]. split; [by intros k ?%elem_of_nil|done].
  - apply NoDup_cons in Hnd as [Hk Hnd]. destruct (Hl k) as (x & E & Hx); [by left|].
    rewrite (bind_Ok _ _ _ _ _ (Hb k s x E Hx)).
    destruct (IH Hnd (setSocket k (g x) s)) as (m & Em & H1 & H2).
    { intros j Hj. simpl. rewrite lookup_insert_ne by (intros ->; done). apply Hl. by right. }
    exists m. split; [exact Em|]. simpl in *. split.
    + intros j [->|Hj]%elem_of_cons; [by rewrite H2, lookup_insert_eq, E|].
      rewrite H1, lookup_insert_ne by (done || by intros ->). done.
    + intros j Hj. rewrite H2, lookup_insert_ne by set_solver. done.
Qed.

Lemma acceptOn_loop k (ws : list (nat * nat)) : forall s x, sockets s !! k = Some x ->
  for_each ws (fun kv => addAcceptCB k kv.2) s = (Ok tt, setSocket k (addCallbacks ws.*2 x) s).
Proof.
  induction ws as [|[h w] ws IH]; intros s x E; cbn [for_each].
  - unfold ret, setSocket, addCallbacks. rewrite app_nil_r. rewrite insert_id by (rewrite E; by destruct x). by destruct s.
  - rewrite (bind_Ok _ _ _ _ _ (addAcceptCB_eq k w s x E)). rewrite (IH _ (addCallbacks [w] x)) by apply lookup_insert_eq.
    unfold setSocket, addCallbacks. simpl. by rewrite insert_insert_eq, <- app_assoc.
Qed.

(** ** The invariant *)

(** The accept callbacks of a socket: the acceptors of the workers and, with
    UDP, some that were dropped. *)
Definition accepting (x : Socket) s : Prop :=
  NoDup (callbacks x) /\
  exists kept, callbacks x ≡ₚ (workers_ s).*2 ++ kept /\
    (factory = AsyncServerSocketFactory -> kept = []) /\ (forall w, w ∈ kept -> w ∈ dropped s).

(** Sockets that are bound but not listed yet are [pending]. *)
Record binding (pending : list nat) s : Prop := {
  so_keys : NoDup (workers_ s).*1;
  so_workers : NoDup (workers_ s).*2;
  so_old w : w ∈ (workers_ s).*2 -> w < nextAcceptor s;
  so_sockets : NoDup (sockets_ s ++ pending);
  so_listed k : k ∈ sockets_ s -> exists x, sockets s !! k = Some x /\ accepting x s;
  so_only k x : sockets s !! k = Some x -> k ∈ sockets_ s ++ pending /\ k < nextSocket s;
  so_pending k : k ∈ pending -> exists x, sockets s !! k = Some x /\ callbacks x = [];
  so_dropped w : w ∈ dropped s -> w ∉ (workers_ s).*2 /\ w < nextAcceptor s
}.
Definition server_ok : Server -> Prop := binding [].

(** The sockets that are there keep their callbacks. *)
Definition grows s s' : Prop :=
  forall k x, sockets s !! k = Some x -> exists x', sockets s' !! k = Some x' /\ callbacks x `prefix_of` callbacks x'.
#[local] Instance grows_po : PreOrder grows.
Proof.
  split; [by intros s k x E; exists x|]. intros s1 s2 s3 H1 H2 k x E.
  destruct (H1 k x E) as (x1 & E1 & P1). destruct (H2 k x1 E1) as (x2 & E2 & P2). exists x2. split; [done|by trans (callbacks x1)].
Qed.
Lemma grows_setSocket k l x s : sockets s !! k = Some x -> grows s (setSocket k (addCallbacks l x) s).
Proof.
  intros E j y Ej. simpl. destruct (decide (j = k)) as [->|Hne].
  - rewrite lookup_insert_eq. eexists. split; [done|]. simpl. assert (x = y) as -> by congruence. by apply prefix_app_r.
  - rewrite lookup_insert_ne by done. by exists y.
Qed.

Lemma accepting_callbacks x s w : accepting x s -> w ∈ callbacks x -> w ∈ (workers_ s).*2 \/ w ∈ dropped s.
Proof. intros (_ & kept & Hc & _ & Hd). rewrite Hc, elem_of_app. intros [?|?]; [by left|right; by apply Hd]. Qed.

(** A new acceptor is added to the workers and to the callbacks. *)
Lemma accepting_added w x s s' :
  accepting x s -> (workers_ s').*2 ≡ₚ w :: (workers_ s).*2 -> dropped s' = dropped s -> w ∉ callbacks x ->
  accepting (addCallbacks [w] x) s'.
Proof.
  intros (Hn & kept & Hc & Ht & Hd) Hw Hdr Hnew. split; simpl.
  - apply NoDup_app. split; [done|]. split; [|apply NoDup_singleton]. by intros v Hv ->%list_elem_of_singleton.
  - exists kept. rewrite Hw, Hdr, Hc. split; [|done]. simpl. by rewrite <- Permutation_cons_append.
Qed.

Lemma insertWorker_perm h w l : h ∉ l.*1 -> insertWorker h w l ≡ₚ (h, w) :: l.
Proof.
  induction l as [|[h' w'] l IH]; [done|]. simpl. rewrite not_elem_of_cons. intros [Hne Hin].
  rewrite decide_False by done. case_decide; [done|]. rewrite IH by done. apply perm_swap.
Qed.

Lemma threadStarted_ok h s : server_ok s -> assoc h (workers_ s) = None ->
  exists s', threadStarted h false s = (Ok tt, s') /\ server_ok s' /\ workers_ s' = insertWorker h (nextAcceptor s) (workers_ s) /\
    grows s s'.
Proof.
  intros [Hk Hw Ho Hs Hl Honly _ Hd] Hh. rewrite app_nil_r in Hs, Honly. apply assoc_None in Hh. unfold threadStarted. rewrite bind_get, bind_modify, bind_get. simpl.
  pose proof (insertWorker_perm h (nextAcceptor s) (workers_ s) Hh) as Hp. set (ws := insertWorker _ _ _) in *. set (s1 := mkServer _ _ _ _ _ _ _).
  destruct (for_each_sockets (fun k => addAcceptCB k (nextAcceptor s)) (addCallbacks [nextAcceptor s]) (fun _ => True) (sockets_ s))
    with (s := s1) as (m & Em & H1 & H2).
  { intros k s2 x E _. by apply addAcceptCB_eq. }
  { done. }
  { intros k Hin. destruct (Hl k Hin) as (x & E & _). by exists x. }
  simpl in H1, H2. eexists. split; [exact Em|]. split; [|split; [done|]].
  2: { intros k x E. simpl. destruct (decide (k ∈ sockets_ s)) as [Hin|Hin].
       - rewrite H1, E by done. eexists. split; [done|]. by apply prefix_app_r.
       - rewrite H2 by done. by exists x. }
  simpl. pose proof (fmap_Permutation fst _ _ Hp) as Hp1. pose proof (fmap_Permutation snd _ _ Hp) as Hp2. simpl in Hp1, Hp2.
  assert (Hnew : nextAcceptor s ∉ (workers_ s).*2) by (intros Hin; specialize (Ho _ Hin); lia).
  split; simpl; rewrite ?app_nil_r.
  - rewrite Hp1. by constructor.
  - rewrite Hp2. by constructor.
  - intros w. rewrite Hp2, elem_of_cons. intros [->|Hin]; [lia|]. specialize (Ho w Hin). lia.
  - done.
  - intros k Hin. destruct (Hl k Hin) as (x & E & Hc). exists (addCallbacks [nextAcceptor s] x). rewrite H1, E by done.
    split; [done|]. apply (accepting_added _ _ s); [done|done|done|].
    intros [Hw'%Ho|Hw'%Hd]%(accepting_callbacks _ s); [lia| |done]. destruct Hw' as [_ ?]. lia.
  - intros k x E. destruct (decide (k ∈ sockets_ s)) as [Hin|Hin].
    + destruct (Hl k Hin) as (y & E' & _). split; [done|]. by eapply Honly.
    + rewrite H2 in E by done. by eapply Honly.
  - by intros k ?%elem_of_nil.
  - intros w Hin. destruct (Hd w Hin) as [Hn Hlt]. rewrite Hp2, not_elem_of_cons. split_and!; [lia|done|lia].
Qed.

Lemma without_workers h w (ws : list (nat * nat)) :
  NoDup ws.*1 -> NoDup ws.*2 -> assoc h ws = Some w -> (without h ws).*2 = filter (fun v => v <> w) ws.*2.
Proof.
  unfold without. induction ws as [|[h' w'] ws IH]; [done|]. simpl. intros [Hh Hk]%NoDup_cons [Hw Hn]%NoDup_cons.
  rewrite !filter_cons. simpl. case_decide as Hd.
  - intros [= ->]. subst h'. rewrite decide_False by (intros Hf; by apply Hf). rewrite decide_False by (intros Hf; by apply Hf).
    change (filter (fun p : nat * nat => p.1 <> h) ws) with (without h ws). rewrite without_id by done.
    symmetry. apply filter_all. by intros v Hv ->.
  - intros E. rewrite decide_True by done. rewrite decide_True.
    + simpl. f_equal. by apply IH.
    + intros ->. apply Hw. apply assoc_elem in E. by apply (list_elem_of_fmap_2 snd) in E.
Qed.

Lemma filter_ne_perm (w : nat) l : NoDup l -> w ∈ l -> l ≡ₚ w :: filter (fun v => v <> w) l.
Proof.
  intros Hn Hw. apply NoDup_Permutation; [done| |].
  - constructor; [by intros [? _]%list_elem_of_filter|by apply NoDup_filter].
  - intros v. rewrite elem_of_cons, list_elem_of_filter. destruct (decide (v = w)) as [->|]; naive_solver.
Qed.

(** The acceptor of a thread that stops is taken out of the callbacks, or, with
    UDP, is kept among them. *)
Lemma accepting_stopped w x s s' :
  accepting x s -> w ∈ (workers_ s).*2 -> NoDup (workers_ s).*2 ->
  (workers_ s').*2 = filter (fun v => v <> w) (workers_ s).*2 -> dropped s' = dropped s ++ [w] ->
  accepting (if decide (factory = AsyncServerSocketFactory) then dropCallback w x else x) s'.
Proof.
  intros (Hn & kept & Hc & Ht & Hd) Hin Hnd Hw Hdr. unfold accepting. rewrite Hw, Hdr. destruct (decide (factory = _)) as [Hf|Hf].
  - split; [by apply NoDup_filter|]. exists []. rewrite app_nil_r, (Ht Hf), app_nil_r in *. split; [simpl; by rewrite Hc|].
    split; [done|by intros v ?%elem_of_nil].
  - split; [done|]. exists (w :: kept). split; [|split; [done|]].
    + rewrite Hc, <- Permutation_middle. change (w :: filter _ _ ++ kept) with ((w :: filter (fun v => v <> w) (workers_ s).*2) ++ kept).
      f_equiv. by apply filter_ne_perm.
    + intros v [->|Hv]%elem_of_cons; apply elem_of_app; [right; by left|left; by apply Hd].
Qed.

Lemma threadStopped_ok h s : server_ok s ->
  exists s', threadStopped factory h s = (Ok tt, s') /\ server_ok s' /\ (factory = AsyncUDPServerSocketFactory -> grows s s').
Proof.
  intros Hok. pose proof Hok as [Hk Hw Ho Hs Hl Honly _ Hd]. rewrite app_nil_r in Hs, Honly. unfold threadStopped, threadStoppedBy. rewrite bind_get.
  destruct (assoc h (workers_ s)) as [w|] eqn:E; [|by exists s]. rewrite bind_modify.
  assert (Hin : w ∈ (workers_ s).*2) by (apply assoc_elem in E; by apply (list_elem_of_fmap_2 snd) in E).
  set (g := fun x => if decide (factory = AsyncServerSocketFactory) then dropCallback w x else x).
  destruct (for_each_sockets (fun k => factoryRemoveAcceptCB factory k w) g (fun x => NoDup (callbacks x) /\ w ∈ callbacks x) (sockets_ s))
    with (s := setWorkers (without h (workers_ s)) s) as (m & Em & H1 & H2).
  { intros k s2 x Ex Hx. unfold g. destruct factory; [by apply removeAcceptCB_eq|]. simpl.
    unfold udpRemoveAcceptCB, ret, setSocket. rewrite insert_id by done. by destruct s2. }
  { done. }
  { intros k Hkin. destruct (Hl k Hkin) as (x & Ex & Hn & kept & Hc & _). exists x. split; [done|]. split; [done|].
    rewrite Hc. apply elem_of_app. by left. }
  rewrite (bind_Ok _ _ _ _ _ Em). eexists. split; [done|]. simpl in *. split.
  2: { intros Hf k x Ex. simpl. exists x. split; [|done]. destruct (decide (k ∈ sockets_ s)) as [Hkin|Hkin].
       - rewrite H1, Ex by done. simpl. unfold g. by rewrite Hf.
       - by rewrite H2. }
  assert (Ew : (without h (workers_ s)).*2 = filter (fun v => v <> w) (workers_ s).*2) by (by apply without_workers).
  split; simpl; rewrite ?Ew, ?app_nil_r.
  - by apply without_NoDup.
  - by apply NoDup_filter.
  - intros v [_ Hv]%list_elem_of_filter. by apply Ho.
  - done.
  - intros k Hkin. destruct (Hl k Hkin) as (x & Ex & Hc). exists (g x). rewrite H1, Ex by done.
    split; [done|]. by apply (accepting_stopped w x s).
  - intros k x Ex. destruct (decide (k ∈ sockets_ s)) as [Hkin|Hkin].
    + destruct (Hl k Hkin) as (y & E' & _). split; [done|]. by eapply Honly.
    + rewrite H2 in Ex by done. by eapply Honly.
  - by intros k ?%elem_of_nil.
  - intros v [Hv|Hv]%elem_of_app.
    + destruct (Hd v Hv) as [Hn Hlt]. split; [|done]. intros [_ Hv']%list_elem_of_filter. done.
    + apply list_elem_of_singleton in Hv as ->. split; [|by apply Ho]. intros [Hv' _]%list_elem_of_filter. done.
Qed.

(** ** Binding *)

Lemma startSockets_keys n : forall a r k k' x,
  (k', x) ∈ (startSockets bindTo n a r k).1 -> k <= k' < k + n /\ callbacks x = [] /\ reuse x = r.
Proof.
  induction n as [|n IH]; intros a r k k' x; simpl; [by intros ?%elem_of_nil|].
  destruct (bindTo a r k) as [a'|].
  - specialize (IH a' r (S k) k' x). destruct (startSockets bindTo n a' r (S k)) as [l exn]. simpl in *.
    intros [[= -> ->]|Hin]%elem_of_cons; [simpl; split_and!; done || lia|]. destruct (IH Hin) as (? & ? & ?). split_and!; done || lia.
  - specialize (IH a r (S k) k' x). destruct (startSockets bindTo n a r (S k)) as [l exn]. simpl in *.
    intros Hin. destruct (IH Hin) as (? & ? & ?). split_and!; done || lia.
Qed.
Lemma startSockets_NoDup n : forall a r k, NoDup (startSockets bindTo n a r k).1.*1.
Proof.
  induction n as [|n IH]; intros a r k; simpl; [constructor|]. destruct (bindTo a r k) as [a'|].
  - specialize (IH a' r (S k)). pose proof (fun k' x => startSockets_keys n a' r (S k) k' x) as Hkeys.
    destruct (startSockets bindTo n a' r (S k)) as [l exn]. simpl in *. constructor; [|done].
    intros ([k' x] & Heq & Hin)%list_elem_of_fmap. simpl in Heq. subst k'. specialize (Hkeys _ _ Hin). lia.
  - specialize (IH a r (S k)). by destruct (startSockets bindTo n a r (S k)) as [l exn].
Qed.

(** One socket more accepts for everyone. *)
Lemma bind_one k pending s : binding (k :: pending) s ->
  exists s', (do! acceptOn k in listSocket k) s = (Ok tt, s') /\ binding pending s' /\ grows s s'.
Proof.
  intros [Hk Hw Ho Hs Hl Honly Hp Hd]. destruct (Hp k) as (x & E & Hx); [by left|].
  unfold acceptOn, forEachWorker. rewrite bind_assoc, bind_get.
  rewrite (bind_Ok _ _ _ _ _ (acceptOn_loop k (workers_ s) s x E)). eexists. split; [done|].
  split; [|by apply (grows_setSocket k (workers_ s).*2 x s)].
  assert (Hnd : k ∉ sockets_ s ++ pending /\ NoDup (sockets_ s ++ pending)).
  { rewrite <- (Permutation_middle (sockets_ s) pending k) in Hs. by apply NoDup_cons in Hs. }
  destruct Hnd as [Hkin Hnd]. split; simpl; try done.
  - rewrite <- app_assoc. simpl. exact Hs.
  - intros j [Hj| ->%list_elem_of_singleton]%elem_of_app.
    + rewrite lookup_insert_ne by (intros ->; set_solver). by apply Hl.
    + eexists. rewrite lookup_insert_eq. split; [done|]. unfold accepting. simpl. rewrite Hx. split; [done|].
      exists []. rewrite app_nil_r. split_and!; [done|done|by intros w ?%elem_of_nil].
  - intros j y. destruct (decide (j = k)) as [->|Hne].
    + intros _. split; [set_solver|]. by eapply Honly.
    + rewrite lookup_insert_ne by done. intros Ey. destruct (Honly j y Ey) as [Hj Hlt]. split; [set_solver|done].
  - intros j Hj. rewrite lookup_insert_ne by (intros ->; set_solver). apply Hp. by right.
Qed.

Lemma bind_all pending : forall s, binding pending s ->
  exists s', for_each pending (fun k => do! acceptOn k in listSocket k) s = (Ok tt, s') /\ server_ok s' /\ grows s s'.
Proof.
  induction pending as [|k pending IH]; intros s Hs; cbn [for_each]; [by exists s|].
  destruct (bind_one k pending s Hs) as (s1 & E1 & H1 & G1). rewrite (bind_Ok _ _ _ _ _ E1).
  destruct (IH s1 H1) as (s2 & E2 & H2 & G2). exists s2. split_and!; [done..|by trans s1].
Qed.

Lemma bindImpl_ok n r a s : server_ok s ->
  exists res s', bindImpl bindTo n r a s = (res, s') /\ server_ok s' /\
    (res = Ok tt \/ res = Err (RuntimeError "newSocket")) /\ grows s s'.
Proof.
  intros [Hk Hw Ho Hs Hl Honly _ Hd]. rewrite app_nil_r in Hs, Honly. unfold bindImpl. rewrite bind_get.
  pose proof (startSockets_keys (Nat.max 1 n) a (r || (1 <? n)) (nextSocket s)) as Hkeys.
  pose proof (startSockets_NoDup (Nat.max 1 n) a (r || (1 <? n)) (nextSocket s)) as Hnd.
  destruct (startSockets bindTo _ _ _ _) as [new exn]. cbn [fst] in Hkeys, Hnd. rewrite bind_modify. destruct exn.
  - eexists _, _. split; [done|]. split; [|split; [by right|by intros k x ?; exists x]]. split; simpl; rewrite ?app_nil_r; try done; [|by intros k ?%elem_of_nil].
    intros k x E. destruct (Honly k x E). split; [done|lia].
  - rewrite bind_modify. set (s1 := mkServer _ _ _ _ _ _ _).
    assert (Hfresh : forall k x, (k, x) ∈ new -> k ∉ sockets_ s).
    { intros k x Hin Hkin. destruct (Hl k Hkin) as (y & Ey & _). destruct (Honly k y Ey) as [_ Hlt]. specialize (Hkeys k x Hin). lia. }
    assert (Hb : binding new.*1 s1).
    { split; simpl; try done.
      - apply NoDup_app. split; [done|]. split; [|done]. intros k Hkin ([k' x] & -> & Hin)%list_elem_of_fmap. by eapply Hfresh.
      - intros k Hkin. rewrite lookup_union_r; [by apply Hl|]. apply not_elem_of_list_to_map_1.
        intros ([k' x] & -> & Hin)%list_elem_of_fmap. by eapply Hfresh.
      - intros k x [E|[_ E]]%lookup_union_Some_raw.
        + apply elem_of_list_to_map in E; [|done]. split; [|specialize (Hkeys k x E); lia].
          apply elem_of_app. right. by apply (list_elem_of_fmap_2 fst) in E.
        + destruct (Honly k x E). split; [set_solver|lia].
      - intros k ([k' x] & -> & Hin)%list_elem_of_fmap. exists x. split; [|by apply (Hkeys k' x)].
        apply lookup_union_Some_l. by apply elem_of_list_to_map_1. }
    destruct (bind_all _ _ Hb) as (s' & E' & Hok & G'). exists (Ok tt), s'. split; [exact E'|]. split; [done|].
    split; [by left|]. trans s1; [|done]. intros k x E. exists x. split; [|done]. simpl. rewrite lookup_union_r; [done|].
    apply not_elem_of_list_to_map_1. intros ([k' y] & -> & Hin)%list_elem_of_fmap.
    destruct (Honly _ x E) as [_ Hlt]. specialize (Hkeys _ _ Hin). simpl in Hlt. lia.
Qed.

Lemma stop_ok s : server_ok s -> exists s', stop s = (Ok tt, s') /\ server_ok s'.
Proof.
  intros [Hk Hw Ho Hs Hl Honly _ Hd]. rewrite app_nil_r in Hs, Honly. eexists. split; [done|].
  split; simpl; try done; [constructor|by intros k ?%elem_of_nil| |by intros k ?%elem_of_nil].
  intros k x [E Hn]%map_lookup_filter_Some. destruct (Honly k x E) as [Hin _]. by exfalso; apply Hn.
Qed.

Lemma bindSocket_ok a s : server_ok s -> exists s', bindSocket 1 a s = (Ok tt, s') /\ server_ok s' /\ grows s s'.
Proof.
  intros [Hk Hw Ho Hs Hl Honly _ Hd]. rewrite app_nil_r in Hs, Honly. unfold bindSocket. cbn [Nat.eqb negb].
  rewrite bind_get, bind_modify. match goal with |- context [bind _ _ ?s0] => set (s1 := s0) end.
  assert (G1 : grows s s1).
  { intros k x E. exists x. split; [|done]. simpl. destruct (Honly k x E). by rewrite lookup_insert_ne by lia. }
  destruct (bind_one (nextSocket s) [] s1) as (s2 & E2 & H2 & G2); [|exists s2; split_and!; [done..|by trans s1]].
  assert (Hnew : forall k, k ∈ sockets_ s -> k <> nextSocket s).
  { intros k Hkin. destruct (Hl k Hkin) as (x & E & _). destruct (Honly k x E). lia. }
  split; simpl; try done.
  - apply NoDup_app. split; [done|]. split; [|repeat constructor; by intros ?%elem_of_nil].
    intros k Hkin ->%list_elem_of_singleton. by apply (Hnew _ Hkin).
  - intros k Hkin. rewrite lookup_insert_ne by (by apply not_eq_sym, Hnew). by apply Hl.
  - intros k x [[<- <-]|[_ E]]%lookup_insert_Some; [split; [set_solver|lia]|].
    destruct (Honly k x E). split; [set_solver|lia].
  - intros k ->%list_elem_of_singleton. eexists. rewrite lookup_insert_eq. done.
Qed.

Lemma insertWorker_assoc h w j l : j <> h -> assoc j (insertWorker h w l) = assoc j l.
Proof.
  intros Hj. induction l as [|[h' w'] l IH]; simpl; [by rewrite decide_False by done|].
  case_decide as Hh; [done|]. case_decide; simpl; [by rewrite decide_False by done|]. by rewrite IH.
Qed.

Lemma addObserver_ok threads : forall s, server_ok s -> NoDup threads -> (forall h, h ∈ threads -> assoc h (workers_ s) = None) ->
  exists s', addObserver threads s = (Ok tt, s') /\ server_ok s' /\ grows s s'.
Proof.
  unfold addObserver. induction threads as [|h threads IH]; intros s Hok Hn Hh; cbn [for_each]; [by exists s|].
  apply NoDup_cons in Hn as [Hnew Hn].
  destruct (threadStarted_ok h s Hok) as (s1 & E1 & Hok1 & Hw1 & G1); [apply Hh; by left|]. rewrite (bind_Ok _ _ _ _ _ E1).
  destruct (IH s1) as (s2 & E2 & H2 & G2); [done|done| |exists s2; split_and!; [done..|by trans s1]]. intros j Hj. rewrite Hw1, insertWorker_assoc by (by intros ->). apply Hh. by right.
Qed.

Definition serverRun (evs : list ServerEvent) : Server :=
  fold_left (fun s ev => (serverEvent bindTo factory ev s).2) evs newServer.

Definition isStop (ev : ServerEvent (Address:=Address)) : bool := if ev is Stop then true else false.

Lemma serverEvent_ok ev s : server_ok s ->
  server_ok (serverEvent bindTo factory ev s).2 /\
  (factory = AsyncUDPServerSocketFactory -> isStop ev = false -> grows s (serverEvent bindTo factory ev s).2) /\
  (forall f, (serverEvent bindTo factory ev s).1 = Err f -> is_exception f = true \/ exists n a, ev = BindSocket n a /\ n <> 1).
Proof.
  intros Hok. assert (Hsame : grows s s) by done. unfold serverEvent. rewrite bind_get.
  destruct ev as [h [|]|h|n r a|n a|threads|].
  - destruct (assoc h (workers_ s)); (split; [done|]); (split; [done|]); [done|]. intros f [= <-]. by left.
  - destruct (assoc h (workers_ s)) eqn:E; [by split|]. cbn [when].
    destruct (threadStarted_ok h s Hok E) as (s' & -> & H' & _ & G'). by split.
  - destruct (threadStopped_ok h s Hok) as (s' & -> & H' & G'). split; [done|]. split; [by intros Hf _; apply G'|done].
  - destruct (bindImpl_ok n r a s Hok) as (res & s' & -> & H' & Hres & G'). split; [done|]. split; [done|]. intros f. simpl.
    destruct Hres as [->| ->]; [done|]. intros [= <-]. by left.
  - case_bool_decide as Hf; cbn [when]; [|by split]. destruct (decide (n = 1)) as [->|Hn].
    + destruct (bindSocket_ok a s Hok) as (s' & -> & H' & G'). by split.
    + unfold bindSocket. rewrite (proj2 (Nat.eqb_neq _ _) Hn). split; [done|]. split; [done|]. intros f _. right. by exists n, a.
  - destruct (addObserver_ok (filter (fun h => assoc h (workers_ s) = None) (remove_dups threads)) s Hok) as (s' & -> & H' & G').
    + apply NoDup_filter, NoDup_remove_dups.
    + by intros h [Hh _]%list_elem_of_filter.
    + by split.
  - destruct (stop_ok s Hok) as (s' & -> & H'). by split.
Qed.

Lemma serverRun_ok evs : server_ok (serverRun evs).
Proof.
  unfold serverRun. assert (Hinit : server_ok (newServer (Address:=Address))).
  { split; simpl; try by constructor.
    all: by intros ? ?%elem_of_nil. }
  revert Hinit. generalize (newServer (Address:=Address)). induction evs as [|ev evs IH]; intros s Hs; [done|]. simpl. apply IH.
  by apply serverEvent_ok.
Qed.

(** C30. However threads start and stop and sockets are bound, one after the
    other: no call ends in anything but the exception of a socket or an
    acceptor that cannot be made, or the CHECK that an existing socket is given
    to a single acceptor thread; and every listening socket has each acceptor
    of the current workers among its accept callbacks, once.  With TCP sockets
    these are all of its callbacks, so that no socket calls an acceptor that
    was dropped.  With UDP sockets, whose factory removes no callback, the
    others are acceptors that were dropped, and no event but [stop] takes any
    callback from a socket: the acceptor of each thread that stops is still
    called after its end. *)
Theorem workers_accept_everywhere (evs : list ServerEvent) ev :
  let s := serverRun evs in
  (forall f, (serverEvent bindTo factory ev s).1 = Err f -> is_exception f = true \/ exists n a, ev = BindSocket n a /\ n <> 1) /\
  (forall k, k ∈ sockets_ s <-> is_Some (sockets s !! k)) /\
  (forall w, w ∈ dropped s -> w ∉ (workers_ s).*2) /\
  (forall k x, sockets s !! k = Some x -> NoDup (callbacks x) /\
     match factory with
     | AsyncServerSocketFactory => callbacks x ≡ₚ (workers_ s).*2
     | AsyncUDPServerSocketFactory =>
         (exists kept, callbacks x ≡ₚ (workers_ s).*2 ++ kept /\ forall w, w ∈ kept -> w ∈ dropped s) /\
         (isStop ev = false -> exists x', sockets (serverEvent bindTo factory ev s).2 !! k = Some x' /\
            callbacks x `prefix_of` callbacks x')
     end).
Proof.
  intros s. pose proof (serverRun_ok evs) as Hok. fold s in Hok.
  destruct (serverEvent_ok ev s Hok) as (_ & Hg & Hf). destruct Hok as [Hk Hw Ho Hs Hl Honly _ Hd].
  split; [exact Hf|]. split; [|split].
  - intros k. split; [intros Hin; destruct (Hl k Hin) as (x & E & _); by exists x|].
    intros [x E]. destruct (Honly k x E) as [Hin _]. by rewrite app_nil_r in Hin.
  - intros w Hin. by apply Hd.
  - intros k x E. destruct (Honly k x E) as [Hin _]. rewrite app_nil_r in Hin.
    destruct (Hl k Hin) as (y & E' & Hn & kept & Hc & Ht & Hkept). assert (x = y) as -> by congruence.
    split; [done|]. destruct factory.
    + rewrite (Ht eq_refl), app_nil_r in Hc. exact Hc.
    + split; [by exists kept|]. intros Hev. by apply (Hg eq_refl Hev).
Qed.

(** Starting a thread while a socket is being bound: between the loop over the
    workers and the listing of the socket, the new acceptor sees neither. *)
Lemma bind_race_misses_worker k h s x :
  server_ok s -> sockets s !! k = Some x -> k ∉ sockets_ s -> callbacks x = [] -> assoc h (workers_ s) = None ->
  exists s', (do! acceptOn k in do! threadStarted h false in listSocket k) s = (Ok tt, s') /\
    k ∈ sockets_ s' /\ assoc h (workers_ s') = Some (nextAcceptor s) /\
    (exists y, sockets s' !! k = Some y /\ nextAcceptor s ∉ callbacks y).
Proof.
  intros [Hk Hw Ho Hs Hl Honly _ _] E Hkin Hx Hh. rewrite app_nil_r in Hs.
  unfold acceptOn, forEachWorker. rewrite bind_assoc, bind_get.
  rewrite (bind_Ok _ _ _ _ _ (acceptOn_loop k (workers_ s) s x E)). set (s1 := setSocket _ _ s).
  unfold threadStarted. rewrite bind_assoc, bind_get, bind_assoc, bind_modify, bind_assoc, bind_get.
  cbn [workers_ sockets_ sockets nextAcceptor nextSocket dropped stopped_ s1 setSocket]. set (s2 := mkServer _ _ _ _ _ _ _).
  destruct (for_each_sockets (fun k => addAcceptCB k (nextAcceptor s)) (addCallbacks [nextAcceptor s]) (fun _ => True) (sockets_ s))
    with (s := s2) as (m & Em & H1 & H2).
  { intros j s3 y Ey _. by apply addAcceptCB_eq. }
  { done. }
  { intros j Hj. destruct (Hl j Hj) as (y & Ey & _). exists y. simpl. by rewrite lookup_insert_ne by (intros ->; done). }
  rewrite (bind_Ok _ _ _ _ _ Em). eexists. split; [done|]. simpl. split; [set_solver|]. apply assoc_None in Hh. split.
  - clear -Hh. induction (workers_ s) as [|[h' w'] l IH]; simpl; [by rewrite decide_True|].
    simpl in Hh. apply not_elem_of_cons in Hh as [Hne Hh]. rewrite decide_False by done.
    case_decide; simpl; [by rewrite decide_True|]. rewrite decide_False by done. by apply IH.
  - rewrite (H2 k Hkin). simpl. rewrite lookup_insert_eq. eexists. split; [done|]. simpl. rewrite Hx. simpl.
    intros Hin. specialize (Ho _ Hin). lia.
Qed.
End workers.

(** ** At concrete inputs *)

#[local] Instance listSockets : AcceptSockets.
Proof. refine {| removeAcceptCallback w l := Ok (filter (fun v => v <> w) l) |}. done. Defined.

Lemma workers_accept_everywhere_witness :
  let evs := [ThreadStarted 4 false; Bind 2 false 80; ThreadStarted 2 false; ThreadStarted 9 false; ThreadStopped 4] in
  let s := serverRun AsyncServerSocketFactory (fun a _ _ => Some (a : nat)) evs in
  workers_ s = [(2, 1); (9, 2)] /\
  forall k x, sockets s !! k = Some x -> callbacks x ≡ₚ (workers_ s).*2.
Proof.
  intros evs s. split; [vm_compute; reflexivity|].
  destruct (workers_accept_everywhere AsyncServerSocketFactory (fun a _ _ => Some (a : nat)) evs Stop) as (_ & _ & _ & H).
  intros k x E. exact (proj2 (H k x E)).
Defined.

(** UDP sockets keep the callback of a worker that stops: the acceptor is gone,
    and the next datagram is handed to it. *)
Lemma udp_keeps_stopped_worker :
  let s := serverRun AsyncUDPServerSocketFactory (fun a _ _ => Some (a : nat))
    [ThreadStarted 4 false; ThreadStarted 5 false; Bind 1 false 53; ThreadStopped 4] in
  dropped s = [0] /\ callbacks <$> sockets s !! 0 = Some [0; 1].
Proof. vm_compute. done. Qed.

(** The default groups, and the two factories that exclude one another. *)
Example group_defaults :
  group false true None None 0 = Ok (mkGroups 1 8 false) /\ group true true None None 4 =
    Err (CheckFailed "!(acceptorFactory_ && childPipelineFactory_)").
Proof. done. Qed.
