(* ===== verification/ServerAcceptor.v ===== *)
(** * The acceptor of a server (src/wangle/bootstrap/ServerBootstrap-inl.h)

    [ServerAcceptor] is an [Acceptor] (Acceptor.v) that gives each new connection
    to an accept pipeline, of which it is itself the last handler: there it
    makes the pipeline of the connection and a [ServerConnection] that owns it,
    which the connection manager lists.

    The acceptor is one without TLS; one with TLS reaches [connectionReady]
    through the handshakes of Acceptor.v.  Everything happens on the thread of its
    event base.  A connection and its transport have the same number.  That a
    connection has a connection manager and that it is listed are one thing here
    (ConnectionProps.v).

    The pipelines made for the connections, and the handlers a user puts into the
    accept pipeline, are not of the repository: what they do is a parameter. *)
From Stdlib Require Import ZArith Lia SpecFloat.
From stdpp Require Import base numbers list gmap strings.
From S2P Require Import Prelude.
From S2P Require Connections Acceptor.
Open Scope cpp_scope.

Set Default Goal Selector "!".

#[local] Existing Instance Acceptor.State_eq_dec.

(** [AcceptorException] *)
Inductive ExceptionType : Type :=
| UNKNOWN | TIMED_OUT | DROPPED | ACCEPT_STOPPED | DRAIN_CONN_PCT | DROP_CONN_PCT | FORCE_STOP | INTERNAL_ERROR.
Record AcceptorException : Type := mkException {
  type_ : ExceptionType;
  message_ : string;
  pct_ : spec_float
}.
Definition exception (type : ExceptionType) (message : string) : AcceptorException :=
  mkException type message (S754_zero false).

(** The events of a child pipeline that the acceptor causes. *)
Inductive ChildEvent : Type :=
| TransportActive
| ReadException (e : AcceptorException).

(** Who has a transport: raw pointers only, an object that deletes it, nobody. *)
Inductive Owner : Type := Raw | Owned | Deleted.
#[export] Instance Owner_eq_dec : EqDecision Owner.
Proof. solve_decision. Defined.

Section server.
(** Addresses, kinds of transport, and the rest of [TransportInfo]. *)
Context {Addr Secure Info : Type}.

Record TransportInfo : Type := mkInfo {
  localAddr : option Addr;
  remoteAddr : option Addr;
  appProtocol : option string;
  otherInfo : Info
}.
Record ConnInfo : Type := mkConnInfo {
  sock : nat;
  clientAddr : Addr;
  nextProtoName : string;
  secureType : Secure;
  connTinfo : TransportInfo
}.

(** [AcceptPipelineType]; a buffer and a UDP socket are numbers. *)
Inductive AcceptPipelineType : Type :=
| Buffer (buf : nat)
| Transport (transport : nat)
| NewConn (conn : ConnInfo)
| CONN_ADDED
| CONN_REMOVED
| Datagram (buf socket : nat) (addr : Addr).

(** What the accept pipeline is given. *)
Inductive AcceptEvent : Type :=
| AcceptRead (m : AcceptPipelineType)
| AcceptReadException (e : AcceptorException).

(** [ServerConnection] with its pipeline: what the pipeline was told. *)
Record ServerConnection : Type := mkConnection {
  transportInfo : TransportInfo;
  events : list ChildEvent
}.

Record ServerAcceptor : Type := mkServerAcceptor {
  state_ : Acceptor.State;
  forceShutdownInProgress_ : bool;
  downstreamConnectionManager_ : option (list nat);
  nextConnection : nat;
  transports : gmap nat Owner;
  children : gmap nat ServerConnection;
  accepts : list AcceptEvent;
  calls : list Acceptor.AcceptorCall
}.
Local Notation S := ServerAcceptor.

Definition setState x (s : S) : S :=
  mkServerAcceptor x (forceShutdownInProgress_ s) (downstreamConnectionManager_ s) (nextConnection s)
    (transports s) (children s) (accepts s) (calls s).
Definition setForce x (s : S) : S :=
  mkServerAcceptor (state_ s) x (downstreamConnectionManager_ s) (nextConnection s) (transports s)
    (children s) (accepts s) (calls s).
Definition setManager x (s : S) : S :=
  mkServerAcceptor (state_ s) (forceShutdownInProgress_ s) x (nextConnection s) (transports s)
    (children s) (accepts s) (calls s).
Definition setNext x (s : S) : S :=
  mkServerAcceptor (state_ s) (forceShutdownInProgress_ s) (downstreamConnectionManager_ s) x (transports s)
    (children s) (accepts s) (calls s).
Definition setTransport c x (s : S) : S :=
  mkServerAcceptor (state_ s) (forceShutdownInProgress_ s) (downstreamConnectionManager_ s) (nextConnection s)
    (<[c := x]> (transports s)) (children s) (accepts s) (calls s).
Definition setChildren x (s : S) : S :=
  mkServerAcceptor (state_ s) (forceShutdownInProgress_ s) (downstreamConnectionManager_ s) (nextConnection s)
    (transports s) x (accepts s) (calls s).
Definition logAccept x (s : S) : S :=
  mkServerAcceptor (state_ s) (forceShutdownInProgress_ s) (downstreamConnectionManager_ s) (nextConnection s)
    (transports s) (children s) (accepts s ++ [x]) (calls s).
Definition call x : M S unit :=
  modify (fun s => mkServerAcceptor (state_ s) (forceShutdownInProgress_ s) (downstreamConnectionManager_ s)
    (nextConnection s) (transports s) (children s) (accepts s) (calls s ++ [x])).

(** The connections of the manager, the most recent first. *)
Definition listed (s : S) : list nat := default [] (downstreamConnectionManager_ s).

(** [bindAddress] of the configuration; [getLocalAddress] of a transport writes
    an address where there is one already, or throws; the factory of the child
    pipelines may throw; whether a pipeline closes on what it is told last. *)
Context (bindAddress : Addr).
Context (getLocalAddress : nat -> Addr -> option Addr).
Context (newPipelineThrows : nat -> bool).
Context (closes : nat -> list ChildEvent -> bool).

(** The inbound handlers that the factory of accept pipelines made, if any:
    whether they pass a message on.  [childPipelineFactory] tells whether there
    is a factory of child pipelines, and with it the acceptor in the pipeline. *)
Context (custom : option (AcceptPipelineType -> bool)).
Context (childPipelineFactory : bool).

(** An exception that leaves a [noexcept] function ends the process. *)
Definition noexcept {A} (c : M S A) : M S A := fun s =>
  match c s with
  | (Err f, s') => (Err (if is_exception f then CheckFailed "std::terminate" else f), s')
  | r => r
  end.

(** ** Ends of connections *)

(** [Acceptor::checkDrained] and [onEmpty] *)
Definition checkDrained : M S unit :=
  let! s := get in
  if negb (bool_decide (state_ s = Acceptor.kDraining)) then raise (CheckFailed "state_ == State::kDraining")
  else if forceShutdownInProgress_ s then ret tt
  else
    match downstreamConnectionManager_ s with
    | None => raise (Undefined "downstreamConnectionManager_")
    | Some (_ :: _) => ret tt
    | Some [] =>
        do! modify (setManager None) in
        do! modify (setState Acceptor.kDone) in
        call Acceptor.OnConnectionsDrained
    end.
Definition onEmpty : M S unit :=
  let! s := get in
  when (bool_decide (state_ s = Acceptor.kDraining)) checkDrained.

(** [read] and [readException] of the accept pipeline, when what reaches its
    last handler is given to [default]. *)
Definition acceptHandlers (default : AcceptPipelineType -> M S unit) (m : AcceptPipelineType) : M S unit :=
  match custom, childPipelineFactory with
  | None, false => raise (InvalidArgument "no inbound handler in Pipeline")
  | None, true => default m
  | Some pass, hasDefault => when (pass m && hasDefault) (default m)
  end.
Definition acceptReadException (e : AcceptorException) : M S unit :=
  do! modify (logAccept (AcceptReadException e)) in
  match custom, childPipelineFactory with
  | None, false => raise (InvalidArgument "no inbound handler in Pipeline")
  | _, _ => ret tt
  end.

(** [onConnectionAdded], [onConnectionRemoved]: [ServerAcceptor::read] returns
    at once for anything that is not a [ConnInfo&]. *)
Definition connectionEvent (m : AcceptPipelineType) : M S unit :=
  do! modify (logAccept (AcceptRead m)) in
  acceptHandlers (fun _ => ret tt) m.

(** [ConnectionManager::removeConnection] *)
Definition removeConnection (c : nat) : M S unit :=
  let! s := get in
  when (bool_decide (c ∈ listed s)) (
    do! modify (fun s => setManager (filter (.≠ c) <$> downstreamConnectionManager_ s) s) in
    do! connectionEvent CONN_REMOVED in
    let! s := get in
    when (length (listed s) =? 0) onEmpty).

(** [~ServerConnection]: the pipeline and its transport go, then the connection
    leaves its manager. *)
Definition destroyConnection (c : nat) : M S unit :=
  do! modify (fun s => setChildren (delete c (children s)) s) in
  do! modify (setTransport c Deleted) in
  removeConnection c.

(** [ServerConnection::deletePipeline] *)
Definition deletePipeline (c p : nat) : M S unit :=
  if bool_decide (p = c) then destroyConnection c else raise (CheckFailed "p == pipeline_.get()").

(** An event of the pipeline of a connection; the handlers may close it. *)
Definition tellChild (c : nat) (e : ChildEvent) : M S unit :=
  let! s := get in
  match children s !! c with
  | None => raise (Undefined "connection destroyed")
  | Some x =>
      let told := events x ++ [e] in
      do! modify (fun s => setChildren (<[c := mkConnection (transportInfo x) told]> (children s)) s) in
      when (closes c told) (deletePipeline c c)
  end.

(** [init], [timeoutExpired] and [dropConnection] of [ServerConnection]; its
    [notifyPendingShutdown] and [closeWhenIdle] do nothing and [isBusy] is true. *)
Definition initConnection (c : nat) : M S unit := tellChild c TransportActive.
Definition timeoutExpired (c : nat) : M S unit := tellChild c (ReadException (exception TIMED_OUT "timeout")).
Definition dropConnection (c : nat) : M S unit := tellChild c (ReadException (exception DROPPED "dropped")).
Definition closeWhenIdle (c : nat) : M S unit := ret tt.

(** ** New connections *)

(** [Acceptor::addConnection] *)
Definition addConnection (c : nat) : M S unit :=
  let! s := get in
  match downstreamConnectionManager_ s with
  | None => raise (Undefined "downstreamConnectionManager_")
  | Some l =>
      do! modify (setManager (Some (c :: l))) in
      connectionEvent CONN_ADDED
  end.

(** [ServerAcceptor::read].  From its second line on an object owns the
    transport, which an exception deletes. *)
Definition read (m : AcceptPipelineType) : M S unit :=
  match m with
  | NewConn conn =>
      let c := sock conn in
      match getLocalAddress c bindAddress with
      | None => do! modify (setTransport c Deleted) in raise (RuntimeError "getLocalAddress")
      | Some local =>
          let tInfo := mkInfo (Some local) (Some (clientAddr conn)) (Some (nextProtoName conn)) (otherInfo (connTinfo conn)) in
          if newPipelineThrows c then
            do! modify (setTransport c Deleted) in raise (RuntimeError "newPipeline")
          else
            do! modify (setTransport c Owned) in
            do! modify (fun s => setChildren (<[c := mkConnection tInfo []]> (children s)) s) in
            do! addConnection c in
            initConnection c
      end
  | _ => ret tt
  end.
Definition acceptRead (m : AcceptPipelineType) : M S unit :=
  do! modify (logAccept (AcceptRead m)) in
  acceptHandlers read m.

(** [ServerAcceptor::onNewConnection] *)
Definition onNewConnection (transport : nat) (addr : Addr) (protocol : string) (secure : Secure) (tinfo : TransportInfo) :
    M S unit :=
  do! modify (setTransport transport Raw) in
  acceptRead (NewConn (mkConnInfo transport addr protocol secure tinfo)).

(** [Acceptor::connectionReady] for a new socket. *)
Definition connectionReady (addr : Addr) (protocol : string) (secure : Secure) (tinfo : TransportInfo) : M S unit :=
  let! s := get in
  if Acceptor.stateNumber (state_ s) <? Acceptor.stateNumber Acceptor.kDraining then
    let c := nextConnection s in
    do! modify (setNext (c + 1)) in
    do! call (Acceptor.OnNewConnection c) in
    onNewConnection c addr protocol secure
      (mkInfo (localAddr tinfo) (remoteAddr tinfo) (Some protocol) (otherInfo tinfo))
  else call Acceptor.ClosedSocket.

(** [Acceptor::processEstablishedConnection], which is [noexcept] as all that
    calls it is. *)
Definition processEstablishedConnection (addr : Addr) (protocol : string) (secure : Secure) (tinfo : TransportInfo) :
    M S unit :=
  noexcept (connectionReady addr protocol secure tinfo).

(** [onDataAvailable] *)
Definition onDataAvailable (socket : nat) (addr : Addr) (buf : nat) : M S unit :=
  noexcept (acceptRead (Datagram buf socket addr)).

(** ** Stopping *)

(** [acceptStopped]: [drainAllConnections] calls methods of the connections
    that do nothing. *)
Definition acceptStopped : M S unit :=
  noexcept (
    do! acceptReadException (exception ACCEPT_STOPPED "graceful shutdown timeout") in
    let! s := get in
    do! for_each (listed s) closeWhenIdle in
    when (negb (bool_decide (state_ s = Acceptor.kDone)))
      (do! modify (setState Acceptor.kDraining) in
       checkDrained)).

(** [drainConnections], of a share of the connections. *)
Definition drainConnections (pct : spec_float) : M S unit :=
  noexcept (
    do! acceptReadException (mkException DRAIN_CONN_PCT "draining some connections" pct) in
    let! s := get in
    match Connections.portion (length (listed s)) pct with
    | None => raise (Undefined "double out of range")
    | Some n => for_each (take n (listed s)) closeWhenIdle
    end).

(** [dropConnections], of a share of the connections. *)
Definition dropConnections (pct : spec_float) : M S unit :=
  noexcept (
    do! acceptReadException (mkException DROP_CONN_PCT "dropping some connections" pct) in
    let! s := get in
    match downstreamConnectionManager_ s with
    | None => ret tt
    | Some l =>
        do! modify (setForce true) in
        match Connections.portion (length l) pct with
        | None => raise (Undefined "double out of range")
        | Some n => for_each (take n l) (fun c => do! removeConnection c in dropConnection c)
        end
    end).

(** [Acceptor::dropAllConnections] *)
Definition dropAllConnections : M S unit :=
  let! s := get in
  do! match downstreamConnectionManager_ s with
      | None => ret tt
      | Some l =>
          do! modify (setForce true) in
          do! for_each l (fun c =>
                do! modify (fun s => setManager (filter (.≠ c) <$> downstreamConnectionManager_ s) s) in
                dropConnection c) in
          do! onEmpty in
          let! s := get in
          match downstreamConnectionManager_ s with
          | None => raise (Undefined "downstreamConnectionManager_")
          | Some (_ :: _) => raise (CheckFailed "getNumConnections() == 0")
          | Some [] => modify (setManager None)
          end
      end in
  do! modify (setState Acceptor.kDone) in
  call Acceptor.OnConnectionsDrained.

(** [forceStop] *)
Definition forceStop : M S unit :=
  noexcept (
    do! acceptReadException (mkException FORCE_STOP "hard shutdown timeout" (S754_zero false)) in
    dropAllConnections).

(** ** What happens to the acceptor *)

(** [newAcceptor] of the factory: [init] with no server socket. *)
Definition initAcceptor : S := mkServerAcceptor Acceptor.kRunning false (Some []) 0 ∅ ∅ [] [].

Inductive ServerEvent : Type :=
| Ready (addr : Addr) (protocol : string) (secure : Secure) (tinfo : TransportInfo)
| DataAvailable (socket : nat) (addr : Addr) (buf : nat)
| Timeout (c : nat)                 (* of a connection that is listed *)
| ChildCloses (c : nat)             (* the pipeline of a connection asks to be deleted *)
| AcceptStopped
| DrainSome (pct : spec_float)
| DropSome (pct : spec_float)
| ForceStop
| WorkerStopped.                    (* [ServerWorkerPool::threadStopped] *)

Definition serverStep (ev : ServerEvent) : M S unit :=
  let! s := get in
  match ev with
  | Ready addr protocol secure tinfo => processEstablishedConnection addr protocol secure tinfo
  | DataAvailable socket addr buf => onDataAvailable socket addr buf
  | Timeout c => when (bool_decide (c ∈ listed s)) (timeoutExpired c)
  | ChildCloses c => when (bool_decide (is_Some (children s !! c))) (deletePipeline c c)
  | AcceptStopped => acceptStopped
  | DrainSome pct => drainConnections pct
  | DropSome pct => dropConnections pct
  | ForceStop => forceStop
  | WorkerStopped => dropAllConnections
  end.
Definition serverRun (evs : list ServerEvent) : M S unit := for_each evs serverStep.
End server.
Arguments ServerAcceptor : clear implicits.
