(* ===== verification/ServerAcceptorProps.v ===== *)
(** * The acceptor of a server: what becomes of its connections

    [server_connections_accounted]: in the default configuration no transport
    is lost, and the accept pipeline is told of every connection that comes and
    goes, those of a forced stop apart.  [server_refines_acceptor]: whatever the
    configuration, what the server does to its acceptor is what Acceptor.v says. *)
From Stdlib Require Import ZArith Lia SpecFloat.
From stdpp Require Import base numbers list gmap strings.
From S2P Require Import Prelude.
From S2P Require Connections Handshake HandshakeProps Acceptor AcceptorProps.
From S2P Require Import ServerAcceptor.
Open Scope cpp_scope.

Set Default Goal Selector "!".
#[local] Existing Instance Acceptor.State_eq_dec.

(** ** The default configuration *)

Section default.
Context {Addr Secure Info : Type}.
Local Notation S := (ServerAcceptor Addr Secure Info).
Implicit Types s : S.
Context (bindAddress : Addr) (getLocalAddress : nat -> Addr -> option Addr).
Context (newPipelineThrows : nat -> bool) (closes : nat -> list ChildEvent -> bool).

(** The accept pipeline is the acceptor alone. *)
Local Notation step := (serverStep bindAddress getLocalAddress newPipelineThrows closes None true).
Local Notation run := (serverRun bindAddress getLocalAddress newPipelineThrows closes None true).
Local Notation tell := (tellChild (Addr:=Addr) (Secure:=Secure) (Info:=Info) closes None true).
Local Notation remove := (removeConnection (Addr:=Addr) (Secure:=Secure) (Info:=Info) None true).
Local Notation close := (destroyConnection (Addr:=Addr) (Secure:=Secure) (Info:=Info) None true).

Definition isAdded (x : AcceptEvent (Addr:=Addr) (Secure:=Secure) (Info:=Info)) : bool :=
  match x with AcceptRead CONN_ADDED => true | _ => false end.
Definition isRemoved (x : AcceptEvent (Addr:=Addr) (Secure:=Secure) (Info:=Info)) : bool :=
  match x with AcceptRead CONN_REMOVED => true | _ => false end.

(** What a child pipeline is told: that it is active, then exceptions only. *)
Definition lifeOf (es : list ChildEvent) : Prop :=
  exists es', es = TransportActive :: es' /\ TransportActive ∉ es'.

(** [k] is the number of connections that left the manager without a word. *)
Record accounted (k : nat) (s : S) : Prop := {
  ac_nodup : NoDup (listed s);
  ac_listed c : c ∈ listed s -> is_Some (children s !! c);
  ac_fresh c : is_Some (children s !! c) -> c < nextConnection s;
  ac_transports c : transports s !! c =
    if decide (c < nextConnection s)
    then Some (if decide (is_Some (children s !! c)) then Owned else Deleted) else None;
  ac_life c x : children s !! c = Some x -> lifeOf (events x);
  ac_count : length (filter isAdded (accepts s)) =
    length (filter isRemoved (accepts s)) + length (listed s) + k;
  ac_done : downstreamConnectionManager_ s = None <-> state_ s = Acceptor.kDone
}.

Lemma accounted_init : accounted 0 initAcceptor.
Proof.
  split; simpl; try done.
  - apply NoDup_nil_2.
  - intros c Hc. by apply elem_of_nil in Hc.
  - intros c [x Hx]. by rewrite lookup_empty in Hx.
Qed.

Lemma filter_snoc {X} (f : X -> bool) l x : length (filter f (l ++ [x])) = length (filter f l) + (if f x then 1 else 0).
Proof. rewrite filter_app, length_app. rewrite filter_cons, filter_nil. by destruct (f x). Qed.

Lemma accounted_logAccept k s x :
  isAdded x = false -> isRemoved x = false -> accounted k s -> accounted k (logAccept x s).
Proof.
  intros Ha Hr []. split; try done. simpl. by rewrite !filter_snoc, Ha, Hr, !Nat.add_0_r.
Qed.

Lemma accounted_call k x s : accounted k s -> accounted k (call x s).2.
Proof. intros []. by split. Qed.

Lemma accounted_setForce k b s : accounted k s -> accounted k (setForce b s).
Proof. intros []. by split. Qed.

(** A connection leaves the manager, with or without a word. *)
Definition unlist (c : nat) s : S :=
  setManager (filter (.≠ c) <$> downstreamConnectionManager_ s) s.

Lemma listed_unlist c s : listed (unlist c s) = filter (.≠ c) (listed s).
Proof. unfold listed, unlist. simpl. by destruct (downstreamConnectionManager_ s). Qed.

Lemma accounted_unlist k c s : accounted k s -> c ∈ listed s -> accounted (Datatypes.S k) (unlist c s).
Proof.
  intros [Hn Hl Hf Ht He Hc Hd] Hin. pose proof (length_filter_ne _ _ Hn Hin) as Hlen. split; try done.
  - rewrite listed_unlist. by apply NoDup_filter.
  - intros d. rewrite listed_unlist. intros [_ ?]%elem_of_filter_ne. by apply Hl.
  - rewrite listed_unlist. simpl. lia.
  - simpl. rewrite <- Hd. by destruct (downstreamConnectionManager_ s).
Qed.

Lemma accounted_removed k s : accounted (Datatypes.S k) s -> accounted k (logAccept (AcceptRead CONN_REMOVED) s).
Proof. intros []. split; try done. simpl. rewrite !filter_snoc. simpl. unfold listed in *. simpl. lia. Qed.

(** A connection that is no longer listed is destroyed. *)
Definition gone (c : nat) s : S := setTransport c Deleted (setChildren (delete c (children s)) s).

Lemma accounted_gone k c s :
  accounted k s -> c ∉ listed s -> is_Some (children s !! c) -> accounted k (gone c s).
Proof.
  intros [Hn Hl Hf Ht He Hc Hd] Hin Hx. split; try done; simpl.
  - intros d Hd'. assert (d <> c) by (by intros ->). rewrite lookup_delete_ne by done. by apply Hl.
  - intros d. destruct (decide (d = c)) as [->|]; [by rewrite lookup_delete_eq; intros []|].
    rewrite lookup_delete_ne by done. apply Hf.
  - intros d. destruct (decide (d = c)) as [->|].
    + rewrite lookup_insert_eq, lookup_delete_eq, decide_True by by apply Hf. by rewrite decide_False by by intros [].
    + by rewrite lookup_insert_ne, lookup_delete_ne.
  - intros d x. destruct (decide (d = c)) as [->|]; [by rewrite lookup_delete_eq|].
    rewrite lookup_delete_ne by done. apply He.
Qed.

Lemma accounted_told k c x e s :
  accounted k s -> children s !! c = Some x -> e <> TransportActive ->
  accounted k (setChildren (<[c := mkConnection (transportInfo x) (events x ++ [e])]> (children s)) s).
Proof.
  intros [Hn Hl Hf Ht He Hc Hd] Hx Hne.
  assert (forall d, is_Some (<[c := mkConnection (transportInfo x) (events x ++ [e])]> (children s) !! d) <->
                    is_Some (children s !! d)) as Hsome.
  { intros d. rewrite lookup_insert_is_Some. destruct (decide (c = d)) as [<-|]; naive_solver. }
  split; try done; simpl.
  - intros d Hd'. apply Hsome. by apply Hl.
  - intros d Hd'%Hsome. by apply Hf.
  - intros d. rewrite Ht. destruct (decide (d < _)); [|done]. f_equal. by apply decide_ext.
  - intros d y [[<- <-]|[? ?]]%lookup_insert_Some; [|by apply (He d)].
    destruct (He c x Hx) as (es & Ees & Hnot). simpl. rewrite Ees. exists (es ++ [e]). split; [done|].
    rewrite elem_of_app, list_elem_of_singleton. naive_solver.
Qed.

(** ** The operations return *)

Lemma run_connectionEvent m s : connectionEvent None true m s = (Ok tt, logAccept (AcceptRead m) s).
Proof. done. Qed.

(** What an operation leaves alone. *)
Definition others (c : nat) s s' : Prop := forall d, d <> c -> children s' !! d = children s !! d.
Definition sameManager s s' : Prop :=
  downstreamConnectionManager_ s' = downstreamConnectionManager_ s /\ forceShutdownInProgress_ s' = forceShutdownInProgress_ s.

Lemma onEmpty_returns k s : accounted k s ->
  exists s', onEmpty s = (Ok tt, s') /\ accounted k s' /\ children s' = children s /\
    (forceShutdownInProgress_ s = true -> s' = s).
Proof.
  intros Hs. unfold onEmpty, checkDrained. rewrite bind_get.
  destruct (decide (state_ s = Acceptor.kDraining)) as [E|]; [|by rewrite bool_decide_false; eauto].
  rewrite bool_decide_true by done. simpl. rewrite bind_get, bool_decide_true by done. simpl.
  destruct (forceShutdownInProgress_ s) eqn:Ef; [by eexists|].
  destruct (downstreamConnectionManager_ s) as [[|c l]|] eqn:Em; [|by eexists|].
  - eexists. split; [done|]. destruct Hs. unfold listed in *. rewrite Em in *. by repeat split.
  - apply (ac_done _ _ Hs) in Em. congruence.
Qed.

(** The message of a removal, and the end of a drained acceptor. *)
Lemma removal_returns c s :
  c ∈ listed s ->
  remove c s = (when (length (listed (unlist c s)) =? 0) (onEmpty (Addr:=Addr) (Secure:=Secure) (Info:=Info)))
                 (logAccept (AcceptRead CONN_REMOVED) (unlist c s)).
Proof.
  intros Hc. unfold removeConnection. rewrite bind_get, bool_decide_true by done. simpl.
  rewrite bind_modify. by erewrite bind_Ok by apply run_connectionEvent.
Qed.

Lemma whenEmpty_returns k b s : accounted k s ->
  exists s', when b (onEmpty (Addr:=Addr) (Secure:=Secure) (Info:=Info)) s = (Ok tt, s') /\ accounted k s' /\ children s' = children s.
Proof.
  intros Hs. destruct b; [|by eexists]. destruct (onEmpty_returns k s Hs) as (s' & ? & ? & ? & _). by exists s'.
Qed.

Lemma removal_unlisted c s : c ∉ listed s -> remove c s = (Ok tt, s).
Proof. intros Hc. unfold removeConnection. by rewrite bind_get, bool_decide_false. Qed.

Lemma removeConnection_returns k c s : accounted k s ->
  exists s', remove c s = (Ok tt, s') /\ accounted k s' /\ children s' = children s.
Proof.
  intros Hs. destruct (decide (c ∈ listed s)) as [Hc|Hc]; [|rewrite removal_unlisted by done; by eexists].
  rewrite removal_returns by done.
  apply (whenEmpty_returns k _ (logAccept (AcceptRead CONN_REMOVED) (unlist c s))).
  by apply accounted_removed, accounted_unlist.
Qed.

Lemma destroyConnection_returns k c s : accounted k s -> is_Some (children s !! c) ->
  exists s', close c s = (Ok tt, s') /\ accounted k s' /\ others c s s' /\ (c ∉ listed s -> sameManager s s').
Proof.
  intros Hs Hx. unfold destroyConnection. rewrite !bind_modify.
  assert (forall d, d <> c -> delete c (children s) !! d = children s !! d) as Ho
    by (intros d Hd; by apply lookup_delete_ne).
  destruct (decide (c ∈ listed s)) as [Hc|Hc].
  - rewrite removal_returns by done.
    destruct (whenEmpty_returns k (length (listed (unlist c (gone c s))) =? 0)
                (gone c (logAccept (AcceptRead CONN_REMOVED) (unlist c s)))) as (s' & E & Hs' & Hch).
    { apply accounted_gone; [by apply accounted_removed, accounted_unlist| |done].
      change (c ∉ listed (unlist c s)). rewrite listed_unlist. apply notin_filter_ne. }
    exists s'. split_and!; [done|done| |done]. intros d Hd. rewrite Hch. by apply Ho.
  - exists (gone c s). split_and!; [by apply removal_unlisted|by apply accounted_gone|done|done].
Qed.

(** Telling a child of an exception; it may close. *)
Lemma tellChild_returns k c e s : accounted k s -> is_Some (children s !! c) -> e <> TransportActive ->
  exists s', tell c e s = (Ok tt, s') /\ accounted k s' /\ others c s s' /\ (c ∉ listed s -> sameManager s s').
Proof.
  intros Hs [x Hx] He. unfold tellChild. rewrite bind_get, Hx, bind_modify.
  set (s1 := setChildren _ s). assert (accounted k s1) as Hs1 by by apply accounted_told.
  assert (others c s s1) as Ho1 by (intros d Hd; by apply lookup_insert_ne).
  destruct (closes c _); simpl; [|by exists s1].
  unfold deletePipeline. rewrite bool_decide_true by done.
  destruct (destroyConnection_returns k c s1) as (s' & E & Hs' & Ho & Hl);
    [done|eexists; apply lookup_insert_eq|].
  exists s'. split_and!; [done|done| |done]. intros d Hd. by rewrite Ho, Ho1.
Qed.

(** ** Loops over the list *)

(** The connections still to be dropped. *)
Definition pending (l : list nat) s : Prop := NoDup l /\ forall c, c ∈ l -> is_Some (children s !! c).

Lemma pending_others c l s s' : pending (c :: l) s -> others c s s' -> pending l s'.
Proof.
  intros [[Hc Hn]%NoDup_cons Hl] Ho. split; [done|]. intros d Hd.
  rewrite Ho by (by intros ->). apply Hl. by right.
Qed.

Lemma dropSome_returns k l : forall s, accounted k s -> pending l s ->
  exists s', for_each l (fun c => do! remove c in dropConnection closes None true c) s = (Ok tt, s') /\ accounted k s'.
Proof.
  induction l as [|c l IH]; intros s Hs Hl; cbn [for_each]; [by eexists|].
  destruct (removeConnection_returns k c s Hs) as (s1 & E1 & Hs1 & Hc1). rewrite bind_assoc, (bind_Ok _ _ _ _ _ E1).
  destruct (tellChild_returns k c (ReadException (exception DROPPED "dropped")) s1) as (s2 & E2 & Hs2 & Ho2 & _); [done| |done|].
  { rewrite Hc1. apply Hl. by left. }
  unfold dropConnection. rewrite (bind_Ok _ _ _ _ _ E2). apply IH; [done|].
  apply (pending_others c l s); [done|]. intros d Hd. by rewrite Ho2, Hc1.
Qed.

Lemma dropAll_returns l : forall k s, accounted k s -> pending l s -> downstreamConnectionManager_ s = Some l ->
  exists s', for_each l (fun c =>
      do! modify (fun s => setManager (filter (.≠ c) <$> downstreamConnectionManager_ s) s) in
      dropConnection closes None true c) s = (Ok tt, s') /\ accounted (k + length l) s' /\
    downstreamConnectionManager_ s' = Some [] /\ forceShutdownInProgress_ s' = forceShutdownInProgress_ s.
Proof.
  induction l as [|c l IH]; intros k s Hs Hl El; cbn [for_each].
  - exists s. by rewrite Nat.add_0_r.
  - assert (c ∉ l) as Hc by (destruct Hl as [[? ?]%NoDup_cons _]; done).
    assert (downstreamConnectionManager_ (unlist c s) = Some l) as El'.
    { unfold unlist. simpl. rewrite El. simpl. rewrite filter_cons_False by naive_solver.
      f_equal. apply filter_all. by intros d Hd ->. }
    rewrite bind_assoc, bind_modify. change (setManager _ s) with (unlist c s).
    destruct (tellChild_returns (Datatypes.S k) c (ReadException (exception DROPPED "dropped")) (unlist c s))
      as (s2 & E2 & Hs2 & Ho2 & Hl2); [|apply Hl; by left|done|].
    { apply accounted_unlist; [done|]. unfold listed. rewrite El. by left. }
    unfold dropConnection at 1. rewrite (bind_Ok _ _ _ _ _ E2). destruct Hl2 as [Hm2 Hf2]; [unfold listed; by rewrite El'|].
    destruct (IH (Datatypes.S k) s2) as (s' & E' & Hs' & Hl' & Hf'); [done| | |].
    + apply (pending_others c l s); [done|]. exact Ho2.
    + by rewrite Hm2.
    + exists s'. split_and!; [done| |done|by rewrite Hf', Hf2].
      replace (k + length (c :: l)) with (Datatypes.S k + length l) by (simpl; lia). done.
Qed.

(** ** A new connection *)

(** The state in which [ServerAcceptor::read] finds the acceptor. *)
Definition readied (conn : ConnInfo (Addr:=Addr) (Secure:=Secure) (Info:=Info)) s : S :=
  let c := nextConnection s in
  logAccept (AcceptRead (NewConn conn))
    (setTransport c Raw (call (Acceptor.OnNewConnection c) (setNext (c + 1) s)).2).

Lemma accounted_failed k conn s :
  accounted k s -> accounted k (setTransport (nextConnection s) Deleted (readied conn s)).
Proof.
  intros [Hn Hl Hf Ht He Hc Hd]. split; try done; simpl.
  - intros c Hx%Hf. lia.
  - intros c. rewrite insert_insert_eq. destruct (decide (c = nextConnection s)) as [->|].
    + rewrite lookup_insert_eq, decide_True, decide_False by (try intros ?%Hf; lia). done.
    + rewrite lookup_insert_ne, Ht by done. by rewrite (decide_ext (c < nextConnection s) (c < nextConnection s + 1)) by lia.
  - by rewrite !filter_snoc, !Nat.add_0_r.
Qed.

(** The state once the pipeline has been told that it is active. *)
Definition connected conn (t : TransportInfo) (l : list nat) s : S :=
  let c := nextConnection s in
  let s1 := setTransport c Owned (readied conn s) in
  setChildren (<[c := mkConnection t [TransportActive]]> (children s))
    (logAccept (AcceptRead CONN_ADDED) (setManager (Some (c :: l)) s1)).

Lemma accounted_connected k conn t l s :
  accounted k s -> downstreamConnectionManager_ s = Some l -> accounted k (connected conn t l s).
Proof.
  intros [Hn Hl Hf Ht He Hc Hd] El. unfold listed in *. rewrite El in *. simpl in *.
  assert (nextConnection s ∉ l) as Hnew by (intros ?%Hl%Hf; lia).
  split; simpl.
  - by apply NoDup_cons.
  - intros c Hc'%elem_of_cons. apply lookup_insert_is_Some. destruct (decide (nextConnection s = c)) as [|Hne]; [by left|].
    right. split; [done|]. apply Hl. by destruct Hc' as [->|].
  - intros c [<-|[_ ?%Hf]]%lookup_insert_is_Some; lia.
  - intros c. rewrite insert_insert_eq. destruct (decide (c = nextConnection s)) as [->|].
    + rewrite !lookup_insert_eq, decide_True, decide_True by (eauto || lia). done.
    + rewrite !lookup_insert_ne, Ht by done. by rewrite (decide_ext (c < nextConnection s) (c < nextConnection s + 1)) by lia.
  - intros c x [[_ <-]|[_ Hx]]%lookup_insert_Some; [|by apply (He c)]. exists []. split; [done|]. apply not_elem_of_nil.
  - rewrite !filter_snoc. simpl. lia.
  - simpl. split; [done|]. intros E. by apply Hd in E.
Qed.

(** Where a connection can fail to be made. *)
Definition refuses (c : nat) : Prop := getLocalAddress c bindAddress = None \/ newPipelineThrows c = true.

Lemma connectionReady_returns k addr protocol secure tinfo s : accounted k s ->
  exists r s',
    connectionReady bindAddress getLocalAddress newPipelineThrows closes None true addr protocol secure tinfo s = (r, s') /\
    accounted k s' /\ (r = Ok tt \/ exists what, r = Err (RuntimeError what) /\ refuses (nextConnection s)).
Proof.
  intros Hs. unfold connectionReady. rewrite bind_get. destruct (_ <? _) eqn:E.
  2: { do 2 eexists. split; [done|]. split; [|by left]. by destruct Hs. }
  unfold call at 1, onNewConnection, acceptRead. rewrite !bind_modify. simpl.
  set (conn := mkConnInfo _ _ _ _ _). match goal with |- context [logAccept _ ?t] => set (s0 := t) end.
  change (logAccept _ s0) with (readied conn s). unfold refuses.
  destruct (getLocalAddress _ _) as [local|] eqn:Ea.
  2: { do 2 eexists. split; [done|]. split; [by apply accounted_failed|]. right. eexists. split; [done|by left]. }
  destruct (newPipelineThrows _) eqn:Et.
  { do 2 eexists. split; [done|]. split; [by apply accounted_failed|]. right. eexists. split; [done|by right]. }
  set (t := mkInfo (Some local) _ _ _). destruct (downstreamConnectionManager_ s) as [l|] eqn:El.
  2: { apply (ac_done _ _ Hs) in El. by rewrite El in E. }
  rewrite !bind_modify. unfold addConnection. rewrite bind_assoc, bind_get. simpl. rewrite El, bind_assoc, bind_modify.
  erewrite bind_Ok by apply run_connectionEvent.
  unfold initConnection, tellChild. rewrite bind_get. cbn [children logAccept setManager setChildren].
  rewrite lookup_insert_eq, bind_modify. cbn [transportInfo events app].
  match goal with |- context [setChildren (<[_ := _]> _) ?x] => set (s1 := setChildren _ x) end.
  assert (s1 = connected conn t l s) as Hs1.
  { unfold s1, connected, setChildren. simpl. f_equal. apply insert_insert_eq. }
  clearbody s1. subst s1. pose proof (accounted_connected k conn t l s Hs El) as Hc.
  destruct (closes _ _); cbn [when]; [|do 2 eexists; split; [done|]; split; [exact Hc|by left]].
  unfold deletePipeline. rewrite bool_decide_true by done.
  destruct (destroyConnection_returns k (nextConnection s) (connected conn t l s) Hc) as (s' & Es & Hs' & _).
  { eexists. apply lookup_insert_eq. }
  rewrite Es. do 2 eexists. split; [done|]. split; [done|by left].
Qed.

(** ** Stopping *)

Lemma run_acceptReadException e s : acceptReadException None true e s = (Ok tt, logAccept (AcceptReadException e) s).
Proof. done. Qed.

Lemma run_closeAll l s : for_each l (closeWhenIdle (Addr:=Addr) (Secure:=Secure) (Info:=Info)) s = (Ok tt, s).
Proof. induction l as [|c l IH]; [done|exact IH]. Qed.

Lemma accounted_told_exception k e s : accounted k s -> accounted k (logAccept (AcceptReadException e) s).
Proof. by apply accounted_logAccept. Qed.

Lemma pending_listed k s : accounted k s -> pending (listed s) s.
Proof. intros [Hn Hl ? ? ? ? ?]. by split. Qed.

Lemma accounted_done k s :
  accounted k s -> listed s = [] -> accounted k (setState Acceptor.kDone (setManager None s)).
Proof. intros [] El. unfold listed in *. rewrite El in *. by split. Qed.

Lemma acceptStopped_returns k s : accounted k s ->
  exists s', acceptStopped None true s = (Ok tt, s') /\ accounted k s'.
Proof.
  intros Hs%(accounted_told_exception k (exception ACCEPT_STOPPED "graceful shutdown timeout")).
  unfold acceptStopped, noexcept. erewrite bind_Ok by apply run_acceptReadException.
  set (s1 := logAccept _ s) in *. clearbody s1. rewrite bind_get. erewrite bind_Ok by apply run_closeAll.
  destruct (decide (state_ s1 = Acceptor.kDone)) as [E|E]; [by rewrite bool_decide_true by done; eexists|].
  rewrite bool_decide_false by done. cbn [when negb]. rewrite bind_modify.
  assert (accounted k (setState Acceptor.kDraining s1)) as Hs1.
  { destruct Hs as [? ? ? ? ? ? Hd]. split; try done. simpl. rewrite Hd. done. }
  destruct (onEmpty_returns k _ Hs1) as (s' & Es & Hs' & _). exists s'. split; [|done].
  unfold onEmpty in Es. rewrite bind_get, bool_decide_true in Es by done. cbn [when] in Es. by rewrite Es.
Qed.

Lemma dropAllConnections_returns k s : accounted k s ->
  exists s', dropAllConnections closes None true s = (Ok tt, s') /\ accounted (k + length (listed s)) s' /\
    state_ s' = Acceptor.kDone.
Proof.
  intros Hs. unfold dropAllConnections. rewrite bind_get.
  destruct (downstreamConnectionManager_ s) as [l|] eqn:El.
  - assert (listed s = l) as Hl by (unfold listed; by rewrite El). rewrite bind_assoc, bind_modify, bind_assoc.
    destruct (dropAll_returns l k (setForce true s)) as (s1 & E1 & Hs1 & Hm1 & Hf1);
      [by apply accounted_setForce|rewrite <- Hl; by apply (pending_listed k s)|done|].
    rewrite (bind_Ok _ _ _ _ _ E1). destruct (onEmpty_returns _ _ Hs1) as (s2 & E2 & _ & _ & Es).
    rewrite (Es Hf1) in E2.
    rewrite bind_assoc, (bind_Ok _ _ _ _ _ E2), bind_assoc, bind_get, Hm1.
    rewrite bind_modify, bind_modify. eexists. split; [done|]. split; [|done]. rewrite Hl.
    apply accounted_call, (accounted_done _ _ Hs1). unfold listed. by rewrite Hm1.
  - assert (listed s = []) as Hl by (unfold listed; by rewrite El). rewrite bind_ret, bind_modify. eexists. split; [done|].
    rewrite Hl, Nat.add_0_r. split; [|done]. apply accounted_call. destruct Hs. by split.
Qed.

(** ** Every event *)

(** The events that drop every connection at once. *)
Definition forced (ev : ServerEvent (Addr:=Addr) (Secure:=Secure) (Info:=Info)) : bool :=
  match ev with ForceStop | WorkerStopped => true | _ => false end.

(** When [quiet], no connection has left without a word. *)
Definition kept (quiet : bool) s : Prop := exists k, accounted k s /\ (quiet = true -> k = 0).

(** The ways the process can end. *)
Definition ends (f : fault) : Prop :=
  f = CheckFailed "std::terminate" /\ (exists c, refuses c) \/ f = Undefined "double out of range".

Lemma preserves_returns quiet (c : M S unit) :
  (forall k s, accounted k s -> exists s', c s = (Ok tt, s') /\ accounted k s') -> preserves (kept quiet) ends c.
Proof. intros H s (k & Hs & Hk). destruct (H k s Hs) as (s' & -> & Hs'). split; [by exists k|]. by intros f [=]. Qed.

Lemma preserves_dropAllConnections : preserves (kept false) ends (dropAllConnections closes None true).
Proof.
  intros s (k & Hs & _). destruct (dropAllConnections_returns k s Hs) as (s' & -> & Hs' & _).
  split; [by exists (k + length (listed s))|]. by intros f [=].
Qed.

Lemma preserves_noexcept quiet (c : M S unit) :
  preserves (kept quiet) (fun f => if is_exception f then exists c, refuses c else ends f) c ->
  preserves (kept quiet) ends (noexcept c).
Proof.
  intros Hc s Hs. destruct (Hc s Hs) as [Hs' Hf]. unfold noexcept. destruct (c s) as [[a|f] s']; simpl in *.
  - split; [done|]. by intros f [=].
  - specialize (Hf f eq_refl). split; [done|]. intros f' [= <-]. destruct (is_exception f); [by left|done].
Qed.

Lemma preserves_dropConnections quiet pct : preserves (kept quiet) ends (dropConnections closes None true pct).
Proof.
  apply preserves_noexcept. intros s (k & Hs & Hk). erewrite bind_Ok by apply run_acceptReadException.
  apply (accounted_told_exception k (mkException DROP_CONN_PCT "dropping some connections" pct)) in Hs.
  set (s1 := logAccept _ s) in *. clearbody s1. rewrite bind_get.
  destruct (downstreamConnectionManager_ s1) as [l|] eqn:El.
  2: { split; [by exists k|]. by intros f [=]. }
  rewrite bind_modify. destruct (Connections.portion (length l) pct) as [n|].
  2: { split; [by exists k; split; [apply accounted_setForce|]|]. intros f [= <-]. by right. }
  assert (pending (take n l) (setForce true s1)) as Hp.
  { destruct (pending_listed k s1 Hs) as [Hn Hl]. unfold listed in *. rewrite El in *. split.
    - rewrite <- (take_drop n l) in Hn at 1. by apply NoDup_app in Hn as [? _].
    - intros c Hc. apply Hl. simpl. apply elem_of_take in Hc as (i & Hi & _). by eapply list_elem_of_lookup_2. }
  destruct (dropSome_returns k _ _ (accounted_setForce k true s1 Hs) Hp) as (s' & Es & Hs').
  rewrite Es. split; [by exists k|]. by intros f [=].
Qed.

Lemma preserves_drainConnections quiet pct : preserves (kept quiet) ends (drainConnections None true pct).
Proof.
  apply preserves_noexcept. intros s (k & Hs & Hk). erewrite bind_Ok by apply run_acceptReadException.
  apply (accounted_told_exception k (mkException DRAIN_CONN_PCT "draining some connections" pct)) in Hs.
  set (s1 := logAccept _ s) in *. clearbody s1. rewrite bind_get.
  destruct (Connections.portion _ pct) as [n|].
  - rewrite run_closeAll. split; [by exists k|]. by intros f [=].
  - split; [by exists k|]. intros f [= <-]. by right.
Qed.

Lemma preserves_step quiet ev : (quiet = true -> forced ev = false) -> preserves (kept quiet) ends (step ev).
Proof.
  intros Hq s Hs. unfold serverStep. rewrite bind_get. pose proof Hs as (k & Hk & Hk0).
  destruct ev as [addr protocol secure tinfo|socket addr buf|c|c| |pct|pct| |].
  - unfold processEstablishedConnection. apply preserves_noexcept; [|done]. intros s1 (k1 & Hs1 & Hk1).
    destruct (connectionReady_returns k1 addr protocol secure tinfo s1 Hs1) as (r & s' & -> & Hs' & Hr).
    split; [by exists k1|]. intros f Ef. simpl in Ef. subst r.
    destruct Hr as [[=]|(what & [= ->] & Hr)]. by eexists.
  - apply (preserves_returns quiet); [|done]. intros k1 s1 Hs1. eexists. split; [done|]. by apply accounted_logAccept.
  - case_bool_decide as Hc; [|by apply preserves_ret]. apply (ac_listed _ _ Hk) in Hc.
    destruct (tellChild_returns k c (ReadException (exception TIMED_OUT "timeout")) s Hk Hc) as (s' & E & Hs' & _); [done|].
    unfold timeoutExpired. cbn [when]. rewrite E. split; [by exists k|]. by intros f [=].
  - case_bool_decide as Hc; [|by apply preserves_ret]. unfold deletePipeline. cbn [when]. rewrite bool_decide_true by done.
    destruct (destroyConnection_returns k c s Hk Hc) as (s' & E & Hs' & _).
    rewrite E. split; [by exists k|]. by intros f [=].
  - by apply (preserves_returns quiet), Hs; apply acceptStopped_returns.
  - by apply preserves_drainConnections.
  - by apply preserves_dropConnections.
  - destruct quiet; [by specialize (Hq eq_refl)|]. apply preserves_noexcept; [|done]. apply preserves_bind.
    + intros s1 (k1 & Hs1 & Hk1). rewrite run_acceptReadException.
      split; [by exists k1; split; [apply accounted_told_exception|]|]. by intros f [=].
    + intros _ s1 (k1 & Hs1 & _). destruct (dropAllConnections_returns k1 s1 Hs1) as (s' & -> & Hs' & _).
      split; [by exists (k1 + length (listed s1))|]. by intros f [=].
  - destruct quiet; [by specialize (Hq eq_refl)|]. by apply preserves_dropAllConnections.
Qed.

(** C29.  A server in the default configuration, from its start and after any
    sequence of new connections, datagrams, timeouts, closing pipelines, and
    requests to drain, drop and stop: every transport it was given is either
    deleted or owned by the one pipeline made for it, whose connection exists;
    the manager lists connections that exist, each once; every pipeline was
    told that its transport is active before anything else, and once.  The
    accept pipeline was told of as many connections that came as of
    connections that went, plus those listed, except for those that a forced
    stop dropped, of which it is not told.  The process ends only by an
    exception of the factory of child pipelines or of [getLocalAddress], which
    a [noexcept] function lets through, or by a share of connections that is
    not a number [size_t] can hold. *)
Theorem server_connections_accounted (evs : list ServerEvent) :
  exists k,
    accounted k (run evs initAcceptor).2 /\
    (Forall (fun ev => forced ev = false) evs -> k = 0) /\
    forall f, (run evs initAcceptor).1 = Err f ->
      f = CheckFailed "std::terminate" /\ (exists c, refuses c) \/ f = Undefined "double out of range".
Proof.
  assert (forall quiet, (quiet = true -> Forall (fun ev => forced ev = false) evs) ->
            preserves (kept quiet) ends (run evs)) as H.
  { intros quiet Hq. apply preserves_for_each. intros ev Hev. apply preserves_step. intros E.
    by apply (Forall_forall (fun ev => forced ev = false) evs); [apply Hq|]. }
  destruct (decide (Forall (fun ev => forced ev = false) evs)) as [Hall|Hall].
  - destruct (H true (fun _ => Hall) initAcceptor) as ((k & Hk & Hk0) & Hf); [by exists 0; split; [apply accounted_init|]|].
    exists k. split_and!; [done|auto|exact Hf].
  - destruct (H false ltac:(done) initAcceptor) as ((k & Hk & _) & Hf); [by exists 0; split; [apply accounted_init|]|].
    exists k. split_and!; [done|done|exact Hf].
Qed.
End default.

(** ** The acceptor below *)

Section refinement.
Context {Addr Secure Info : Type}.
Local Notation S := (ServerAcceptor Addr Secure Info).
Implicit Types s : S.
Context (bindAddress : Addr) (getLocalAddress : nat -> Addr -> option Addr).
Context (newPipelineThrows : nat -> bool) (closes : nat -> list ChildEvent -> bool).
Context (custom : option (AcceptPipelineType (Addr:=Addr) (Secure:=Secure) (Info:=Info) -> bool)).
Context (childPipelineFactory : bool).
Context {H E : Type} `{!Handshake.HandshakeHelper H E} (newHelper : H) (e : E) (max : Z).

Local Notation remove := (removeConnection custom childPipelineFactory).
Local Notation tell := (tellChild closes custom childPipelineFactory).

(** The acceptor of Acceptor.v: every connection is one of the application. *)
Definition managed (l : list nat) : list (nat * Acceptor.Connection H) := (fun c => (c, Acceptor.Application)) <$> l.
Definition abs s : Acceptor.Acceptor H :=
  Acceptor.mkAcceptor (state_ s) 0 (forceShutdownInProgress_ s) max (managed <$> downstreamConnectionManager_ s)
    (nextConnection s) (calls s).

Lemma assoc_managed c l : assoc c (managed l) = if decide (c ∈ l) then Some Acceptor.Application else None.
Proof.
  induction l as [|d l IH]; [done|]. cbn [managed fmap list_fmap assoc].
  destruct (decide (d = c)) as [->|Hd]; [by rewrite decide_True by by left|].
  fold (managed l). rewrite IH. apply decide_ext. rewrite elem_of_cons. naive_solver.
Qed.

Lemma without_managed c l : without c (managed l) = managed (filter (.≠ c) l).
Proof.
  induction l as [|d l IH]; [done|]. unfold without, managed in *. cbn [fmap list_fmap].
  rewrite !filter_cons. cbn [fst]. destruct (decide (d <> c)); cbn [fmap list_fmap]; by rewrite IH.
Qed.

(** The operation does nothing to the acceptor below. *)
Definition silent (c : M S unit) : Prop := forall s s', c s = (Ok tt, s') -> abs s' = abs s.

Lemma silent_connectionEvent m : silent (connectionEvent custom childPipelineFactory m).
Proof.
  intros s s'. unfold connectionEvent, acceptHandlers. rewrite bind_modify.
  destruct custom as [pass|], childPipelineFactory; [..|done]; try by intros [= <-].
  all: by destruct (pass m); intros [= <-].
Qed.

Lemma connectionEvent_children m s s' :
  connectionEvent custom childPipelineFactory m s = (Ok tt, s') -> children s' = children s.
Proof.
  unfold connectionEvent, acceptHandlers. rewrite bind_modify.
  destruct custom as [pass|], childPipelineFactory; [..|done]; try by intros [= <-].
  all: by destruct (pass m); intros [= <-].
Qed.

Lemma silent_acceptReadException x : silent (acceptReadException custom childPipelineFactory x).
Proof.
  intros s s'. unfold acceptReadException. rewrite bind_modify.
  by destruct custom, childPipelineFactory; intros [= <-].
Qed.

Lemma noexcept_returns {A} (c : M S A) s a s' : noexcept c s = (Ok a, s') -> c s = (Ok a, s').
Proof. unfold noexcept. by destruct (c s) as [[|]]. Qed.

Lemma refines_checkDrained s s' :
  checkDrained s = (Ok tt, s') -> Acceptor.checkDrained (abs s) = (Ok tt, abs s').
Proof.
  unfold checkDrained, Acceptor.checkDrained. rewrite !bind_get. simpl.
  destruct (bool_decide _); [|done]. simpl. destruct (forceShutdownInProgress_ s); [by intros [= <-]|].
  unfold Acceptor.connections. rewrite bind_assoc, bind_get. simpl.
  by destruct (downstreamConnectionManager_ s) as [[|c l]|]; [intros [= <-]..|].
Qed.

Lemma refines_onEmpty s s' : onEmpty s = (Ok tt, s') -> Acceptor.onEmpty (abs s) = (Ok tt, abs s').
Proof.
  unfold onEmpty, Acceptor.onEmpty, Acceptor.checkDrainedIfDraining. rewrite !bind_get. simpl.
  destruct (bool_decide _); [apply refines_checkDrained|by intros [= <-]].
Qed.

Lemma removed_unlisted c s s' : c ∉ listed s -> remove c s = (Ok tt, s') -> s' = s.
Proof. intros Hc. unfold removeConnection. rewrite bind_get, bool_decide_false by done. by intros [= <-]. Qed.

Lemma run_connections l s :
  downstreamConnectionManager_ s = Some l -> Acceptor.connections (abs s) = (Ok (managed l), abs s).
Proof. intros El. unfold Acceptor.connections. rewrite bind_get. simpl. by rewrite El. Qed.

Lemma refines_removeConnection c s s' :
  c ∈ listed s -> remove c s = (Ok tt, s') -> Acceptor.removeConnection c (abs s) = (Ok tt, abs s').
Proof.
  intros Hc. unfold removeConnection. rewrite bind_get, bool_decide_true by done. cbn [when].
  unfold listed in Hc. destruct (downstreamConnectionManager_ s) as [l|] eqn:El; [|by apply elem_of_nil in Hc].
  intros ([] & s1 & E1 & Hr)%bind_returns. injection E1 as <-. rewrite El in Hr.
  apply bind_returns in Hr as ([] & s2 & E2 & Hr). rewrite bind_get in Hr. apply silent_connectionEvent in E2.
  unfold Acceptor.removeConnection. rewrite (bind_Ok _ _ _ _ _ (run_connections l s El)).
  rewrite assoc_managed, decide_True, bind_modify, without_managed by done.
  change (Acceptor.setManager _ _) with (abs (setManager (Some (filter (.≠ c) l)) s)).
  assert (length (listed s2) = length (managed (filter (.≠ c) l))) as Hlen.
  { apply (f_equal Acceptor.downstreamConnectionManager_) in E2. unfold listed. simpl in E2.
    destruct (downstreamConnectionManager_ s2) as [l2|]; [|done]. injection E2 as E2.
    apply (f_equal length) in E2. unfold managed in *. by rewrite !length_fmap in *. }
  rewrite <- Hlen. change (Some (filter _ l)) with (filter (.≠ c) <$> Some l). rewrite <- E2. destruct (_ =? _); cbn [when] in *; [by apply refines_onEmpty|]. by injection Hr as <-.
Qed.

(** Telling a child: at most its connection is removed. *)
Lemma refines_deletePipeline c s s' : deletePipeline custom childPipelineFactory c c s = (Ok tt, s') ->
  when (bool_decide (c ∈ listed s)) (Acceptor.removeConnection c) (abs s) = (Ok tt, abs s').
Proof.
  unfold deletePipeline. rewrite bool_decide_true by done. unfold destroyConnection. rewrite !bind_modify.
  set (s1 := setTransport _ _ _). change (listed s) with (listed s1). change (abs s) with (abs s1).
  intros Hr. case_bool_decide; cbn [when]; [by apply refines_removeConnection|]. by apply removed_unlisted in Hr as ->.
Qed.

(** Whether the pipeline of a connection closes on what it is told now. *)
Definition closesNow (c : nat) (x : ChildEvent) s : bool :=
  match children s !! c with
  | Some y => closes c (events y ++ [x])
  | None => false
  end.

Lemma refines_tellChild c x s s' : tell c x s = (Ok tt, s') ->
  when (bool_decide (c ∈ listed s) && closesNow c x s) (Acceptor.removeConnection c) (abs s) = (Ok tt, abs s').
Proof.
  unfold tellChild, closesNow. rewrite bind_get. destruct (children s !! c) as [y|]; [|done]. rewrite bind_modify.
  set (s1 := setChildren _ s). change (listed s) with (listed s1). change (abs s) with (abs s1).
  destruct (closes _ _); cbn [when]; rewrite ?andb_true_r, ?andb_false_r; [|by intros [= <-]].
  apply refines_deletePipeline.
Qed.

Lemma tell_unlisted c x s s' : c ∉ listed s -> tell c x s = (Ok tt, s') -> abs s' = abs s.
Proof. intros Hc Ht%refines_tellChild. rewrite bool_decide_false in Ht by done. by apply (f_equal snd) in Ht. Qed.

(** The event of Acceptor.v that a connection of the application closes. *)
Definition closing (c : nat) (b : bool) : list (Acceptor.AcceptorEvent E) := if b then [Acceptor.Closed c] else [].

Lemma refines_Closed c b s a' :
  when (bool_decide (c ∈ listed s) && b) (Acceptor.removeConnection c) (abs s) = (Ok tt, a') ->
  Acceptor.acceptorRun newHelper (closing c (bool_decide (c ∈ listed s) && b)) (abs s) = (Ok tt, a').
Proof.
  case_bool_decide as Hc; [|done]. destruct b; [|done]. cbn [when andb closing]. intros Hr.
  unfold Acceptor.acceptorRun. cbn [for_each]. erewrite bind_Ok; [done|].
  unfold Acceptor.acceptorStep. rewrite bind_get. simpl. unfold listed in Hc.
  destruct (downstreamConnectionManager_ s) as [l|]; [|by apply elem_of_nil in Hc]. simpl in *.
  by rewrite assoc_managed, decide_True.
Qed.

(** ** Dropping *)

Lemma listed_abs s : listed s = (default [] (Acceptor.downstreamConnectionManager_ (abs s))).*1.
Proof.
  unfold listed. simpl. destruct (downstreamConnectionManager_ s) as [l|]; [|done]. simpl.
  unfold managed. rewrite <- list_fmap_compose. symmetry. apply list_fmap_id.
Qed.

Lemma removed_forced c s s' :
  forceShutdownInProgress_ s = true -> remove c s = (Ok tt, s') ->
  abs s' = abs (setManager (filter (.≠ c) <$> downstreamConnectionManager_ s) s).
Proof.
  intros Hf. unfold removeConnection. rewrite bind_get. case_bool_decide as Hc; cbn [when].
  - intros ([] & s1 & E1 & Hr)%bind_returns. injection E1 as <-.
    apply bind_returns in Hr as ([] & s2 & E2 & Hr). rewrite bind_get in Hr. apply silent_connectionEvent in E2.
    rewrite <- E2. assert (forceShutdownInProgress_ s2 = true) as Hf2.
    { apply (f_equal Acceptor.forceShutdownInProgress_) in E2. simpl in E2. congruence. }
    destruct (_ =? _); cbn [when] in Hr; [|by injection Hr as <-].
    unfold onEmpty, checkDrained in Hr. rewrite bind_get in Hr.
    destruct (bool_decide _) eqn:Eb in Hr; cbn [when] in Hr; [|by injection Hr as <-].
    rewrite bind_get, Eb in Hr. simpl in Hr. rewrite Hf2 in Hr. by injection Hr as <-.
  - intros [= <-]. unfold listed in Hc. unfold abs. simpl. destruct (downstreamConnectionManager_ s) as [l|]; [|done].
    simpl in *. rewrite filter_all; [done|]. by intros d Hd ->.
Qed.

Lemma refines_dropSome l : forall s s',
  forceShutdownInProgress_ s = true -> is_Some (downstreamConnectionManager_ s) ->
  for_each l (fun c => do! remove c in dropConnection closes custom childPipelineFactory c) s = (Ok tt, s') ->
  for_each (managed l) (fun p => do! Acceptor.removeConnection p.1 in Acceptor.dropped e p.2) (abs s) = (Ok tt, abs s').
Proof.
  induction l as [|c l IH]; intros s s' Hf [m Hm]; cbn [for_each managed fmap list_fmap]; [by intros [= <-]|].
  intros ([] & s2 & Hc & Hr)%bind_returns. apply bind_returns in Hc as ([] & s1 & E1 & E2).
  pose proof (removed_forced c s s1 Hf E1) as Ha. rewrite Hm in Ha. cbn [fst snd].
  assert (Acceptor.removeConnection c (abs s) = (Ok tt, abs s1)) as Hrem.
  { destruct (decide (c ∈ listed s)) as [Hc|Hc]; [by apply refines_removeConnection|].
    apply removed_unlisted in E1 as ->; [|done]. unfold Acceptor.removeConnection.
    rewrite (bind_Ok _ _ _ _ _ (run_connections m s Hm)), assoc_managed.
    unfold listed in Hc. rewrite Hm in Hc. by rewrite decide_False by done. }
  rewrite bind_assoc, (bind_Ok _ _ _ _ _ Hrem).
  assert (c ∉ listed s1) as Hc1.
  { rewrite listed_abs, Ha, <- listed_abs. apply notin_filter_ne. }
  assert (abs s2 = abs s1) as E3 by (by eapply tell_unlisted).
  change (Acceptor.dropped e Acceptor.Application) with (ret (S:=Acceptor.Acceptor H) tt). rewrite bind_ret.
  fold (managed l). rewrite <- E3. rewrite Ha in E3.
  apply IH; [|destruct (downstreamConnectionManager_ s2) eqn:E4; [done|]|done].
  - apply (f_equal Acceptor.forceShutdownInProgress_) in E3. simpl in E3. congruence.
  - apply (f_equal Acceptor.downstreamConnectionManager_) in E3. simpl in E3. by rewrite E4 in E3.
Qed.

Lemma refines_dropAll l : forall s s',
  for_each l (fun c =>
    do! modify (fun s => setManager (filter (.≠ c) <$> downstreamConnectionManager_ s) s) in
    dropConnection closes custom childPipelineFactory c) s = (Ok tt, s') ->
  Acceptor.dropAllLoop e (managed l) (abs s) = (Ok tt, abs s').
Proof.
  induction l as [|c l IH]; intros s s'; [by intros [= <-]|].
  unfold Acceptor.dropAllLoop. cbn [for_each managed fmap list_fmap].
  intros ([] & s2 & E2 & Hr)%bind_returns. rewrite bind_modify in E2. cbn [fst snd].
  set (s1 := setManager _ s) in E2. rewrite bind_assoc, bind_modify.
  assert (Acceptor.setManager (without c <$> Acceptor.downstreamConnectionManager_ (abs s)) (abs s) = abs s1) as ->.
  { unfold abs, Acceptor.setManager. simpl. f_equal. destruct (downstreamConnectionManager_ s); simpl; [|done].
    by rewrite without_managed. }
  assert (c ∉ listed s1) as Hc1.
  { unfold s1, listed. simpl. destruct (downstreamConnectionManager_ s); simpl; [apply notin_filter_ne|apply not_elem_of_nil]. }
  assert (abs s2 = abs s1) as E3 by (by eapply tell_unlisted).
  change (Acceptor.dropped e Acceptor.Application) with (ret (S:=Acceptor.Acceptor H) tt). rewrite bind_ret, <- E3.
  by apply IH.
Qed.

Lemma refines_dropAllConnections s s' :
  dropAllConnections closes custom childPipelineFactory s = (Ok tt, s') ->
  Acceptor.dropAllConnections e (abs s) = (Ok tt, abs s').
Proof.
  unfold dropAllConnections, Acceptor.dropAllConnections. rewrite !bind_get. simpl.
  intros ([] & s1 & E1 & Hr)%bind_returns.
  assert ((match managed <$> downstreamConnectionManager_ s with
          | None => ret tt
          | Some conns =>
              do! modify (Acceptor.setForce true) in
              do! Acceptor.dropAllLoop e conns in
              do! Acceptor.onEmpty in
              let! conns := Acceptor.connections in
              if negb (length conns =? 0) then raise (CheckFailed "getNumConnections() == 0")
              else modify (Acceptor.setManager None)
          end) (abs s) = (Ok tt, abs s1)) as H1.
  { destruct (downstreamConnectionManager_ s) as [l|] eqn:El; simpl; [|by injection E1 as <-].
    rewrite bind_modify in E1. rewrite bind_modify. change (Acceptor.setForce true (abs s)) with (abs (setForce true s)).
    apply bind_returns in E1 as ([] & s2 & E2%refines_dropAll & E1). rewrite (bind_Ok _ _ _ _ _ E2).
    apply bind_returns in E1 as ([] & s3 & E3%refines_onEmpty & E1). rewrite (bind_Ok _ _ _ _ _ E3).
    rewrite bind_get in E1. destruct (downstreamConnectionManager_ s3) as [[|c l3]|] eqn:E3'; [|done..].
    rewrite (bind_Ok _ _ _ _ _ (run_connections [] s3 E3')). by injection E1 as <-. }
  rewrite (bind_Ok _ _ _ _ _ H1), bind_get. simpl.
  revert Hr. rewrite !bind_modify. by intros [= <-].
Qed.

(** ** A new connection *)

Lemma refines_addConnection c s s' : addConnection custom childPipelineFactory c s = (Ok tt, s') ->
  Acceptor.addConnection c Acceptor.Application (abs s) = (Ok tt, abs s') /\ c ∈ listed s' /\ children s' = children s.
Proof.
  unfold addConnection, Acceptor.addConnection. rewrite bind_get.
  destruct (downstreamConnectionManager_ s) as [l|] eqn:El; [|done]. rewrite bind_modify.
  intros Hr. rewrite (bind_Ok _ _ _ _ _ (run_connections l s El)).
  pose proof (silent_connectionEvent _ _ _ Hr) as Hs. rewrite listed_abs, Hs, <- listed_abs.
  split; [done|]. split; [by left|]. by apply connectionEvent_children in Hr.
Qed.

(** What the acceptor in the accept pipeline makes of a message. *)
Lemma refines_read m s s' : read bindAddress getLocalAddress newPipelineThrows closes custom childPipelineFactory m s = (Ok tt, s') ->
  match m with
  | NewConn conn =>
      exists s1, Acceptor.addConnection (sock conn) Acceptor.Application (abs s) = (Ok tt, abs s1) /\
        sock conn ∈ listed s1 /\
        when (closes (sock conn) [TransportActive]) (Acceptor.removeConnection (sock conn)) (abs s1) = (Ok tt, abs s')
  | _ => s' = s
  end.
Proof.
  destruct m as [| |conn| | |]; cbn [read]; try by intros [= <-].
  destruct (getLocalAddress _ _); [|done]. destruct (newPipelineThrows _); [done|]. rewrite !bind_modify.
  set (s0 := setChildren _ _). change (abs s) with (abs s0).
  intros ([] & s1 & (E1 & Hin & Hch)%refines_addConnection & E2)%bind_returns.
  exists s1. split; [done|]. split; [done|]. apply refines_tellChild in E2.
  rewrite bool_decide_true in E2 by done. unfold closesNow in E2. rewrite Hch in E2.
  unfold s0 in E2. simpl in E2. by rewrite lookup_insert_eq in E2.
Qed.

(** What Acceptor.v does with a connection that is not shed. *)
Lemma run_Accepted b s :
  Acceptor.acceptorStep newHelper (Acceptor.Accepted true false e b) (abs s) =
  if Acceptor.stateNumber (state_ s) <? Acceptor.stateNumber Acceptor.kDraining then
    when b (Acceptor.addConnection (nextConnection s) Acceptor.Application)
      (abs (call (Acceptor.OnNewConnection (nextConnection s)) (setNext (nextConnection s + 1) s)).2)
  else (Ok tt, abs (call Acceptor.ClosedSocket s).2).
Proof.
  unfold Acceptor.acceptorStep. rewrite bind_get. unfold Acceptor.connectionAccepted. cbn [negb].
  unfold Acceptor.processEstablishedConnection, Acceptor.connectionReady. rewrite bind_get. simpl.
  destruct (_ <? _); [|done]. unfold Acceptor.freshConnection. rewrite bind_assoc, bind_get, bind_assoc, bind_modify, bind_ret.
  done.
Qed.

(** Whether a new connection is given to the acceptor in the accept pipeline. *)
Definition reaches (m : AcceptPipelineType (Addr:=Addr) (Secure:=Secure) (Info:=Info)) : bool :=
  match custom with
  | Some pass => pass m && childPipelineFactory
  | None => true
  end.
(** The message that the accept pipeline is given for a new connection. *)
Definition newConn (addr : Addr) (protocol : string) (secure : Secure) (tinfo : TransportInfo (Addr:=Addr) (Info:=Info)) s :
    AcceptPipelineType (Addr:=Addr) (Secure:=Secure) (Info:=Info) :=
  NewConn (mkConnInfo (nextConnection s) addr protocol secure
    (mkInfo (localAddr tinfo) (remoteAddr tinfo) (Some protocol) (otherInfo tinfo))).

(** The events of Acceptor.v that an event of the server amounts to, in a state. *)
Definition image (ev : ServerEvent (Addr:=Addr) (Secure:=Secure) (Info:=Info)) s : list (Acceptor.AcceptorEvent E) :=
  match ev with
  | Ready addr protocol secure tinfo =>
      let c := nextConnection s in
      let kept := reaches (newConn addr protocol secure tinfo s) in
      Acceptor.Accepted true false e kept ::
      closing c ((Acceptor.stateNumber (state_ s) <? Acceptor.stateNumber Acceptor.kDraining) && kept &&
        closes c [TransportActive])
  | DataAvailable _ _ _ | DrainSome _ => []
  | Timeout c => closing c (bool_decide (c ∈ listed s) && closesNow c (ReadException (exception TIMED_OUT "timeout")) s)
  | ChildCloses c => closing c (bool_decide (c ∈ listed s) && bool_decide (is_Some (children s !! c)))
  | AcceptStopped => [Acceptor.AcceptStopped []]
  | DropSome pct => [Acceptor.DropSome e (default 0 (Connections.portion (length (listed s)) pct))]
  | ForceStop | WorkerStopped => [Acceptor.DropAll e]
  end.
Fixpoint imageOf (evs : list (ServerEvent (Addr:=Addr) (Secure:=Secure) (Info:=Info))) s : list (Acceptor.AcceptorEvent E) :=
  match evs with
  | [] => []
  | ev :: evs =>
      image ev s ++
      imageOf evs (serverStep bindAddress getLocalAddress newPipelineThrows closes custom childPipelineFactory ev s).2
  end.

Local Notation below l := (Acceptor.acceptorRun newHelper l).

Lemma below_one x s a' : Acceptor.acceptorStep newHelper x (abs s) = (Ok tt, a') -> below [x] (abs s) = (Ok tt, a').
Proof. intros Hx. unfold Acceptor.acceptorRun. cbn [for_each]. by rewrite (bind_Ok _ _ _ _ _ Hx). Qed.

Lemma below_cons x l a a1 a' :
  Acceptor.acceptorStep newHelper x a = (Ok tt, a1) -> below l a1 = (Ok tt, a') -> below (x :: l) a = (Ok tt, a').
Proof. intros Hx Hl. unfold Acceptor.acceptorRun. cbn [for_each]. by rewrite (bind_Ok _ _ _ _ _ Hx). Qed.

Lemma refines_Ready addr protocol secure tinfo s s' :
  connectionReady bindAddress getLocalAddress newPipelineThrows closes custom childPipelineFactory addr protocol secure tinfo s
    = (Ok tt, s') ->
  below (image (Ready addr protocol secure tinfo) s) (abs s) = (Ok tt, abs s').
Proof.
  unfold connectionReady. rewrite bind_get. cbn [image]. destruct (_ <? _) eqn:E1.
  2: { intros [= <-]. apply below_one. by rewrite run_Accepted, E1. }
  unfold call at 1, onNewConnection, acceptRead, acceptHandlers. rewrite !bind_modify.
  change (NewConn _) with (newConn addr protocol secure tinfo s). set (conn := newConn addr protocol secure tinfo s).
  set (s1 := logAccept _ _). set (s0 := (call (Acceptor.OnNewConnection (nextConnection s)) (setNext (nextConnection s + 1) s)).2).
  assert (abs s1 = abs s0) as E01 by done. clearbody s1. intros Hr.
  assert (if reaches conn then read bindAddress getLocalAddress newPipelineThrows closes custom childPipelineFactory conn s1 = (Ok tt, s')
          else s' = s1) as Hread.
  { unfold reaches. destruct custom as [pass|], childPipelineFactory; [..|done|done].
    - rewrite andb_true_r in *. destruct (pass conn); [exact Hr|by injection Hr as <-].
    - rewrite andb_false_r in *. by injection Hr as <-. }
  clear Hr. destruct (reaches conn); cbn [andb].
  - apply refines_read in Hread as (s2 & Ea & Hin & Hb). simpl in Ea, Hin, Hb. rewrite E01 in Ea.
    eapply below_cons; [rewrite run_Accepted, E1; exact Ea|].
    destruct (closes _ _); cbn [when closing] in *; [|exact Hb].
    pose proof (refines_Closed (nextConnection s) true s2 (abs s')) as H1.
    rewrite bool_decide_true in H1 by done. by apply H1.
  - subst s'. apply below_one. rewrite run_Accepted, E1. cbn [when]. by rewrite E01.
Qed.

(** ** Stopping, and every event *)

Lemma refines_closeAll l s s' :
  for_each l (closeWhenIdle (Addr:=Addr) (Secure:=Secure) (Info:=Info)) s = (Ok tt, s') -> s' = s.
Proof. induction l as [|c l IH]; [by intros [= <-]|exact IH]. Qed.

Lemma refines_acceptStopped s s' : acceptStopped custom childPipelineFactory s = (Ok tt, s') ->
  below (image AcceptStopped s) (abs s) = (Ok tt, abs s').
Proof.
  intros ([] & s1 & E1%silent_acceptReadException & Hr)%noexcept_returns%bind_returns.
  rewrite bind_get in Hr. apply bind_returns in Hr as ([] & s2 & ->%refines_closeAll & Hr).
  apply below_one. unfold Acceptor.acceptorStep. rewrite bind_get.
  change (Acceptor.acceptStopped [] (abs s) = (Ok tt, abs s')). unfold Acceptor.acceptStopped. rewrite <- E1, bind_get. erewrite bind_Ok.
  2: { by destruct (Acceptor.downstreamConnectionManager_ (abs s1)). }
  rewrite bind_get. change (Acceptor.state_ (abs s1)) with (state_ s1).
  destruct (negb _); cbn [when] in *; [|by injection Hr as <-].
  rewrite bind_modify in Hr. rewrite bind_modify.
  change (Acceptor.setState Acceptor.kDraining (abs s1)) with (abs (setState Acceptor.kDraining s1)).
  by apply refines_checkDrained.
Qed.

Lemma refines_dropConnections pct s s' :
  dropConnections closes custom childPipelineFactory pct s = (Ok tt, s') ->
  below (image (DropSome pct) s) (abs s) = (Ok tt, abs s').
Proof.
  intros ([] & s1 & E1%silent_acceptReadException & Hr)%noexcept_returns%bind_returns. rewrite bind_get in Hr.
  apply below_one. unfold Acceptor.acceptorStep. rewrite bind_get, listed_abs, <- E1, <- listed_abs.
  unfold Acceptor.dropConnections. rewrite bind_get. simpl. unfold listed.
  destruct (downstreamConnectionManager_ s1) as [l|] eqn:El; simpl; [|by injection Hr as <-].
  rewrite bind_modify in Hr. destruct (Connections.portion _ _) as [n|]; [|done]. simpl.
  rewrite bind_modify. unfold managed. rewrite <- fmap_take.
  apply (refines_dropSome (take n l) (setForce true s1) s'); [done|simpl; by eexists|done].
Qed.

Lemma refines_step ev s s' :
  serverStep bindAddress getLocalAddress newPipelineThrows closes custom childPipelineFactory ev s = (Ok tt, s') ->
  below (image ev s) (abs s) = (Ok tt, abs s').
Proof.
  unfold serverStep. rewrite bind_get. destruct ev as [addr protocol secure tinfo|socket addr buf|c|c| |pct|pct| |].
  - intros Hr%noexcept_returns. by apply refines_Ready.
  - intros ([] & s1 & E1 & Hr)%noexcept_returns%bind_returns. injection E1 as <-.
    unfold acceptHandlers in Hr. destruct custom as [pass|], childPipelineFactory; try done.
    + by destruct (pass _); injection Hr as <-.
    + rewrite andb_false_r in Hr. by injection Hr as <-.
    + by injection Hr as <-.
  - intros Hr. apply refines_Closed. case_bool_decide as Hc; cbn [when andb] in *; [|by injection Hr as <-].
    apply refines_tellChild in Hr. by rewrite bool_decide_true in Hr.
  - intros Hr. apply refines_Closed. destruct (decide (is_Some (children s !! c))).
    + rewrite bool_decide_true in Hr by done. apply refines_deletePipeline in Hr. by rewrite (bool_decide_true (is_Some _)), andb_true_r.
    + rewrite bool_decide_false in Hr by done. rewrite (bool_decide_false (is_Some _)), andb_false_r by done.
      by injection Hr as <-.
  - apply refines_acceptStopped.
  - intros ([] & s1 & E1%silent_acceptReadException & Hr)%noexcept_returns%bind_returns. rewrite bind_get in Hr.
    rewrite <- E1. destruct (Connections.portion _ _); [|done]. by apply refines_closeAll in Hr as ->.
  - apply refines_dropConnections.
  - intros ([] & s1 & E1%silent_acceptReadException & Hr%refines_dropAllConnections)%noexcept_returns%bind_returns.
    apply below_one. rewrite <- E1. unfold Acceptor.acceptorStep. by rewrite bind_get.
  - intros Hr%refines_dropAllConnections. apply below_one. unfold Acceptor.acceptorStep. by rewrite bind_get.
Qed.

Lemma refines_run evs : forall s s',
  serverRun bindAddress getLocalAddress newPipelineThrows closes custom childPipelineFactory evs s = (Ok tt, s') ->
  below (imageOf evs s) (abs s) = (Ok tt, abs s').
Proof.
  induction evs as [|ev evs IH]; intros s s'; [by intros [= <-]|].
  intros ([] & s1 & E1 & Hr%IH)%bind_returns. cbn [imageOf]. rewrite E1. cbn [snd].
  unfold Acceptor.acceptorRun in *. rewrite for_each_app. by rewrite (bind_Ok _ _ _ _ _ (refines_step _ _ _ E1)).
Qed.
End refinement.

Section below.
Context {Addr Secure Info : Type}.
Context (bindAddress : Addr) (getLocalAddress : nat -> Addr -> option Addr).
Context (newPipelineThrows : nat -> bool) (closes : nat -> list ChildEvent -> bool).
Context (custom : option (AcceptPipelineType (Addr:=Addr) (Secure:=Secure) (Info:=Info) -> bool)).
Context (childPipelineFactory : bool).
Local Notation run := (serverRun bindAddress getLocalAddress newPipelineThrows closes custom childPipelineFactory).
#[local] Existing Instances Handshake.SSL_HandshakeHelper HandshakeProps.SSL_laws.

(** What is proved of the acceptor below holds of a server from its start. *)
Lemma server_drains evs (s' : ServerAcceptor Addr Secure Info) :
  run evs initAcceptor = (Ok tt, s') ->
  (Acceptor.OnConnectionsDrained ∈ calls s' <-> state_ s' = Acceptor.kDone) /\
  (state_ s' = Acceptor.kDraining -> forceShutdownInProgress_ s' = false -> listed s' <> []).
Proof.
  intros Hr. apply (refines_run _ _ _ _ _ _ Handshake.newSSLHelper Handshake.HandshakePending 0) in Hr.
  set (l := imageOf _ _ _ _ _ _ _ _ _) in Hr.
  assert (Handshake.hWf Handshake.newSSLHelper) as Hw by (intros Hf; discriminate Hf).
  destruct (AcceptorProps.newAcceptor_good (H:=Handshake.SSLAcceptorHandshakeHelper) 0 ltac:(lia)) as (a0 & E0 & Hg).
  injection E0 as <-.
  destruct (AcceptorProps.events_good Handshake.newSSLHelper Hw eq_refl l _ Hg) as (l1 & l2 & a & El & E1 & Hg1 & Hend).
  assert (a = abs 0 s') as ->.
  { destruct Hend as [->|(ev & l3 & f & _ & _ & Hf)].
    - rewrite app_nil_r in El. rewrite <- El in E1.
      exact (f_equal snd (eq_trans (eq_sym E1) Hr)).
    - by pose proof (eq_trans (eq_sym Hf) (f_equal fst Hr)). }
  destruct Hg1 as [[_ _ _ Hd] Hu]. split; [exact Hd|]. intros Hs Hf Hl.
  destruct (Hu Hs Hf) as [Hn|(p & conns & Hm)]; [done|].
  rewrite (listed_abs (H:=Handshake.SSLAcceptorHandshakeHelper) 0), Hm in Hl. done.
Qed.

(** C28.  Whatever handlers the accept pipeline has and whether or not there is a
    factory of child pipelines: a history of the server that the process
    survives is, for the acceptor below, the history [imageOf] of Acceptor.v.
    There a new connection is accepted, and managed exactly when it reaches the
    acceptor in the accept pipeline; it closes at once exactly when its
    pipeline closes as it becomes active; a timeout and a pipeline that asks to
    be deleted close the connection exactly when it is listed, and, for a
    timeout, its pipeline closes on it; draining a share closes none, dropping
    a share drops that share of the listed connections, and the stops are those
    of the acceptor.  So a server has told [onConnectionsDrained] exactly when
    it is done, and one that drains and is not forced has connections left. *)
Theorem server_refines_acceptor {H E : Type} `{!Handshake.HandshakeHelper H E} (newHelper : H) (e : E) (max : Z)
    (evs : list ServerEvent) (s s' : ServerAcceptor Addr Secure Info) :
  run evs s = (Ok tt, s') ->
  Acceptor.acceptorRun newHelper
    (imageOf bindAddress getLocalAddress newPipelineThrows closes custom childPipelineFactory e evs s) (abs max s) =
    (Ok tt, abs max s') /\
  (s = initAcceptor ->
    (Acceptor.OnConnectionsDrained ∈ calls s' <-> state_ s' = Acceptor.kDone) /\
    (state_ s' = Acceptor.kDraining -> forceShutdownInProgress_ s' = false -> listed s' <> [])).
Proof.
  intros Hr. split; [by apply refines_run|]. intros ->. by eapply server_drains.
Qed.
End below.

(** ** A server *)

(** Addresses, kinds of transport and the rest of the information are numbers;
    the pipelines close when they are told of an exception. *)
Definition info0 : TransportInfo (Addr:=nat) (Info:=unit) := mkInfo None None None tt.
Definition closesOnException (c : nat) (es : list ChildEvent) : bool :=
  match last es with Some (ReadException _) => true | _ => false end.
Definition server (custom : option (AcceptPipelineType (Addr:=nat) (Secure:=unit) (Info:=unit) -> bool)) (factory : bool) :=
  serverRun 80 (fun c a => Some a) (fun c => c =? 9) closesOnException custom factory.
Definition ready (addr : nat) : ServerEvent := Ready addr "" tt info0.
Definition half : spec_float := S754_finite false (2 ^ 52)%positive (-53).

(** Two of three connections time out or are dropped by share, the third is
    still there while the server drains, and closes. *)
Definition life : list ServerEvent :=
  [ready 1; ready 2; ready 3; Timeout 1; DrainSome half; AcceptStopped; ChildCloses 0; ChildCloses 2].

Example server_life :
  (fun s => (state_ s, calls s, transports s !! 0, length (filter isAdded (accepts s)), length (filter isRemoved (accepts s))))
    (server None true life initAcceptor).2 =
  (Acceptor.kDone,
   [Acceptor.OnNewConnection 0; Acceptor.OnNewConnection 1; Acceptor.OnNewConnection 2; Acceptor.OnConnectionsDrained],
   Some Deleted, 3, 3).
Proof. vm_compute. reflexivity. Qed.

(** Draining closes nothing: [closeWhenIdle] of a [ServerConnection] is empty. *)
Example drain_closes_nothing :
  (fun s => (state_ s, listed s)) (server None true [ready 1; AcceptStopped] initAcceptor).2 = (Acceptor.kDraining, [0]).
Proof. vm_compute. reflexivity. Qed.

(** A forced stop drops the connections without CONN_REMOVED. *)
Example forced_stop_is_silent :
  (fun s => (listed s, length (filter isAdded (accepts s)), length (filter isRemoved (accepts s))))
    (server None true [ready 1; ready 2; ForceStop] initAcceptor).2 = ([], 2, 0).
Proof. vm_compute. reflexivity. Qed.

(** One factory that throws, once, ends the process. *)
Example throwing_factory_terminates :
  (server None true (replicate 10 (ready 1)) initAcceptor).1 = Err (CheckFailed "std::terminate").
Proof. vm_compute. reflexivity. Qed.

(** Without a factory of child pipelines, and with handlers of the accept
    pipeline that pass a connection on, nobody owns its transport: it is lost.
    With no handlers either, the process ends. *)
Example no_factory_loses_transport :
  (fun r => (match r.1 with Ok _ => None | Err f => Some f end, transports r.2 !! 0))
    (server (Some (fun _ => true)) false [ready 1] initAcceptor) = (None, Some Raw) /\
  (server None false [ready 1] initAcceptor).1 = Err (CheckFailed "std::terminate").
Proof. vm_compute. done. Qed.

Lemma server_connections_accounted_witness :
  let s := (server None true life initAcceptor).2 in
  exists k, k = 0 /\ accounted k s /\ length (filter isAdded (accepts s)) = 3.
Proof.
  destruct (server_connections_accounted (Secure:=unit) (Info:=unit) 80 (fun c a => Some a) (fun c => c =? 9) closesOnException life)
    as (k & Hs & Hk & _).
  exists k. split; [apply Hk; repeat constructor|]. split; [exact Hs|]. vm_compute. reflexivity.
Defined.

#[local] Existing Instance Handshake.SSL_HandshakeHelper.
(** Of four connections one times out, and half of the others are dropped. *)
Definition shares : list ServerEvent :=
  [ready 1; ready 2; ready 3; ready 4; Timeout 1; DropSome half; AcceptStopped].

Lemma server_refines_acceptor_witness :
  let s := initAcceptor (Addr:=nat) (Secure:=unit) (Info:=unit) in
  let l := imageOf 80 (fun c a => Some a) (fun c => c =? 9) closesOnException None true Handshake.HandshakePending shares s in
  exists s', server None true shares s = (Ok tt, s') /\ listed s' = [2; 0] /\
    drop 4 l = [Acceptor.Closed 1; Acceptor.DropSome Handshake.HandshakePending 1; Acceptor.AcceptStopped []] /\
    Acceptor.acceptorRun Handshake.newSSLHelper l (abs 10 s) = (Ok tt, abs 10 s').
Proof.
  intros s l. exists (server None true shares initAcceptor).2.
  split; [vm_compute; reflexivity|]. split; [vm_compute; reflexivity|]. split; [vm_compute; reflexivity|].
  destruct (server_refines_acceptor 80 (fun c a => Some a) (fun c => c =? 9) closesOnException None true
              Handshake.newSSLHelper Handshake.HandshakePending 10 shares initAcceptor
              (server None true shares initAcceptor).2 ltac:(vm_compute; reflexivity)) as [Hr _].
  exact Hr.
Defined.
