(* ===== verification/Routing.v ===== *)
(** * Routing of connections (AcceptRoutingHandler, RoutingDataHandler)

    The handler sits in the accept pipeline of one acceptor.  It reads every
    new connection through a pipeline of its own until the routing data are
    parsed, and passes the socket, with the bytes read so far, to the event
    base of the worker that the hash of the routing data selects; there the
    child pipeline is made, which reads on.

    The workers of the server come and go ([Bootstrap]); what the parser makes
    of a queue, the hash and the arrival of bytes are parameters and inputs. *)
From Stdlib Require Import ZArith Lia.
From stdpp Require Import base numbers list gmap strings.
From S2P Require Import Prelude.
Open Scope cpp_scope.

Set Default Goal Selector "!".

Section routing.
Context {B R : Type}.
(** [std::hash], and [parseRoutingData]: what it leaves in the queue and, when
    it returns true, the routing data with the bytes for the child. *)
Context (hash : R -> Z) (parseRoutingData : list B -> list B * option (R * list B)).

Record RoutingData : Type := mkData {
  routingData : R;
  bufQueue : list B
}.
(** The continuation of [onRoutingData], waiting in a worker's event base. *)
Record Task : Type := mkTask {
  task_conn : nat;
  task_acceptor : nat;
  task_data : RoutingData
}.
(** A connection with its child pipeline, and what this was given to read. *)
Record Child : Type := mkChild {
  child_acceptor : nat;
  child_routing : R;
  received : list B
}.

(** [routingPipelines_] by the queue of their socket handler; [chunks] is what
    was read from each socket so far, in the order of reading. *)
Record Router : Type := mkRouter {
  serverWorkers : list nat;
  gone : list nat;
  acceptors_ : list nat;
  routingPipelines_ : gmap nat (list B);
  nextConnId_ : nat;
  tasks : list Task;
  children : gmap nat Child;
  chunks : gmap nat (list (list B))
}.
Definition newRouter (workers : list nat) : Router := mkRouter workers [] [] ∅ 0 [] ∅ ∅.

Definition setAcceptors x (s : Router) : Router :=
  mkRouter (serverWorkers s) (gone s) x (routingPipelines_ s) (nextConnId_ s) (tasks s) (children s) (chunks s).
Definition setPipelines x (s : Router) : Router :=
  mkRouter (serverWorkers s) (gone s) (acceptors_ s) x (nextConnId_ s) (tasks s) (children s) (chunks s).
Definition setTasks x (s : Router) : Router :=
  mkRouter (serverWorkers s) (gone s) (acceptors_ s) (routingPipelines_ s) (nextConnId_ s) x (children s) (chunks s).
Definition setChild c x (s : Router) : Router :=
  mkRouter (serverWorkers s) (gone s) (acceptors_ s) (routingPipelines_ s) (nextConnId_ s) (tasks s)
    (<[c := x]> (children s)) (chunks s).
Definition addChunk c bytes (s : Router) : Router :=
  mkRouter (serverWorkers s) (gone s) (acceptors_ s) (routingPipelines_ s) (nextConnId_ s) (tasks s) (children s)
    (<[c := default [] (chunks s !! c) ++ [bytes]]> (chunks s)).

(** ** AcceptRoutingHandler *)

Definition populateAcceptors : M Router unit :=
  let! s := get in
  if negb (length (acceptors_ s) =? 0) then ret tt
  else modify (setAcceptors (serverWorkers s)).

(** [read] of a new connection, whose socket may be invalid by now. *)
Definition read (valid : bool) : M Router unit :=
  do! populateAcceptors in
  let! s := get in
  let connId := nextConnId_ s in
  do! modify (fun s => mkRouter (serverWorkers s) (gone s) (acceptors_ s) (routingPipelines_ s) (S connId) (tasks s)
        (children s) (chunks s)) in
  when valid (modify (fun s => setPipelines (<[connId := []]> (routingPipelines_ s)) s)).

Definition useAcceptor (a : nat) : M Router unit :=
  let! s := get in
  if decide (a ∈ gone s) then raise (Undefined "Acceptor destroyed") else ret tt.

Definition onRoutingData (connId : nat) (data : RoutingData) : M Router unit :=
  let! s := get in
  match routingPipelines_ s !! connId with
  | None => ret tt
  | Some _ =>
      do! modify (fun s => setPipelines (delete connId (routingPipelines_ s)) s) in
      match acceptors_ s with
      | [] => raise (Undefined "hash % 0")
      | _ =>
          let! acceptor := of_option (Undefined "acceptors_")
            (acceptors_ s !! Z.to_nat (Z.modulo (u64 (hash (routingData data))) (Z.of_nat (length (acceptors_ s))))) in
          do! useAcceptor acceptor in
          modify (fun s => setTasks (tasks s ++ [mkTask connId acceptor data]) s)
      end
  end.

Definition onError (connId : nat) : M Router unit :=
  modify (fun s => setPipelines (delete connId (routingPipelines_ s)) s).

(** The lambda, in the worker's thread. *)
Definition runTask (t : Task) : M Router unit :=
  do! useAcceptor (task_acceptor t) in
  modify (setChild (task_conn t) (mkChild (task_acceptor t) (routingData (task_data t)) (bufQueue (task_data t)))).

(** ** RoutingDataHandler *)

(** [readDataAvailable] of the socket handler in front, and [read]. *)
Definition routing_read (connId : nat) (q : list B) (bytes : list B) : M Router unit :=
  let '(q', result) := parseRoutingData (q ++ bytes) in
  do! modify (fun s => setPipelines (<[connId := q']> (routingPipelines_ s)) s) in
  match result with
  | Some (d, buf) => onRoutingData connId (mkData d buf)
  | None => ret tt
  end.

(** ** Events *)

Inductive RouterEvent : Type :=
| Accept (valid : bool)
| Data (connId : nat) (bytes : list B)
| Failed (connId : nat)          (* end of file, or an error of the socket *)
| RunTask (acceptor : nat)
| WorkerStarted (pos w : nat)
| WorkerStopped (w : nat).

Fixpoint takeTask (a : nat) (l : list Task) : option (Task * list Task) :=
  match l with
  | [] => None
  | t :: l =>
      if decide (task_acceptor t = a) then Some (t, l)
      else '(t', l') ← takeTask a l; Some (t', t :: l')
  end.
Definition runTaskOf (a : nat) : M Router unit :=
  let! s := get in
  match takeTask a (tasks s) with
  | Some (t, l) => do! modify (setTasks l) in runTask t
  | None => ret tt
  end.

(** A socket is read by its routing pipeline, then by its child; in between
    nobody reads it.  A worker that stops runs first what its event base
    holds. *)
Definition routerEvent (ev : RouterEvent) : M Router unit :=
  let! s := get in
  match ev with
  | Accept valid => read valid
  | Data c bytes =>
      match routingPipelines_ s !! c, children s !! c with
      | Some q, _ => do! modify (addChunk c bytes) in routing_read c q bytes
      | None, Some x =>
          do! modify (addChunk c bytes) in
          modify (setChild c (mkChild (child_acceptor x) (child_routing x) (received x ++ bytes)))
      | None, None => ret tt
      end
  | Failed c => when (if routingPipelines_ s !! c is Some _ then true else false) (onError c)
  | RunTask a => runTaskOf a
  | WorkerStarted pos w =>
      when (bool_decide (w ∉ serverWorkers s ++ gone s))
        (modify (fun s => mkRouter (take pos (serverWorkers s) ++ w :: drop pos (serverWorkers s)) (gone s) (acceptors_ s)
          (routingPipelines_ s) (nextConnId_ s) (tasks s) (children s) (chunks s)))
  | WorkerStopped w =>
      when (bool_decide (w ∈ serverWorkers s))
        (do! for_each (filter (fun t => task_acceptor t = w) (tasks s)) (fun _ => runTaskOf w) in
         modify (fun s => mkRouter (filter (fun v => v <> w) (serverWorkers s)) (w :: gone s) (acceptors_ s)
           (routingPipelines_ s) (nextConnId_ s) (tasks s) (children s) (chunks s)))
  end.

(** ** What a connection should see *)

(** The stream is parsed as far as it has arrived, chunk by chunk; from then on
    its bytes go to the child. *)
Fixpoint route (q : list B) (stream : list (list B)) : list B + (R * list B) :=
  match stream with
  | [] => inl q
  | bytes :: stream =>
      match parseRoutingData (q ++ bytes) with
      | (q', None) => route q' stream
      | (_, Some (d, buf)) => inr (d, buf ++ concat stream)
      end
  end.
Definition selected (l : list nat) (d : R) : option nat :=
  l !! Z.to_nat (Z.modulo (u64 (hash d)) (Z.of_nat (length l))).
End routing.
