(* ===== verification/RoutingProps.v ===== *)
(** * Routing: each connection reaches the worker of its hash, with its bytes

    Whatever the interleaving of connections, arriving bytes, tasks and workers
    that come and go, what a connection's child pipeline reads is a function of
    that connection's own stream ([route]).  The one way to fail is the list of
    acceptors, which is copied once and keeps those that are gone. *)
From Stdlib Require Import ZArith Lia.
From stdpp Require Import base numbers list gmap strings.
From S2P Require Import Prelude Routing.
Open Scope cpp_scope.

Set Default Goal Selector "!".

Section routing.
Context {B R : Type} (hash : R -> Z) (parseRoutingData : list B -> list B * option (R * list B)).
#[local] Abbreviation Router := (Router (B:=B) (R:=R)).
#[local] Abbreviation route := (route parseRoutingData).
#[local] Abbreviation selected := (selected hash).
#[local] Abbreviation routerEvent := (routerEvent hash parseRoutingData).
Implicit Types (s : Router).

(** ** The stream of one connection *)

Definition stream (c : nat) s : list (list B) := default [] (chunks s !! c).

Lemma route_snoc str bytes : forall q,
  route q (str ++ [bytes]) =
  match route q str with
  | inl q1 => match parseRoutingData (q1 ++ bytes) with (q', None) => inl q' | (_, Some (d, buf)) => inr (d, buf) end
  | inr (d, l) => inr (d, l ++ bytes)
  end.
Proof.
  induction str as [|b str IH]; intros q; simpl.
  - destruct (parseRoutingData (q ++ bytes)) as [q' [[d buf]|]]; [by rewrite app_nil_r|done].
  - destruct (parseRoutingData (q ++ b)) as [q' [[d buf]|]]; [|apply IH].
    by rewrite concat_app, app_assoc; simpl; rewrite app_nil_r.
Qed.

Lemma stream_addChunk c bytes s c' :
  stream c' (addChunk c bytes s) = if decide (c' = c) then stream c s ++ [bytes] else stream c' s.
Proof.
  unfold stream. simpl. case_decide; [subst; by rewrite lookup_insert_eq|by rewrite lookup_insert_ne].
Qed.

Lemma selected_Some l d : l <> [] -> exists a, selected l d = Some a /\ a ∈ l.
Proof.
  intros Hl. unfold selected. destruct (l !! Z.to_nat (u64 (hash d) `mod` Z.of_nat (length l))) as [a|] eqn:E.
  - exists a. split; [done|]. by eapply list_elem_of_lookup_2.
  - apply lookup_ge_None in E. assert (0 < length l) by (destruct l; simpl in *; [done|lia]).
    pose proof (Z.mod_pos_bound (u64 (hash d)) (Z.of_nat (length l)) ltac:(lia)). lia.
Qed.

(** ** The invariant *)

Record router_ok s : Prop := {
  ro_waiting c q : routingPipelines_ s !! c = Some q ->
    c < nextConnId_ s /\ route [] (stream c s) = inl q /\ c ∉ task_conn <$> tasks s /\ children s !! c = None;
  ro_tasks t : t ∈ tasks s ->
    task_conn t < nextConnId_ s /\ routingPipelines_ s !! task_conn t = None /\ children s !! task_conn t = None /\
    route [] (stream (task_conn t) s) = inr (routingData (task_data t), bufQueue (task_data t)) /\
    selected (acceptors_ s) (routingData (task_data t)) = Some (task_acceptor t) /\ task_acceptor t ∉ gone s;
  ro_nodup : NoDup (task_conn <$> tasks s);
  ro_children c x : children s !! c = Some x ->
    c < nextConnId_ s /\ routingPipelines_ s !! c = None /\ c ∉ task_conn <$> tasks s /\
    route [] (stream c s) = inr (child_routing x, received x) /\
    selected (acceptors_ s) (child_routing x) = Some (child_acceptor x);
  ro_fresh c : nextConnId_ s <= c -> chunks s !! c = None
}.

Lemma router_ok_new ws : router_ok (newRouter ws).
Proof.
  split; simpl; try done.
  - by intros t ?%elem_of_nil.
  - constructor.
Qed.

Lemma selected_frozen l d a l' : selected l d = Some a -> selected (if negb (length l =? 0) then l else l') d = Some a.
Proof. by destruct l. Qed.

Lemma populate_eq s : populateAcceptors s =
  (Ok tt, setAcceptors (if negb (length (acceptors_ s) =? 0) then acceptors_ s else serverWorkers s) s).
Proof. unfold populateAcceptors. rewrite bind_get. destruct (negb _); [by destruct s|done]. Qed.

Lemma read_ok valid s : router_ok s -> exists s', read valid s = (Ok tt, s') /\ router_ok s'.
Proof.
  intros [Hw Ht Hn Hc Hf]. unfold read. rewrite (bind_Ok _ _ _ _ _ (populate_eq s)), bind_get, bind_modify. simpl.
  set (acc := if negb (length (acceptors_ s) =? 0) then _ else _).
  assert (Hsel : forall d a, selected (acceptors_ s) d = Some a -> selected acc d = Some a) by (intros; by apply selected_frozen).
  assert (Hnone : routingPipelines_ s !! nextConnId_ s = None /\ nextConnId_ s ∉ task_conn <$> tasks s /\ children s !! nextConnId_ s = None).
  { split_and!.
    - destruct (_ !! _) eqn:E; [|done]. destruct (Hw _ _ E). lia.
    - intros (t & Heq & Hin)%list_elem_of_fmap. destruct (Ht t Hin). lia.
    - destruct (_ !! _) eqn:E; [|done]. destruct (Hc _ _ E). lia. }
  destruct Hnone as (N1 & N2 & N3).
  destruct valid; eexists; (split; [done|]); (split; simpl; [| |done| |]).
  - intros c q. destruct (decide (c = nextConnId_ s)) as [->|Hne].
    + rewrite lookup_insert_eq. intros [= <-]. split; [lia|]. unfold stream. simpl. by rewrite Hf.
    + rewrite lookup_insert_ne by done. intros E. destruct (Hw c q E) as (? & ? & ?). split; [lia|done].
  - intros t Hin. destruct (Ht t Hin) as (? & ? & ? & ? & ? & ?). rewrite lookup_insert_ne by lia. split_and!; first [lia|by auto].
  - intros c x E. destruct (Hc c x E) as (? & ? & ? & ? & ?). rewrite lookup_insert_ne by lia. split_and!; first [lia|by auto].
  - intros c Hle. apply Hf. lia.
  - intros c q E. destruct (Hw c q E) as (? & ? & ?). split; [lia|done].
  - intros t Hin. destruct (Ht t Hin) as (? & ? & ? & ? & ? & ?). split_and!; first [lia|by auto].
  - intros c x E. destruct (Hc c x E) as (? & ? & ? & ? & ?). split_and!; first [lia|by auto].
  - intros c Hle. apply Hf. lia.
Qed.

(** The worker that the hash selects is gone, or there never was one. *)
Definition dangling ev s : Prop :=
  exists c bytes q q' d buf, ev = Data c bytes /\ routingPipelines_ s !! c = Some q /\
    parseRoutingData (q ++ bytes) = (q', Some (d, buf)) /\
    (forall a, selected (acceptors_ s) d = Some a -> a ∈ gone s).

Definition afterParse c q' bytes s : Router := setPipelines (<[c := q']> (routingPipelines_ s)) (addChunk c bytes s).

Lemma waits_on c q q' bytes s : router_ok s -> routingPipelines_ s !! c = Some q ->
  parseRoutingData (q ++ bytes) = (q', None) -> router_ok (afterParse c q' bytes s).
Proof.
  intros [Hw Ht Hn Hc Hf] E Hp. destruct (Hw c q E) as (Hlt & Hr & Htk & Hch). split; simpl.
  - intros c' p. change (stream c' (afterParse c q' bytes s)) with (stream c' (addChunk c bytes s)). rewrite stream_addChunk.
    case_decide as Hd.
    + subst c'. rewrite lookup_insert_eq. intros [= <-]. split_and!; [done| |done..]. by rewrite route_snoc, Hr, Hp.
    + rewrite lookup_insert_ne by done. apply Hw.
  - intros t Hin. destruct (Ht t Hin) as (? & ? & ? & Hrt & ? & ?). assert (task_conn t <> c) by congruence.
    rewrite lookup_insert_ne by done. change (stream (task_conn t) (afterParse c q' bytes s)) with (stream (task_conn t) (addChunk c bytes s)).
    rewrite stream_addChunk, decide_False by done. by split_and!.
  - done.
  - intros c' x Ex. destruct (Hc c' x Ex) as (? & ? & ? & ? & ?). assert (c' <> c) by congruence.
    rewrite lookup_insert_ne by done. change (stream c' (afterParse c q' bytes s)) with (stream c' (addChunk c bytes s)).
    rewrite stream_addChunk, decide_False by done. by split_and!.
  - intros c' Hle. rewrite lookup_insert_ne by lia. by apply Hf.
Qed.

Definition posted c d buf a bytes s : Router :=
  setTasks (tasks s ++ [mkTask c a (mkData d buf)]) (setPipelines (delete c (routingPipelines_ s)) (addChunk c bytes s)).

Lemma posts c q q' d buf a bytes s : router_ok s -> routingPipelines_ s !! c = Some q ->
  parseRoutingData (q ++ bytes) = (q', Some (d, buf)) -> selected (acceptors_ s) d = Some a -> a ∉ gone s ->
  router_ok (posted c d buf a bytes s).
Proof.
  intros [Hw Ht Hn Hc Hf] E Hp Hsel Ha. destruct (Hw c q E) as (Hlt & Hr & Htk & Hch).
  assert (Hstr : forall c', stream c' (posted c d buf a bytes s) = if decide (c' = c) then stream c s ++ [bytes] else stream c' s)
    by (intros c'; apply stream_addChunk).
  split; simpl.
  - intros c' p [Hne Ep]%lookup_delete_Some. rewrite Hstr, decide_False by done. destruct (Hw c' p Ep) as (? & ? & ? & ?).
    split_and!; [done..| |done]. rewrite fmap_app. simpl. set_solver.
  - intros t [Hin| ->%list_elem_of_singleton]%elem_of_app.
    + destruct (Ht t Hin) as (? & ? & ? & Hrt & ? & ?). assert (task_conn t <> c) by congruence.
      rewrite Hstr, decide_False by done. rewrite lookup_delete_ne by done. by split_and!.
    + simpl. rewrite lookup_delete_eq, Hstr, decide_True by done. split_and!; try done. by rewrite route_snoc, Hr, Hp.
  - rewrite fmap_app. simpl. apply NoDup_app. split; [done|]. split; [|apply NoDup_singleton].
    intros c' Hin ->%list_elem_of_singleton. done.
  - intros c' x Ex. destruct (Hc c' x Ex) as (? & ? & ? & ? & ?). assert (c' <> c) by congruence.
    rewrite Hstr, decide_False by done. rewrite lookup_delete_ne by done. split_and!; try done. rewrite fmap_app. simpl. set_solver.
  - intros c' Hle. rewrite lookup_insert_ne by lia. by apply Hf.
Qed.

(** ** Tasks and children *)

Lemma takeTask_Some a l t l' : takeTask a l = Some (t, l') ->
  exists l1 l2, l = l1 ++ t :: l2 /\ l' = l1 ++ l2 /\ task_acceptor (B:=B) (R:=R) t = a.
Proof.
  revert t l'. induction l as [|u l IH]; intros t l'; [done|]. simpl. case_decide as Hd.
  - intros [= <- <-]. by exists [], l.
  - destruct (takeTask a l) as [[v k]|]; [|done]. intros [= <- <-].
    destruct (IH v k eq_refl) as (l1 & l2 & -> & -> & Ha). by exists (u :: l1), l2.
Qed.
Lemma takeTask_filter a (l : list (Task (B:=B) (R:=R))) :
  match takeTask a l with
  | Some (t, l') => length (filter (fun u => task_acceptor u = a) l) = S (length (filter (fun u => task_acceptor u = a) l'))
  | None => filter (fun u => task_acceptor u = a) l = []
  end.
Proof.
  destruct (takeTask a l) as [[t l']|] eqn:E.
  - destruct (takeTask_Some _ _ _ _ E) as (l1 & l2 & -> & -> & Ha).
    rewrite !filter_app, filter_cons_True by done. rewrite !length_app. simpl. lia.
  - induction l as [|u l IH]; [done|]. simpl in E. case_decide; [done|]. rewrite filter_cons_False by done.
    apply IH. by destruct (takeTask a l) as [[v k]|].
Qed.

Lemma runTaskOf_ok a s : router_ok s -> exists s', runTaskOf a s = (Ok tt, s') /\ router_ok s' /\
  serverWorkers s' = serverWorkers s /\ gone s' = gone s /\
  tasks s' = (if takeTask a (tasks s) is Some (_, l) then l else tasks s).
Proof.
  intros Hok. unfold runTaskOf. rewrite bind_get. destruct (takeTask a (tasks s)) as [[t l]|] eqn:E; [|by exists s].
  destruct (takeTask_Some _ _ _ _ E) as (l1 & l2 & El & -> & _). destruct Hok as [Hw Ht Hn Hc Hf].
  rewrite El in Ht, Hn. destruct (Ht t) as (Hlt & Hp & Hch & Hr & Hsel & Hg); [set_solver|].
  rewrite bind_modify. unfold runTask, useAcceptor. rewrite bind_assoc, bind_get. simpl. rewrite decide_False by done. rewrite bind_ret.
  eexists. split; [done|]. split; [|done]. rewrite fmap_app in Hn. simpl in Hn.
  assert (Hperm : task_conn <$> (l1 ++ t :: l2) ≡ₚ task_conn t :: (task_conn <$> (l1 ++ l2))).
  { rewrite !fmap_app. simpl. by rewrite Permutation_middle. }
  assert (Hnew : task_conn t ∉ task_conn <$> (l1 ++ l2) /\ NoDup (task_conn <$> (l1 ++ l2))).
  { apply NoDup_cons. by rewrite <- Hperm, fmap_app. }
  destruct Hnew as [Hnt Hnd]. split; simpl.
  - intros c q Ec. destruct (Hw c q Ec) as (? & ? & Hnin & ?). assert (c <> task_conn t) by congruence.
    rewrite lookup_insert_ne by done. split_and!; [done..| |done]. rewrite El, Hperm in Hnin. by apply not_elem_of_cons in Hnin as [_ ?].
  - intros u Hu. destruct (Ht u) as (? & ? & ? & ? & ? & ?); [set_solver|].
    assert (task_conn u <> task_conn t) by (intros Heq; apply Hnt; rewrite <- Heq; by apply list_elem_of_fmap_2).
    rewrite lookup_insert_ne by done. by split_and!.
  - done.
  - intros c x. destruct (decide (c = task_conn t)) as [->|Hne].
    + rewrite lookup_insert_eq. intros [= <-]. by split_and!.
    + rewrite lookup_insert_ne by done. intros Ex. destruct (Hc c x Ex) as (? & ? & Hnin & ? & ?). split_and!; try done.
      rewrite El, Hperm in Hnin. by apply not_elem_of_cons in Hnin as [_ ?].
  - done.
Qed.

Lemma drain_ok w (l : list (Task (B:=B) (R:=R))) : forall s, router_ok s ->
  length (filter (fun t => task_acceptor t = w) (tasks s)) = length l ->
  exists s', for_each l (fun _ => runTaskOf w) s = (Ok tt, s') /\ router_ok s' /\
    filter (fun t => task_acceptor t = w) (tasks s') = [] /\ serverWorkers s' = serverWorkers s /\ gone s' = gone s.
Proof.
  induction l as [|t l IH]; intros s Hok Hlen; cbn [for_each].
  - exists s. split_and!; try done. by apply nil_length_inv.
  - destruct (runTaskOf_ok w s Hok) as (s1 & E1 & Hok1 & W1 & G1 & T1). rewrite (bind_Ok _ _ _ _ _ E1).
    pose proof (takeTask_filter w (tasks s)) as Htf. simpl in Hlen.
    destruct (takeTask w (tasks s)) as [[u l']|]; [|by rewrite Htf in Hlen]. rewrite Hlen in Htf. injection Htf as Htf.
    destruct (IH s1 Hok1) as (s2 & E2 & Hok2 & F2 & W2 & G2); [by rewrite T1|]. exists s2. split_and!; congruence || done.
Qed.

Lemma child_reads c x bytes s : router_ok s -> children s !! c = Some x ->
  router_ok (setChild c (mkChild (child_acceptor x) (child_routing x) (received x ++ bytes)) (addChunk c bytes s)).
Proof.
  intros [Hw Ht Hn Hc Hf] Ex. destruct (Hc c x Ex) as (Hlt & Hp & Hnt & Hr & Hsel). set (s' := setChild _ _ _).
  assert (Hstr : forall c', stream c' s' = if decide (c' = c) then stream c s ++ [bytes] else stream c' s)
    by (intros c'; apply stream_addChunk).
  split; simpl.
  - intros c' q Eq. destruct (Hw c' q Eq) as (? & ? & ? & ?). assert (c' <> c) by congruence.
    rewrite Hstr, decide_False by done. rewrite lookup_insert_ne by done. by split_and!.
  - intros t Hin. destruct (Ht t Hin) as (? & ? & ? & ? & ? & ?). assert (task_conn t <> c) by congruence.
    rewrite Hstr, decide_False by done. rewrite lookup_insert_ne by done. by split_and!.
  - done.
  - intros c' y. rewrite Hstr. case_decide as Hd.
    + subst c'. rewrite lookup_insert_eq. intros [= <-]. split_and!; try done. simpl. by rewrite route_snoc, Hr.
    + rewrite lookup_insert_ne by done. apply Hc.
  - intros c' Hle. rewrite lookup_insert_ne by lia. by apply Hf.
Qed.

Lemma forgets c s : router_ok s -> router_ok (setPipelines (delete c (routingPipelines_ s)) s).
Proof.
  intros [Hw Ht Hn Hc Hf]. split; simpl; try done.
  - intros c' q [_ Eq]%lookup_delete_Some. by apply Hw.
  - intros t Hin. destruct (Ht t Hin) as (? & ? & ? & ? & ? & ?). split_and!; try done. rewrite lookup_delete_None. by right.
  - intros c' x Ex. destruct (Hc c' x Ex) as (? & ? & ? & ? & ?). split_and!; try done. rewrite lookup_delete_None. by right.
Qed.

(** ** Every event *)

Lemma data_ok c q bytes s : router_ok s -> routingPipelines_ s !! c = Some q -> ~ dangling (Data c bytes) s ->
  exists s', routerEvent (Data c bytes) s = (Ok tt, s') /\ router_ok s'.
Proof.
  intros Hok E Hnd. unfold Routing.routerEvent. rewrite bind_get, E, bind_modify. unfold routing_read.
  destruct (parseRoutingData (q ++ bytes)) as [q' [[d buf]|]] eqn:Ep; rewrite bind_modify.
  - unfold onRoutingData. rewrite bind_get. simpl. rewrite lookup_insert_eq, bind_modify. simpl.
    assert (Ha : exists a, selected (acceptors_ s) d = Some a /\ a ∉ gone s).
    { destruct (acceptors_ s) as [|a0 l] eqn:El.
      - exfalso. apply Hnd. exists c, bytes, q, q', d, buf. rewrite El. by split_and!.
      - destruct (selected_Some (a0 :: l) d) as (a & Ea & _); [done|]. exists a. split; [done|]. intros Hg. apply Hnd.
        exists c, bytes, q, q', d, buf. split_and!; [done..|]. rewrite El. intros a' Ea'. congruence. }
    destruct Ha as (a & Ea & Hg). destruct (acceptors_ s) as [|a0 l] eqn:El; [done|]. unfold Routing.selected in Ea.
    simpl in Ea |- *. rewrite Ea. unfold of_option, bind at 1. unfold useAcceptor. rewrite bind_assoc, bind_get. simpl.
    rewrite decide_False by done. rewrite bind_ret. eexists. split; [done|].
    replace (setTasks _ _) with (posted c d buf a bytes s).
    + eapply posts; [done..| |done]. by rewrite El.
    + unfold posted, setTasks, setPipelines. simpl. by rewrite delete_insert_eq.
  - eexists. split; [done|]. exact (waits_on c q q' bytes s Hok E Ep).
Qed.

Lemma stopped_ok w s : router_ok s -> exists s', routerEvent (WorkerStopped w) s = (Ok tt, s') /\ router_ok s'.
Proof.
  intros Hok. unfold Routing.routerEvent. rewrite bind_get. destruct (bool_decide _); [|by exists s]. cbn [when].
  destruct (drain_ok w (filter (fun t => task_acceptor t = w) (tasks s)) s Hok eq_refl) as (s1 & E1 & Hok1 & Hnone & _ & _).
  rewrite (bind_Ok _ _ _ _ _ E1). eexists. split; [done|]. destruct Hok1 as [Hw Ht Hn Hc Hf]. split; simpl; try done.
  intros t Hin. destruct (Ht t Hin) as (? & ? & ? & ? & ? & ?). split_and!; try done. apply not_elem_of_cons. split; [|done].
  intros Heq. assert (Hf' : t ∈ filter (fun t => task_acceptor t = w) (tasks s1)) by (by apply list_elem_of_filter).
  rewrite Hnone in Hf'. by apply elem_of_nil in Hf'.
Qed.

Lemma routerEvent_ok ev s : router_ok s -> ~ dangling ev s -> exists s', routerEvent ev s = (Ok tt, s') /\ router_ok s'.
Proof.
  intros Hok Hnd. destruct ev as [valid|c bytes|c|a|pos w|w].
  - unfold Routing.routerEvent. rewrite bind_get. by apply read_ok.
  - destruct (routingPipelines_ s !! c) as [q|] eqn:E; [by eapply data_ok|]. unfold Routing.routerEvent. rewrite bind_get, E.
    destruct (children s !! c) as [x|] eqn:Ex; [|by exists s]. eexists. split; [done|]. by apply child_reads.
  - unfold Routing.routerEvent. rewrite bind_get. destruct (routingPipelines_ s !! c); [|by exists s].
    eexists. split; [done|]. by apply forgets.
  - unfold Routing.routerEvent. rewrite bind_get. destruct (runTaskOf_ok a s Hok) as (s' & ? & ? & _). by exists s'.
  - unfold Routing.routerEvent. rewrite bind_get. destruct (bool_decide _); [|by exists s].
    eexists. split; [done|]. by destruct Hok.
  - by apply stopped_ok.
Qed.

Lemma dangling_fails ev s : dangling ev s -> exists what, (routerEvent ev s).1 = Err (Undefined what).
Proof.
  intros (c & bytes & q & q' & d & buf & -> & E & Ep & Hg). unfold Routing.routerEvent. rewrite bind_get, E, bind_modify.
  unfold routing_read. rewrite Ep, bind_modify. unfold onRoutingData. rewrite bind_get. simpl. rewrite lookup_insert_eq, bind_modify. simpl.
  destruct (acceptors_ s) as [|a0 l] eqn:El; [by eexists|].
  destruct (selected_Some (a0 :: l) d) as (a & Ea & _); [done|]. specialize (Hg a Ea). unfold Routing.selected in Ea.
  simpl in Ea |- *. rewrite Ea. unfold of_option, bind at 1, useAcceptor. rewrite bind_assoc, bind_get. simpl.
  rewrite decide_True by done. by eexists.
Qed.

Definition routerRun (ws : list nat) (evs : list (RouterEvent (B:=B))) : res unit * Router := for_each evs routerEvent (newRouter ws).

Lemma routerRun_ok ws evs s : routerRun ws evs = (Ok tt, s) -> router_ok s.
Proof.
  unfold routerRun. pose proof (router_ok_new ws) as Hok. revert Hok. generalize (newRouter (B:=B) (R:=R) ws).
  induction evs as [|ev evs IH]; intros s0 Hok; cbn [for_each]; [by intros [= <-]|].
  destruct (routerEvent ev s0) as [[[]|f] s1] eqn:E; [|by rewrite (bind_Err _ _ _ _ _ E)].
  rewrite (bind_Ok _ _ _ _ _ E). apply IH. destruct (routerEvent_ok ev s0 Hok) as (s2 & E2 & H2).
  - intros Hd%dangling_fails. rewrite E in Hd. by destruct Hd.
  - congruence.
Qed.

(** C33. For every interleaving of accepted connections, arriving bytes, tasks
    of the workers and workers that start and stop: what the child pipeline of
    a connection was given is exactly what the connection's own stream is
    routed to - the rest of the queue when the routing data were complete, then
    all later bytes, in order, nothing twice - and it runs on the worker that
    the hash selects; a connection is in at most one place, and one that waits
    holds exactly what its parser left. *)
Theorem connection_routed (ws : list nat) evs s : routerRun ws evs = (Ok tt, s) ->
  (forall c x, children s !! c = Some x ->
     route [] (stream c s) = inr (child_routing x, received x) /\
     selected (acceptors_ s) (child_routing x) = Some (child_acceptor x) /\
     routingPipelines_ s !! c = None /\ c ∉ task_conn <$> tasks s) /\
  (forall t, t ∈ tasks s ->
     route [] (stream (task_conn t) s) = inr (routingData (task_data t), bufQueue (task_data t)) /\
     selected (acceptors_ s) (routingData (task_data t)) = Some (task_acceptor t) /\
     task_acceptor t ∉ gone s /\ routingPipelines_ s !! task_conn t = None) /\
  NoDup (task_conn <$> tasks s) /\
  (forall c q, routingPipelines_ s !! c = Some q -> route [] (stream c s) = inl q).
Proof.
  intros [Hw Ht Hn Hc _]%routerRun_ok. split_and!; [| |done|].
  - intros c x E. destruct (Hc c x E) as (? & ? & ? & ? & ?). by split_and!.
  - intros t Hin. destruct (Ht t Hin) as (? & ? & ? & ? & ? & ?). by split_and!.
  - intros c q E. by destruct (Hw c q E) as (? & ? & ? & ?).
Qed.

(** C34. The acceptors are copied when the first connection arrives: routing
    fails exactly when the hash of complete routing data selects a worker that
    has stopped since, or when there was no worker then; and then it uses a
    destroyed acceptor or divides by zero. *)
Theorem routing_fails_iff_dangling (ws : list nat) evs s ev : routerRun ws evs = (Ok tt, s) ->
  ((routerEvent ev s).1 = Ok tt <-> ~ dangling ev s) /\
  (dangling ev s -> exists what, (routerEvent ev s).1 = Err (Undefined what)).
Proof.
  intros Hok%routerRun_ok. split; [|apply dangling_fails]. split.
  - intros E Hd%dangling_fails. rewrite E in Hd. by destruct Hd.
  - intros Hnd. by destruct (routerEvent_ok ev s Hok Hnd) as (s' & -> & _).
Qed.
End routing.

(** ** At concrete inputs

    One byte of routing data, which is its own hash. *)
Definition oneByte (q : list nat) : list nat * option (nat * list nat) :=
  match q with [] => ([], None) | b :: rest => ([], Some (b, rest)) end.
Definition exampleRouting : list (RouterEvent (B:=nat)) :=
  [Accept true; Accept true; Data 0 []; Data 0 [4; 10]; RunTask 5; Data 0 [11]; WorkerStopped 5].

Lemma connection_routed_witness :
  let r := routerRun Z.of_nat oneByte [5; 6] exampleRouting in
  r.1 = Ok tt /\ (received <$> children r.2 !! 0) = Some [10; 11] /\
  NoDup (task_conn <$> tasks r.2).
Proof.
  intros r. split; [vm_compute; reflexivity|]. split; [vm_compute; reflexivity|].
  refine (proj1 (proj2 (proj2 (connection_routed Z.of_nat oneByte [5; 6] exampleRouting r.2 _)))).
  vm_compute. reflexivity.
Defined.

(** The other connection asks for the worker that has stopped. *)
Lemma routing_fails_iff_dangling_witness :
  let r := routerRun Z.of_nat oneByte [5; 6] exampleRouting in
  exists what, (routerEvent Z.of_nat oneByte (Data 1 [2]) r.2).1 = Err (Undefined what).
Proof.
  intros r. refine (proj2 (routing_fails_iff_dangling Z.of_nat oneByte [5; 6] exampleRouting r.2 (Data 1 [2]) _) _).
  - vm_compute. reflexivity.
  - exists 1, [2], [], [], 2, []. split; [reflexivity|]. split; [vm_compute; reflexivity|]. split; [reflexivity|].
    vm_compute. intros a [= <-]. left.
Defined.
