(* ===== verification/FilePoller.v ===== *)
(** * File pollers (src/wangle/util/FilePoller, MultiFilePoller)

    [FilePoller] compares the modification times of the tracked files with
    those of the last poll and calls back; [MultiFilePoller] relates files and
    callbacks many to many, and gives each callback the contents of its files.

    What [stat], [readFile] and the clock answer is an input of a poll, and so
    is the order in which an [unordered_map] is walked. *)
From Stdlib Require Import ZArith Lia.
From stdpp Require Import base numbers list gmap strings.
From S2P Require Import Prelude.
Open Scope cpp_scope.

Set Default Goal Selector "!".

(** ** FilePoller *)

Record FileModificationData : Type := mkMod {
  exists_ : bool;
  modTime : Z
}.
(** The conditions that the class offers. *)
Inductive Condition : Type :=
| fileTouchedCond
| fileTouchedWithinCond (expireTime : Z)
| doAlwaysCond.

Definition fileTouchedCondInternal (oldModData modData : FileModificationData) : bool :=
  let fileStillExists := exists_ oldModData && exists_ modData in
  let fileTouched := negb (modTime modData =? modTime oldModData)%Z in
  let fileCreated := negb (exists_ oldModData) && exists_ modData in
  (fileStillExists && fileTouched) || fileCreated.
Definition fileTouchedWithinCondInternal (now : Z) (fModData : FileModificationData) (expireTime : Z) : bool :=
  exists_ fModData && (now <? modTime fModData + expireTime)%Z.
Definition condition (now : Z) (c : Condition) (oldModData modData : FileModificationData) : bool :=
  match c with
  | fileTouchedCond => fileTouchedCondInternal oldModData modData
  | fileTouchedWithinCond expireTime => fileTouchedWithinCondInternal now modData expireTime
  | doAlwaysCond => true
  end.

Section poller.
(** Callbacks. *)
Context {Cob : Type}.

Record FileData : Type := mkFile {
  yCob : option Cob;
  nCob : option Cob;
  cond : Condition;
  modData : FileModificationData
}.
(** [polling] is the thread's flag of [ThreadProtector]. *)
Definition addFileToTrack (stat : string -> FileModificationData) (polling : bool) (fileName : string)
    (y n : option Cob) (c : Condition) (fileDatum_ : gmap string FileData) : gmap string FileData :=
  if decide (fileName = EmptyString) then fileDatum_
  else if polling then fileDatum_
  else <[fileName := mkFile y n c (stat fileName)]> fileDatum_.
Definition removeFileToTrack (polling : bool) (fileName : string) (fileDatum_ : gmap string FileData) : gmap string FileData :=
  if decide (fileName = EmptyString) then fileDatum_
  else if polling then fileDatum_
  else delete fileName fileDatum_.

(** [checkFiles]: the callbacks it calls, in order. *)
Definition checkFile (stat : string -> FileModificationData) (now : Z) (fileName : string) (f : FileData) : list Cob * FileData :=
  let new := stat fileName in
  (match condition now (cond f) (modData f) new, yCob f, nCob f with
   | true, Some y, _ => [y]
   | _, _, Some n => [n]
   | _, _, None => []
   end, mkFile (yCob f) (nCob f) (cond f) new).
Fixpoint checkFiles (stat : string -> FileModificationData) (now : Z) (order : list string)
    (fileDatum_ : gmap string FileData) : list Cob * gmap string FileData :=
  match order with
  | [] => ([], fileDatum_)
  | fileName :: order =>
      match fileDatum_ !! fileName with
      | None => checkFiles stat now order fileDatum_
      | Some f =>
          let '(called, f') := checkFile stat now fileName f in
          let '(rest, d) := checkFiles stat now order (<[fileName := f']> fileDatum_) in
          (called ++ rest, d)
      end
  end.
End poller.

(** ** MultiFilePoller *)

(** A call of a callback, with the files it was shown. *)
Record Called : Type := mkCalled {
  calledId : Z;
  newData : gmap string string
}.

(** The callback of a tracked file is [onFileUpdated] of its path. *)
Record MultiFilePoller : Type := mkMulti {
  lastCallbackId_ : Z;
  pathsToCallbackIds_ : gmap string (list Z);
  idsToCallbacks_ : gmap Z (list string);      (* files_ *)
  fileDatum_ : gmap string (FileData (Cob:=string));
  called : list Called
}.
Definition newMulti : MultiFilePoller := mkMulti 0 ∅ ∅ ∅ [].

Definition setPaths x (s : MultiFilePoller) : MultiFilePoller :=
  mkMulti (lastCallbackId_ s) x (idsToCallbacks_ s) (fileDatum_ s) (called s).
Definition setIds x (s : MultiFilePoller) : MultiFilePoller :=
  mkMulti (lastCallbackId_ s) (pathsToCallbackIds_ s) x (fileDatum_ s) (called s).
Definition setFiles x (s : MultiFilePoller) : MultiFilePoller :=
  mkMulti (lastCallbackId_ s) (pathsToCallbackIds_ s) (idsToCallbacks_ s) x (called s).

(** The loop of [getNextCallbackId], from the value before the increment. *)
Fixpoint nextIdLoop (fuel : nat) (used : gmap Z (list string)) (last ret : Z) : option Z :=
  match fuel with
  | 0 => None
  | S fuel =>
      let ret := u64 (ret + 1) in
      if (ret =? last)%Z then None
      else match used !! ret with
           | None => Some ret
           | Some _ => nextIdLoop fuel used last ret
           end
  end.
Definition getNextCallbackId (fuel : nat) : M MultiFilePoller Z :=
  let! s := get in
  match nextIdLoop fuel (idsToCallbacks_ s) (lastCallbackId_ s) (lastCallbackId_ s) with
  | Some r => do! modify (fun s => mkMulti r (pathsToCallbackIds_ s) (idsToCallbacks_ s) (fileDatum_ s) (called s)) in ret r
  | None => raise (RuntimeError "Run out of callback ID.")
  end.

Definition registerPath (stat : string -> FileModificationData) (cbId : Z) (path : string) : M MultiFilePoller unit :=
  do! modify (fun s => setPaths (<[path := default [] (pathsToCallbackIds_ s !! path) ++ [cbId]]> (pathsToCallbackIds_ s)) s) in
  modify (fun s => setFiles (addFileToTrack stat false path (Some path) None fileTouchedCond (fileDatum_ s)) s).

Definition registerFiles (stat : string -> FileModificationData) (fuel : nat) (paths : list string) : M MultiFilePoller Z :=
  if length paths =? 0 then raise (InvalidArgument "Argument paths must be non-empty.")
  else
    let! cbId := getNextCallbackId fuel in
    do! for_each paths (registerPath stat cbId) in
    do! modify (fun s => setIds (<[cbId := paths]> (idsToCallbacks_ s)) s) in
    ret cbId.

(** [v.erase(std::remove(v.begin(), v.end(), id))]: [remove] moves the others
    to the front and leaves the rest of the vector as it was; [erase] then
    takes out one element, which must be there. *)
Definition eraseRemove (id : Z) (l : list Z) : res (list Z) :=
  let kept := filter (fun i => i <> id) l in
  match drop (length kept) l with
  | [] => Err (Undefined "erase(end())")
  | _ :: rest => Ok (kept ++ rest)
  end.

(** The loop of [cancelCallback] over the callback's files, whose keys it
    refers to; it returns [pathsToErase]. *)
Fixpoint cancelLoop (id : Z) (files : list string) : M MultiFilePoller (list string) :=
  match files with
  | [] => ret []
  | path :: files =>
      let! s := get in
      match pathsToCallbackIds_ s !! path with
      | None => raise (Undefined "key of pathsToCallbackIds_ erased")
      | Some l =>
          match eraseRemove id l with
          | Err f => raise f
          | Ok l' =>
              do! modify (setPaths (<[path := l']> (pathsToCallbackIds_ s))) in
              do! when (length l' =? 0) (modify (fun s => setFiles (removeFileToTrack false path (fileDatum_ s)) s)) in
              let! rest := cancelLoop id files in
              ret (if length l' =? 0 then path :: rest else rest)
          end
      end
  end.
Definition cancelCallback (id : Z) : M MultiFilePoller unit :=
  let! s := get in
  match idsToCallbacks_ s !! id with
  | None => raise (OutOfRange "Callback not found")
  | Some files =>
      let! pathsToErase := cancelLoop id files in
      do! modify (fun s => setIds (delete id (idsToCallbacks_ s)) s) in
      for_each pathsToErase (fun path => modify (fun s => setPaths (delete path (pathsToCallbackIds_ s)) s))
  end.

(** The cache of [onFileUpdated] after one callback's files. *)
Definition readFiles (readFile : string -> option string) (files : list string) (cache : gmap string string) : gmap string string :=
  foldl (fun c path =>
    match c !! path with
    | Some _ => c
    | None => match readFile path with Some data => <[path := data]> c | None => c end
    end) cache files.
Fixpoint callLoop (readFile : string -> option string) (ids : list Z) (cache : gmap string string) : M MultiFilePoller unit :=
  match ids with
  | [] => ret tt
  | cbId :: ids =>
      let! s := get in
      match idsToCallbacks_ s !! cbId with
      | None => raise (Undefined "idsToCallbacks_.end()")
      | Some files =>
          let cache := readFiles readFile files cache in
          do! modify (fun s => mkMulti (lastCallbackId_ s) (pathsToCallbackIds_ s) (idsToCallbacks_ s) (fileDatum_ s)
                (called s ++ [mkCalled cbId cache])) in
          callLoop readFile ids cache
      end
  end.
Definition onFileUpdated (readFile : string -> option string) (triggeredPath : string) : M MultiFilePoller unit :=
  let! s := get in
  match pathsToCallbackIds_ s !! triggeredPath with
  | None => ret tt
  | Some ids => callLoop readFile ids ∅
  end.

(** A poll, in the thread of the poller. *)
Definition poll (stat : string -> FileModificationData) (readFile : string -> option string) (now : Z) (order : list string)
    : M MultiFilePoller unit :=
  let! s := get in
  let '(updated, d) := checkFiles stat now order (fileDatum_ s) in
  do! for_each updated (onFileUpdated readFile) in
  modify (setFiles d).

(** ** The locks

    [registerFiles] and [cancelCallback] hold [rwlock_] while they call the
    poller, which takes [filesMutex_]; a poll holds [filesMutex_] while it
    calls [onFileUpdated], which takes [rwlock_]. *)
Inductive Thread : Type := Caller | PollerThread.
Inductive Action : Type := LockRw | LockFiles | UnlockFiles | UnlockRw.
#[export] Instance Thread_eq_dec : EqDecision Thread.
Proof. solve_decision. Defined.

Definition callerActions : list Action := [LockRw; LockFiles; UnlockFiles; UnlockRw].
Definition pollActions : list Action := [LockFiles; LockRw; UnlockRw; UnlockFiles].

Record Locks : Type := mkLocks {
  rwlock_ : option Thread;
  filesMutex_ : option Thread;
  todo : Thread -> list Action
}.
Definition free (l : option Thread) : bool := if l is None then true else false.
Definition act (t : Thread) (s : Locks) : option Locks :=
  match todo s t with
  | [] => None
  | a :: rest =>
      let todo' u := if decide (u = t) then rest else todo s u in
      match a with
      | LockRw => if free (rwlock_ s) then Some (mkLocks (Some t) (filesMutex_ s) todo') else None
      | LockFiles => if free (filesMutex_ s) then Some (mkLocks (rwlock_ s) (Some t) todo') else None
      | UnlockRw => Some (mkLocks None (filesMutex_ s) todo')
      | UnlockFiles => Some (mkLocks (rwlock_ s) None todo')
      end
  end.
