(* ===== verification/FilePollerProps.v ===== *)
(** * File pollers: the relation of files and callbacks, and what a poll calls

    The two maps of [MultiFilePoller] stay inverse to each other and the
    tracked files are exactly those with callbacks, so that no poll follows a
    stale id; a poll calls, for each file touched since the last one, the
    callbacks registered on it, in order, with the contents of their files. *)
From Stdlib Require Import ZArith Lia.
From stdpp Require Import base numbers list gmap strings.
From S2P Require Import Prelude FilePoller.
Open Scope cpp_scope.

Set Default Goal Selector "!".

Implicit Types (s : MultiFilePoller).

(** ** Identifiers *)

Lemma u64_next ret : (0 <= ret < 2 ^ 64)%Z -> (0 <= u64 (ret + 1) < 2 ^ 64)%Z.
Proof. intros _. by apply wrap_bounds. Qed.

Lemma nextIdLoop_free fuel used last : forall ret r, nextIdLoop fuel used last ret = Some r -> used !! r = None /\ (0 <= r < 2 ^ 64)%Z.
Proof.
  induction fuel as [|fuel IH]; [done|]. intros ret r. simpl. destruct (Z.eqb_spec (u64 (ret + 1)) last); [done|].
  destruct (used !! u64 (ret + 1)) eqn:E; [by apply IH|]. intros [= <-]. split; [done|]. by apply wrap_bounds.
Qed.

(** The identifiers that [n] turns of the loop look at. *)
Definition candidates (last : Z) (n : nat) : list Z := (fun k => u64 (last + Z.of_nat k)) <$> seq 1 n.

Lemma candidates_NoDup last n : (Z.of_nat n < 2 ^ 64)%Z -> NoDup (candidates last n).
Proof.
  intros Hn. unfold candidates. apply NoDup_fmap_2_strong; [|apply NoDup_seq].
  intros i j Hi Hj Heq. apply elem_of_seq in Hi, Hj. unfold u64, wrap in Heq.
  assert (Hd : ((Z.of_nat i - Z.of_nat j) mod 2 ^ 64 = 0)%Z).
  { replace (Z.of_nat i - Z.of_nat j)%Z with ((last + Z.of_nat i) - (last + Z.of_nat j))%Z by lia.
    rewrite Zminus_mod, Heq, Z.sub_diag. done. }
  apply Z.mod_divide in Hd as [q Hq]; [|done]. assert (q = 0%Z) by nia. lia.
Qed.
Lemma candidates_last last n k : (0 <= last < 2 ^ 64)%Z -> (Z.of_nat n < 2 ^ 64)%Z -> 1 <= k <= n -> u64 (last + Z.of_nat k) <> last.
Proof.
  intros Hl Hn Hk Heq. unfold u64, wrap in Heq.
  assert (Hd : (Z.of_nat k mod 2 ^ 64 = 0)%Z).
  { replace (Z.of_nat k) with ((last + Z.of_nat k) - last)%Z by lia. rewrite Zminus_mod, Heq, (Z.mod_small last), Z.sub_diag by lia. done. }
  rewrite Z.mod_small in Hd by lia. lia.
Qed.

Lemma nextIdLoop_finds used last n : (0 <= last < 2 ^ 64)%Z -> (Z.of_nat n < 2 ^ 64)%Z ->
  forall fuel i, i + fuel = n -> (exists k, i < k <= n /\ used !! u64 (last + Z.of_nat k) = None) ->
  is_Some (nextIdLoop fuel used last (u64 (last + Z.of_nat i))).
Proof.
  intros Hl Hn. induction fuel as [|fuel IH]; intros i Hi (k & Hk & Hfree); [lia|]. simpl.
  assert (En : u64 (u64 (last + Z.of_nat i) + 1) = u64 (last + Z.of_nat (S i))).
  { unfold u64, wrap. rewrite Zplus_mod_idemp_l. f_equal. lia. }
  rewrite En. destruct (Z.eqb_spec (u64 (last + Z.of_nat (S i))) last) as [Heq|_].
  { exfalso. by apply (candidates_last last n (S i)); [done..|lia|]. }
  destruct (used !! u64 (last + Z.of_nat (S i))) eqn:E; [|by eexists].
  apply IH; [lia|]. exists k. split; [|done]. destruct (decide (k = S i)) as [->|]; [congruence|lia].
Qed.

(** As many turns as there are callbacks, and one more, find a free id. *)
Lemma nextId_total (used : gmap Z (list string)) last fuel :
  (0 <= last < 2 ^ 64)%Z -> (Z.of_nat fuel < 2 ^ 64)%Z -> size used < fuel -> is_Some (nextIdLoop fuel used last last).
Proof.
  intros Hl Hf Hsz. replace last with (u64 (last + Z.of_nat 0)) at 2 by (unfold u64, wrap; rewrite Z.add_0_r; by apply Z.mod_small).
  apply (nextIdLoop_finds used last fuel Hl Hf fuel 0); [done|].
  destruct (decide (Exists (fun r => used !! r = None) (candidates last fuel))) as [Hex|Hall].
  - apply Exists_exists in Hex as (r & Hr & E). apply list_elem_of_fmap in Hr as (k & -> & Hk). apply elem_of_seq in Hk.
    exists k. split; [lia|done].
  - exfalso. assert (Hsub : list_to_set (C := gset Z) (candidates last fuel) ⊆ dom used).
    { intros r Hr%elem_of_list_to_set. apply elem_of_dom. destruct (used !! r) eqn:E; [by eexists|]. exfalso. apply Hall.
      apply Exists_exists. by exists r. }
    apply subseteq_size in Hsub. rewrite size_list_to_set in Hsub by (by apply candidates_NoDup). rewrite size_dom in Hsub.
    unfold candidates in Hsub. rewrite length_fmap, length_seq in Hsub. lia.
Qed.

(** ** The relation of files and callbacks *)

Definition fileOf (path : string) (m : FileModificationData) : FileData := mkFile (Some path) None fileTouchedCond m.

Record related s : Prop := {
  rl_last : (0 <= lastCallbackId_ s < 2 ^ 64)%Z;
  rl_paths p l : pathsToCallbackIds_ s !! p = Some l ->
    l <> [] /\ NoDup l /\ forall id, id ∈ l -> exists fs, idsToCallbacks_ s !! id = Some fs /\ p ∈ fs;
  rl_ids id fs : idsToCallbacks_ s !! id = Some fs ->
    fs <> [] /\ NoDup fs /\ forall p, p ∈ fs -> exists l, pathsToCallbackIds_ s !! p = Some l /\ id ∈ l;
  rl_tracked p : is_Some (fileDatum_ s !! p) <-> p <> EmptyString /\ is_Some (pathsToCallbackIds_ s !! p);
  rl_file p f : fileDatum_ s !! p = Some f -> f = fileOf p (modData f)
}.

Lemma related_new : related newMulti.
Proof.
  split; simpl; try done. intros p.
  rewrite !lookup_empty. split; [by intros []|]. by intros [_ []].
Qed.

(** *** Registration *)

Lemma registerPath_loop stat id paths : NoDup paths -> forall s,
  exists s', for_each paths (registerPath stat id) s = (Ok tt, s') /\
    lastCallbackId_ s' = lastCallbackId_ s /\ idsToCallbacks_ s' = idsToCallbacks_ s /\ called s' = called s /\
    (forall p, pathsToCallbackIds_ s' !! p =
       if decide (p ∈ paths) then Some (default [] (pathsToCallbackIds_ s !! p) ++ [id]) else pathsToCallbackIds_ s !! p) /\
    (forall p, fileDatum_ s' !! p =
       if decide (p ∈ paths /\ p <> EmptyString) then Some (fileOf p (stat p)) else fileDatum_ s !! p).
Proof.
  induction paths as [|q paths IH]; intros Hnd s; cbn [for_each].
  - exists s. split_and!; done || intros p; by rewrite decide_False by set_solver.
  - apply NoDup_cons in Hnd as [Hq Hnd]. unfold registerPath at 1. rewrite bind_assoc, bind_modify, bind_modify. set (s1 := setFiles _ _).
    destruct (IH Hnd s1) as (s' & E & L & I & C & P & F). exists s'. split_and!; try done.
    + intros p. rewrite P. simpl. destruct (decide (p = q)) as [->|Hne].
      * rewrite decide_False by done. rewrite decide_True by set_solver. by rewrite lookup_insert_eq.
      * rewrite lookup_insert_ne by done. destruct (decide (p ∈ paths)); [rewrite decide_True by set_solver|rewrite decide_False by set_solver]; done.
    + intros p. rewrite F. simpl. unfold addFileToTrack. destruct (decide (p = q)) as [->|Hne].
      * rewrite decide_False by naive_solver. case_decide as Hq'; [rewrite decide_False by naive_solver; done|].
        rewrite decide_True by set_solver. by rewrite lookup_insert_eq.
      * assert (Hiff : p ∈ q :: paths /\ p <> EmptyString <-> p ∈ paths /\ p <> EmptyString) by set_solver.
        rewrite (decide_ext (p ∈ q :: paths /\ p <> EmptyString) (p ∈ paths /\ p <> EmptyString)) by exact Hiff.
        repeat case_decide; done || by rewrite lookup_insert_ne.
Qed.

(** With a list of distinct paths and ids left, a registration returns an id
    that no callback has. *)
Lemma registerFiles_ok stat fuel paths s :
  related s -> paths <> [] -> NoDup paths -> size (idsToCallbacks_ s) < fuel -> (Z.of_nat fuel < 2 ^ 64)%Z ->
  exists id s', registerFiles stat fuel paths s = (Ok id, s') /\ related s' /\
    idsToCallbacks_ s !! id = None /\ idsToCallbacks_ s' = <[id := paths]> (idsToCallbacks_ s) /\ called s' = called s /\
    (forall p, pathsToCallbackIds_ s' !! p =
       if decide (p ∈ paths) then Some (default [] (pathsToCallbackIds_ s !! p) ++ [id]) else pathsToCallbackIds_ s !! p).
Proof.
  intros [Hl Hp Hi Ht Hf] Hne Hnd Hfuel Hb. unfold registerFiles, getNextCallbackId.
  destruct (Nat.eqb_spec (length paths) 0) as [Hz|_]; [by apply nil_length_inv in Hz|].
  rewrite bind_assoc, bind_get. destruct (nextId_total _ _ _ Hl Hb Hfuel) as [id Eid]. rewrite Eid.
  destruct (nextIdLoop_free _ _ _ _ _ Eid) as [Hfree Hid]. rewrite bind_assoc, bind_modify, bind_ret. set (s1 := mkMulti id _ _ _ _).
  destruct (registerPath_loop stat id paths Hnd s1) as (s2 & E2 & L & I & C & P & F). rewrite (bind_Ok _ _ _ _ _ E2), bind_modify.
  simpl in L, I, C, P, F. exists id. eexists. split; [done|]. split; [|split_and!; [done|by simpl; rewrite I|by simpl|exact P]].
  assert (Hnew : forall p l, pathsToCallbackIds_ s !! p = Some l -> id ∉ l).
  { intros p l E Hin. destruct (Hp p l E) as (_ & _ & H). destruct (H id Hin) as (fs & Efs & _). congruence. }
  split; simpl; rewrite ?L, ?I; try done.
  - intros p l. rewrite P. case_decide as Hin.
    + intros [= <-]. split; [by destruct (default _ _)|]. destruct (pathsToCallbackIds_ s !! p) as [l0|] eqn:E; simpl.
      * destruct (Hp p l0 E) as (_ & Hnd0 & H). split.
        -- apply NoDup_app. split; [done|]. split; [|apply NoDup_singleton]. intros j Hj ->%list_elem_of_singleton. by eapply Hnew.
        -- intros j [Hj| ->%list_elem_of_singleton]%elem_of_app; [|exists paths; by rewrite lookup_insert_eq].
           destruct (H j Hj) as (fs & Efs & ?). exists fs. rewrite lookup_insert_ne by congruence. done.
      * split; [apply NoDup_singleton|]. intros j ->%list_elem_of_singleton. exists paths. by rewrite lookup_insert_eq.
    + intros E. destruct (Hp p l E) as (? & ? & H). split_and!; [done..|]. intros j Hj. destruct (H j Hj) as (fs & Efs & ?).
      exists fs. rewrite lookup_insert_ne by congruence. done.
  - intros j fs. destruct (decide (j = id)) as [->|Hj].
    + rewrite lookup_insert_eq. intros [= <-]. split_and!; [done..|]. intros p Hin. rewrite P, decide_True by done. eexists. split; [done|]. set_solver.
    + rewrite lookup_insert_ne by done. intros E. destruct (Hi j fs E) as (? & ? & H). split_and!; [done..|]. intros p Hin.
      destruct (H p Hin) as (l & El & Hjl). rewrite P. case_decide; [|by exists l]. rewrite El. eexists. split; [done|]. simpl. set_solver.
  - intros p. rewrite F, P. specialize (Ht p). destruct (decide (p ∈ paths)) as [Hin|Hin].
    + destruct (decide (p = EmptyString)) as [->|Hpe].
      * rewrite decide_False by naive_solver. rewrite Ht. naive_solver.
      * rewrite decide_True by done. split; [done|]. by eexists.
    + rewrite decide_False by naive_solver. exact Ht.
  - intros p f. rewrite F. case_decide; [by intros [= <-]|apply Hf].
Qed.

(** *** Cancellation *)

Lemma eraseRemove_one id l : NoDup l -> id ∈ l -> eraseRemove id l = Ok (filter (fun i => i <> id) l).
Proof.
  intros Hnd Hin. unfold eraseRemove.
  assert (Hlen : length l = S (length (filter (fun i => i <> id) l))).
  { clear -Hnd Hin. induction l as [|j l IH]; [by apply elem_of_nil in Hin|]. apply NoDup_cons in Hnd as [Hj Hnd]. rewrite filter_cons.
    case_decide as Hd; simpl.
    - f_equal. apply IH; [done|]. set_solver.
    - assert (j = id) as -> by (destruct (decide (j = id)); tauto). f_equal. symmetry. f_equal. apply filter_all. by intros k Hk ->. }
  destruct (drop (length (filter (fun i => i <> id) l)) l) as [|j rest] eqn:E.
  - apply (f_equal length) in E. rewrite length_drop in E. simpl in E. lia.
  - apply (f_equal length) in E. rewrite length_drop in E. simpl in E. destruct rest; [by rewrite app_nil_r|]. simpl in E. lia.
Qed.

Definition remaining (id : Z) s (p : string) : list Z := filter (fun i => i <> id) (default [] (pathsToCallbackIds_ s !! p)).

Lemma cancelLoop_ok id files : NoDup files -> forall s,
  (forall p, p ∈ files -> exists l, pathsToCallbackIds_ s !! p = Some l /\ NoDup l /\ id ∈ l) ->
  exists s', cancelLoop id files s = (Ok (filter (fun p => remaining id s p = []) files), s') /\
    lastCallbackId_ s' = lastCallbackId_ s /\ idsToCallbacks_ s' = idsToCallbacks_ s /\ called s' = called s /\
    (forall p, pathsToCallbackIds_ s' !! p = if decide (p ∈ files) then Some (remaining id s p) else pathsToCallbackIds_ s !! p) /\
    (forall p, fileDatum_ s' !! p =
       if decide (p ∈ files /\ remaining id s p = [] /\ p <> EmptyString) then None else fileDatum_ s !! p).
Proof.
  induction files as [|q files IH]; intros Hnd s Hf; cbn [cancelLoop].
  - exists s. split_and!; done || intros p; by rewrite decide_False by set_solver.
  - apply NoDup_cons in Hnd as [Hq Hnd]. destruct (Hf q) as (l & El & Hl & Hid); [by left|].
    assert (Eq : remaining id s q = filter (fun i => i <> id) l) by (unfold remaining; by rewrite El).
    rewrite bind_get, El, (eraseRemove_one id l Hl Hid), <- Eq, bind_modify. set (s1 := setPaths _ s).
    set (s2 := if length (remaining id s q) =? 0 then setFiles (removeFileToTrack false q (fileDatum_ s1)) s1 else s1).
    assert (E2 : when (length (remaining id s q) =? 0) (modify (fun s => setFiles (removeFileToTrack false q (fileDatum_ s)) s)) s1 = (Ok tt, s2))
      by (unfold s2; by destruct (length _ =? 0)).
    rewrite (bind_Ok _ _ _ _ _ E2).
    assert (Ep : pathsToCallbackIds_ s2 = <[q := remaining id s q]> (pathsToCallbackIds_ s)) by (unfold s2; by destruct (length _ =? 0)).
    assert (Er : forall p, p ∈ files -> remaining id s2 p = remaining id s p).
    { intros p Hp. unfold remaining at 1. rewrite Ep, lookup_insert_ne by (intros ->; done). done. }
    destruct (IH Hnd s2) as (s' & E & L & I & C & P & F).
    { intros p Hp. rewrite Ep, lookup_insert_ne by (intros ->; done). apply Hf. by right. }
    rewrite (bind_Ok _ _ _ _ _ E). exists s'. split; [|split_and!].
    + unfold ret. rewrite filter_cons.
      assert (Efl : filter (fun p => remaining id s2 p = []) files = filter (fun p => remaining id s p = []) files).
      { clear -Er. induction files as [|p files IH]; [done|]. rewrite !filter_cons, Er by (by left). rewrite IH by (intros p' Hp'; apply Er; by right). done. }
      rewrite Efl. by destruct (remaining id s q).
    + rewrite L. unfold s2. by destruct (length _ =? 0).
    + rewrite I. unfold s2. by destruct (length _ =? 0).
    + rewrite C. unfold s2. by destruct (length _ =? 0).
    + intros p. rewrite P. destruct (decide (p = q)) as [->|Hne].
      * rewrite decide_False by done. rewrite decide_True by set_solver. by rewrite Ep, lookup_insert_eq.
      * destruct (decide (p ∈ files)) as [Hin|Hin]; [rewrite decide_True by set_solver; by rewrite Er|].
        rewrite decide_False by set_solver. by rewrite Ep, lookup_insert_ne.
    + intros p. rewrite F.
      assert (Fs2 : fileDatum_ s2 !! p = if decide (p = q /\ remaining id s q = [] /\ q <> EmptyString) then None else fileDatum_ s !! p).
      { unfold s2, s1. destruct (remaining id s q); simpl; [|by rewrite decide_False by naive_solver].
        unfold removeFileToTrack. case_decide; [by rewrite decide_False by naive_solver|].
        destruct (decide (p = q)) as [->|Hne]; [rewrite decide_True by done; apply lookup_delete_eq|].
        rewrite decide_False by naive_solver. by apply lookup_delete_ne. }
      rewrite Fs2. destruct (decide (p = q)) as [->|Hne].
      * rewrite decide_False by naive_solver. apply decide_ext. set_solver.
      * rewrite (decide_False (P := p = q /\ _)) by naive_solver. destruct (decide (p ∈ files)) as [Hin|Hin].
        -- rewrite Er by done. apply decide_ext. set_solver.
        -- rewrite !decide_False by set_solver. done.
Qed.

Lemma deletePaths_loop l : forall s, exists s',
  for_each l (fun path => modify (fun s => setPaths (delete path (pathsToCallbackIds_ s)) s)) s = (Ok tt, s') /\
    lastCallbackId_ s' = lastCallbackId_ s /\ idsToCallbacks_ s' = idsToCallbacks_ s /\ called s' = called s /\
    fileDatum_ s' = fileDatum_ s /\
    (forall p, pathsToCallbackIds_ s' !! p = if decide (p ∈ l) then None else pathsToCallbackIds_ s !! p).
Proof.
  induction l as [|q l IH]; intros s; cbn [for_each].
  - exists s. split_and!; done || intros p; by rewrite decide_False by set_solver.
  - rewrite bind_modify. destruct (IH (setPaths (delete q (pathsToCallbackIds_ s)) s)) as (s' & E & L & I & C & F & P).
    exists s'. split_and!; try done. intros p. rewrite P. simpl. destruct (decide (p = q)) as [->|Hne].
    + rewrite (decide_True (P := q ∈ q :: l)) by set_solver. case_decide; [done|]. apply lookup_delete_eq.
    + rewrite lookup_delete_ne by done. apply decide_ext. set_solver.
Qed.

Lemma cancelCallback_ok id files s : related s -> idsToCallbacks_ s !! id = Some files ->
  exists s', cancelCallback id s = (Ok tt, s') /\ related s' /\
    idsToCallbacks_ s' = delete id (idsToCallbacks_ s) /\ called s' = called s /\
    (forall p, pathsToCallbackIds_ s' !! p =
       match pathsToCallbackIds_ s !! p with
       | Some l => if decide (filter (fun i => i <> id) l = []) then None else Some (filter (fun i => i <> id) l)
       | None => None
       end).
Proof.
  intros [Hl Hp Hi Ht Hf] Eid. destruct (Hi id files Eid) as (Hne & Hnd & Hfiles).
  unfold cancelCallback. rewrite bind_get, Eid. destruct (cancelLoop_ok id files Hnd s) as (s1 & E1 & L1 & I1 & C1 & P1 & F1).
  { intros p Hin. destruct (Hfiles p Hin) as (l & El & Hid). exists l. split_and!; [done|by apply (Hp p l El)|done]. }
  rewrite (bind_Ok _ _ _ _ _ E1), bind_modify. set (erased := filter _ files).
  destruct (deletePaths_loop erased (setIds (delete id (idsToCallbacks_ s1)) s1)) as (s2 & E2 & L2 & I2 & C2 & F2 & P2).
  assert (P : forall p, pathsToCallbackIds_ s2 !! p =
       match pathsToCallbackIds_ s !! p with
       | Some l => if decide (filter (fun i => i <> id) l = []) then None else Some (filter (fun i => i <> id) l)
       | None => None
       end).
  { intros p. rewrite P2. simpl. rewrite P1. unfold erased. destruct (decide (p ∈ files)) as [Hin|Hin].
    - destruct (Hfiles p Hin) as (l & El & Hid). unfold remaining. rewrite El. simpl.
      apply decide_ext. rewrite list_elem_of_filter. unfold remaining. rewrite El. simpl. tauto.
    - rewrite decide_False by (rewrite list_elem_of_filter; tauto). destruct (pathsToCallbackIds_ s !! p) as [l|] eqn:El; [|done].
      destruct (Hp p l El) as (Hl0 & _ & H). rewrite filter_all; [by rewrite decide_False|].
      intros j Hj ->. destruct (H id Hj) as (fs & Efs & Hpf). congruence. }
  exists s2. split; [exact E2|]. split; [|split_and!; [by rewrite I2; simpl; rewrite I1|by rewrite C2; simpl|exact P]].
  split; rewrite ?L2, ?I2, ?F2; simpl; rewrite ?L1, ?I1; try done.
  - intros p l. rewrite P. destruct (pathsToCallbackIds_ s !! p) as [l0|] eqn:El; [|done]. case_decide as Hd; [done|]. intros [= <-].
    destruct (Hp p l0 El) as (_ & Hnd0 & H). split_and!; [done|by apply NoDup_filter|].
    intros j [Hj Hjl]%list_elem_of_filter. destruct (H j Hjl) as (fs & Efs & ?). exists fs. by rewrite lookup_delete_ne by done.
  - intros j fs [Hj E]%lookup_delete_Some. destruct (Hi j fs E) as (? & ? & H). split_and!; [done..|].
    intros p Hin. destruct (H p Hin) as (l & El & Hjl). rewrite P, El.
    assert (Hjf : j ∈ filter (fun i => i <> id) l) by (apply list_elem_of_filter; split; [congruence|done]).
    rewrite decide_False; [by eexists|]. intros Hnil. rewrite Hnil in Hjf. by apply elem_of_nil in Hjf.
  - intros p. rewrite F1, P. specialize (Ht p). destruct (decide (p ∈ files)) as [Hin|Hin].
    + destruct (Hfiles p Hin) as (l & El & Hid). unfold remaining. rewrite El in *. simpl.
      destruct (decide (filter (fun i => i <> id) l = [])) as [Hd|Hd].
      * destruct (decide (p = EmptyString)) as [->|Hpe].
        -- rewrite decide_False by naive_solver. rewrite Ht. split; [by intros [? _]|by intros [? _]].
        -- rewrite decide_True by done. split; [by intros []|by intros [_ []]].
      * rewrite decide_False by naive_solver. rewrite Ht. split; intros [? _]; by eauto.
    + rewrite decide_False by naive_solver. rewrite Ht. destruct (pathsToCallbackIds_ s !! p) as [l|] eqn:El; [|done].
      destruct (Hp p l El) as (Hl0 & _ & H). rewrite filter_all; [by rewrite decide_False|].
      intros j Hj ->. destruct (H id Hj) as (fs & Efs & Hpf). congruence.
  - intros p f. rewrite F1. case_decide; [done|]. apply Hf.
Qed.

(** ** A poll *)

Section poll.
Context (stat : string -> FileModificationData) (now : Z).

Lemma touched_same m : fileTouchedCondInternal m m = false.
Proof. unfold fileTouchedCondInternal. rewrite Z.eqb_refl. by destruct (exists_ m). Qed.

Definition touched s (p : string) : bool :=
  match fileDatum_ s !! p with Some f => fileTouchedCondInternal (modData f) (stat p) | None => false end.

(** The callback of each tracked file is [cb] of its name. *)
Lemma checkFiles_eq {Cob} (cb : string -> Cob) order : NoDup order -> forall (d : gmap string (FileData (Cob:=Cob))),
  (forall p f, d !! p = Some f -> f = mkFile (Some (cb p)) None fileTouchedCond (modData f)) ->
  exists d', checkFiles stat now order d =
    (cb <$> filter (fun p => match d !! p with Some f => fileTouchedCondInternal (modData f) (stat p) | None => false end = true) order, d') /\
    forall p, d' !! p = if decide (p ∈ order) then (fun _ => mkFile (Some (cb p)) None fileTouchedCond (stat p)) <$> d !! p else d !! p.
Proof.
  induction order as [|q order IH]; intros Hnd d Hd.
  - exists d. split; [done|]. intros p. by rewrite decide_False by set_solver.
  - apply NoDup_cons in Hnd as [Hq Hnd]. cbn [checkFiles]. rewrite filter_cons. destruct (d !! q) as [f|] eqn:E.
    + pose proof (Hd q f E) as Hf.
      destruct (IH Hnd (<[q := mkFile (Some (cb q)) None fileTouchedCond (stat q)]> d)) as (d' & Ed & Hd').
      { intros p g. destruct (decide (p = q)) as [->|Hne]; [rewrite lookup_insert_eq; by intros [= <-]|].
        rewrite lookup_insert_ne by done. apply Hd. }
      assert (Ec : checkFile stat now q f = (if fileTouchedCondInternal (modData f) (stat q) then [cb q] else [], mkFile (Some (cb q)) None fileTouchedCond (stat q))).
      { unfold checkFile. rewrite Hf. simpl. by destruct (fileTouchedCondInternal _ _). }
      rewrite Ec, Ed. exists d'. split.
      * f_equal.
        assert (Efl : filter (fun p => match <[q:=mkFile (Some (cb q)) None fileTouchedCond (stat q)]> d !! p with Some f => fileTouchedCondInternal (modData f) (stat p) | None => false end = true) order =
                      filter (fun p => match d !! p with Some f => fileTouchedCondInternal (modData f) (stat p) | None => false end = true) order).
        { clear -Hq. induction order as [|p order IH]; [done|]. rewrite !filter_cons. rewrite lookup_insert_ne by set_solver.
          rewrite IH by set_solver. done. }
        rewrite Efl. by destruct (fileTouchedCondInternal _ _).
      * intros p. rewrite Hd'. destruct (decide (p = q)) as [->|Hne].
        -- rewrite decide_False by done. rewrite decide_True by set_solver. by rewrite lookup_insert_eq, E.
        -- rewrite lookup_insert_ne by done. apply decide_ext. set_solver.
    + destruct (IH Hnd d Hd) as (d' & Ed & Hd'). exists d'. split; [exact Ed|]. intros p. rewrite Hd'.
      destruct (decide (p = q)) as [->|Hne]; [|apply decide_ext; set_solver].
      rewrite decide_False by done. rewrite decide_True by set_solver. by rewrite E.
Qed.

Context (readFile : string -> option string).

(** A cache holds what the files hold. *)
Definition coherent (cache : gmap string string) : Prop := forall p x, cache !! p = Some x -> readFile p = Some x.

Lemma readFiles_ok fs : forall cache, coherent cache ->
  coherent (readFiles readFile fs cache) /\ (forall p x, cache !! p = Some x -> readFiles readFile fs cache !! p = Some x) /\
  (forall p, p ∈ fs -> readFiles readFile fs cache !! p = readFile p).
Proof.
  induction fs as [|q fs IH]; intros cache Hc; [split_and!; [done..|by intros p ?%elem_of_nil]|]. unfold readFiles in *. simpl.
  set (cache1 := match cache !! q with Some _ => cache | None => match readFile q with Some data => <[q := data]> cache | None => cache end end).
  assert (H1 : coherent cache1 /\ (forall p x, cache !! p = Some x -> cache1 !! p = Some x) /\ (forall x, readFile q = Some x -> cache1 !! q = Some x)).
  { unfold cache1. destruct (cache !! q) as [y|] eqn:E.
    - split_and!; [done..|]. intros x Ex. pose proof (Hc q y E). congruence.
    - destruct (readFile q) as [y|] eqn:Er; [|by split_and!]. split_and!.
      + intros p x. destruct (decide (p = q)) as [->|Hne]; [rewrite lookup_insert_eq; by intros [= <-]|].
        rewrite lookup_insert_ne by done. apply Hc.
      + intros p x Ex. rewrite lookup_insert_ne by congruence. done.
      + intros x [= <-]. apply lookup_insert_eq. }
  destruct H1 as (Hc1 & Hkeep & Hq). destruct (IH cache1 Hc1) as (A & K & F). split_and!; [done|by auto|].
  intros p [->|Hin]%elem_of_cons; [|by apply F]. destruct (readFile q) as [x|] eqn:Er; [by apply K, Hq|].
  apply eq_None_not_Some. intros [x Ex]. apply A in Ex. congruence.
Qed.

(** A call shows each callback its files as they are. *)
Definition shows_files s (c : Called) : Prop :=
  coherent (newData c) /\
  forall fs p, idsToCallbacks_ s !! calledId c = Some fs -> p ∈ fs -> newData c !! p = readFile p.

Definition same_registry s s' : Prop :=
  lastCallbackId_ s' = lastCallbackId_ s /\ pathsToCallbackIds_ s' = pathsToCallbackIds_ s /\
  idsToCallbacks_ s' = idsToCallbacks_ s /\ fileDatum_ s' = fileDatum_ s.

Lemma callLoop_ok ids : forall cache s, coherent cache -> (forall id, id ∈ ids -> is_Some (idsToCallbacks_ s !! id)) ->
  exists s' calls, callLoop readFile ids cache s = (Ok tt, s') /\ same_registry s s' /\ called s' = called s ++ calls /\
    calledId <$> calls = ids /\ Forall (shows_files s) calls.
Proof.
  induction ids as [|id ids IH]; intros cache s Hc Hids; cbn [callLoop].
  - exists s, []. rewrite app_nil_r. by split_and!.
  - destruct (Hids id) as [fs Efs]; [by left|]. rewrite bind_get, Efs, bind_modify. set (s1 := mkMulti _ _ _ _ _).
    destruct (readFiles_ok fs cache Hc) as (Hc1 & _ & Hfs).
    destruct (IH (readFiles readFile fs cache) s1 Hc1) as (s' & calls & E & Hsame & Hcalled & Hcids & Hshow).
    { intros j Hj. apply Hids. by right. }
    exists s', (mkCalled id (readFiles readFile fs cache) :: calls). split_and!; [done|done| |by simpl; f_equal|].
    + rewrite Hcalled. simpl. by rewrite <- app_assoc.
    + constructor; [|done]. split; [done|]. simpl. intros fs' p E' Hp. assert (fs' = fs) as -> by congruence. by apply Hfs.
Qed.

Lemma onFileUpdated_loop ps : forall s, related s ->
  exists s' calls, for_each ps (onFileUpdated readFile) s = (Ok tt, s') /\ same_registry s s' /\ called s' = called s ++ calls /\
    calledId <$> calls = concat ((fun p => default [] (pathsToCallbackIds_ s !! p)) <$> ps) /\ Forall (shows_files s) calls.
Proof.
  induction ps as [|p ps IH]; intros s Hs; cbn [for_each].
  - exists s, []. rewrite app_nil_r. by split_and!.
  - assert (H1 : exists s1 calls, onFileUpdated readFile p s = (Ok tt, s1) /\ same_registry s s1 /\ called s1 = called s ++ calls /\
      calledId <$> calls = default [] (pathsToCallbackIds_ s !! p) /\ Forall (shows_files s) calls).
    { unfold onFileUpdated. rewrite bind_get. destruct (pathsToCallbackIds_ s !! p) as [l|] eqn:E.
      - apply callLoop_ok; [by intros q x; rewrite lookup_empty|]. intros id Hid.
        destruct (rl_paths _ Hs p l E) as (_ & _ & H). destruct (H id Hid) as (fs & Efs & _). by exists fs.
      - exists s, []. rewrite app_nil_r. by split_and!. }
    destruct H1 as (s1 & calls1 & E1 & (L1 & P1 & I1 & F1) & C1 & Id1 & Sh1). rewrite (bind_Ok _ _ _ _ _ E1).
    assert (Hs1 : related s1).
    { destruct Hs as [? ? ? ? ?]. split; rewrite ?L1, ?P1, ?I1, ?F1; done. }
    destruct (IH s1 Hs1) as (s2 & calls2 & E2 & (L2 & P2 & I2 & F2) & C2 & Id2 & Sh2).
    exists s2, (calls1 ++ calls2). split; [done|]. split; [split_and!; congruence|]. split; [by rewrite C2, C1, app_assoc|].
    split.
    + rewrite fmap_app, Id1, Id2. simpl. by rewrite P1.
    + apply Forall_app. split; [done|]. eapply Forall_impl; [exact Sh2|]. intros c [A B]. split; [done|]. by rewrite <- I1.
Qed.
End poll.

(** ** Histories *)

Inductive MultiEvent : Type :=
| Register (stat : string -> FileModificationData) (paths : list string)
| Cancel (id : Z)
| Poll (stat : string -> FileModificationData) (readFile : string -> option string) (now : Z) (order : list string).

(** The order of a poll is one in which the tracked files can be walked. *)
Definition multiEvent (ev : MultiEvent) s : res unit * MultiFilePoller :=
  match ev with
  | Register stat paths => (do! registerFiles stat (S (size (idsToCallbacks_ s))) paths in ret tt) s
  | Cancel id => cancelCallback id s
  | Poll stat readFile now order => poll stat readFile now order s
  end.
Definition legal (ev : MultiEvent) s : Prop :=
  match ev with
  | Register _ paths => NoDup paths /\ (Z.of_nat (S (size (idsToCallbacks_ s))) < 2 ^ 64)%Z
  | Cancel _ => True
  | Poll _ _ _ order => NoDup order /\ forall p, p ∈ order <-> is_Some (fileDatum_ s !! p)
  end.
Inductive history : MultiFilePoller -> Prop :=
| history_new : history newMulti
| history_event ev s : history s -> legal ev s -> history (multiEvent ev s).2.

Lemma poll_ok stat readFile now order s : related s -> NoDup order -> (forall p, p ∈ order <-> is_Some (fileDatum_ s !! p)) ->
  exists s' calls, poll stat readFile now order s = (Ok tt, s') /\ related s' /\ called s' = called s ++ calls /\
    calledId <$> calls = concat ((fun p => default [] (pathsToCallbackIds_ s !! p)) <$> filter (fun p => touched stat s p = true) order) /\
    Forall (shows_files readFile s) calls /\ idsToCallbacks_ s' = idsToCallbacks_ s /\
    (forall p f, fileDatum_ s' !! p = Some f -> modData f = stat p).
Proof.
  intros Hs Hnd Hord. destruct (checkFiles_eq stat now id order Hnd (fileDatum_ s) (rl_file _ Hs)) as (d & Ed & Hd).
  unfold poll. rewrite bind_get, Ed, list_fmap_id. fold (touched stat s).
  destruct (onFileUpdated_loop readFile (filter (fun p => touched stat s p = true) order) s Hs) as (s1 & calls & E1 & (L & P & I & F) & C & Id & Sh).
  rewrite (bind_Ok _ _ _ _ _ E1). exists (setFiles d s1), calls. split; [done|]. destruct Hs as [Hl Hp Hi Ht Hf]. split_and!; try done.
  - split; simpl; rewrite ?L, ?P, ?I; try done.
    + intros p. rewrite <- Ht, Hd. case_decide; [|done]. by rewrite fmap_is_Some.
    + intros p f. rewrite Hd. case_decide; [|apply Hf]. destruct (fileDatum_ s !! p); [|done]. by intros [= <-].
  - intros p f. simpl. rewrite Hd. destruct (decide (p ∈ order)) as [Hin|Hin].
    + destruct (fileDatum_ s !! p); [|done]. by intros [= <-].
    + intros E. exfalso. apply Hin, Hord. by exists f.
Qed.

(** The faults a call may end with. *)
Definition reports ev (f : fault) : Prop :=
  match ev, f with Register _ _, InvalidArgument _ | Cancel _, OutOfRange _ => True | _, _ => False end.

Lemma multiEvent_ok ev s : related s -> legal ev s ->
  related (multiEvent ev s).2 /\ (forall f, (multiEvent ev s).1 = Err f -> reports ev f).
Proof.
  intros Hs Hl. destruct ev as [stat paths|id|stat readFile now order]; simpl in *.
  - destruct Hl as [Hnd Hb]. destruct (decide (paths = [])) as [->|Hne].
    + unfold bind, registerFiles. simpl. split; [done|]. by intros f [= <-].
    + destruct (registerFiles_ok stat (S (size (idsToCallbacks_ s))) paths s Hs Hne Hnd ltac:(lia) Hb) as (id & s' & E & Hs' & _).
      rewrite (bind_Ok _ _ _ _ _ E). by split.
  - destruct (idsToCallbacks_ s !! id) as [files|] eqn:E.
    + destruct (cancelCallback_ok id files s Hs E) as (s' & -> & Hs' & _). by split.
    + unfold cancelCallback. rewrite bind_get, E. split; [done|]. by intros f [= <-].
  - destruct Hl as [Hnd Hord]. destruct (poll_ok stat readFile now order s Hs Hnd Hord) as (s' & calls & -> & Hs' & _). by split.
Qed.
Lemma history_related s : history s -> related s.
Proof. induction 1; [apply related_new|]. by apply multiEvent_ok. Qed.

(** C39. For every sequence of registrations of distinct files, cancellations
    and polls: the two maps are inverse to each other, without empty or
    repeated entries, exactly the files with callbacks are tracked, and the
    next call ends in nothing but the exceptions for an empty list of files
    and for an unknown id: no stale id or key is followed. *)
Theorem registry_consistent s ev : history s -> legal ev s ->
  (forall p id, (exists l, pathsToCallbackIds_ s !! p = Some l /\ id ∈ l) <-> (exists fs, idsToCallbacks_ s !! id = Some fs /\ p ∈ fs)) /\
  (forall p l, pathsToCallbackIds_ s !! p = Some l -> l <> [] /\ NoDup l) /\
  (forall p, is_Some (fileDatum_ s !! p) <-> p <> EmptyString /\ is_Some (pathsToCallbackIds_ s !! p)) /\
  (forall f, (multiEvent ev s).1 = Err f -> reports ev f).
Proof.
  intros Hs%history_related Hl. split_and!.
  - intros p id. split.
    + intros (l & E & Hin). by apply (rl_paths _ Hs p l E).
    + intros (fs & E & Hin). by apply (rl_ids _ Hs id fs E).
  - intros p l E. destruct (rl_paths _ Hs p l E) as (? & ? & _). done.
  - apply (rl_tracked _ Hs).
  - by apply multiEvent_ok.
Qed.

(** A poll calls, for every tracked file that was touched since the last
    poll or its registration, the callbacks registered on it, in the order of
    registration; each is shown the contents of those of its files that can be
    read; and a second poll that finds the same modification times calls
    nobody. *)
Lemma poll_calls_registered s stat readFile now order : history s -> legal (Poll stat readFile now order) s ->
  exists s' calls, poll stat readFile now order s = (Ok tt, s') /\ called s' = called s ++ calls /\
    calledId <$> calls = concat ((fun p => default [] (pathsToCallbackIds_ s !! p)) <$> filter (fun p => touched stat s p = true) order) /\
    (forall c fs p, c ∈ calls -> idsToCallbacks_ s !! calledId c = Some fs -> p ∈ fs -> newData c !! p = readFile p) /\
    (forall now' order', legal (Poll stat readFile now' order') s' ->
       called (multiEvent (Poll stat readFile now' order') s').2 = called s').
Proof.
  intros Hs%history_related [Hnd Hord].
  destruct (poll_ok stat readFile now order s Hs Hnd Hord) as (s' & calls & E & Hs' & C & Id & Sh & I & Hmod).
  exists s', calls. split_and!; [done..| |].
  - intros c fs p Hc. rewrite Forall_forall in Sh. by apply Sh.
  - intros now' order' [Hnd' Hord']. simpl.
    destruct (poll_ok stat readFile now' order' s' Hs' Hnd' Hord') as (s'' & calls' & E' & _ & C' & Id' & _).
    rewrite E'. simpl. rewrite C'. assert (Hnone : filter (fun p => touched stat s' p = true) order' = []).
    { clear -Hmod. induction order' as [|p order' IH]; [done|]. rewrite filter_cons. rewrite decide_False; [done|].
      unfold touched. destruct (fileDatum_ s' !! p) as [f|] eqn:Ef; [|done]. by rewrite (Hmod p f Ef), touched_same. }
    rewrite Hnone in Id'. simpl in Id'. destruct calls'; [by rewrite app_nil_r|done].
Qed.

(** ** Where it goes wrong *)

(** Each thread holds the lock that the other one waits for. *)
Lemma lock_order_deadlock :
  exists s1 s2 : Locks, act Caller (mkLocks None None (fun t => if decide (t = Caller) then callerActions else pollActions)) = Some s1 /\
    act PollerThread s1 = Some s2 /\ todo s2 Caller <> [] /\ todo s2 PollerThread <> [] /\ forall t, act t s2 = None.
Proof. eexists _, _. split; [reflexivity|]. split; [reflexivity|]. split; [done|]. split; [done|]. by intros []. Qed.

Definition at_time (m : Z) : string -> FileModificationData := fun _ => mkMod true m.
Definition runMulti (evs : list MultiEvent) : MultiFilePoller := fold_left (fun s ev => (multiEvent ev s).2) evs newMulti.

(** A file that is listed twice, and that somebody else registered too: the
    cancellation erases one element too few, and then the end of the vector. *)
Lemma listed_twice_breaks :
  (cancelCallback 1 (runMulti [Register (at_time 1) ["a"; "a"]; Register (at_time 1) ["a"]])).1 = Err (Undefined "erase(end())").
Proof. vm_compute. reflexivity. Qed.

(** A change between the last poll and another registration of the same file
    is not seen by the first callback. *)
Lemma registration_hides_change :
  let s := runMulti [Register (at_time 1) ["a"]; Register (at_time 2) ["a"]] in
  called (poll (at_time 2) (fun _ => None) 0 ["a"] s).2 = [] /\
  calledId <$> called (poll (at_time 2) (fun _ => None) 0 ["a"] (runMulti [Register (at_time 1) ["a"]])).2 = [1%Z].
Proof. split; vm_compute; reflexivity. Qed.

(** ** At concrete inputs *)

Definition exampleRegistrations : MultiFilePoller :=
  runMulti [Register (at_time 1) ["a"; "b"]; Register (at_time 1) ["b"; "c"]].
Lemma example_history : history exampleRegistrations.
Proof.
  unfold exampleRegistrations, runMulti. simpl.
  apply (history_event (Register (at_time 1) ["b"; "c"])); [apply (history_event (Register (at_time 1) ["a"; "b"])); [apply history_new|]|];
    (split; [by apply (bool_decide_unpack _)|done]).
Defined.

Lemma registry_consistent_witness :
  history exampleRegistrations /\ pathsToCallbackIds_ exampleRegistrations !! "b" = Some [1; 2]%Z /\
  forall f, (multiEvent (Cancel 7) exampleRegistrations).1 = Err f -> reports (Cancel 7) f.
Proof.
  split; [exact example_history|]. split; [vm_compute; reflexivity|].
  exact (proj2 (proj2 (proj2 (registry_consistent exampleRegistrations (Cancel 7) example_history I)))).
Defined.

Lemma poll_calls_registered_witness :
  exists s' calls, poll (fun p => mkMod true (if decide (p = "c") then 1 else 2)) (fun p => Some p) 0 ["c"; "b"; "a"] exampleRegistrations = (Ok tt, s') /\
    called s' = called exampleRegistrations ++ calls /\ calledId <$> calls = [1; 2; 1]%Z.
Proof.
  destruct (poll_calls_registered exampleRegistrations (fun p => mkMod true (if decide (p = "c") then 1 else 2)) (fun p => Some p) 0
    ["c"; "b"; "a"] example_history) as (s' & calls & E & C & Id & _).
  - split; [by apply (bool_decide_unpack _)|]. intros p. vm_compute fileDatum_. rewrite <- elem_of_dom.
    assert (Ed : elements (dom (fileDatum_ exampleRegistrations)) ≡ₚ ["c"; "b"; "a"]) by (apply (bool_decide_unpack _); vm_compute; exact I).
    rewrite <- Ed. by rewrite elem_of_elements.
  - exists s', calls. split; [exact E|]. split; [exact C|]. rewrite Id. vm_compute. reflexivity.
Defined.
