(* ===== verification/Rx.v ===== *)
(** * Observables (src/wangle/deprecated/rx)

    An [Observable] tells its observers and subscribers; what they do while
    they are told - observe, subscribe, unsubscribe - is put off until everyone
    was told.  A [Subject] is told itself and passes it on.

    The observers' reactions are a parameter: what an observer does may depend
    on everything told so far.  One thread is modelled: [inCallback_] and the
    deferred lists are thread-local. *)
From Stdlib Require Import ZArith Lia.
From stdpp Require Import base numbers list gmap strings.
From S2P Require Import Prelude.
Open Scope cpp_scope.

Set Default Goal Selector "!".

Section observable.
(** Observers, by name, and what they are told (a value, an error, the end). *)
Context {O V : Type}.

Inductive Action : Type :=
| Observe (o : O)
| Subscribe (o : O)
| Unsubscribe (id : nat)      (* a Subscription is destroyed *)
| Notify (v : V)              (* the observable is told again *)
| Throw.

Record Observable : Type := mkObservable {
  nextSubscriptionId_ : nat;
  observers_ : list O;
  subscribers_ : list (nat * O);
  inCallback_ : bool;
  newObservers_ : list O;
  newSubscribers_ : list (nat * O);
  oldSubscribers_ : list nat;
  told : list (O * V)
}.
Definition newObservable : Observable := mkObservable 1 [] [] false [] [] [] [].

Definition setCallback b (s : Observable) : Observable :=
  mkObservable (nextSubscriptionId_ s) (observers_ s) (subscribers_ s) b (newObservers_ s) (newSubscribers_ s)
    (oldSubscribers_ s) (told s).
Definition setSubscribers x (s : Observable) : Observable :=
  mkObservable (nextSubscriptionId_ s) (observers_ s) x (inCallback_ s) (newObservers_ s) (newSubscribers_ s)
    (oldSubscribers_ s) (told s).
Definition setNewSubscribers x (s : Observable) : Observable :=
  mkObservable (nextSubscriptionId_ s) (observers_ s) (subscribers_ s) (inCallback_ s) (newObservers_ s) x
    (oldSubscribers_ s) (told s).

(** ** Subscribing *)

Definition observe (o : O) : M Observable unit :=
  modify (fun s =>
    if inCallback_ s
    then mkObservable (nextSubscriptionId_ s) (observers_ s) (subscribers_ s) true (newObservers_ s ++ [o])
           (newSubscribers_ s) (oldSubscribers_ s) (told s)
    else mkObservable (nextSubscriptionId_ s) (observers_ s ++ [o]) (subscribers_ s) false (newObservers_ s)
           (newSubscribers_ s) (oldSubscribers_ s) (told s)).

(** [makeSubscription], of which the id counts; the maps are kept in the order
    of their keys, and a new id is the greatest. *)
Definition makeSubscription : M Observable nat := fun s =>
  (Ok (nextSubscriptionId_ s),
   mkObservable (S (nextSubscriptionId_ s)) (observers_ s) (subscribers_ s) (inCallback_ s) (newObservers_ s)
     (newSubscribers_ s) (oldSubscribers_ s) (told s)).
Definition subscribeImpl (o : O) : M Observable nat :=
  let! id := makeSubscription in
  do! modify (fun s =>
    if inCallback_ s then setNewSubscribers (newSubscribers_ s ++ [(id, o)]) s
    else setSubscribers (subscribers_ s ++ [(id, o)]) s) in
  ret id.

Definition unsubscribe (id : nat) : M Observable unit :=
  let! s := get in
  if negb (0 <? id) then raise (CheckFailed "id > 0")
  else if inCallback_ s then
    match assoc id (newSubscribers_ s) with
    | Some _ => modify (setNewSubscribers (without id (newSubscribers_ s)))
    | None => modify (fun s => mkObservable (nextSubscriptionId_ s) (observers_ s) (subscribers_ s) (inCallback_ s)
                        (newObservers_ s) (newSubscribers_ s) (oldSubscribers_ s ++ [id]) (told s))
    end
  else modify (setSubscribers (without id (subscribers_ s))).

(** ** Telling *)

(** What is left to do when everyone was told. *)
Definition applyDeferred (s : Observable) : Observable :=
  mkObservable (nextSubscriptionId_ s) (observers_ s ++ newObservers_ s)
    (foldl (fun l id => without id l) (subscribers_ s ++ newSubscribers_ s) (oldSubscribers_ s))
    (inCallback_ s) [] [] [] (told s).

(** [react] is what an observer does; a nested notification finds [inCallback_]
    set, and ends the process. *)
Definition act (a : Action) : M Observable unit :=
  match a with
  | Observe o => observe o
  | Subscribe o => let! id := subscribeImpl o in ret tt
  | Unsubscribe id => unsubscribe id
  | Notify _ =>
      let! s := get in
      if inCallback_ s then raise (CheckFailed "!(*inCallback_)") else ret tt
  | Throw => raise (RuntimeError "onNext")
  end.

Context (react : list (O * V) -> O -> list Action).

Definition tell (v : V) (o : O) : M Observable unit :=
  do! modify (fun s => mkObservable (nextSubscriptionId_ s) (observers_ s) (subscribers_ s) (inCallback_ s)
        (newObservers_ s) (newSubscribers_ s) (oldSubscribers_ s) (told s ++ [(o, v)])) in
  let! s := get in
  for_each (react (told s) o) act.

Definition forEachObserver (v : V) : M Observable unit :=
  let! s := get in
  if inCallback_ s then raise (CheckFailed "!(*inCallback_)")
  else
    do! modify (setCallback true) in
    do! for_each (observers_ s) (tell v) in
    let! s := get in
    do! for_each (subscribers_ s) (fun kv => tell v kv.2) in
    do! modify applyDeferred in
    modify (setCallback false).

(** Outside of callbacks. *)
Definition perform (a : Action) : M Observable unit :=
  match a with
  | Notify v => forEachObserver v
  | _ => act a
  end.

(** ** What it should do

    The reactions to the whole round, and the lists after it. *)
Fixpoint roundActions (v : V) (audience : list O) (before : list (O * V)) : list Action :=
  match audience with
  | [] => []
  | o :: audience => react (before ++ [(o, v)]) o ++ roundActions v audience (before ++ [(o, v)])
  end.
Definition quiet (a : Action) : bool :=
  match a with Observe _ | Subscribe _ => true | Unsubscribe id => 0 <? id | _ => false end.
Definition observed (l : list Action) : list O := omap (fun a => match a with Observe o => Some o | _ => None end) l.
Fixpoint subscribed (id : nat) (l : list Action) : list (nat * O) :=
  match l with
  | [] => []
  | Subscribe o :: l => (id, o) :: subscribed (S id) l
  | _ :: l => subscribed id l
  end.
Definition unsubscribed (l : list Action) : list nat :=
  omap (fun a => match a with Unsubscribe id => Some id | _ => None end) l.
End observable.

(** ** [observeOn] and [subscribeOn]

    The derived observables; [run] is the scheduler, here one that runs what
    it is given at once. *)
Section derived.
Context {O V : Type}.

(** [subscribeOn(...)->subscribe(o)]: the subscription to the parent is a
    temporary, and the one that is returned is made with id 0, which its
    constructor refuses. *)
Definition newSubscription (id : nat) : M (Observable (O:=O) (V:=V)) nat :=
  if 0 <? id then ret id else raise (CheckFailed "id_ > 0").
Definition subscribeOn_subscribe (o : O) : M (Observable (O:=O) (V:=V)) nat :=
  let! id := subscribeImpl o in
  do! unsubscribe id in
  newSubscription 0.
End derived.
