(* ===== verification/RxProps.v ===== *)
(** * Observables: a round tells a snapshot

    One notification tells every observer and then every subscriber of before
    the round, each once and in order, whatever they do meanwhile; what they
    did takes effect after it, as one change of the lists. *)
From Stdlib Require Import ZArith Lia Sorted.
From stdpp Require Import base numbers list gmap strings.
From S2P Require Import Prelude Rx.
Open Scope cpp_scope.

Set Default Goal Selector "!".

Section observable.
Context {O V : Type} (react : list (O * V) -> O -> list (Action (O:=O) (V:=V))).
#[local] Abbreviation Observable := (Observable (O:=O) (V:=V)).
#[local] Abbreviation Action := (Action (O:=O) (V:=V)).
Implicit Types (s : Observable) (l : list Action).

(** The subscribers when the ids [r] are gone. *)
Definition leaving (r : list nat) (m : list (nat * O)) : list (nat * O) := filter (fun p => p.1 ∉ r) m.

Lemma foldl_without r : forall m : list (nat * O), foldl (fun m id => without id m) m r = leaving r m.
Proof.
  unfold leaving. induction r as [|id r IH]; intros m; simpl.
  - symmetry. apply filter_all. intros p _. apply not_elem_of_nil.
  - rewrite IH. unfold without. rewrite list_filter_filter. apply list_filter_iff. intros p. rewrite not_elem_of_cons. tauto.
Qed.

(** While a round lasts: [l] was done since it began in [s0]. *)
Record during s0 l (n : list (O * V)) s : Prop := {
  du_next : nextSubscriptionId_ s = nextSubscriptionId_ s0 + length (subscribed (nextSubscriptionId_ s0) l);
  du_observers : observers_ s = observers_ s0;
  du_subscribers : subscribers_ s = subscribers_ s0;
  du_callback : inCallback_ s = true;
  du_new : newObservers_ s = observed l;
  du_told : told s = told s0 ++ n;
  du_after : leaving (oldSubscribers_ s) (subscribers_ s ++ newSubscribers_ s) =
    leaving (unsubscribed l) (subscribers_ s0 ++ subscribed (nextSubscriptionId_ s0) l);
  du_ids p : p ∈ newSubscribers_ s -> nextSubscriptionId_ s0 <= p.1 < nextSubscriptionId_ s;
  du_future id : nextSubscriptionId_ s <= id -> id ∈ oldSubscribers_ s <-> id ∈ unsubscribed l
}.

(** Between rounds. *)
Record idle s : Prop := {
  id_callback : inCallback_ s = false;
  id_deferred : newObservers_ s = [] /\ newSubscribers_ s = [] /\ oldSubscribers_ s = [];
  id_ids id : id ∈ (subscribers_ s).*1 -> id < nextSubscriptionId_ s;
  id_sorted : StronglySorted lt (subscribers_ s).*1
}.

Lemma observed_app l l' : observed (l ++ l') = observed l ++ observed l'.
Proof. apply omap_app. Qed.
Lemma unsubscribed_app l l' : unsubscribed (l ++ l') = unsubscribed l ++ unsubscribed l'.
Proof. apply omap_app. Qed.
Lemma subscribed_app l l' : forall id, subscribed id (l ++ l') = subscribed id l ++ subscribed (id + length (subscribed id l)) l'.
Proof.
  induction l as [|a l IH]; intros id; simpl; [by rewrite Nat.add_0_r|].
  destruct a; simpl; rewrite IH; try done. do 3 f_equal. lia.
Qed.

Lemma leaving_app r m m' : leaving r (m ++ m') = leaving r m ++ leaving r m'.
Proof. apply filter_app. Qed.
Lemma leaving_snoc r id m : leaving (r ++ [id]) m = without id (leaving r m).
Proof.
  unfold leaving, without. rewrite list_filter_filter. apply list_filter_iff. intros p.
  rewrite not_elem_of_app, list_elem_of_singleton. tauto.
Qed.
Lemma without_leaving r id m : without id (leaving r m) = leaving r (without id m).
Proof.
  unfold leaving, without. rewrite !list_filter_filter. apply list_filter_iff. intros p. tauto.
Qed.
Lemma without_app id (m m' : list (nat * O)) : without id (m ++ m') = without id m ++ without id m'.
Proof. apply filter_app. Qed.
Lemma subscribed_ids l : forall id p, p ∈ subscribed id l -> id <= p.1 < id + length (subscribed id l).
Proof.
  induction l as [|a l IH]; intros id p; simpl; [by intros ?%elem_of_nil|].
  destruct a; simpl; try apply IH. intros [->|Hin]%elem_of_cons; [simpl; lia|]. specialize (IH (S id) p Hin). lia.
Qed.

(** ** One action *)

Lemma act_during s0 l n a s : idle s0 -> during s0 l n s -> quiet a = true ->
  exists s', act a s = (Ok tt, s') /\ during s0 (l ++ [a]) n s'.
Proof.
  intros Hidle [Hnx Ho Hs Hc Hnew Ht Ha Hids Hfut] Hq. destruct a as [o|o|id|v|]; try done.
  - eexists. split; [done|]. rewrite Hc. split; simpl; rewrite ?subscribed_app, ?observed_app, ?unsubscribed_app; simpl; rewrite ?app_nil_r; try done.
    + by rewrite Hnew.
  - eexists. split; [done|]. simpl. rewrite Hc.
    split; simpl; rewrite ?subscribed_app, ?observed_app, ?unsubscribed_app; simpl; rewrite ?app_nil_r; try done.
    + rewrite length_app. simpl. lia.
    + rewrite !app_assoc, (leaving_app _ (_ ++ _)), Ha, (leaving_app _ (_ ++ _) [_]). f_equal. rewrite Hnx.
      unfold leaving. rewrite !filter_cons. simpl. specialize (Hfut _ (le_n _)). rewrite Hnx in Hfut. by repeat case_decide; try tauto.
    + intros p [Hin| ->%list_elem_of_singleton]%elem_of_app; [specialize (Hids p Hin); lia|]. simpl. lia.
    + intros id Hid. apply Hfut. lia.
  - simpl in Hq. unfold act, unsubscribe. rewrite bind_get, Hq, Hc. simpl.
    destruct (assoc id (newSubscribers_ s)) as [o|] eqn:E.
    + eexists. split; [done|]. apply assoc_elem in E. pose proof (Hids _ E) as Hid. simpl in Hid.
      split; simpl; rewrite ?subscribed_app, ?observed_app, ?unsubscribed_app; simpl; rewrite ?app_nil_r; try done.
      * rewrite leaving_snoc, <- Ha, without_leaving, without_app. do 2 f_equal. symmetry. apply without_id. rewrite Hs.
        intros Hin%(id_ids _ Hidle). lia.
      * intros p [_ Hin]%list_elem_of_filter. by apply Hids.
      * intros id' Hid'. rewrite Hfut by done. rewrite elem_of_app, list_elem_of_singleton. split; [by left|]. intros [?|Heq]; [done|lia].
    + eexists. split; [done|].
      split; simpl; rewrite ?subscribed_app, ?observed_app, ?unsubscribed_app; simpl; rewrite ?app_nil_r; try done.
      * by rewrite !leaving_snoc, Ha.
      * intros id' Hid'. rewrite !elem_of_app. by rewrite Hfut.
Qed.

Lemma acts_during s0 n acts : idle s0 -> Forall (fun a => quiet a = true) acts -> forall l s, during s0 l n s ->
  exists s', for_each acts act s = (Ok tt, s') /\ during s0 (l ++ acts) n s'.
Proof.
  intros Hidle Hq. induction acts as [|a acts IH]; intros l s Hs; cbn [for_each].
  - exists s. by rewrite app_nil_r.
  - apply Forall_cons in Hq as [Ha Hq]. destruct (act_during s0 l n a s Hidle Hs Ha) as (s1 & E1 & H1).
    rewrite (bind_Ok _ _ _ _ _ E1). destruct (IH Hq _ _ H1) as (s2 & E2 & H2). exists s2. by rewrite <- app_assoc in H2.
Qed.

Lemma tell_during s0 l n v o s : idle s0 -> during s0 l n s ->
  Forall (fun a => quiet a = true) (react (told s0 ++ n ++ [(o, v)]) o) ->
  exists s', tell react v o s = (Ok tt, s') /\ during s0 (l ++ react (told s0 ++ n ++ [(o, v)]) o) (n ++ [(o, v)]) s'.
Proof.
  intros Hidle Hs Hq. unfold tell. rewrite bind_modify, bind_get. simpl. rewrite (du_told _ _ _ _ Hs), <- app_assoc.
  apply acts_during; [done..|]. destruct Hs. split; simpl; done.
Qed.

(** A part of the audience. *)
Lemma tell_loop s0 v audience : idle s0 -> forall l n s, during s0 l n s ->
  Forall (fun a => quiet a = true) (roundActions react v audience (told s0 ++ n)) ->
  exists s', for_each audience (tell react v) s = (Ok tt, s') /\
    during s0 (l ++ roundActions react v audience (told s0 ++ n)) (n ++ ((fun o => (o, v)) <$> audience)) s'.
Proof.
  intros Hidle. induction audience as [|o audience IH]; intros l n s Hs; cbn [for_each roundActions].
  - intros _. exists s. by rewrite !app_nil_r.
  - rewrite <- app_assoc. intros [Hq1 Hq2]%Forall_app. destruct (tell_during s0 l n v o s Hidle Hs Hq1) as (s1 & E1 & H1).
    rewrite (bind_Ok _ _ _ _ _ E1). destruct (IH _ _ s1 H1 Hq2) as (s2 & E2 & H2). exists s2. split; [done|].
    rewrite <- !app_assoc in H2. exact H2.
Qed.

Lemma roundActions_app v a b : forall before,
  roundActions react v (a ++ b) before = roundActions react v a before ++ roundActions react v b (before ++ ((fun o => (o, v)) <$> a)).
Proof.
  induction a as [|o a IH]; intros before; simpl; [by rewrite app_nil_r|]. by rewrite IH, <- !app_assoc.
Qed.

Lemma for_each_fmap {A B S} (f : A -> B) (g : B -> M S unit) (k : list A) (s : S) : for_each k (fun a => g (f a)) s = for_each (f <$> k) g s.
Proof. revert s. induction k as [|a k IH]; intros s; [done|]. simpl. unfold bind. destruct (g (f a) s) as [[[]|] s']; [apply IH|done]. Qed.

Lemma sorted_leaving r (m : list (nat * O)) : StronglySorted lt m.*1 -> StronglySorted lt (leaving r m).*1.
Proof.
  unfold leaving. induction m as [|[k o] m IH]; [done|]. simpl. intros [Hs Hall]%StronglySorted_inv. rewrite filter_cons. simpl.
  case_decide; [|by apply IH]. simpl. constructor; [by apply IH|]. rewrite Forall_forall in Hall |- *.
  intros i ([k' o'] & -> & [_ Hin]%list_elem_of_filter)%list_elem_of_fmap. apply Hall. by apply (list_elem_of_fmap_2 fst) in Hin.
Qed.
Lemma sorted_app (a b : list nat) : StronglySorted lt a -> StronglySorted lt b -> (forall x y, x ∈ a -> y ∈ b -> x < y) -> StronglySorted lt (a ++ b).
Proof.
  induction a as [|x a IH]; [done|]. intros [Ha Hall]%StronglySorted_inv Hb Hlt. simpl. constructor.
  - apply IH; [done..|]. intros y z Hy. apply Hlt. by right.
  - apply Forall_app. split; [done|]. apply Forall_forall. intros y Hy. apply Hlt; [by left|done].
Qed.
Lemma sorted_subscribed l : forall id, StronglySorted lt (subscribed id l).*1.
Proof.
  induction l as [|a l IH]; intros id; simpl; [constructor|]. destruct a; try apply IH. simpl. constructor; [apply IH|].
  apply Forall_forall. intros k (p & -> & Hin)%list_elem_of_fmap. apply subscribed_ids in Hin. lia.
Qed.

(** ** A round *)

Definition audience s : list O := observers_ s ++ (subscribers_ s).*2.

(** A notification tells every observer and subscriber of before it,
    observers first and subscribers in the order of their ids, exactly once,
    whatever they observe, subscribe or unsubscribe meanwhile; afterwards the
    new ones are there, after the old ones, and those whose subscription was
    destroyed are not, whichever came first. *)
Lemma round_tells_snapshot s v : idle s ->
  let acts := roundActions react v (audience s) (told s) in
  Forall (fun a => quiet a = true) acts ->
  exists s', forEachObserver react v s = (Ok tt, s') /\ idle s' /\
    told s' = told s ++ ((fun o => (o, v)) <$> audience s) /\
    observers_ s' = observers_ s ++ observed acts /\
    subscribers_ s' = leaving (unsubscribed acts) (subscribers_ s ++ subscribed (nextSubscriptionId_ s) acts) /\
    nextSubscriptionId_ s' = nextSubscriptionId_ s + length (subscribed (nextSubscriptionId_ s) acts).
Proof.
  intros Hidle acts Hq. pose proof Hidle as [Hcb (Hd1 & Hd2 & Hd3) Hids Hsort]. unfold acts, audience in *. rewrite roundActions_app in *.
  apply Forall_app in Hq as [Hq1 Hq2]. unfold forEachObserver. rewrite bind_get, Hcb, bind_modify.
  assert (H0 : during s [] [] (setCallback true s)).
  { split; simpl; rewrite ?Hd1, ?Hd2, ?Hd3, ?app_nil_r; try done; try lia. by intros p ?%elem_of_nil. }
  destruct (tell_loop s v (observers_ s) Hidle [] [] (setCallback true s) H0) as (s1 & E1 & H1); [by rewrite app_nil_r|].
  rewrite (bind_Ok _ _ _ _ _ E1), bind_get, (du_subscribers _ _ _ _ H1).
  destruct (tell_loop s v (subscribers_ s).*2 Hidle _ _ s1 H1 Hq2) as (s2 & E2 & [Hnx Ho Hs Hc Hnew Ht Ha _ _]).
  unfold bind at 1. rewrite (for_each_fmap snd (tell react v)), E2, bind_modify. rewrite !app_nil_r in *. simpl in *.
  set (acts' := roundActions _ _ _ _ ++ _) in *. eexists. split; [done|]. simpl. rewrite foldl_without, Ha.
  split; [|rewrite fmap_app; by rewrite Ho, Hnew, Ht, Hnx].
  split; simpl; [done|done| |].
  - intros id. rewrite foldl_without, Ha, Hnx. intros (p & -> & [_ Hin]%list_elem_of_filter)%list_elem_of_fmap.
    apply elem_of_app in Hin as [Hin|Hin]; [|by apply subscribed_ids in Hin; lia].
    apply (list_elem_of_fmap_2 fst), Hids in Hin. lia.
  - rewrite foldl_without, Ha. apply sorted_leaving. rewrite fmap_app.
    apply sorted_app; [done|apply sorted_subscribed|]. intros x y Hx%Hids (p & -> & Hy%subscribed_ids)%list_elem_of_fmap. lia.
Qed.

(** ** Exceptions *)

Lemma act_in_callback a : preserves (fun s => inCallback_ s = true) (fun _ => True) (act a).
Proof.
  destruct a as [o|o|id|v|]; simpl.
  - apply preserves_modify. intros s Hs. by rewrite Hs.
  - intros s Hs. simpl. by rewrite Hs.
  - intros s Hs. unfold unsubscribe. rewrite bind_get. destruct (negb _); [done|]. rewrite Hs. by destruct (assoc _ _).
  - intros s Hs. rewrite bind_get, Hs. done.
  - by apply preserves_raise.
Qed.
Lemma tell_in_callback v o : preserves (fun s => inCallback_ s = true) (fun _ => True) (tell react v o).
Proof.
  apply preserves_bind; [by apply preserves_modify|]. intros _ s Hs. rewrite bind_get.
  by apply (preserves_for_each (fun s => inCallback_ s = true) (fun _ => True) _ act (fun a _ => act_in_callback a)).
Qed.

(** An observer that throws, or is told again from inside, leaves [inCallback_]
    set: nothing is ever told again, the process ends at the next attempt. *)
Lemma exception_silences s v f s' v' : idle s -> forEachObserver react v s = (Err f, s') ->
  (forEachObserver react v' s').1 = Err (CheckFailed "!(*inCallback_)").
Proof.
  intros Hidle E. assert (Hc : inCallback_ s' = true).
  { unfold forEachObserver in E. rewrite bind_get, (id_callback _ Hidle), bind_modify in E.
    pose proof (preserves_for_each (fun s => inCallback_ s = true) (fun _ => True) (observers_ s) (tell react v)
      (fun o _ => tell_in_callback v o) (setCallback true s) eq_refl) as [H1 _]. unfold bind in E at 1.
    destruct (for_each _ _ (setCallback true s)) as [[[]|g] s1]; simpl in H1; [|by injection E as <- <-].
    rewrite bind_get in E.
    pose proof (preserves_for_each (fun s => inCallback_ s = true) (fun _ => True) (subscribers_ s1) (fun kv => tell react v kv.2)
      (fun kv _ => tell_in_callback v kv.2) s1 H1) as [H2 _]. unfold bind in E at 1.
    destruct (for_each _ _ s1) as [[[]|g] s2]; simpl in H2; [done|by injection E as <- <-]. }
  unfold forEachObserver. by rewrite bind_get, Hc.
Qed.

(** Outside of a round, every operation keeps the lists in order. *)
Lemma perform_idle a s : idle s -> (if a is Notify _ then False else True) -> forall s', perform react a s = (Ok tt, s') -> idle s'.
Proof.
  intros [Hcb (Hd1 & Hd2 & Hd3) Hids Hsort] Ha s' E. destruct a as [o|o|id|v|]; simpl in E; try done.
  - injection E as <-. rewrite Hcb. by split.
  - injection E as <-. simpl. rewrite Hcb. split; simpl; try done.
    + intros id. rewrite fmap_app. intros [Hin%Hids|Hin]%elem_of_app; [lia|]. apply list_elem_of_singleton in Hin as ->. simpl. lia.
    + rewrite fmap_app. apply sorted_app; [done|repeat constructor|]. intros x y Hx%Hids Hy.
      apply list_elem_of_singleton in Hy as ->. done.
  - unfold unsubscribe in E. rewrite bind_get in E. destruct (negb _); [done|]. rewrite Hcb in E. injection E as <-.
    split; simpl; try done.
    + intros j (p & -> & [_ Hin]%list_elem_of_filter)%list_elem_of_fmap. apply Hids. by apply list_elem_of_fmap_2.
    + unfold without. replace (filter (fun p : nat * O => p.1 <> id) (subscribers_ s)) with (leaving [id] (subscribers_ s)).
      * by apply sorted_leaving.
      * apply list_filter_iff. intros p. by rewrite list_elem_of_singleton.
Qed.
Lemma newObservable_idle : idle newObservable.
Proof. split; simpl; [done..| |constructor]. by intros id ?%elem_of_nil. Qed.
End observable.

(** [subscribeOn] cannot be used: its [subscribe] ends the process. *)
Lemma subscribeOn_fails {O V : Type} (o : O) (s : Observable (O:=O) (V:=V)) : idle s ->
  (subscribeOn_subscribe o s).1 = Err (CheckFailed "id_ > 0") \/ nextSubscriptionId_ s = 0.
Proof.
  intros [Hcb _ _ _]. destruct s as [nx os ss cb no ns old tl]. simpl in *. subst cb.
  destruct nx as [|n]; [by right|by left].
Qed.

(** ** At concrete inputs

    The first subscriber destroys the subscription of the second and makes
    another one: the second is told all the same, the new one is not. *)
Definition exampleReact (before : list (nat * nat)) (o : nat) : list (Action (O:=nat) (V:=nat)) :=
  if o =? 1 then [Unsubscribe 2; Subscribe 3; Observe 4] else [].
Definition exampleObservable : Observable (O:=nat) (V:=nat) :=
  mkObservable 3 [0] [(1, 1); (2, 2)] false [] [] [] [].

Lemma round_tells_snapshot_witness :
  idle exampleObservable /\
  exists s', forEachObserver exampleReact 9 exampleObservable = (Ok tt, s') /\
    told s' = [(0, 9); (1, 9); (2, 9)] /\ observers_ s' = [0; 4] /\ subscribers_ s' = [(1, 1); (3, 3)].
Proof.
  assert (Hidle : idle exampleObservable).
  { split; [done|done| |repeat constructor].
    intros id Hin. vm_compute in Hin. repeat (apply elem_of_cons in Hin as [->|Hin]; [simpl; lia|]). by apply elem_of_nil in Hin. }
  split; [exact Hidle|].
  destruct (round_tells_snapshot exampleReact exampleObservable 9 Hidle) as (s' & E & _ & Ht & Ho & Hs & _).
  - repeat constructor.
  - exists s'. split; [exact E|]. split; [exact Ht|]. split; [exact Ho|]. rewrite Hs. vm_compute. reflexivity.
Defined.
