(* ===== verification/StaticPipeline.v ===== *)
(** * Static pipelines (src/wangle/channel/StaticPipeline.h)

    The handlers and the contexts of a static pipeline are members of one
    object, a base class per handler.  The constructors run from the last
    handler to the first and put the contexts in front of one another; a second
    pass, from the first handler to the last, gives them their handlers.  What
    results is the pipeline [addBack] builds from the same handlers. *)
From Stdlib Require Import ZArith Lia.
From stdpp Require Import base numbers list gmap strings.
From S2P Require Import Prelude Pipeline.
Open Scope cpp_scope.

Set Default Goal Selector "!".

(** What a handler may be constructed from: a value, moved into [handler_] of
    [BaseWithOptional], whose address is given; a pointer; a shared pointer. *)
Inductive HandlerArg : Type :=
| ByValue (address : nat)
| ByPointer (p : option nat)
| ByShared (p : option nat).

(** [StaticPipeline::setHandler], the three overloads: [handlerPtr_] *)
Definition staticSetHandler (arg : HandlerArg) : option nat :=
  match arg with
  | ByValue a => Some a
  | ByPointer p | ByShared p => p
  end.

(** [Pipeline<R, W>::Pipeline(bool isStatic)] *)
Definition markStatic (p : PipelineObj) : PipelineObj :=
  mkPipeline (ctxs_ p) (inCtxs_ p) (outCtxs_ p) (owner_ p) (front_ p) (back_ p) true
    (writeFlags_ p) (readBufferSettings_ p).

(** The constructors.  The members [ctx_] lie at consecutive addresses from
    [base]; each has no handler yet, which [nullHandler] stands for.  The result is
    [isFirst_] of each level, the first handler's first. *)
Definition nullHandler : nat := 0.
Fixpoint constructLevels (isFirst : bool) (base : nat) (handlers : list (HandlerClass * HandlerArg)) :
    M State (list bool) :=
  match handlers with
  | [] => do! modify (setSelf markStatic) in ret []
  | (k, _) :: rest =>
      let! levels := constructLevels false (S base) rest in
      do! modify (setHeap (setContext base (mkContext k nullHandler None None false))) in
      do! addContextFront base in
      ret (isFirst :: levels)
  end.

(** [ContextImplBase::initialize] *)
Definition initializeContext (c a : nat) : M State unit :=
  updContext c (fun x => mkContext (c_class x) a (nextIn_ x) (nextOut_ x) (attached_ x)).

(** [StaticPipeline::initialize] of each level, and of [StaticPipeline<R, W>]. *)
Fixpoint initializeLevels (R W base : nat) (handlers : list (HandlerClass * HandlerArg)) : M State unit :=
  match handlers with
  | [] => finalize R W
  | (_, arg) :: rest =>
      match staticSetHandler arg with
      | None => raise (CheckFailed "handlerPtr_")
      | Some a =>
          do! initializeContext base a in
          initializeLevels R W (S base) rest
      end
  end.

(** The destructors: [~StaticPipeline] of each level, then [~Pipeline]. *)
Definition destroyLevels (levels : list bool) : M State unit :=
  do! for_each levels (fun isFirst => when isFirst detachHandlers) in
  destroy.

(** [c], and the destruction of the object it runs on when it throws.  A failed
    CHECK ends the process, nothing is unwound then. *)
Definition unwinding {A} (c : M State A) (destructor : M State unit) : M State A := fun s =>
  match c s with
  | (Err f, s') => if is_exception f then (Err f, (destructor s').2) else (Err f, s')
  | r => r
  end.

(** [new StaticPipeline(...)]: the memory of the object, then its constructors. *)
Definition allocate (n : nat) : M State nat :=
  let! s := get in
  do! modify (setHeap (fun h => mkHeap (contexts h) (handlers h) (nextCtx h + n) (hooks h))) in
  ret (nextCtx (heap s)).

(** [StaticPipeline<R, W, Handlers...>::create]: a static pipeline without a
    handler has no [create]. *)
Definition createStatic (R W : nat) (first : HandlerClass * HandlerArg) (rest : list (HandlerClass * HandlerArg)) :
    M State (list bool) :=
  let l := first :: rest in
  let! base := allocate (length l) in
  let! levels := constructLevels true base l in
  do! unwinding (initializeLevels R W base l) (destroyLevels levels) in
  ret levels.
