(* ===== verification/StaticPipelineProps.v ===== *)
(** * Static pipelines: what [create] builds

    [static_is_dynamic]: from the same handlers, [create] and a sequence of
    [addBack] with [finalize] end in the same way, in the same contexts, vectors
    and calls of the handlers, and the two destructors detach alike. *)
From Stdlib Require Import ZArith Lia.
From stdpp Require Import base numbers list gmap strings.
From S2P Require Import Prelude Pipeline PipelineFacts PipelineLinks StaticPipeline.
Open Scope cpp_scope.

Set Default Goal Selector "!".

(** ** Commands that do not look at [isStatic_] *)

Definition setStatic (b : bool) (s : State) : State :=
  setSelf (fun p =>
    mkPipeline (ctxs_ p) (inCtxs_ p) (outCtxs_ p) (owner_ p) (front_ p) (back_ p) b
      (writeFlags_ p) (readBufferSettings_ p)) s.

(** The command does the same on a static pipeline as on another one. *)
Definition blind {A} (c : M State A) : Prop :=
  forall b s, c (setStatic b s) = ((c s).1, setStatic b (c s).2).

Lemma blind_ret {A} (a : A) : blind (ret a).
Proof. by intros b s. Qed.

Lemma blind_raise {A} f : blind (raise (A:=A) f).
Proof. by intros b s. Qed.

Lemma blind_bind {A B} (c : M State A) (k : A -> M State B) :
  blind c -> (forall a, blind (k a)) -> blind (bind c k).
Proof.
  intros Hc Hk b s. unfold bind. rewrite Hc. destruct (c s) as [[a|f] s']; simpl; [by apply Hk|done].
Qed.

(** Reading the state is blind where the continuation does not read [isStatic_]. *)
Lemma blind_get {A} (k : State -> M State A) :
  (forall s, blind (k s)) -> (forall b s s', k (setStatic b s) s' = k s s') -> blind (bind get k).
Proof. intros Hk He b s. rewrite !bind_get. rewrite He. apply Hk. Qed.

Lemma blind_heap g : blind (modify (setHeap g)).
Proof. by intros b s. Qed.

Lemma blind_self (g : PipelineObj -> PipelineObj) :
  (forall b s, setSelf g (setStatic b s) = setStatic b (setSelf g s)) -> blind (modify (setSelf g)).
Proof. intros H b s. unfold modify. by rewrite H. Qed.

Lemma blind_when b (c : M State unit) : blind c -> blind (when b c).
Proof. destruct b; [done|intros _; apply blind_ret]. Qed.

Lemma blind_for_each {A} (l : list A) body : (forall a, blind (body a)) -> blind (for_each l body).
Proof.
  intros Hb. induction l as [|a l IH]; simpl; [apply blind_ret|]. apply blind_bind; [done|]. by intros _.
Qed.

Lemma blind_deref c : blind (deref c).
Proof.
  apply blind_get; [|done]. intros s b s'. unfold of_option. by destruct (contexts (heap s) !! c).
Qed.

Create HintDb blind.
#[export] Hint Resolve blind_ret blind_raise blind_bind blind_heap blind_deref blind_when blind_for_each : blind.
#[export] Hint Extern 1 (blind (modify (setSelf _))) => (by apply blind_self) : blind.
#[export] Hint Extern 1 (blind (match ?x with _ => _ end)) => (destruct x) : blind.

Lemma blind_updContext c g : blind (updContext c g).
Proof. unfold updContext. auto with blind. Qed.
#[export] Hint Resolve blind_updContext : blind.

Lemma blind_attachPipeline c : blind (attachPipeline c).
Proof. unfold attachPipeline, attachContext. auto 8 with blind. Qed.

Lemma blind_detachPipeline c : blind (detachPipeline c).
Proof. unfold detachPipeline, detachContext. auto 8 with blind. Qed.

Lemma blind_linkAll setNext l : (forall c n, blind (setNext c n)) -> blind (linkAll setNext l).
Proof. intros H. induction l as [|c l IH]; simpl; auto with blind. Qed.

Lemma blind_setNextIn c n : blind (setNextIn c n).
Proof. unfold setNextIn. destruct n; auto 8 with blind. Qed.

Lemma blind_setNextOut c n : blind (setNextOut c n).
Proof. unfold setNextOut. destruct n; auto 8 with blind. Qed.
#[export] Hint Resolve blind_attachPipeline blind_detachPipeline blind_linkAll blind_setNextIn blind_setNextOut : blind.

Lemma blind_finalize R W : blind (finalize R W).
Proof.
  unfold finalize. apply blind_bind; [auto with blind|]. intros _.
  apply blind_get; [|done]. intros s. repeat (apply blind_bind; [|intros _]); auto 8 with blind.
Qed.

Lemma blind_detachHandlers : blind detachHandlers.
Proof.
  apply blind_get; [|done]. intros s. apply blind_for_each. intros c.
  apply blind_get; [|done]. intros s'. auto with blind.
Qed.

(** ** Contexts at consecutive addresses *)

Fixpoint place (base : nat) (xs : list ContextImpl) (m : gmap nat ContextImpl) : gmap nat ContextImpl :=
  match xs with
  | [] => m
  | x :: xs => <[base := x]> (place (S base) xs m)
  end.

Lemma place_insert xs c x : forall base m,
  c < base -> place base xs (<[c := x]> m) = <[c := x]> (place base xs m).
Proof.
  induction xs as [|y xs IH]; intros base m Hc; simpl; [done|].
  rewrite IH by lia. apply insert_insert_ne. lia.
Qed.

(** The members of [ctxs_] on one side. *)
Fixpoint sideOf {X} (side : HandlerClass -> bool) (base : nat) (l : list (HandlerClass * X)) : list nat :=
  match l with
  | [] => []
  | (k, _) :: l => (if side k then [base] else []) ++ sideOf side (S base) l
  end.

Definition contextOf (x : HandlerClass * nat) : ContextImpl := mkContext x.1 x.2 None None false.
Definition unsetContext {X} (x : HandlerClass * X) : ContextImpl := mkContext x.1 nullHandler None None false.

Definition placedHeap (n base : nat) (xs : list ContextImpl) (h : Heap) : Heap :=
  mkHeap (place base xs (contexts h)) (handlers h) n (hooks h).

(** ** The two constructions *)

Lemma run_addAll (l : list (HandlerClass * nat)) : forall s,
  let base := nextCtx (heap s) in
  for_each l (fun '(k, a) => addBack k a) s =
  (Ok tt, mkState (placedHeap (base + length l) base (contextOf <$> l) (heap s))
            (setVectors (ctxs_ (self s) ++ seq base (length l)) (inCtxs_ (self s) ++ sideOf hasIn base l)
               (outCtxs_ (self s) ++ sideOf hasOut base l) (self s))).
Proof.
  induction l as [|[k a] l IH]; intros [h p] base; subst base; cbn [for_each].
  - unfold ret, placedHeap. simpl. rewrite Nat.add_0_r, !app_nil_r. by destruct h, p.
  - erewrite bind_Ok by apply run_addBack. rewrite IH. unfold placedHeap. simpl.
    rewrite place_insert by lia. replace (nextCtx h + S (length l)) with (S (nextCtx h + length l)) by lia.
    do 2 f_equal. unfold setVectors. simpl. destruct (hasIn k), (hasOut k); simpl; by rewrite <- ?app_assoc.
Qed.

Definition levelsOf (isFirst : bool) (n : nat) : list bool :=
  match n with O => [] | S n => isFirst :: repeat false n end.

Lemma levelsOf_false n : levelsOf false n = repeat false n.
Proof. by destruct n. Qed.

Lemma run_constructLevels (l : list (HandlerClass * HandlerArg)) : forall isFirst base s,
  constructLevels isFirst base l s =
  (Ok (levelsOf isFirst (length l)),
   setStatic true (mkState (placedHeap (nextCtx (heap s)) base (unsetContext <$> l) (heap s))
     (setVectors (seq base (length l) ++ ctxs_ (self s)) (sideOf hasIn base l ++ inCtxs_ (self s))
        (sideOf hasOut base l ++ outCtxs_ (self s)) (self s)))).
Proof.
  induction l as [|[k arg] l IH]; intros isFirst base [h p]; cbn [constructLevels].
  - rewrite bind_modify. unfold ret, placedHeap, setStatic. simpl. by destruct h, p.
  - erewrite bind_Ok by apply IH. rewrite bind_modify. unfold addContextFront, addHelper.
    erewrite bind_Ok; [|unfold bind; erewrite run_deref; [done|apply lookup_insert_eq]].
    unfold ret. rewrite levelsOf_false. unfold setStatic, placedHeap, setSelf, setHeap, modify. simpl.
    do 2 f_equal. by destruct (hasIn k), (hasOut k).
Qed.

(** The arguments, as pairs of a class and the address of the handler. *)
Definition given (x : HandlerClass * HandlerArg) (y : HandlerClass * nat) : Prop :=
  x.1 = y.1 /\ staticSetHandler x.2 = Some y.2.

Lemma run_initializeLevels R W (l : list (HandlerClass * HandlerArg)) : forall l' base m s,
  Forall2 given l l' -> contexts (heap s) = place base (unsetContext <$> l) m ->
  initializeLevels R W base l s =
  finalize R W (mkState (mkHeap (place base (contextOf <$> l') m) (handlers (heap s)) (nextCtx (heap s)) (hooks (heap s)))
    (self s)).
Proof.
  induction l as [|[k arg] l IH]; intros l' base m s Hl Hm; inversion Hl as [|? [k' a] ? ? [? Ha] Hl']; simplify_eq/=.
  - by destruct s as [[] ?].
  - rewrite Ha. unfold initializeContext. erewrite bind_Ok.
    2: { eapply run_updContext. rewrite Hm. apply lookup_insert_eq. }
    rewrite (IH _ (S base) (<[base := contextOf (k', a)]> m) _ Hl'); simpl.
    + by rewrite place_insert by lia.
    + by rewrite Hm, insert_insert_eq, place_insert by lia.
Qed.

(** ** The pipeline a program would build by hand *)

Definition dynamicPipeline (R W : nat) (l : list (HandlerClass * nat)) : M State unit :=
  do! for_each l (fun '(k, a) => addBack k a) in
  unwinding (finalize R W) destroy.

Lemma destroyLevels_once n s :
  destroyLevels (levelsOf true (S n)) (setStatic true s) =
  ((detachHandlers s).1, setStatic true (detachHandlers s).2).
Proof.
  assert (forall m t, for_each (repeat false m) (fun isFirst => when isFirst detachHandlers) t = (Ok tt, t)) as Hskip.
  { induction m as [|m IH]; intros t; [done|]. cbn [repeat for_each when]. rewrite bind_ret. apply IH. }
  unfold destroyLevels. cbn [levelsOf for_each when]. rewrite bind_assoc. unfold bind at 1.
  rewrite blind_detachHandlers. destruct (detachHandlers s) as [[[]|f] s']; simpl; [|done].
  erewrite bind_Ok by apply Hskip. unfold destroy. by rewrite bind_get.
Qed.

(** Nothing but the constructor assigns [isStatic_]. *)
Lemma blind_isStatic {A} (c : M State A) s : blind c -> isStatic_ (self (c s).2) = isStatic_ (self s).
Proof.
  intros Hc. assert (setStatic (isStatic_ (self s)) s = s) as E by (by destruct s as [? []]).
  rewrite <- E at 1. by rewrite Hc.
Qed.

Lemma destroy_dynamic s : isStatic_ (self s) = false -> destroy s = detachHandlers s.
Proof. intros E. unfold destroy. by rewrite bind_get, E. Qed.

(** What both constructions finalize, [isStatic_] apart. *)
Definition built (h : Heap) (l : list (HandlerClass * nat)) : State :=
  mkState (placedHeap (nextCtx h + length l) (nextCtx h) (contextOf <$> l) h)
    (setVectors (seq (nextCtx h) (length l)) (sideOf hasIn (nextCtx h) l) (sideOf hasOut (nextCtx h) l)
       (self (create h))).

Lemma run_dynamic R W l h : dynamicPipeline R W l (create h) = unwinding (finalize R W) destroy (built h l).
Proof. unfold dynamicPipeline. by erewrite bind_Ok by apply run_addAll. Qed.

Lemma sideOf_given l l' side : Forall2 given l l' -> forall base, sideOf side base l = sideOf side base l'.
Proof.
  induction 1 as [|[k arg] [k' a] l l' [Hk _] _ IH]; intros base; simpl; [done|]. simpl in Hk. subst. by rewrite IH.
Qed.

Lemma run_createStatic R W first rest l h :
  Forall2 given (first :: rest) l ->
  let levels := levelsOf true (length l) in
  createStatic R W first rest (create h) =
  (do! unwinding (finalize R W) (destroyLevels levels) in ret levels) (setStatic true (built h l)).
Proof.
  intros Hl levels. pose proof (Forall2_length _ _ _ Hl) as Hn.
  unfold createStatic, allocate. rewrite bind_assoc, bind_get, bind_assoc, bind_modify, bind_ret.
  erewrite bind_Ok by apply run_constructLevels. unfold levels. rewrite Hn. unfold bind, unwinding.
  erewrite run_initializeLevels by done.
  rewrite !(sideOf_given _ _ _ Hl), !app_nil_r. done.
Qed.

(** C5.  [StaticPipeline::create] is [create], [addBack] of its handlers from
    the first to the last, and [finalize], whatever form the handlers are given
    in (moved, by pointer, by shared pointer): it returns or throws as they do,
    and the contexts, the calls of the handlers, the vectors and the two ends
    are the same, [isStatic_] apart, also after the unwinding of a type
    mismatch.  The destructor of the static pipeline, a level per handler, then
    detaches the handlers exactly as the one of the other pipeline does. *)
Theorem static_is_dynamic (R W : nat) (first : HandlerClass * HandlerArg)
    (rest : list (HandlerClass * HandlerArg)) (l : list (HandlerClass * nat)) (h : Heap) :
  Forall2 given (first :: rest) l ->
  let dynamic := dynamicPipeline R W l (create h) in
  let static := createStatic R W first rest (create h) in
  static.2 = setStatic true dynamic.2 /\
  match static.1, dynamic.1 with
  | Ok levels, Ok _ =>
      destroyLevels levels static.2 = ((destroy dynamic.2).1, setStatic true (destroy dynamic.2).2)
  | Err f, Err f' => f = f'
  | _, _ => False
  end.
Proof.
  intros Hl dynamic static. unfold static, dynamic.
  rewrite run_dynamic, (run_createStatic _ _ _ _ _ _ Hl).
  destruct l as [|x l]; [inversion Hl|]. cbn [length]. unfold bind, unwinding, ret. rewrite !blind_finalize.
  pose proof (blind_isStatic _ (built h (x :: l)) (blind_finalize R W)) as Hb. change (isStatic_ _) with false in Hb at 2.
  destruct (finalize R W (built h (x :: l))) as [[[]|f] s] eqn:E; cbn [fst snd] in *.
  - split; [done|]. rewrite destroyLevels_once. by rewrite destroy_dynamic.
  - destruct (is_exception f); [|done]. split; [|done]. rewrite destroyLevels_once. by rewrite destroy_dynamic.
Qed.

(** A null handler, of whatever form, is caught by the CHECK before the
    pipeline is finalized: no handler has been attached then. *)
Lemma initializeLevels_null R W (l : list (HandlerClass * HandlerArg)) : forall base m s,
  Exists (fun x => staticSetHandler x.2 = None) l -> contexts (heap s) = place base (unsetContext <$> l) m ->
  (initializeLevels R W base l s).1 = Err (CheckFailed "handlerPtr_") /\
  hooks (heap (initializeLevels R W base l s).2) = hooks (heap s).
Proof.
  induction l as [|[k arg] l IH]; intros base m s Hn Hm; [by inversion Hn|]. cbn [initializeLevels].
  destruct (staticSetHandler arg) as [a|] eqn:Ea; [|done].
  assert (Exists (fun x => staticSetHandler x.2 = None) l) as H by (inversion Hn; simplify_eq/=; congruence).
  cbn in Hm.
  unfold initializeContext. erewrite bind_Ok.
  2: { eapply run_updContext. rewrite Hm. apply lookup_insert_eq. }
  refine (IH (S base) (<[base := contextOf (k, a)]> m) _ H _). simpl.
  by rewrite Hm, insert_insert_eq, place_insert by lia.
Qed.

Lemma createStatic_null (R W : nat) (first : HandlerClass * HandlerArg) (rest : list (HandlerClass * HandlerArg)) (h : Heap) :
  Exists (fun x => staticSetHandler x.2 = None) (first :: rest) ->
  (createStatic R W first rest (create h)).1 = Err (CheckFailed "handlerPtr_") /\
  hooks (heap (createStatic R W first rest (create h)).2) = hooks h.
Proof.
  intros Hn. unfold createStatic, allocate. rewrite bind_assoc, bind_get, bind_assoc, bind_modify, bind_ret.
  erewrite bind_Ok by apply run_constructLevels. unfold bind, unwinding.
  match goal with
  | |- context [initializeLevels R W ?b ?l ?s] =>
      destruct (initializeLevels_null R W l b (contexts h) s Hn eq_refl) as [He Hh];
      destruct (initializeLevels R W b l s) as [[[]|f] s']
  end; simplify_eq/=. done.
Qed.

(** A pipeline of three handlers, the last of them given twice, and one whose
    second handler does not accept what the first produces: the unwinding
    then tells the handlers that they are detached, though none was attached. *)
Definition toString_ : HandlerClass := mkClass 1 BOTH 10 11 11 10.
Definition upper_ : HandlerClass := mkClass 2 BOTH 11 11 11 11.

Example static_example :
  (fun s => (ctxs_ (self s), front_ (self s), back_ (self s), hooks (heap s)))
    (createStatic 10 10 (toString_, ByValue 7) [(upper_, ByPointer (Some 8)); (upper_, ByShared (Some 8))]
       (create emptyHeap)).2 =
  ([0; 1; 2], Some 0, None, [OnAttach 8 2; OnAttach 8 1; OnAttach 7 0]).
Proof. vm_compute. reflexivity. Qed.

Example static_mismatch_example :
  (fun r => (match r.1 with Ok _ => None | Err f => Some f end, hooks (heap r.2)))
    (createStatic 11 11 (upper_, ByValue 8) [(toString_, ByValue 7)] (create emptyHeap)) =
  (Some (InvalidArgument "inbound type mismatch"), [OnDetach 8 0; OnDetach 7 1]).
Proof. vm_compute. reflexivity. Qed.

Lemma static_is_dynamic_witness :
  let args := [(upper_, ByPointer (Some 8)); (upper_, ByShared (Some 8))] in
  let static := createStatic 10 11 (toString_, ByValue 7) args (create emptyHeap) in
  let dynamic := dynamicPipeline 10 11 [(toString_, 7); (upper_, 8); (upper_, 8)] (create emptyHeap) in
  back_ (self static.2) = Some 2 /\ static.2 = setStatic true dynamic.2.
Proof.
  split; [vm_compute; reflexivity|].
  apply (static_is_dynamic 10 11 (toString_, ByValue 7) [(upper_, ByPointer (Some 8)); (upper_, ByShared (Some 8))]
           [(toString_, 7); (upper_, 8); (upper_, 8)] emptyHeap).
  repeat constructor.
Defined.
