(* ===== verification/OutputBuffering.v ===== *)
(** * Output buffering (src/wangle/channel/OutputBufferingHandler.h)

    The writes of one turn of the event loop become one write to the rest of
    the pipeline; their futures share its result.  Bytes reach the transport in
    the order of the writes, and each future is settled once. *)
From Stdlib Require Import Lia.
From stdpp Require Import base numbers list gmap strings.
From S2P Require Import Prelude.
Open Scope cpp_scope.

Set Default Goal Selector "!".

Section buffering.
(** Bytes. *)
Context {B : Type}.

(** How a future of [write] ends: with the result of the write below, with the
    exception of [close], or because the promise was dropped. *)
Inductive Result : Type := Written (ok : bool) | Closed | Broken.

(** Futures are numbered.  [below] are the calls of [fireWrite], each with the
    futures that wait for it until it completes. *)
Record OutputBufferingHandler : Type := mkOutput {
  sends_ : option (list B);
  sharedPromise_ : list nat;
  isLoopCallbackScheduled : bool;
  queueSends_ : bool;
  nextFuture : nat;
  below : list (list B * list nat);
  settled : list (nat * Result);
  closes : nat
}.
Definition newOutput (queueSends : bool) : OutputBufferingHandler := mkOutput None [] false queueSends 0 [] [] 0.

Definition fireWrite (buf : list B) (futures : list nat) (s : OutputBufferingHandler) : OutputBufferingHandler :=
  mkOutput (sends_ s) (sharedPromise_ s) (isLoopCallbackScheduled s) (queueSends_ s) (nextFuture s)
    (below s ++ [(buf, futures)]) (settled s) (closes s).
Definition settle (r : Result) (futures : list nat) (s : OutputBufferingHandler) : OutputBufferingHandler :=
  mkOutput (sends_ s) (sharedPromise_ s) (isLoopCallbackScheduled s) (queueSends_ s) (nextFuture s) (below s)
    (settled s ++ ((fun f => (f, r)) <$> futures)) (closes s).
Definition setSends x p b (s : OutputBufferingHandler) : OutputBufferingHandler :=
  mkOutput x p b (queueSends_ s) (nextFuture s) (below s) (settled s) (closes s).

Definition newFuture : M OutputBufferingHandler nat := fun s =>
  (Ok (nextFuture s), mkOutput (sends_ s) (sharedPromise_ s) (isLoopCallbackScheduled s) (queueSends_ s)
     (S (nextFuture s)) (below s) (settled s) (closes s)).

(** [None] is a null buffer. *)
Definition write (buf : option (list B)) : M OutputBufferingHandler nat :=
  match buf with
  | None => raise (CheckFailed "buf")
  | Some buf =>
      let! s := get in
      let! f := newFuture in
      do! (if negb (queueSends_ s) then modify (fireWrite buf [f])
           else match sends_ s with
           | None =>
               if isLoopCallbackScheduled s then raise (CheckFailed "!isLoopCallbackScheduled()")
               else modify (setSends (Some buf) (sharedPromise_ s ++ [f]) true)
           | Some queued =>
               if isLoopCallbackScheduled s then modify (setSends (Some (queued ++ buf)) (sharedPromise_ s ++ [f]) true)
               else raise (CheckFailed "isLoopCallbackScheduled()")
           end) in
      ret f
  end.

(** The loop unschedules a callback before it runs it. *)
Definition runLoopCallback : M OutputBufferingHandler unit :=
  let! s := get in
  match sends_ s with
  | None => raise (Undefined "fireWrite(nullptr)")
  | Some buf =>
      do! modify (setSends None [] false) in
      modify (fireWrite buf (sharedPromise_ s))
  end.

Definition cleanUp : M OutputBufferingHandler unit :=
  let! s := get in
  do! modify (setSends None [] false) in
  modify (settle Broken (sharedPromise_ s)).

Definition close : M OutputBufferingHandler unit :=
  let! s := get in
  do! modify (settle Closed (sharedPromise_ s)) in
  do! modify (setSends None [] false) in
  modify (fun s => mkOutput (sends_ s) (sharedPromise_ s) (isLoopCallbackScheduled s) (queueSends_ s) (nextFuture s)
    (below s) (settled s) (S (closes s))).

Inductive OutputEvent : Type :=
| Write (buf : list B)
| Loop
| Completed (k : nat) (ok : bool)    (* the k-th write below *)
| Close
| CleanUp.

Definition outputEvent (ev : OutputEvent) : M OutputBufferingHandler unit :=
  let! s := get in
  match ev with
  | Write buf => do! write (Some buf) in ret tt
  | Loop => when (isLoopCallbackScheduled s) runLoopCallback
  | Completed k ok =>
      match below s !! k with
      | None => ret tt
      | Some (buf, futures) =>
          do! modify (fun s => mkOutput (sends_ s) (sharedPromise_ s) (isLoopCallbackScheduled s) (queueSends_ s)
                (nextFuture s) (<[k := (buf, [])]> (below s)) (settled s) (closes s)) in
          modify (settle (Written ok) futures)
      end
  | Close => close
  | CleanUp => cleanUp
  end.

(** ** The invariant *)

Definition pendingBytes (s : OutputBufferingHandler) : list B := default [] (sends_ s).
Definition sentBytes (s : OutputBufferingHandler) : list B := concat (below s).*1.

Record output_ok (s : OutputBufferingHandler) : Prop := {
  oo_scheduled : isLoopCallbackScheduled s = true <-> sends_ s <> None;
  oo_promise : sends_ s = None -> sharedPromise_ s = [];
  oo_futures : sharedPromise_ s ++ concat (below s).*2 ++ (settled s).*1 ≡ₚ seq 0 (nextFuture s)
}.

(** The bytes written since the last [Close] or [CleanUp] come after those
    that had been sent by then. *)
Definition expected (ev : OutputEvent) (sent pending : list B) : list B * list B :=
  match ev with
  | Write buf => (sent, pending ++ buf)
  | Loop => (sent ++ pending, [])
  | Completed _ _ => (sent, pending)
  | Close | CleanUp => (sent, [])
  end.

Lemma perm_later (p z : list nat) f : (p ++ [f]) ++ z ≡ₚ (p ++ z) ++ [f].
Proof. rewrite <- !app_assoc. apply Permutation_app_head, Permutation_app_comm. Qed.

Lemma write_ok buf s : output_ok s -> exists s', outputEvent (Write buf) s = (Ok tt, s') /\ output_ok s' /\ queueSends_ s' = queueSends_ s /\
  (queueSends_ s = true -> (sentBytes s', pendingBytes s') = expected (Write buf) (sentBytes s) (pendingBytes s)).
Proof.
  intros [Hsch Hp Hf]. unfold outputEvent, write. rewrite bind_get, bind_assoc, bind_get. unfold newFuture. rewrite bind_assoc. unfold bind at 1.
  assert (Hseq : seq 0 (S (nextFuture s)) ≡ₚ seq 0 (nextFuture s) ++ [nextFuture s]) by (by rewrite seq_S).
  destruct (queueSends_ s) eqn:Eq; simpl.
  - destruct (sends_ s) as [queued|] eqn:Es.
    + assert (Eb : isLoopCallbackScheduled s = true) by (by apply Hsch). rewrite Eb. eexists. split; [done|].
      split; [|split; [done|intros _; unfold sentBytes, pendingBytes; simpl; by rewrite Es]].
      split; simpl; [done..|]. rewrite Hseq, <- Hf. apply perm_later.
    + assert (Eb : isLoopCallbackScheduled s = false) by (destruct (isLoopCallbackScheduled s); [by destruct (proj1 Hsch)|done]).
      rewrite Eb. eexists. split; [done|]. split; [|split; [done|intros _; simpl; unfold sentBytes, pendingBytes; simpl; by rewrite Es]].
      split; simpl; [done..|]. rewrite Hseq, <- Hf. apply perm_later.
  - eexists. split; [done|]. split; [|by split]. split; simpl; [done..|]. rewrite fmap_app, concat_app, Hseq, <- Hf. simpl. rewrite <- !app_assoc. do 2 apply Permutation_app_head. apply Permutation_app_comm.
Qed.

Lemma loop_ok s : output_ok s -> exists s', outputEvent Loop s = (Ok tt, s') /\ output_ok s' /\ queueSends_ s' = queueSends_ s /\
  (sentBytes s', pendingBytes s') = expected Loop (sentBytes s) (pendingBytes s).
Proof.
  intros [Hsch Hp Hf]. unfold outputEvent. rewrite bind_get. destruct (isLoopCallbackScheduled s) eqn:Eb; cbn [when].
  - destruct (sends_ s) as [buf|] eqn:Es; [|by destruct (proj1 Hsch)]. unfold runLoopCallback. rewrite bind_get, Es, bind_modify.
    eexists. split; [done|]. split; [|split; [done|]].
    + split; simpl; [done..|]. rewrite fmap_app, concat_app, <- Hf. simpl. rewrite app_nil_r, !app_assoc.
      apply Permutation_app_tail, Permutation_app_comm.
    + unfold sentBytes, pendingBytes. simpl. by rewrite Es, fmap_app, concat_app; simpl; rewrite app_nil_r.
  - exists s. split; [done|]. split; [by split; rewrite ?Eb|]. split; [done|]. unfold pendingBytes, expected. simpl.
    destruct (sends_ s) as [buf|] eqn:Es; [by assert (false = true) by (by apply Hsch)|]. by rewrite app_nil_r.
Qed.

Lemma concat_insert (k : nat) (l : list (list nat)) x : l !! k = Some x -> concat l ≡ₚ x ++ concat (<[k := []]> l).
Proof.
  revert k. induction l as [|y l IH]; intros [|k]; simpl; try done; [by intros [= ->]|].
  intros E. rewrite (IH k E). rewrite !app_assoc. apply Permutation_app_tail, Permutation_app_comm.
Qed.

Lemma completed_ok k ok s : output_ok s -> exists s', outputEvent (Completed k ok) s = (Ok tt, s') /\ output_ok s' /\
  queueSends_ s' = queueSends_ s /\ (sentBytes s', pendingBytes s') = (sentBytes s, pendingBytes s).
Proof.
  intros [Hsch Hp Hf]. unfold outputEvent. rewrite bind_get. destruct (below s !! k) as [[buf fs]|] eqn:E; [|by exists s].
  rewrite bind_modify. eexists. split; [done|]. split; [|split; [done|]].
  - split; simpl; [done..|]. rewrite list_fmap_insert. simpl.
    assert (Ek : (below s).*2 !! k = Some fs) by (by rewrite list_lookup_fmap, E).
    rewrite <- Hf, (concat_insert k _ fs Ek), fmap_app, <- list_fmap_compose. simpl. rewrite list_fmap_id.
    apply Permutation_app_head. rewrite <- (app_assoc fs), (Permutation_app_comm fs), <- app_assoc. done.
  - unfold sentBytes. simpl. rewrite list_fmap_insert. simpl. rewrite list_insert_id; [done|]. by rewrite list_lookup_fmap, E.
Qed.

Lemma drop_ok ev s : output_ok s -> (ev = Close \/ ev = CleanUp) -> exists s', outputEvent ev s = (Ok tt, s') /\ output_ok s' /\
  queueSends_ s' = queueSends_ s /\ (sentBytes s', pendingBytes s') = expected ev (sentBytes s) (pendingBytes s).
Proof.
  intros [Hsch Hp Hf] Hev. assert (Hperm : forall r, concat (below s).*2 ++ (settled s ++ ((fun f => (f, r)) <$> sharedPromise_ s)).*1 ≡ₚ seq 0 (nextFuture s)).
  { intros r. rewrite <- Hf, fmap_app, <- list_fmap_compose. simpl. rewrite list_fmap_id, app_assoc. apply Permutation_app_comm. }
  destruct Hev as [->| ->]; (eexists; split; [done|]; split; [|by split]; split; simpl; [done..|apply Hperm]).
Qed.

Definition outputRun (q : bool) (evs : list OutputEvent) : res unit * OutputBufferingHandler := for_each evs outputEvent (newOutput q).

Lemma outputEvent_ok ev s : output_ok s -> exists s', outputEvent ev s = (Ok tt, s') /\ output_ok s' /\ queueSends_ s' = queueSends_ s /\
  (queueSends_ s = true -> (sentBytes s', pendingBytes s') = expected ev (sentBytes s) (pendingBytes s)).
Proof.
  intros Hs. destruct ev as [buf| |k ok| |].
  - by apply write_ok.
  - destruct (loop_ok s Hs) as (s' & ? & ? & ? & ?). by exists s'.
  - destruct (completed_ok k ok s Hs) as (s' & ? & ? & ? & ?). by exists s'.
  - destruct (drop_ok Close s Hs) as (s' & ? & ? & ? & ?); [by left|]. by exists s'.
  - destruct (drop_ok CleanUp s Hs) as (s' & ? & ? & ? & ?); [by right|]. by exists s'.
Qed.

(** For every sequence of writes, turns of the loop, completions and closes
    the handler runs without a failing check: what has reached the rest of the
    pipeline is the written bytes in order, those of a turn in one write; what
    is pending is what came after, of which a close drops everything; and
    every future that was returned is in exactly one place, pending, in one
    write below, or settled once, so that with nothing pending and all writes
    below complete every future is ready. *)
Lemma writes_coalesced (evs : list OutputEvent) :
  exists s, outputRun true evs = (Ok tt, s) /\
    (sentBytes s, pendingBytes s) = foldl (fun p ev => expected ev p.1 p.2) ([], []) evs /\
    sharedPromise_ s ++ concat (below s).*2 ++ (settled s).*1 ≡ₚ seq 0 (nextFuture s) /\
    (sends_ s = None -> concat (below s).*2 = [] -> (settled s).*1 ≡ₚ seq 0 (nextFuture s)).
Proof.
  assert (H : forall evs s, output_ok s -> queueSends_ s = true -> exists s', for_each evs outputEvent s = (Ok tt, s') /\ output_ok s' /\
    (sentBytes s', pendingBytes s') = foldl (fun p ev => expected ev p.1 p.2) (sentBytes s, pendingBytes s) evs).
  { clear evs. induction evs as [|ev evs IH]; intros s Hs Hq; cbn [for_each]; [by exists s|].
    destruct (outputEvent_ok ev s Hs) as (s1 & E1 & H1 & Q1 & X1). rewrite (bind_Ok _ _ _ _ _ E1).
    destruct (IH s1 H1) as (s2 & E2 & H2 & X2); [by rewrite Q1|]. exists s2. split_and!; [done..|]. rewrite X2, X1 by done. done. }
  destruct (H evs (newOutput true)) as (s & E & [Hsch Hp Hf] & X); [by split|done|].
  exists s. split_and!; [done..|]. intros Hn Hb. rewrite Hb, (Hp Hn) in Hf. exact Hf.
Qed.
End buffering.
