(* ===== verification/Credentials.v ===== *)
(** * Credential files (src/wangle/ssl/TLSCredProcessor)

    [TLSCredProcessor] watches the file of the ticket seeds and the files of
    the certificates with a [FilePoller] of its own, and calls back with the
    seeds it reads ([TLSTicketKeySeeds] of Tickets.v) or with the news that
    certificates changed.

    JSON is folly's: parsing and the queries on its values are parameters. *)
From Stdlib Require Import ZArith Lia Strings.Byte.
From stdpp Require Import base numbers list gmap strings.
From S2P Require Import Prelude Buffers Tickets FilePoller.
Open Scope cpp_scope.

Set Default Goal Selector "!".

Section credentials.
(** [folly::dynamic]; [None] where folly throws, or where there is none. *)
Context {Json : Type} (parseJson : string -> option Json) (isObject : Json -> bool)
  (field : Json -> string -> option Json) (asArray : Json -> option (list Json))
  (asString : Json -> option (list byte)).

Definition insertSeeds (keyConfig : Json) : option (list (list byte)) :=
  match asArray keyConfig with
  | None => Some []
  | Some l => mapM asString l
  end.
Definition seedsOf (conf : Json) (name : string) : option (list (list byte)) :=
  match field conf name with
  | None => Some []
  | Some keyConfig => insertSeeds keyConfig
  end.
Definition processTLSTickets (readFile : string -> option string) (fileName : string) : option TLSTicketKeySeeds :=
  jsonData ← readFile fileName;
  conf ← parseJson jsonData;
  if negb (isObject conf) then None
  else
    old ← seedsOf conf "old";
    current ← seedsOf conf "current";
    new ← seedsOf conf "new";
    Some (mkSeeds old current new).

(** What the poller calls, and whom that calls. *)
Inductive CredCob : Type :=
| TicketsChanged (ticketFile : string)
| CertChanged.
Inductive CredCall : Type :=
| TicketCallback (cb : nat) (seeds : TLSTicketKeySeeds)
| CertCallback (cb : nat).

Record TLSCredProcessor : Type := mkCred {
  poller_ : gmap string (FileData (Cob:=CredCob));
  ticketFile_ : string;
  certFiles_ : gset string;
  ticketCallbacks_ : list nat;
  certCallbacks_ : list nat
}.
Definition newCred : TLSCredProcessor := mkCred ∅ EmptyString ∅ [] [].

Definition addTicketCallback cb (s : TLSCredProcessor) : TLSCredProcessor :=
  mkCred (poller_ s) (ticketFile_ s) (certFiles_ s) (ticketCallbacks_ s ++ [cb]) (certCallbacks_ s).
Definition addCertCallback cb (s : TLSCredProcessor) : TLSCredProcessor :=
  mkCred (poller_ s) (ticketFile_ s) (certFiles_ s) (ticketCallbacks_ s) (certCallbacks_ s ++ [cb]).

Section stat.
Context (stat : string -> FileModificationData).

Definition setTicketPathToWatch (ticketFile : string) (s : TLSCredProcessor) : TLSCredProcessor :=
  let d := if decide (ticketFile_ s = EmptyString) then poller_ s else removeFileToTrack false (ticketFile_ s) (poller_ s) in
  let d := if decide (ticketFile = EmptyString) then d
           else addFileToTrack stat false ticketFile (Some (TicketsChanged ticketFile)) None fileTouchedCond d in
  mkCred d ticketFile (certFiles_ s) (ticketCallbacks_ s) (certCallbacks_ s).

Definition setCertPathsToWatch (certFiles : gset string) (s : TLSCredProcessor) : TLSCredProcessor :=
  let d := foldr (removeFileToTrack false) (poller_ s) (elements (certFiles_ s)) in
  let d := foldr (fun path => addFileToTrack stat false path (Some CertChanged) None fileTouchedCond) d (elements certFiles) in
  mkCred d (ticketFile_ s) certFiles (ticketCallbacks_ s) (certCallbacks_ s).

(** A new poller. *)
Definition setPollInterval (s : TLSCredProcessor) : TLSCredProcessor :=
  let s := mkCred ∅ (ticketFile_ s) (certFiles_ s) (ticketCallbacks_ s) (certCallbacks_ s) in
  setCertPathsToWatch (certFiles_ s) (setTicketPathToWatch (ticketFile_ s) s).
End stat.

(** [ticketFileUpdated], [certFileUpdated]. *)
Definition runCob (readFile : string -> option string) (s : TLSCredProcessor) (c : CredCob) : list CredCall :=
  match c with
  | TicketsChanged ticketFile =>
      match processTLSTickets readFile ticketFile with
      | Some seeds => (fun cb => TicketCallback cb seeds) <$> ticketCallbacks_ s
      | None => []
      end
  | CertChanged => CertCallback <$> certCallbacks_ s
  end.

(** A poll. *)
Definition pollCredentials (stat : string -> FileModificationData) (readFile : string -> option string) (now : Z) (order : list string)
    (s : TLSCredProcessor) : list CredCall * TLSCredProcessor :=
  let '(cobs, d) := checkFiles stat now order (poller_ s) in
  (concat (runCob readFile s <$> cobs), mkCred d (ticketFile_ s) (certFiles_ s) (ticketCallbacks_ s) (certCallbacks_ s)).

Inductive CredEvent : Type :=
| AddTicketCallback (cb : nat)
| AddCertCallback (cb : nat)
| SetTicketPath (stat : string -> FileModificationData) (ticketFile : string)
| SetCertPaths (stat : string -> FileModificationData) (certFiles : gset string)
| SetPollInterval (stat : string -> FileModificationData)
| PollCredentials (stat : string -> FileModificationData) (readFile : string -> option string) (now : Z) (order : list string).
Definition credEvent (ev : CredEvent) (s : TLSCredProcessor) : TLSCredProcessor :=
  match ev with
  | AddTicketCallback cb => addTicketCallback cb s
  | AddCertCallback cb => addCertCallback cb s
  | SetTicketPath stat f => setTicketPathToWatch stat f s
  | SetCertPaths stat fs => setCertPathsToWatch stat fs s
  | SetPollInterval stat => setPollInterval stat s
  | PollCredentials stat readFile now order => (pollCredentials stat readFile now order s).2
  end.
End credentials.
