(* ===== verification/CredentialsProps.v ===== *)
(** * Credential files: what is watched, and who is told

    As long as the ticket file is none of the certificate files, exactly the
    named files are tracked, each with the callback of its kind, and a poll
    tells of every change once. *)
From Stdlib Require Import ZArith Lia Strings.Byte.
From stdpp Require Import base numbers list gmap strings.
From S2P Require Import Prelude Buffers Tickets FilePoller FilePollerProps Credentials.
Open Scope cpp_scope.

Set Default Goal Selector "!".

Section credentials.
Context {Json : Type} (parseJson : string -> option Json) (isObject : Json -> bool)
  (field : Json -> string -> option Json) (asArray : Json -> option (list Json))
  (asString : Json -> option (list byte)).
#[local] Abbreviation credEvent := (credEvent parseJson isObject field asArray asString).
#[local] Abbreviation pollCredentials := (pollCredentials parseJson isObject field asArray asString).
#[local] Abbreviation processTLSTickets := (processTLSTickets parseJson isObject field asArray asString).
Implicit Types (s : TLSCredProcessor).

(** The callback that a file should have. *)
Definition cobOf s (p : string) : option CredCob :=
  if decide (p = EmptyString) then None
  else if decide (p = ticketFile_ s) then Some (TicketsChanged p)
  else if decide (p ∈ certFiles_ s) then Some CertChanged
  else None.
Definition tracked s : Prop := forall p,
  match poller_ s !! p, cobOf s p with
  | Some f, Some c => f = mkFile (Some c) None fileTouchedCond (modData f)
  | None, None => True
  | _, _ => False
  end.
Definition apart s : Prop := ticketFile_ s = EmptyString \/ ticketFile_ s ∉ certFiles_ s.

Lemma foldr_remove l (d : gmap string (FileData (Cob:=CredCob))) p :
  foldr (removeFileToTrack false) d l !! p = if decide (p ∈ l /\ p <> EmptyString) then None else d !! p.
Proof.
  induction l as [|q l IH]; cbn [foldr]; [by rewrite decide_False by set_solver|]. unfold removeFileToTrack at 1; cbv beta.
  destruct (decide (q = EmptyString)) as [->|Hq].
  - rewrite IH. apply decide_ext; set_solver.
  - destruct (decide (p = q)) as [->|Hne]; [by rewrite lookup_delete_eq, decide_True by set_solver|].
    rewrite lookup_delete_ne by done. rewrite IH. apply decide_ext; set_solver.
Qed.
Lemma foldr_add stat c l (d : gmap string (FileData (Cob:=CredCob))) p :
  foldr (fun path => addFileToTrack stat false path (Some c) None fileTouchedCond) d l !! p =
  if decide (p ∈ l /\ p <> EmptyString) then Some (mkFile (Some c) None fileTouchedCond (stat p)) else d !! p.
Proof.
  induction l as [|q l IH]; cbn [foldr]; [by rewrite decide_False by set_solver|]. unfold addFileToTrack at 1; cbv beta.
  destruct (decide (q = EmptyString)) as [->|Hq].
  - rewrite IH. apply decide_ext; set_solver.
  - destruct (decide (p = q)) as [->|Hne]; [by rewrite lookup_insert_eq, decide_True by set_solver|].
    rewrite lookup_insert_ne by done. rewrite IH. apply decide_ext; set_solver.
Qed.

Lemma unwatch_lookup f (d : gmap string (FileData (Cob:=CredCob))) p :
  (if decide (f = EmptyString) then d else removeFileToTrack false f d) !! p =
  if decide (p = f /\ p <> EmptyString) then None else d !! p.
Proof.
  unfold removeFileToTrack. destruct (decide (f = EmptyString)) as [->|Hf].
  - by rewrite decide_False by (intros [-> ?]; done).
  - destruct (decide (p = f)) as [->|Hne]; [by rewrite lookup_delete_eq, decide_True|].
    by rewrite lookup_delete_ne, decide_False by (try intros [? ?]; done).
Qed.
Lemma watch_lookup stat c f (d : gmap string (FileData (Cob:=CredCob))) p :
  (if decide (f = EmptyString) then d else addFileToTrack stat false f (Some c) None fileTouchedCond d) !! p =
  if decide (p = f /\ p <> EmptyString) then Some (mkFile (Some c) None fileTouchedCond (stat p)) else d !! p.
Proof.
  unfold addFileToTrack. destruct (decide (f = EmptyString)) as [->|Hf].
  - by rewrite decide_False by (intros [-> ?]; done).
  - destruct (decide (p = f)) as [->|Hne]; [by rewrite lookup_insert_eq, decide_True|].
    by rewrite lookup_insert_ne, decide_False by (try intros [? ?]; done).
Qed.

Lemma setTicket_tracked stat f s : tracked s -> apart s -> tracked (setTicketPathToWatch stat f s).
Proof.
  intros Ht Ha p. specialize (Ht p). unfold cobOf, apart in *. unfold setTicketPathToWatch. cbn [poller_ ticketFile_ certFiles_].
  rewrite watch_lookup, unwatch_lookup. destruct (decide (p = EmptyString)) as [->|Hp].
  - by rewrite !decide_False by (intros [? ?]; done).
  - destruct (decide (p = f)) as [->|Hf]; [by rewrite decide_True|].
    rewrite decide_False by (intros [? ?]; done). destruct (decide (p = ticketFile_ s)) as [->|Hne].
    + rewrite decide_True by done. rewrite decide_False; [done|]. destruct Ha; done.
    + rewrite decide_False by (intros [? ?]; done). exact Ht.
Qed.

Lemma setCert_lookup stat fs s p : poller_ (setCertPathsToWatch stat fs s) !! p =
  if decide (p ∈ fs /\ p <> EmptyString) then Some (mkFile (Some CertChanged) None fileTouchedCond (stat p))
  else if decide (p ∈ certFiles_ s /\ p <> EmptyString) then None else poller_ s !! p.
Proof.
  simpl. rewrite foldr_add, foldr_remove. rewrite (decide_ext _ (p ∈ fs /\ p <> EmptyString)) by (by rewrite elem_of_elements).
  by rewrite (decide_ext (p ∈ elements _ /\ _) (p ∈ certFiles_ s /\ p <> EmptyString)) by (by rewrite elem_of_elements).
Qed.
Lemma setCert_tracked stat fs s : tracked s -> apart s -> apart (setCertPathsToWatch stat fs s) -> tracked (setCertPathsToWatch stat fs s).
Proof.
  intros Ht Ha Ha' p. specialize (Ht p). rewrite setCert_lookup. unfold cobOf, apart in *. cbn [ticketFile_ certFiles_ setCertPathsToWatch] in *.
  destruct (decide (p = EmptyString)) as [->|Hp].
  - by rewrite !decide_False by (intros [? ?]; done).
  - destruct (decide (p = ticketFile_ s)) as [->|Hne].
    + rewrite !decide_False by (intros [? ?]; destruct Ha, Ha'; done). exact Ht.
    + destruct (decide (p ∈ fs)) as [Hin|Hin]; [by rewrite decide_True|].
      rewrite decide_False by (intros [? ?]; done). destruct (decide (p ∈ certFiles_ s)) as [Hc|Hc]; [by rewrite decide_True|].
      rewrite decide_False by (intros [? ?]; done). exact Ht.
Qed.
Lemma setPollInterval_tracked stat s : apart s -> tracked (setPollInterval stat s).
Proof.
  intros Ha p. unfold setPollInterval. rewrite setCert_lookup. unfold cobOf, apart in *. unfold setTicketPathToWatch.
  cbn [ticketFile_ certFiles_ setCertPathsToWatch poller_]. rewrite watch_lookup, unwatch_lookup, lookup_empty.
  destruct (decide (p = EmptyString)) as [->|Hp].
  - by rewrite !decide_False by (intros [? ?]; done).
  - destruct (decide (p = ticketFile_ s)) as [->|Hne].
    + rewrite !(decide_False (P := _ ∈ _ /\ _)) by (intros [? ?]; destruct Ha; done). by rewrite decide_True.
    + destruct (decide (p ∈ certFiles_ s)) as [Hin|Hin]; [by rewrite decide_True|].
      by rewrite !decide_False by (intros [? ?]; done).
Qed.

(** ** Polls *)

Definition touchedIn (stat : string -> FileModificationData) s (p : string) : bool :=
  match poller_ s !! p with Some f => fileTouchedCondInternal (modData f) (stat p) | None => false end.
Definition walk s (order : list string) : Prop := NoDup order /\ forall p, p ∈ order <-> is_Some (poller_ s !! p).
(** What a touched file makes the processor call. *)
Definition tells readFile s (p : string) : list CredCall :=
  if decide (p = ticketFile_ s) then
    match processTLSTickets readFile p with Some seeds => (fun cb => TicketCallback cb seeds) <$> ticketCallbacks_ s | None => [] end
  else CertCallback <$> certCallbacks_ s.

Lemma tracked_is_Some s : tracked s -> forall p, is_Some (poller_ s !! p) <-> p <> EmptyString /\ (p = ticketFile_ s \/ p ∈ certFiles_ s).
Proof.
  intros Ht p. specialize (Ht p). unfold cobOf in Ht. destruct (poller_ s !! p); repeat case_decide; try done; split; try done; try naive_solver.
Qed.

Lemma pollCredentials_ok stat readFile now order s : tracked s -> walk s order ->
  exists s', pollCredentials stat readFile now order s = (concat (tells readFile s <$> filter (fun p => touchedIn stat s p = true) order), s') /\
    tracked s' /\ (forall p f, poller_ s' !! p = Some f -> modData f = stat p) /\ ticketFile_ s' = ticketFile_ s /\ certFiles_ s' = certFiles_ s.
Proof.
  intros Ht [Hnd Hord]. set (cb p := default CertChanged (cobOf s p)).
  assert (Hcb : forall p f, poller_ s !! p = Some f -> f = mkFile (Some (cb p)) None fileTouchedCond (modData f)).
  { intros p f E. specialize (Ht p). unfold cb. rewrite E in Ht. by destruct (cobOf s p). }
  destruct (checkFiles_eq stat now cb order Hnd (poller_ s) Hcb) as (d & Ed & Hd).
  unfold Credentials.pollCredentials. rewrite Ed. exists (mkCred d (ticketFile_ s) (certFiles_ s) (ticketCallbacks_ s) (certCallbacks_ s)).
  split; [|split_and!; [..|done|done]].
  - apply (f_equal (fun l => (concat l, _))). fold (touchedIn stat s). rewrite <- list_fmap_compose. apply list_fmap_ext. intros i p Hp.
    apply list_elem_of_lookup_2, list_elem_of_filter in Hp as [Hp _]. unfold touchedIn in Hp. destruct (poller_ s !! p) eqn:E; [|done].
    destruct (proj1 (tracked_is_Some s Ht p)) as [Hne Hor]; [by eexists|]. unfold compose, cb, cobOf, tells. rewrite decide_False by done.
    case_decide; [done|]. by rewrite decide_True by naive_solver.
  - intros p. specialize (Ht p). simpl. unfold cobOf in *. simpl. rewrite Hd. destruct (decide (p ∈ order)); [|exact Ht].
    destruct (poller_ s !! p) as [f|] eqn:E; [|exact Ht]. simpl. change (cb p) with (default CertChanged (cobOf s p)). unfold cobOf.
    by repeat case_decide.
  - simpl. intros p f. rewrite Hd. case_decide as Hin; [|].
    + destruct (poller_ s !! p); [|done]. by intros [= <-].
    + intros E. exfalso. apply Hin, Hord. by exists f.
Qed.

(** ** Histories *)

Definition credLegal (ev : CredEvent) s : Prop :=
  match ev with
  | SetTicketPath stat f => apart (setTicketPathToWatch stat f s)
  | SetCertPaths stat fs => apart (setCertPathsToWatch stat fs s)
  | PollCredentials _ _ _ order => walk s order
  | _ => True
  end.
Inductive credHistory : TLSCredProcessor -> Prop :=
| credHistory_new : credHistory newCred
| credHistory_event ev s : credHistory s -> credLegal ev s -> credHistory (credEvent ev s).

Lemma credHistory_tracked s : credHistory s -> tracked s /\ apart s.
Proof.
  induction 1 as [|ev s _ [Ht Ha] Hl]; [split; [|by left]|].
  - intros p. unfold cobOf. simpl. rewrite lookup_empty. repeat case_decide; done.
  - destruct ev as [cb|cb|stat f|stat fs|stat|stat readFile now order]; simpl in Hl |- *.
    + by split.
    + by split.
    + split; [by apply setTicket_tracked|done].
    + split; [by apply setCert_tracked|done].
    + split; [by apply setPollInterval_tracked|done].
    + destruct (pollCredentials_ok stat readFile now order s Ht Hl) as (s' & E & Ht' & _ & Et & Ec). rewrite E. simpl.
      split; [done|]. unfold apart. by rewrite Et, Ec.
Qed.

(** C40. For every sequence of settings, registrations of callbacks, changes of
    the poll interval and polls in which the ticket file is never one of the
    certificate files: exactly the named files are watched; a poll tells, for
    every file touched since the last poll or since it was named, the ticket
    callbacks the seeds in it, if it can be read, parsed and is an object, or
    the certificate callbacks, in the order of registration; and a second poll
    that finds the same modification times tells nobody. *)
Theorem credentials_told s stat readFile now order : credHistory s -> walk s order ->
  (forall p, is_Some (poller_ s !! p) <-> p <> EmptyString /\ (p = ticketFile_ s \/ p ∈ certFiles_ s)) /\
  exists s', pollCredentials stat readFile now order s = (concat (tells readFile s <$> filter (fun p => touchedIn stat s p = true) order), s') /\
    forall readFile' now' order', walk s' order' -> (pollCredentials stat readFile' now' order' s').1 = [].
Proof.
  intros [Ht _]%credHistory_tracked Hw. split; [by apply tracked_is_Some|].
  destruct (pollCredentials_ok stat readFile now order s Ht Hw) as (s' & E & Ht' & Hmod & _). exists s'. split; [exact E|].
  intros readFile' now' order' Hw'. destruct (pollCredentials_ok stat readFile' now' order' s' Ht' Hw') as (s'' & -> & _). simpl.
  assert (Hnone : filter (fun p => touchedIn stat s' p = true) order' = []).
  { clear -Hmod. induction order' as [|p order' IH]; [done|]. rewrite filter_cons, decide_False; [done|].
    unfold touchedIn. destruct (poller_ s' !! p) as [f|] eqn:Ef; [|done]. rewrite (Hmod p f Ef). by rewrite touched_same. }
  by rewrite Hnone.
Qed.
End credentials.

(** ** Where it goes wrong *)

(** A document with the seeds of every list it names, for the examples. *)
Inductive Doc : Type := DocString (s : list byte) | DocArray (l : list Doc) | DocObject (l : list (string * Doc)).
Definition docField (d : Doc) (name : string) : option Doc :=
  match d with DocObject l => list_to_map (M := gmap string Doc) l !! name | _ => None end.
Definition docArray (d : Doc) : option (list Doc) := match d with DocArray l => Some l | _ => None end.
Definition docString (d : Doc) : option (list byte) := match d with DocString s => Some s | _ => None end.
Definition docIsObject (d : Doc) : bool := match d with DocObject _ => true | _ => false end.
(** The files of the examples: one with a list of current seeds, the others
    with an array. *)
Definition docParse (data : string) : option Doc :=
  if decide (data = "seeds") then Some (DocObject [("current", DocArray [DocString [x61]; DocString [x62]])])
  else if decide (data = "array") then Some (DocArray []) else None.

#[local] Abbreviation docEvent := (credEvent docParse docIsObject docField docArray docString).
#[local] Abbreviation docPoll := (pollCredentials docParse docIsObject docField docArray docString).
Definition runCred (evs : list CredEvent) : TLSCredProcessor := fold_left (fun s ev => docEvent ev s) evs newCred.

(** A file named as both is watched once, for the one that was named last; when
    the certificate files change the ticket file is no longer watched. *)
Lemma ticket_file_among_certs :
  let s := runCred [AddTicketCallback 1; AddCertCallback 2; SetTicketPath (at_time 1) "seeds"; SetCertPaths (at_time 1) {["seeds"]}] in
  (docPoll (at_time 2) Some 0 ["seeds"] s).1 = [CertCallback 2] /\
  let s' := docEvent (SetCertPaths (at_time 1) {["cert"]}) s in
  ticketFile_ s' = "seeds" /\ poller_ s' !! "seeds" = None.
Proof. vm_compute. repeat split; reflexivity. Qed.

(** ** At a concrete input *)

Definition exampleCred : TLSCredProcessor :=
  runCred [AddTicketCallback 1; AddCertCallback 2; AddTicketCallback 3; SetTicketPath (at_time 1) "seeds"; SetCertPaths (at_time 1) {["cert"; "key"]}].
Lemma example_credHistory : credHistory docParse docIsObject docField docArray docString exampleCred.
Proof.
  apply (credHistory_event _ _ _ _ _ (SetCertPaths (at_time 1) {["cert"; "key"]})); [|right; by apply (bool_decide_unpack _)].
  apply (credHistory_event _ _ _ _ _ (SetTicketPath (at_time 1) "seeds")); [|right; by apply (bool_decide_unpack _)].
  apply (credHistory_event _ _ _ _ _ (AddTicketCallback 3)); [|done]. apply (credHistory_event _ _ _ _ _ (AddCertCallback 2)); [|done].
  apply (credHistory_event _ _ _ _ _ (AddTicketCallback 1)); [|done]. apply credHistory_new.
Defined.
Lemma credentials_told_witness :
  (docPoll (fun p => mkMod true (if decide (p = "cert") then 1 else 2)) Some 0 ["seeds"; "cert"; "key"] exampleCred).1 =
  [TicketCallback 1 (mkSeeds [] [[x61]; [x62]] []); TicketCallback 3 (mkSeeds [] [[x61]; [x62]] []); CertCallback 2].
Proof.
  destruct (credentials_told docParse docIsObject docField docArray docString exampleCred
    (fun p => mkMod true (if decide (p = "cert") then 1 else 2)%Z) Some 0 ["seeds"; "cert"; "key"] example_credHistory) as [_ (s' & E & _)].
  - split; [by apply (bool_decide_unpack _)|]. intros p. rewrite <- elem_of_dom.
    assert (Ed : elements (dom (poller_ exampleCred)) ≡ₚ ["seeds"; "cert"; "key"]) by (apply (bool_decide_unpack _); vm_compute; exact I).
    rewrite <- Ed. by rewrite elem_of_elements.
  - rewrite E. vm_compute. reflexivity.
Defined.
