(* ===== verification/FileRegion.v ===== *)
(** * File regions (src/wangle/channel/FileRegion)

    [FileRegion::transferTo] writes a part of a file to a socket without
    copying: a handler on a thread of its own splices from the file into a pipe
    and announces each piece on a queue to the socket's thread, where
    [performWrite] splices from the pipe into the socket.

    The file is a list of bytes, the pipe and the socket are what was put into
    them; what each system call answers is an input, of which [splice] moves no
    more than there is.  [folly::AsyncSocket] calls [start], [performWrite]
    and [destroy]. *)
From Stdlib Require Import ZArith Lia Strings.Byte.
From stdpp Require Import base numbers list strings.
From S2P Require Import Prelude.
Open Scope cpp_scope.

Set Default Goal Selector "!".

Inductive ReadTask : Type := StartReading | DeleteRequest.
Inductive WriteResult : Type := WriteBytes (n : nat) | WriteFailed.
(** [splice]: as many bytes at most, EAGAIN, or another error. *)
Inductive Splice : Type := Spliced (n : nat) | Eagain | SpliceError.
(** The access mode of the file, when [fcntl] gives it. *)
Inductive AccMode : Type := O_RDONLY | O_WRONLY | O_RDWR.
Record StartAnswers : Type := mkAnswers {
  fcntl_flags : option AccMode;
  pipe2_ok : bool;
  register_ok : bool
}.

Record FileReadHandler : Type := mkHandler {
  bytesToRead_ : nat;
  registered : bool
}.

(** The request and what it works with: the pipe, what the socket has taken,
    the tasks posted to the two threads, the calls of [writeRequestReady] and
    those of [WriteRequest::fail] with their reasons. *)
Record FileWriteRequest : Type := mkRequest {
  offset_ : nat;
  count_ : nat;
  started_ : bool;
  readBase_ : bool;                         (* it is set *)
  bytesInPipe_ : nat;
  totalBytesWritten_ : nat;
  queue_ : list nat;
  consuming : bool;
  readHandler_ : option FileReadHandler;
  pipe : option (list byte);                (* while it is open *)
  sent : list byte;
  readTasks : list ReadTask;
  socketTasks : list string;
  readies : nat;
  failures : list string;
  deleted : bool
}.
(** [transferTo]. *)
Definition newRequest (offset count : nat) : FileWriteRequest :=
  mkRequest offset count false false 0 0 [] false None None [] [] [] 0 [] false.

Section region.
Context (readFd_ : list byte).

Definition setStarted (r : FileWriteRequest) : FileWriteRequest :=
  mkRequest (offset_ r) (count_ r) true true (bytesInPipe_ r) (totalBytesWritten_ r) (queue_ r) (consuming r) (readHandler_ r) (pipe r)
    (sent r) (readTasks r ++ [StartReading]) (socketTasks r) (readies r) (failures r) (deleted r).
Definition setHandler h (r : FileWriteRequest) : FileWriteRequest :=
  mkRequest (offset_ r) (count_ r) (started_ r) (readBase_ r) (bytesInPipe_ r) (totalBytesWritten_ r) (queue_ r) (consuming r) h (pipe r)
    (sent r) (readTasks r) (socketTasks r) (readies r) (failures r) (deleted r).
Definition setReadTasks x (r : FileWriteRequest) : FileWriteRequest :=
  mkRequest (offset_ r) (count_ r) (started_ r) (readBase_ r) (bytesInPipe_ r) (totalBytesWritten_ r) (queue_ r) (consuming r) (readHandler_ r)
    (pipe r) (sent r) x (socketTasks r) (readies r) (failures r) (deleted r).

Definition start (r : FileWriteRequest) : FileWriteRequest := setStarted r.

(** [bytesWritten] counts what the socket took. *)
Definition performWrite (answer : Splice) (r : FileWriteRequest) : WriteResult * FileWriteRequest :=
  if negb (started_ r) then (WriteBytes 0, start r)
  else
    match answer with
    | Eagain => (WriteBytes 0, r)
    | SpliceError => (WriteFailed, r)
    | Spliced n =>
        let content := default [] (pipe r) in
        let spliced := Nat.min n (Nat.min (bytesInPipe_ r) (length content)) in
        (WriteBytes spliced,
         mkRequest (offset_ r) (count_ r) (started_ r) (readBase_ r) (bytesInPipe_ r - spliced) (totalBytesWritten_ r + spliced) (queue_ r)
           (consuming r) (readHandler_ r) (drop spliced <$> pipe r) (sent r ++ take spliced content) (readTasks r) (socketTasks r)
           (readies r) (failures r) (deleted r))
    end.
Definition isComplete (r : FileWriteRequest) : bool := totalBytesWritten_ r =? count_ r.

(** The consumer takes the first message of the queue. *)
Definition messageAvailable (r : FileWriteRequest) : FileWriteRequest :=
  match queue_ r with
  | [] => r
  | count :: queue =>
      if consuming r then
        let shouldWrite := bytesInPipe_ r =? 0 in
        mkRequest (offset_ r) (count_ r) (started_ r) (readBase_ r) (bytesInPipe_ r + count) (totalBytesWritten_ r) queue (consuming r)
          (readHandler_ r) (pipe r) (sent r) (readTasks r) (socketTasks r) (if shouldWrite then S (readies r) else readies r) (failures r) (deleted r)
      else r
  end.

Definition fail (what : string) (r : FileWriteRequest) : FileWriteRequest :=
  mkRequest (offset_ r) (count_ r) (started_ r) (readBase_ r) (bytesInPipe_ r) (totalBytesWritten_ r) (queue_ r) (consuming r) (readHandler_ r)
    (pipe r) (sent r) (readTasks r) (socketTasks r ++ [what]) (readies r) (failures r) (deleted r).
(** The function that [fail] posts to the socket's thread. *)
Definition runFail (r : FileWriteRequest) : FileWriteRequest :=
  match socketTasks r with
  | [] => r
  | what :: rest =>
      mkRequest (offset_ r) (count_ r) (started_ r) (readBase_ r) (bytesInPipe_ r) (totalBytesWritten_ r) (queue_ r) (consuming r)
        (readHandler_ r) (pipe r) (sent r) (readTasks r) rest (readies r) (failures r ++ [what]) (deleted r)
  end.

(** The function that [start] posts; it waits for the consumer to be
    installed on the socket's thread. *)
Definition startReading (a : StartAnswers) (r : FileWriteRequest) : FileWriteRequest :=
  match fcntl_flags a with
  | None => fail "fcntl F_GETFL failed" r
  | Some O_WRONLY => fail "file not open for reading" r
  | Some _ =>
      if pipe2_ok a then
        let r := mkRequest (offset_ r) (count_ r) (started_ r) (readBase_ r) (bytesInPipe_ r) (totalBytesWritten_ r) (queue_ r) true
          (Some (mkHandler (count_ r) (register_ok a))) (Some []) (sent r) (readTasks r) (socketTasks r) (readies r) (failures r) (deleted r) in
        if register_ok a then r else fail "registerHandler failed" r
      else fail "pipe2 failed" r
  end.

(** [handlerReady], when the pipe can be written. *)
Definition handlerReady (answer : Splice) (put_ok : bool) (r : FileWriteRequest) : FileWriteRequest :=
  match readHandler_ r with
  | None => r
  | Some h =>
      if negb (registered h) then r
      else if bytesToRead_ h =? 0 then setHandler (Some (mkHandler 0 false)) r
      else
        match answer with
        | Eagain => r
        | SpliceError => fail "splice failed" r
        | Spliced n =>
            let content := take (Nat.min n (bytesToRead_ h)) (drop (offset_ r) readFd_) in
            let spliced := length content in
            let r := mkRequest (offset_ r + spliced) (count_ r) (started_ r) (readBase_ r) (bytesInPipe_ r) (totalBytesWritten_ r)
              (queue_ r) (consuming r) (readHandler_ r) ((fun p => p ++ content) <$> pipe r) (sent r) (readTasks r) (socketTasks r) (readies r)
              (failures r) (deleted r) in
            if 0 <? spliced then
              let r := setHandler (Some (mkHandler (bytesToRead_ h - spliced) true)) r in
              if put_ok then
                mkRequest (offset_ r) (count_ r) (started_ r) (readBase_ r) (bytesInPipe_ r) (totalBytesWritten_ r) (queue_ r ++ [spliced])
                  (consuming r) (readHandler_ r) (pipe r) (sent r) (readTasks r) (socketTasks r) (readies r) (failures r) (deleted r)
              else fail "putMessage failed" r
            else r
        end
  end.

(** [readBase_] has no initializer. *)
Definition destroy : M FileWriteRequest unit :=
  let! r := get in
  if readBase_ r then modify (fun r => setReadTasks (readTasks r ++ [DeleteRequest]) r)
  else raise (Undefined "readBase_ is not set").
(** The destructor, with that of the handler. *)
Definition deleteRequest (r : FileWriteRequest) : FileWriteRequest :=
  mkRequest (offset_ r) (count_ r) (started_ r) (readBase_ r) (bytesInPipe_ r) (totalBytesWritten_ r) (queue_ r) false None None
    (sent r) (readTasks r) (socketTasks r) (readies r) (failures r) true.

(** The next task of the reading thread. *)
Definition runReadTask (a : StartAnswers) (r : FileWriteRequest) : FileWriteRequest :=
  match readTasks r with
  | [] => r
  | StartReading :: rest => startReading a (setReadTasks rest r)
  | DeleteRequest :: rest => deleteRequest (setReadTasks rest r)
  end.

(** What may happen next, on either thread. *)
Inductive RegionEvent : Type :=
| Write (answer : Splice)
| Message
| RunFail
| RunReadTask (a : StartAnswers)
| Ready (answer : Splice) (put_ok : bool).
Definition regionEvent (ev : RegionEvent) (r : FileWriteRequest) : FileWriteRequest :=
  match ev with
  | Write answer => (performWrite answer r).2
  | Message => messageAvailable r
  | RunFail => runFail r
  | RunReadTask a => runReadTask a r
  | Ready answer put_ok => handlerReady answer put_ok r
  end.
Definition regionRun (events : list RegionEvent) (r : FileWriteRequest) : FileWriteRequest := fold_left (fun r ev => regionEvent ev r) events r.
End region.
