(* ===== verification/FileRegionProps.v ===== *)
(** * File regions: what reaches the socket, and when all of it does

    Whatever the two threads and the system calls do, the socket has taken a
    prefix of the region, the write is complete exactly when it has taken all of
    it, and the socket is told each time bytes come into the empty pipe.  As long as nothing fails some step is left to do, unless the
    file is shorter than the region: then the write never ends. *)
From Stdlib Require Import ZArith Lia Strings.Byte.
From stdpp Require Import base numbers list strings.
From S2P Require Import Prelude FileRegion.
Open Scope cpp_scope.

Set Default Goal Selector "!".

(** What a splice takes from the file continues what was taken before. *)
Lemma take_continue {A} (D : list A) n m : n = length (take n D) ->
  take n D ++ take m (drop n D) = take (n + length (take m (drop n D))) D.
Proof.
  intros Hn. rewrite take_take_drop. rewrite Hn at 2. rewrite <- length_app, take_take_drop.
  rewrite length_take. destruct (Nat.le_ge_cases (n + m) (length D)); [by rewrite Nat.min_l|]. rewrite Nat.min_r by done. by rewrite !take_ge.
Qed.

Lemma sum_snoc l k : sum_list (l ++ [k]) = sum_list l + k.
Proof. induction l as [|x l IH]; simpl; [lia|]. rewrite IH. lia. Qed.

Section region.
Context (readFd_ : list byte) (off count : nat).
Implicit Types (r : FileWriteRequest).
#[local] Abbreviation regionEvent := (regionEvent readFd_).
#[local] Abbreviation regionRun := (regionRun readFd_).
#[local] Abbreviation handlerReady := (handlerReady readFd_).

Definition wanted : list byte := take count (drop off readFd_).
Definition unfailed r : Prop := socketTasks r = [] /\ failures r = [].

(** Before the reading thread has opened the pipe. *)
Record blank r : Prop := {
  b_handler : readHandler_ r = None;
  b_pipe : pipe r = None;
  b_queue : queue_ r = [];
  b_bytes : bytesInPipe_ r = 0 /\ totalBytesWritten_ r = 0 /\ sent r = [];
  b_offset : offset_ r = off;
  b_tasks : readTasks r = [] \/ (readTasks r = [StartReading] /\ started_ r = true);
  b_pending : started_ r = true -> unfailed r -> readTasks r = [StartReading]
}.
(** While bytes are moved: [n] of them have been read, [p] are in the pipe. *)
Record running n p r : Prop := {
  r_handler : exists g, readHandler_ r = Some (mkHandler (count - n) g) /\ (unfailed r -> g = true \/ n = count);
  r_pipe : pipe r = Some p;
  r_content : sent r ++ p = take n (drop off readFd_) /\ n <= count /\ n = length (sent r ++ p);
  r_total : totalBytesWritten_ r = length (sent r);
  r_offset : offset_ r = off + n;
  r_bytes : bytesInPipe_ r + sum_list (queue_ r) <= length p;
  r_exact : unfailed r -> bytesInPipe_ r + sum_list (queue_ r) = length p;
  r_positive : Forall (fun k => 0 < k) (queue_ r);
  r_started : started_ r = true /\ consuming r = true /\ readTasks r = [];
  r_ready : 0 < bytesInPipe_ r -> 0 < readies r
}.
Definition regionInv r : Prop := count_ r = count /\ (blank r \/ exists n p, running n p r).

Lemma newRequest_inv : regionInv (newRequest off count).
Proof. split; [done|]. left. split; simpl; auto. by intros [=]. Qed.

Lemma blank_fail what r : blank r -> readTasks r = [] -> blank (fail what r).
Proof. intros [] Ht. split; simpl; auto. intros _ [Hs _]. simpl in Hs. by destruct (socketTasks r). Qed.
Lemma failed_fail what r : ~ unfailed (fail what r).
Proof. intros [Hs _]. simpl in Hs. by destruct (socketTasks r). Qed.
Lemma running_fail what n p r : running n p r -> running n p (fail what r).
Proof.
  intros [(g & Hh & Hg) ? ? ? ? ? ? ? ? ?]. split; simpl; auto; [|by intros ?%failed_fail]. exists g. split; [done|]. by intros ?%failed_fail.
Qed.

Lemma handlerReady_inv answer put_ok n p r : running n p r -> exists n' p', running n' p' (handlerReady answer put_ok r).
Proof.
  intros Hr. pose proof Hr as [(g & Hh & Hg) Hp (Hc & Hn & Hl) Ht Ho Hb He Hpos (Hst & Hco & Hta) Hrd]. unfold FileRegion.handlerReady. rewrite Hh. simpl.
  destruct g; simpl; [|by exists n, p]. destruct (Nat.eqb_spec (count - n) 0) as [Hz|Hz].
  { exists n, p. split; simpl; auto. exists false. rewrite Hz. split; [done|]. intros _. right. lia. }
  destruct answer as [k| |]; [|by exists n, p|by exists n, p; apply running_fail].
  rewrite Ho. set (content := take (Nat.min k (count - n)) (drop (off + n) readFd_)).
  destruct (Nat.ltb_spec 0 (length content)) as [Hlt|Hlt].
  2: { exists n, p. assert (content = []) as -> by (apply nil_length_inv; lia). split; simpl; auto; [by exists true; auto|by rewrite Hp; simpl; rewrite app_nil_r]. }
  assert (Hle : length content <= count - n) by (unfold content; rewrite length_take; lia).
  assert (Hc' : sent r ++ p ++ content = take (n + length content) (drop off readFd_)).
  { rewrite app_assoc, Hc. unfold content. rewrite <- drop_drop. apply take_continue. by rewrite <- Hc. }
  assert (Hl' : n + length content = length (sent r ++ p ++ content)) by (rewrite app_assoc, length_app; lia).
  exists (n + length content), (p ++ content). destruct put_ok.
  - split; simpl; auto.
    + exists true. split; [do 2 f_equal; lia|auto].
    + by rewrite Hp.
    + split_and!; [done|lia|done].
    + lia.
    + rewrite sum_snoc, length_app. lia.
    + intros Hu. specialize (He Hu). rewrite sum_snoc, length_app. lia.
    + apply Forall_app. split; [done|]. by constructor.
  - split; simpl; auto.
    + exists true. split; [do 2 f_equal; lia|auto].
    + by rewrite Hp.
    + split_and!; [done|lia|done].
    + lia.
    + rewrite length_app. lia.
    + by intros ?%failed_fail.
Qed.

Lemma performWrite_inv answer n p r : running n p r -> exists p', running n p' (performWrite answer r).2.
Proof.
  intros Hr. pose proof Hr as [(g & Hh & Hg) Hp (Hc & Hn & Hl) Ht Ho Hb He Hpos (Hst & Hco & Hta) Hrd]. unfold performWrite. rewrite Hst. simpl.
  destruct answer as [k| |]; [|by exists p..]. rewrite Hp. simpl. set (m := Nat.min k (Nat.min (bytesInPipe_ r) (length p))).
  assert (Hm : m <= bytesInPipe_ r /\ m <= length p) by (unfold m; lia). exists (drop m p).
  assert (Hs : (sent r ++ take m p) ++ drop m p = sent r ++ p) by by rewrite <- app_assoc, take_drop.
  split; simpl; auto.
  - by exists g.
  - by rewrite Hs.
  - rewrite length_app, length_take. lia.
  - rewrite length_drop. lia.
  - intros Hu. specialize (He Hu). rewrite length_drop. lia.
  - intros Hlt. apply Hrd. lia.
Qed.
Lemma message_inv n p r : running n p r -> running n p (messageAvailable r).
Proof.
  intros Hr. pose proof Hr as [(g & Hh & Hg) Hp Hc Ht Ho Hb He Hpos (Hst & Hco & Hta) Hrd]. unfold messageAvailable.
  destruct (queue_ r) as [|k queue] eqn:Eq; [done|]. rewrite Hco. simpl in Hb, He. apply Forall_cons in Hpos as [Hk Hpos].
  split; simpl; auto.
  - by exists g.
  - lia.
  - intros Hu. specialize (He Hu). lia.
  - intros _. destruct (Nat.eqb_spec (bytesInPipe_ r) 0); [lia|]. apply Hrd. lia.
Qed.
Lemma runFail_inv r : regionInv r -> regionInv (runFail r).
Proof.
  intros [Hcount Hi]. unfold runFail. destruct (socketTasks r) as [|what rest] eqn:Et; [by split|]. split; [done|].
  assert (Hno : forall x, x = failures r ++ [what] -> x <> []) by (intros x -> ?%app_nil; naive_solver).
  destruct Hi as [[]|(n & p & [(g & Hh & Hg) ? ? ? ? ? ? ? ? ?])].
  - left. split; simpl; auto. intros _ [_ Hf]. by eapply Hno in Hf.
  - right. exists n, p. split; simpl; auto.
    + exists g. split; [done|]. intros [_ Hf]. by eapply Hno in Hf.
    + intros [_ Hf]. by eapply Hno in Hf.
Qed.
Lemma startReading_inv a r : count_ r = count -> blank r -> readTasks r = [StartReading] -> regionInv (startReading a (setReadTasks [] r)).
Proof.
  intros Hcount [Hh Hp Hq (Hb & Ht & Hs) Ho [Hnil|[_ Hst]] _] Htasks; [congruence|].
  assert (Hstarted : forall what, regionInv (fail what (setReadTasks [] r))).
  { intros what. split; [done|]. left. split; simpl; auto. by intros _ ?%failed_fail. }
  unfold startReading. destruct (fcntl_flags a) as [[]|]; try apply Hstarted.
  all: destruct (pipe2_ok a); [|apply Hstarted]; split; [by destruct (register_ok a)|]; right; exists 0, [].
  all: destruct (register_ok a); (split; simpl; rewrite ?Hq, ?Hb, ?Hs, ?Ht, ?Ho, ?Hcount; auto; [|try lia..]).
  all: try (rewrite take_0; split_and!; [done|lia|done]).
  all: eexists; split; [by rewrite Nat.sub_0_r|]; first [by intros ?%failed_fail|by left].
Qed.

Lemma regionEvent_inv ev r : regionInv r -> regionInv (regionEvent ev r).
Proof.
  intros Hi. pose proof Hi as [Hcount [Hb|(n & p & Hr)]]; destruct ev as [answer| | |a|answer ok]; simpl; try by apply runFail_inv.
  - split; [by unfold performWrite; destruct (started_ r), answer|]. left. pose proof Hb as [Hh Hp Hq (Hby & Ht & Hs) Ho Htasks Hpend]. unfold performWrite.
    destruct (started_ r) eqn:Est; simpl; [destruct answer as [k| |]; [|done..]|].
    + rewrite Hp. simpl. rewrite Nat.min_0_r, Nat.min_0_r. split; simpl; auto. rewrite Hs. split_and!; [lia|lia|done].
    + destruct Htasks as [Htasks|[_ ?]]; [|done]. split; simpl; rewrite ?Htasks; auto.
  - pose proof Hb as [_ _ Hq _ _ _ _]. unfold messageAvailable. rewrite Hq. by split; [|left].
  - unfold runReadTask. destruct (b_tasks _ Hb) as [Ht|[Ht _]]; rewrite Ht; [done|]. by apply startReading_inv.
  - pose proof (b_handler _ Hb) as Hh. unfold FileRegion.handlerReady. by rewrite Hh.
  - split; [by unfold performWrite; destruct (started_ r), answer|]. right. exists n. by eapply performWrite_inv.
  - split; [unfold messageAvailable; destruct (queue_ r); [done|]; by destruct (consuming r)|]. right. exists n, p. by apply message_inv.
  - pose proof (r_started _ _ _ Hr) as (_ & _ & Ht). unfold runReadTask. rewrite Ht. done.
  - split; [|right; by eapply handlerReady_inv]. unfold FileRegion.handlerReady. by destruct (readHandler_ r); repeat case_match.
Qed.
Lemma regionRun_inv events : forall r, regionInv r -> regionInv (regionRun events r).
Proof. induction events as [|ev events IH]; intros r Hr; [done|]. simpl. by apply IH, regionEvent_inv. Qed.

Lemma inv_sent r : regionInv r -> sent r `prefix_of` wanted /\ totalBytesWritten_ r = length (sent r) /\
  bytesInPipe_ r <= length (default [] (pipe r)) /\ (0 < bytesInPipe_ r -> 0 < readies r).
Proof.
  intros [_ [[_ _ _ (Hb & Ht & Hs) _ _ _]|(n & p & [_ Hp (Hc & Hn & Hl) Ht _ Hb _ _ _ Hrd])]].
  - rewrite Hs, Ht, Hb. split_and!; [apply prefix_nil|done|lia|lia].
  - rewrite Hp. simpl. split_and!; [|done|lia|done]. unfold wanted.
    replace count with (n + (count - n)) by lia. rewrite <- take_take_drop, <- Hc, <- app_assoc. by eexists.
Qed.

(** The socket's view of the pipe: the step from [r] to [r'] puts bytes where
    there were none. *)
Definition fills (r r' : FileWriteRequest) : nat := if (bytesInPipe_ r =? 0) && (0 <? bytesInPipe_ r') then 1 else 0.
Fixpoint fillings events r : nat :=
  match events with
  | [] => 0
  | ev :: rest => fills r (regionEvent ev r) + fillings rest (regionEvent ev r)
  end.

Lemma fills_kept r r' : bytesInPipe_ r' <= bytesInPipe_ r -> fills r r' = 0.
Proof. intros H. unfold fills. destruct (Nat.eqb_spec (bytesInPipe_ r) 0), (Nat.ltb_spec 0 (bytesInPipe_ r')); simpl; lia. Qed.
Lemma startReading_kept a r : readies (startReading a r) = readies r /\ bytesInPipe_ (startReading a r) = bytesInPipe_ r.
Proof. unfold startReading. by destruct (fcntl_flags a) as [[]|], (pipe2_ok a), (register_ok a). Qed.
Lemma handlerReady_kept answer ok r : readies (handlerReady answer ok r) = readies r /\ bytesInPipe_ (handlerReady answer ok r) = bytesInPipe_ r.
Proof. unfold FileRegion.handlerReady. by destruct (readHandler_ r); repeat case_match. Qed.
Lemma messages_positive r : regionInv r -> Forall (fun k => 0 < k) (queue_ r).
Proof. intros [_ [Hb|(n & p & Hr)]]; [by rewrite (b_queue _ Hb)|by eapply r_positive]. Qed.

(** A message that is announced holds at least a byte, so that the socket is
    told exactly when its pipe stops being empty. *)
Lemma regionEvent_told ev r : regionInv r -> readies (regionEvent ev r) = readies r + fills r (regionEvent ev r).
Proof.
  intros Hi. assert (Hkept : forall r', readies r' = readies r /\ bytesInPipe_ r' <= bytesInPipe_ r -> readies r' = readies r + fills r r').
  { intros r' [-> Hb]. rewrite fills_kept by done. lia. }
  destruct ev as [answer| | |a|answer ok]; simpl.
  - apply Hkept. unfold performWrite. destruct (started_ r), answer; simpl; auto with lia.
  - unfold messageAvailable. pose proof (messages_positive r Hi) as Hpos. destruct (queue_ r) as [|k queue]; [by apply Hkept|].
    apply Forall_cons in Hpos as [Hk _]. destruct (consuming r); [|by apply Hkept]. unfold fills. simpl.
    destruct (Nat.eqb_spec (bytesInPipe_ r) 0), (Nat.ltb_spec 0 (bytesInPipe_ r + k)); simpl; lia.
  - apply Hkept. unfold runFail. by destruct (socketTasks r).
  - apply Hkept. unfold runReadTask. destruct (readTasks r) as [|[] rest]; [done| |done]. destruct (startReading_kept a (setReadTasks rest r)) as [-> ->]. done.
  - apply Hkept. destruct (handlerReady_kept answer ok r) as [-> ->]. done.
Qed.
Lemma regionRun_told events : forall r, regionInv r -> readies (regionRun events r) = readies r + fillings events r.
Proof.
  induction events as [|ev events IH]; intros r Hi; [simpl; lia|].
  change (readies (regionRun events (regionEvent ev r)) = readies r + (fills r (regionEvent ev r) + fillings events (regionEvent ev r))).
  rewrite IH by by apply regionEvent_inv. rewrite regionEvent_told by done. lia.
Qed.

(** C31. For every interleaving of the socket's and the reading thread's steps
    and every answer of the system calls: the bytes that the socket has taken
    are a prefix of the region of the file; the write counts as complete
    exactly when it has taken the whole region; [performWrite] never asks for
    more than the pipe holds; and no wake-up is lost or repeated: the socket
    has been told as many times as its pipe has gone from empty to holding
    bytes, and whatever the next step is, it is told in that step if and only
    if the step puts bytes into the empty pipe. *)
Theorem region_transfers events :
  let r := regionRun events (newRequest off count) in
  sent r `prefix_of` wanted /\ (isComplete r = true <-> length (sent r) = count) /\
  (isComplete r = true -> sent r = wanted) /\
  bytesInPipe_ r <= length (default [] (pipe r)) /\ (0 < bytesInPipe_ r -> 0 < readies r) /\
  readies r = fillings events (newRequest off count) /\
  (forall ev, let r' := regionEvent ev r in
     (bytesInPipe_ r = 0 /\ 0 < bytesInPipe_ r' -> readies r' = S (readies r)) /\
     (~ (bytesInPipe_ r = 0 /\ 0 < bytesInPipe_ r') -> readies r' = readies r)).
Proof.
  intros r. pose proof (regionRun_inv events _ newRequest_inv) as Hi. fold r in Hi. destruct (inv_sent r Hi) as (Hpre & Ht & Hb & Hrd).
  assert (Hcomp : isComplete r = true <-> length (sent r) = count).
  { unfold isComplete. rewrite Nat.eqb_eq, Ht, (proj1 Hi). done. }
  split_and!; [done|done| |done|done|exact (regionRun_told events _ newRequest_inv)|].
  - intros Hc%Hcomp. destruct Hpre as [rest E].
    assert (Hl : length wanted <= count) by (unfold wanted; rewrite length_take; lia). rewrite E, length_app in Hl.
    assert (rest = []) as -> by (apply nil_length_inv; lia). by rewrite E, app_nil_r.
  - intros ev r'. unfold r'. rewrite (regionEvent_told ev r Hi). unfold fills.
    destruct (Nat.eqb_spec (bytesInPipe_ r) 0), (Nat.ltb_spec 0 (bytesInPipe_ (regionEvent ev r))); simpl; split; intros; lia.
Qed.

(** ** Progress *)

(** The work that is left: each byte is read, announced and written. *)
Definition left_ r : nat :=
  match readHandler_ r with
  | None => 1 + 3 * count
  | Some h => 3 * bytesToRead_ h + 2 * sum_list (queue_ r) + bytesInPipe_ r
  end.
Definition reached events r : Prop := r = regionRun events (newRequest off count) /\ started_ r = true /\ unfailed r.
Definition allRight : StartAnswers := mkAnswers (Some O_RDONLY) true true.

Lemma region_steps r : regionInv r -> started_ r = true -> unfailed r -> count <= length (drop off readFd_) -> isComplete r = false ->
  exists ev, let r' := regionEvent ev r in left_ r' < left_ r /\ started_ r' = true /\ unfailed r'.
Proof.
  intros [Hcount [Hb|(n & p & Hr)]] Hst Hu Hlen Hc.
  - pose proof (b_pending _ Hb Hst Hu) as Ht. exists (RunReadTask allRight). simpl. unfold runReadTask. rewrite Ht. simpl.
    unfold left_. rewrite (b_handler _ Hb). simpl. destruct Hb as [_ _ -> (-> & _ & _) _ _ _]. simpl. rewrite Hcount. split; [lia|]. by split.
  - pose proof Hr as [(g & Hh & Hg) Hp (Hco & Hn & Hl) Ht Ho _ He Hpos (_ & Hcons & _) _]. specialize (He Hu). unfold left_ at 2. rewrite Hh. simpl bytesToRead_.
    destruct (Nat.eq_dec (bytesInPipe_ r) 0) as [Hz|Hnz].
    + destruct (queue_ r) as [|k queue] eqn:Eq.
      * simpl in He. assert (p = []) as -> by (apply nil_length_inv; lia). rewrite app_nil_r in Hl.
        assert (Hlt : n < count). { unfold isComplete in Hc. apply Nat.eqb_neq in Hc. lia. }
        exists (Ready (Spliced 1) true). simpl. unfold FileRegion.handlerReady. rewrite Hh. simpl.
        destruct (Hg Hu) as [->|?]; [|lia]. simpl. destruct (Nat.eqb_spec (count - n) 0); [lia|]. rewrite Ho.
        assert (Hone : length (take (Nat.min 1 (count - n)) (drop (off + n) readFd_)) = 1).
        { rewrite length_take, length_drop in *. lia. }
        simpl in Hone. rewrite Hone. simpl. unfold left_. simpl. rewrite Eq. simpl. split; [lia|]. by split.
      * exists Message. simpl. unfold messageAvailable. rewrite Eq, Hcons. unfold left_. simpl. rewrite Hh. simpl.
        apply Forall_cons in Hpos as [Hk _]. split; [lia|]. by split.
    + exists (Write (Spliced (bytesInPipe_ r))). simpl. unfold performWrite. rewrite Hst. simpl. rewrite Hp. simpl.
      assert (Hone : Nat.min (bytesInPipe_ r) (Nat.min (bytesInPipe_ r) (length p)) = bytesInPipe_ r) by lia. rewrite Hone. unfold left_. simpl. rewrite Hh. simpl. split; [lia|]. by split.
Qed.

Lemma region_finishes k : forall r, left_ r <= k -> regionInv r -> started_ r = true -> unfailed r -> count <= length (drop off readFd_) ->
  exists events, length events <= k /\ isComplete (regionRun events r) = true /\ unfailed (regionRun events r).
Proof.
  induction k as [|k IH]; intros r Hk Hi Hst Hu Hlen; destruct (isComplete r) eqn:Ec; try by (exists []; simpl; split_and!; [lia|done|done]).
  - destruct (region_steps r Hi Hst Hu Hlen Ec) as (ev & Hlt & _). simpl in Hlt. lia.
  - destruct (region_steps r Hi Hst Hu Hlen Ec) as (ev & Hlt & Hst' & Hu'). simpl in Hlt.
    destruct (IH (regionEvent ev r)) as (events & Hl & Hd & Hu''); [lia|by apply regionEvent_inv|done..|].
    exists (ev :: events). simpl. split; [lia|]. by split.
Qed.
Lemma left_bound r : regionInv r -> unfailed r -> left_ r <= 1 + 3 * count.
Proof.
  intros [_ [Hb|(n & p & [(g & Hh & _) _ (_ & Hn & Hl) _ _ _ He _ _ _])]] Hu; unfold left_.
  - by rewrite (b_handler _ Hb).
  - rewrite Hh. simpl. specialize (He Hu). rewrite length_app in Hl. lia.
Qed.

(** A step that does not fail never adds work, and takes some away unless it
    moves nothing. *)
Lemma region_no_setback ev r : regionInv r -> unfailed (regionEvent ev r) ->
  left_ (regionEvent ev r) < left_ r \/ (left_ (regionEvent ev r) = left_ r /\ sent (regionEvent ev r) = sent r /\
    pipe (regionEvent ev r) = pipe r /\ queue_ (regionEvent ev r) = queue_ r /\ bytesInPipe_ (regionEvent ev r) = bytesInPipe_ r).
Proof.
  intros Hi. pose proof Hi as [Hcount [Hb|(n & p & Hr)]].
  - pose proof Hb as [Hh Hp Hq (Hby & Ht & Hs) Ho Htasks Hpend]. destruct ev as [answer| | |a|answer ok]; simpl.
    + intros _. right. unfold performWrite. destruct (started_ r); simpl; [|done]. destruct answer as [k| |]; try done. simpl.
      rewrite Hp, Hby, Hs. simpl. rewrite Nat.min_0_r. unfold left_. simpl. rewrite Hh. auto.
    + intros _. right. unfold messageAvailable. by rewrite Hq.
    + intros _. right. unfold runFail. by destruct (socketTasks r).
    + unfold runReadTask. destruct Htasks as [Htk|[Htk _]]; rewrite Htk; [by right|]. unfold startReading.
      destruct (fcntl_flags a) as [[]|], (pipe2_ok a), (register_ok a); intros Hu; try by apply failed_fail in Hu.
      all: left; unfold left_; simpl; rewrite Hh, Hq, Hby, Hcount; simpl; lia.
    + intros _. right. unfold FileRegion.handlerReady. by rewrite Hh.
  - pose proof Hr as [(g & Hh & Hg) Hp (Hco & Hn & Hl) Ht Ho Hb He Hpos (Hst & Hcons & Hta) _].
    destruct ev as [answer| | |a|answer ok]; simpl.
    + intros _. unfold performWrite. rewrite Hst. destruct answer as [k| |]; try by right. simpl. rewrite Hp. simpl.
      set (m := Nat.min k (Nat.min (bytesInPipe_ r) (length p))). assert (Hm : m <= bytesInPipe_ r) by (unfold m; lia).
      destruct (Nat.eq_dec m 0) as [->|Hnz]; unfold left_; simpl; rewrite Hh; simpl; [|left; lia].
      right. rewrite app_nil_r, drop_0. split_and!; [lia|done|done|done|lia].
    + intros _. unfold messageAvailable. destruct (queue_ r) as [|k queue] eqn:Eq; [by right|]. rewrite Hcons. left.
      unfold left_. simpl. rewrite Hh, Eq. simpl. apply Forall_cons in Hpos as [Hk _]. lia.
    + intros _. right. unfold runFail. by destruct (socketTasks r).
    + intros _. right. unfold runReadTask. by rewrite Hta.
    + unfold FileRegion.handlerReady. rewrite Hh. simpl. destruct g; simpl; [|by right].
      destruct (Nat.eqb_spec (count - n) 0) as [Hz|Hz]; [intros _; right; unfold left_; simpl; rewrite Hh; simpl; by rewrite Hz|].
      destruct answer as [k| |]; [|by right|by intros ?%failed_fail]. set (content := take _ (drop (offset_ r) readFd_)).
      assert (Hle : length content <= count - n) by (unfold content; rewrite length_take; lia).
      destruct (Nat.ltb_spec 0 (length content)) as [Hlt|Hlt].
      * destruct ok; [|by intros ?%failed_fail]. intros _. left. unfold left_. simpl. rewrite Hh. simpl. rewrite sum_snoc. lia.
      * intros _. right. assert (content = []) as -> by (apply nil_length_inv; lia). unfold left_. simpl. rewrite Hh, Hp. simpl. by rewrite app_nil_r.
Qed.

(** C32. A transfer that has been started and of which nothing has failed can be
    completed exactly when the file has all the bytes of the region, and then
    by at most 3 * count + 1 more steps: there is always one that brings it
    nearer, no step that succeeds sets it back, and each that moves bytes
    counts.  When the file is shorter, whatever happens the write never ends,
    neither well nor with an error of its own. *)
Theorem region_completes events r : reached events r ->
  ((exists more, isComplete (regionRun more r) = true) <-> count <= length (drop off readFd_)) /\
  (count <= length (drop off readFd_) ->
     exists more, length more <= 3 * count + 1 /\ isComplete (regionRun more r) = true /\ unfailed (regionRun more r)) /\
  (forall ev, unfailed (regionEvent ev r) ->
     left_ (regionEvent ev r) < left_ r \/ (sent (regionEvent ev r) = sent r /\ pipe (regionEvent ev r) = pipe r)).
Proof.
  intros (E & Hst & Hu). assert (Hi : regionInv r) by (rewrite E; apply regionRun_inv, newRequest_inv).
  assert (Hfin : count <= length (drop off readFd_) ->
    exists more, length more <= 3 * count + 1 /\ isComplete (regionRun more r) = true /\ unfailed (regionRun more r)).
  { intros Hlen. destruct (region_finishes (left_ r) r) as (more & Hl & H); [done..|]. exists more. pose proof (left_bound r Hi Hu). split; [lia|done]. }
  split_and!; [|done|].
  - split; [|intros (more & _ & H & _)%Hfin; by exists more]. intros (more & Hc).
    destruct (inv_sent _ (regionRun_inv more r Hi)) as (Hpre & Ht & _). unfold isComplete in Hc. apply Nat.eqb_eq in Hc.
    rewrite (proj1 (regionRun_inv more r Hi)) in Hc. apply prefix_length in Hpre. unfold wanted in Hpre. rewrite length_take in Hpre. lia.
  - intros ev Hev. destruct (region_no_setback ev r Hi Hev) as [?|(_ & ? & ? & _)]; [by left|by right].
Qed.
End region.

(** ** Where it goes wrong *)

(** A request that waits behind others and is given up with them has never
    been started: its [destroy] follows a pointer that nobody has set. *)
Lemma destroy_unstarted offset count : (destroy (newRequest offset count)).1 = Err (Undefined "readBase_ is not set").
Proof. reflexivity. Qed.

(** The handler stays registered when its splice fails: it fails again at every
    turn, and the request is failed as often. *)
Lemma splice_fails_again :
  let r := regionRun [x00; x01] [Write Eagain; RunReadTask allRight; Ready SpliceError true; Ready SpliceError true; RunFail; RunFail] (newRequest 0 2) in
  failures r = ["splice failed"; "splice failed"].
Proof. reflexivity. Qed.

(** ** At a concrete input *)

Definition exampleEvents : list RegionEvent :=
  [Write (Spliced 9); RunReadTask allRight; Ready (Spliced 2) true; Message; Ready Eagain true; Write (Spliced 1); Ready (Spliced 9) true].
Definition exampleData : list byte := [x00; x01; x02; x03].
Definition exampleState : FileWriteRequest := regionRun exampleData exampleEvents (newRequest 1 3).
Lemma region_completes_witness :
  sent exampleState = [x01] /\ exists more, isComplete (regionRun exampleData more exampleState) = true.
Proof.
  split; [reflexivity|]. apply (region_completes exampleData 1 3 exampleEvents exampleState); [|simpl; lia].
  split; [reflexivity|]. by split.
Defined.
